(** * A two-pass assembler: shallow embedding and verification

    The development follows the C sources file by file:
    [utils.c] (lexical utilities, word encoding), [symbol_structs.c]
    (symbol table and external-reference table), [first_pass.c],
    [second_pass.c], [pre_asm.c], [output_files.c] and [main.c].

    Modelling conventions.
    - A C string is a [string]; a [char *] that can be [NULL] at some call
      site is an [option string] with [None] for [NULL].  A line read by
      [fgets] is the string that the buffer holds, up to the first NUL.
    - The arrays of [MAX_OPERAND_LEN] and [MAX_SYMBOL_LEN] bytes that the
      two passes fill with a token ([first_operand], [second_operand],
      [src], [dest] and [param]) have their capacity: a token written past
      the end of one is undefined behaviour in C and the failure of the
      state monad [M] here ([copy_next_token_to]).  The buffers of
      [MAX_LINE_LEN] bytes hold every line that [fgets] reads into them
      and every token of such a line.  The names kept in the tables (the
      field [name] of a symbol, of an external reference and of a macro)
      and [macro_name] are values without a capacity: [is_symbol] and
      [is_macro] let through names of [MAX_SYMBOL_LEN] and [MAX_MCR_LEN]
      characters, one more than these arrays hold with the terminator.
    - [unsigned int] is a [Z] in [0, 2^32) with the wrap-around written out
      ([to_uint]); [int] counters are [Z].
    - The global arrays [code] and [data] are lists updated by index; a
      store or a load outside the array is undefined behaviour in C and is
      the failure of the state monad [M] here, as is an [atoi] whose result
      does not fit an [int].
    - Messages printed by [print_error] are appended to the field [out].
    - Memory allocation is taken to succeed.
    - The files of the directory are a function from names to contents
      ([files]); whether a file can be created or removed is a parameter
      of the functions that create or remove one. *)

From Stdlib Require Import ZArith String Ascii Bool Lia DecimalString.
From stdpp Require Import base list.

Local Open Scope string_scope.
Local Open Scope Z_scope.

(** ** Characters ([ctype.h], "C" locale) *)

Definition char_code (c : ascii) : Z := Z.of_N (N_of_ascii c).

Definition isdigit (c : ascii) : bool :=
  (48 <=? char_code c) && (char_code c <=? 57).

Definition isspace (c : ascii) : bool :=
  (char_code c =? 32) || ((9 <=? char_code c) && (char_code c <=? 13)).

Definition isupper (c : ascii) : bool :=
  (65 <=? char_code c) && (char_code c <=? 90).

Definition islower (c : ascii) : bool :=
  (97 <=? char_code c) && (char_code c <=? 122).

Definition isalpha (c : ascii) : bool := isupper c || islower c.

Definition isalnum (c : ascii) : bool := isalpha c || isdigit c.

Definition ascii_eqb (a b : ascii) : bool := Ascii.eqb a b.

(** ** Machine integers *)

Definition UINT_MOD : Z := 2 ^ 32.
Definition INT_MIN : Z := - 2 ^ 31.
Definition INT_MAX : Z := 2 ^ 31 - 1.

(** Conversion to [unsigned int]. *)
Definition to_uint (z : Z) : Z := z mod UINT_MOD.

(** A plain [char] is signed on the ABIs the assembler is built for. *)
Definition char_to_int (c : ascii) : Z :=
  if char_code c <? 128 then char_code c else char_code c - 256.

(** ** Constants of the headers *)

Definition MAX_SYMBOL_LEN : Z := 31.
Definition MAX_OPERAND_LEN : Z := 31.
Definition MAX_MCR_LEN : Z := 31.
Definition MEM_SIZE : Z := 1024.
Definition MEM_START : Z := 100.
Definition REG_LEN : Z := 3.
Definition MIN_REG_INDEX : Z := 0.
Definition MAX_REG_INDEX : Z := 7.
Definition ARE_BITS : Z := 2.
Definition DEFAULT_ADDR : Z := 0.
Definition OP_MAX_NUM_COMMAS : Z := 1.
Definition OPCODE_BITS : Z := 4.
Definition ADDR_MODE_BITS : Z := 3.
Definition SRC_MODE_START_POS : Z := 9.
Definition SRC_MODE_END_POS : Z := 11.
Definition DEST_MODE_START_POS : Z := 2.
Definition DEST_MODE_END_POS : Z := 4.
Definition BITS_IN_REG : Z := 5.
Definition SKIP_TO_NUM_REG : nat := 2.
Definition MAX_LINE_LEN : nat := 81.

(** ** Strings ([string.h], [stdlib.h]) *)

Definition strlen (s : string) : Z := Z.of_nat (String.length s).

Definition streq (a b : string) : bool := String.eqb a b.

(** [s + n] for a pointer into a string of at least [n] characters. *)
Fixpoint str_drop (n : nat) (s : string) : string :=
  match n, s with
  | O, _ => s
  | S n', String _ rest => str_drop n' rest
  | S _, EmptyString => EmptyString
  end.

(** The last character of a string, if any. *)
Fixpoint str_last (s : string) : option ascii :=
  match s with
  | EmptyString => None
  | String c EmptyString => Some c
  | String _ rest => str_last rest
  end.

(** The string without its last character. *)
Fixpoint str_init (s : string) : string :=
  match s with
  | EmptyString => EmptyString
  | String _ EmptyString => EmptyString
  | String c rest => String c (str_init rest)
  end.

(** The digits read by [atoi], most significant first. *)
Fixpoint atoi_digits (acc : Z) (s : string) : Z :=
  match s with
  | String c rest =>
      if isdigit c then atoi_digits (10 * acc + (char_code c - 48)) rest
      else acc
  | EmptyString => acc
  end.

(** The mathematical value [atoi] denotes: white space, an optional sign,
    then digits up to the first other character. *)
Fixpoint atoi_value (s : string) : Z :=
  match s with
  | String c rest =>
      if isspace c then atoi_value rest
      else if ascii_eqb c "-" then - atoi_digits 0 rest
      else if ascii_eqb c "+" then atoi_digits 0 rest
      else atoi_digits 0 s
  | EmptyString => 0
  end.

(** [atoi]: undefined ([None]) when the value is not representable. *)
Definition atoi (s : string) : option Z :=
  let v := atoi_value s in
  if (INT_MIN <=? v) && (v <=? INT_MAX) then Some v else None.

(** ** [first_pass.c]: [is_number] *)

(** The loop [while ( *seq != 0) { if (!isdigit( *seq)) return FALSE; seq++; }]. *)
Fixpoint all_digits (seq : string) : bool :=
  match seq with
  | String c rest => if isdigit c then all_digits rest else false
  | EmptyString => true
  end.

Definition is_number (seq : string) : bool :=
  match seq with
  | String c rest =>
      if ascii_eqb c "+" || ascii_eqb c "-" then
        match rest with
        | String d rest' => if isdigit d then all_digits rest' else false
        | EmptyString => false
        end
      else all_digits seq
  | EmptyString => true
  end.


(** ** [utils.h], [symbol_structs.h]: enumerations *)

Inductive err : Type :=
  | NOT_ENOUGH_PARAMS | MCR_EXP_FAILED | FIRST_PASS_FAILED | SECOND_PASS_FAILED
  | MEM_ALLOC_FAILED | MEM_REALLOC_FAILED | CANNOT_OPEN_FILE | CANNOT_CREATE_FILE
  | CANNOT_DELETE_FILE | MCR_TOO_LONG | MCR_CANNOT_BE_REG | MCR_CANNOT_BE_OP
  | MCR_CANNOT_BE_DIR | MCR_MISSING_NAME | MCR_MCRO_EXTRANEOUS_TEXT
  | MCR_ENDMCRO_EXTRANEOUS_TEXT | SYMBOL_ONLY | ILLEGAL_COMMA | CONSECUTIVE_COMMAS
  | UNDEFINED_OP_DIR | OP_EXTRANEOUS_COMMA | OP_MISSING_OPERAND | OP_EXTRANEOUS_TEXT
  | OP_INVALID_ADDR_MODE | OP_INVALID_OPERANDS_NUM | OP_INVALID_OPERANDS_MODE
  | DIR_MISSING_PARAMS | DATA_NOT_NUM | DATA_MISSING_COMMA | DATA_EXTRANEOUS_TEXT
  | STRING_NOT_STR | ENTRY_MISSING_SYMBOL | ENTRY_EXTRANEOUS_TEXT
  | EXTERN_MISSING_SYMBOL | EXTERN_EXTRANEOUS_TEXT | SYMBOL_TOO_LONG
  | SYMBOL_CANNOT_BE_REG | SYMBOL_CANNOT_BE_OP | SYMBOL_CANNOT_BE_DIR
  | SYMBOL_INVALID_FIRST_CHAR | SYMBOL_INVALID_CHAR | ENTRY_CANNOT_BE_EXTERN
  | ENTRY_SYMBOL_NOT_FOUND | SYMBOL_ALREADY_EXISTS | SYMBOL_NOT_FOUND.

Inductive are : Type := ABSOLUTE | EXTERNAL | RELOCATABLE.

Definition are_val (a : are) : Z :=
  match a with ABSOLUTE => 0 | EXTERNAL => 1 | RELOCATABLE => 2 end.

Inductive addressing_mode : Type :=
  | IMMEDIATE_ADDR | DIRECT_ADDR | REG_DIRECT_ADDR | NONE_ADDR.

Definition mode_val (m : addressing_mode) : Z :=
  match m with
  | IMMEDIATE_ADDR => 1 | DIRECT_ADDR => 3 | REG_DIRECT_ADDR => 5
  | NONE_ADDR => -1
  end.

Inductive opcode : Type :=
  | MOV_OP | CMP_OP | ADD_OP | SUB_OP | NOT_OP | CLR_OP | LEA_OP | INC_OP
  | DEC_OP | JMP_OP | BNE_OP | RED_OP | PRN_OP | JSR_OP | RTS_OP | STOP_OP
  | NONE_OP.

Definition opcode_val (o : opcode) : Z :=
  match o with
  | MOV_OP => 0 | CMP_OP => 1 | ADD_OP => 2 | SUB_OP => 3 | NOT_OP => 4
  | CLR_OP => 5 | LEA_OP => 6 | INC_OP => 7 | DEC_OP => 8 | JMP_OP => 9
  | BNE_OP => 10 | RED_OP => 11 | PRN_OP => 12 | JSR_OP => 13 | RTS_OP => 14
  | STOP_OP => 15 | NONE_OP => -1
  end.

Inductive directive : Type := DATA | STRING | ENTRY | EXTERN | NONE_DIR.

Inductive statement_type : Type := INSTRUCTION | DIRECTIVE.

Definition mode_eqb (a b : addressing_mode) : bool := mode_val a =? mode_val b.

Definition opcode_eqb (a b : opcode) : bool := opcode_val a =? opcode_val b.

Definition statement_type_eqb (a b : statement_type) : bool :=
  match a, b with
  | INSTRUCTION, INSTRUCTION | DIRECTIVE, DIRECTIVE => true
  | _, _ => false
  end.

(** ** [utils.c]: lexical utilities *)

Fixpoint skip_whitespaces (str : string) : string :=
  match str with
  | String c rest => if isspace c then skip_whitespaces rest else str
  | EmptyString => EmptyString
  end.

(** The loop runs from the end and overwrites white space with the
    terminator up to the last other character. *)
Fixpoint trim_end_whitespaces (str : string) : string :=
  match str with
  | EmptyString => EmptyString
  | String c rest =>
      match trim_end_whitespaces rest with
      | EmptyString => if isspace c then EmptyString else String c EmptyString
      | kept => String c kept
      end
  end.

(** [left] is the length of the white-space prefix, [right] the index of
    the last other character at or after [left]; the characters between
    them are moved to the front. *)
Definition trim_whitespaces (str : string) : string :=
  trim_end_whitespaces (skip_whitespaces str).

Definition is_empty (line : option string) : bool :=
  match line with
  | None => true
  | Some l =>
      match skip_whitespaces l with
      | EmptyString => true
      | String _ _ => false
      end
  end.

Definition should_ignore (line : string) : bool :=
  let line := skip_whitespaces line in
  is_empty (Some line) ||
  match line with String c _ => ascii_eqb c ";" | EmptyString => false end.

Fixpoint is_separator (c : ascii) (seps : string) : bool :=
  match seps with
  | String s rest => if ascii_eqb c s then true else is_separator c rest
  | EmptyString => false
  end.

(** The copying loop of [copy_next_token] and the test of the character
    that ended it. *)
Fixpoint copy_token (src seps : string) : string :=
  match src with
  | EmptyString => EmptyString
  | String c rest =>
      if is_separator c seps then
        if ascii_eqb c ":" then String c EmptyString else EmptyString
      else String c (copy_token rest seps)
  end.

(** [src] is never [NULL] where the program calls it; the result is the
    content of [dest]. *)
Definition copy_next_token (src seps : string) : string :=
  let src := skip_whitespaces src in
  if is_empty (Some src) then EmptyString else copy_token src seps.

(** [copy_next_token(dest, src, seps)] for an array [dest] of [size]
    bytes: the characters of the token and the terminator are written from
    [dest[0]] on, so that a token of [size] characters or more is written
    past the end of [dest]; [None] is that write. *)
Definition copy_next_token_to (size : Z) (src seps : string) : option string :=
  let token := copy_next_token src seps in
  if strlen token <? size then Some token else None.

(** The advancing loop of [extract_remaining_seq] and the step over a
    colon. *)
Fixpoint skip_token (seq seps : string) : string :=
  match seq with
  | EmptyString => EmptyString
  | String c rest =>
      if is_separator c seps then
        if ascii_eqb c ":" then rest else seq
      else skip_token rest seps
  end.

Definition extract_remaining_seq (seq seps : string) : option string :=
  let seq := skip_whitespaces seq in
  if is_empty (Some seq) then None
  else Some (skip_whitespaces (skip_token seq seps)).

Definition is_register (token : string) : bool :=
  match token with
  | String a (String b (String c EmptyString)) =>
      ascii_eqb a "@" && ascii_eqb b "r" && isdigit c &&
      (let reg_index := char_code c - 48 in
       (MIN_REG_INDEX <=? reg_index) && (reg_index <=? MAX_REG_INDEX))
  | _ => false
  end.

Definition find_operation (op_name : string) : opcode :=
  if streq op_name "mov" then MOV_OP
  else if streq op_name "cmp" then CMP_OP
  else if streq op_name "add" then ADD_OP
  else if streq op_name "sub" then SUB_OP
  else if streq op_name "not" then NOT_OP
  else if streq op_name "clr" then CLR_OP
  else if streq op_name "lea" then LEA_OP
  else if streq op_name "inc" then INC_OP
  else if streq op_name "dec" then DEC_OP
  else if streq op_name "jmp" then JMP_OP
  else if streq op_name "bne" then BNE_OP
  else if streq op_name "red" then RED_OP
  else if streq op_name "prn" then PRN_OP
  else if streq op_name "jsr" then JSR_OP
  else if streq op_name "rts" then RTS_OP
  else if streq op_name "stop" then STOP_OP
  else NONE_OP.

Definition find_directive (dir_name : string) : directive :=
  if streq dir_name ".data" then DATA
  else if streq dir_name ".string" then STRING
  else if streq dir_name ".entry" then ENTRY
  else if streq dir_name ".extern" then EXTERN
  else NONE_DIR.

Definition is_op (o : opcode) : bool :=
  match o with NONE_OP => false | _ => true end.

Definition is_dir (d : directive) : bool :=
  match d with NONE_DIR => false | _ => true end.

(** [(word << ARE_BITS) | are_val] on [unsigned int]. *)
Definition encode_are (word : Z) (a : are) : Z :=
  Z.lor (to_uint (Z.shiftl word ARE_BITS)) (are_val a).

Definition extract_bits (word : Z) (start finish : Z) : Z :=
  let num_bits := finish - start + 1 in
  let mask := to_uint (Z.shiftl 1 num_bits - 1) in
  Z.land (Z.shiftr word start) mask.

(** ** [symbol_structs.c]: records, [globals.h]: the global state *)

(** [type] is not set by [create_symbol] for a symbol that is not external:
    [None] is the field before its first assignment. *)
Record symbol : Type := mk_symbol {
  name : string;
  address : Z;
  type : option statement_type;
  is_ext : bool;
  is_ent : bool
}.

Record ext : Type := mk_ext {
  ext_name : string;
  ext_address : Z
}.

Record state : Type := mk_state {
  is_entry_exists : bool;
  is_extern_exists : bool;
  code : list Z;
  data : list Z;
  ic : Z;
  dc : Z;
  line_num : Z;
  symbol_table : list symbol;
  ext_table : list ext;
  out : list (Z * err)
}.

Definition set_is_entry_exists (v : bool) (st : state) : state :=
  mk_state v (is_extern_exists st) (code st) (data st) (ic st) (dc st)
    (line_num st) (symbol_table st) (ext_table st) (out st).

Definition set_is_extern_exists (v : bool) (st : state) : state :=
  mk_state (is_entry_exists st) v (code st) (data st) (ic st) (dc st)
    (line_num st) (symbol_table st) (ext_table st) (out st).

Definition set_code (v : list Z) (st : state) : state :=
  mk_state (is_entry_exists st) (is_extern_exists st) v (data st) (ic st)
    (dc st) (line_num st) (symbol_table st) (ext_table st) (out st).

Definition set_data (v : list Z) (st : state) : state :=
  mk_state (is_entry_exists st) (is_extern_exists st) (code st) v (ic st)
    (dc st) (line_num st) (symbol_table st) (ext_table st) (out st).

Definition set_ic (v : Z) (st : state) : state :=
  mk_state (is_entry_exists st) (is_extern_exists st) (code st) (data st) v
    (dc st) (line_num st) (symbol_table st) (ext_table st) (out st).

Definition set_dc (v : Z) (st : state) : state :=
  mk_state (is_entry_exists st) (is_extern_exists st) (code st) (data st)
    (ic st) v (line_num st) (symbol_table st) (ext_table st) (out st).

Definition set_line_num (v : Z) (st : state) : state :=
  mk_state (is_entry_exists st) (is_extern_exists st) (code st) (data st)
    (ic st) (dc st) v (symbol_table st) (ext_table st) (out st).

Definition set_symbol_table (v : list symbol) (st : state) : state :=
  mk_state (is_entry_exists st) (is_extern_exists st) (code st) (data st)
    (ic st) (dc st) (line_num st) v (ext_table st) (out st).

Definition set_ext_table (v : list ext) (st : state) : state :=
  mk_state (is_entry_exists st) (is_extern_exists st) (code st) (data st)
    (ic st) (dc st) (line_num st) (symbol_table st) v (out st).

Definition set_out (v : list (Z * err)) (st : state) : state :=
  mk_state (is_entry_exists st) (is_extern_exists st) (code st) (data st)
    (ic st) (dc st) (line_num st) (symbol_table st) (ext_table st) v.

(** ** The monad of the program: global state, undefined behaviour *)

Definition M (A : Type) : Type := state -> option (A * state).

Definition ret {A : Type} (a : A) : M A := fun st => Some (a, st).

Definition bind {A B : Type} (m : M A) (k : A -> M B) : M B :=
  fun st => match m st with Some (a, st') => k a st' | None => None end.

Definition undefined {A : Type} : M A := fun _ => None.

Definition gets {A : Type} (f : state -> A) : M A := fun st => Some (f st, st).

Definition modify (f : state -> state) : M unit := fun st => Some (tt, f st).

Notation "x <- m ;; k" := (bind m (fun x => k))
  (at level 100, m at next level, right associativity).
Notation "m ;; k" := (bind m (fun _ => k))
  (at level 100, right associativity).

(** ** Arrays *)

Definition array_store (a : list Z) (i : Z) (w : Z) : option (list Z) :=
  if (0 <=? i) && (i <? Z.of_nat (length a))
  then Some (<[Z.to_nat i := w]> a) else None.

Definition array_load (a : list Z) (i : Z) : option Z :=
  if 0 <=? i then a !! Z.to_nat i else None.

(** ** [utils.c]: effects *)

Definition print_error (error : err) : M unit :=
  modify (fun st => set_out (out st ++ [(line_num st, error)]) st).

(** [code[ic++] = word]. *)
Definition append_word_to_code (word : Z) : M unit :=
  fun st =>
    match array_store (code st) (ic st) word with
    | Some c => Some (tt, set_ic (ic st + 1) (set_code c st))
    | None => None
    end.

(** The outcome of a check that prints at most one message. *)
Inductive verdict : Type :=
  | Accept
  | Reject (msg : option err).

Definition report (v : verdict) : M bool :=
  match v with
  | Accept => ret true
  | Reject None => ret false
  | Reject (Some e) => print_error e ;; ret false
  end.


(** The loop [for (i = 1; i < token_len; i++)] of [is_symbol]. *)
Fixpoint all_alnum (s : string) : bool :=
  match s with
  | String c rest => if isalnum c then all_alnum rest else false
  | EmptyString => true
  end.

(** The checks of [is_symbol], in the order of the source.  With a colon
    expected, an empty token has no last character to compare and is
    refused. *)
Definition symbol_verdict (token : string) (is_colon_expected : bool) : verdict :=
  if is_colon_expected &&
     negb (match str_last token with Some c => ascii_eqb c ":" | None => false end)
  then Reject None
  else
    let token_copy := if is_colon_expected then str_init token else token in
    let token_len := strlen token_copy in
    if MAX_SYMBOL_LEN <? token_len then Reject (Some SYMBOL_TOO_LONG)
    else if is_register token_copy then Reject (Some SYMBOL_CANNOT_BE_REG)
    else if is_op (find_operation token_copy) then Reject (Some SYMBOL_CANNOT_BE_OP)
    else if is_dir (find_directive token_copy) then Reject (Some SYMBOL_CANNOT_BE_DIR)
    else
      match token_copy with
      | String c rest =>
          if negb (isalpha c) then Reject (Some SYMBOL_INVALID_FIRST_CHAR)
          else if negb (all_alnum rest) then Reject (Some SYMBOL_INVALID_CHAR)
          else Accept
      | EmptyString => Reject (Some SYMBOL_INVALID_FIRST_CHAR)
      end.

Definition is_symbol (token : string) (is_colon_expected : bool) : M bool :=
  report (symbol_verdict token is_colon_expected).

(** The value [is_symbol] returns. *)
Definition accepted (v : verdict) : bool :=
  match v with Accept => true | Reject _ => false end.

(** ** [symbol_structs.c]: the symbol table and the external references *)

(** A [Symbolptr] into the table is the position of the node. *)
Fixpoint find_symbol (table : list symbol) (n : string) : option nat :=
  match table with
  | [] => None
  | s :: rest =>
      if streq (name s) n then Some O
      else match find_symbol rest n with Some i => Some (S i) | None => None end
  end.

Definition update_symbol_addr (table : list symbol) (addr_inc : Z)
    (t : statement_type) : list symbol :=
  map (fun s =>
         if negb (is_ext s) &&
            match type s with Some t' => statement_type_eqb t' t | None => false end
         then mk_symbol (name s) (to_uint (address s + addr_inc)) (type s)
                (is_ext s) (is_ent s)
         else s) table.

Definition make_entry (n : string) : M bool :=
  fun st =>
    match find_symbol (symbol_table st) n with
    | Some i =>
        match symbol_table st !! i with
        | Some s =>
            if is_ext s then (print_error ENTRY_CANNOT_BE_EXTERN ;; ret false) st
            else
              Some (true,
                    set_is_entry_exists true
                      (set_symbol_table
                         (<[i := mk_symbol (name s) (address s) (type s)
                                   (is_ext s) true]> (symbol_table st)) st))
        | None => None
        end
    | None => (print_error ENTRY_SYMBOL_NOT_FOUND ;; ret false) st
    end.

(** [NONE_ADDR] converted to [unsigned int] when the symbol is missing. *)
Definition get_symbol_addr (table : list symbol) (n : string) : Z :=
  match find_symbol table n with
  | Some i => match table !! i with Some s => address s | None => to_uint (-1) end
  | None => to_uint (-1)
  end.

Definition is_extern_symbol (table : list symbol) (n : string) : bool :=
  match find_symbol table n with
  | Some i => match table !! i with Some s => is_ext s | None => false end
  | None => false
  end.

Definition is_existing_symbol (table : list symbol) (n : string) : bool :=
  match find_symbol table n with Some _ => true | None => false end.

Definition create_symbol (n : string) (addr : Z) (ext_flag : bool) : M symbol :=
  fun st =>
    Some (mk_symbol n addr (if ext_flag then Some DIRECTIVE else None) ext_flag false,
          if ext_flag then set_is_extern_exists true st else st).

(** The result is the position of the new node, [None] for [NULL]. *)
Definition add_symbol_to_list (n : string) (addr : Z) (ext_flag : bool)
    : M (option nat) :=
  table <- gets symbol_table ;;
  if is_existing_symbol table n then
    print_error SYMBOL_ALREADY_EXISTS ;; ret None
  else
    new_symbol <- create_symbol n addr ext_flag ;;
    modify (set_symbol_table (table ++ [new_symbol])) ;;
    ret (Some (length table)).

Fixpoint remove_first (table : list symbol) (n : string) : list symbol :=
  match table with
  | [] => []
  | s :: rest => if streq (name s) n then rest else s :: remove_first rest n
  end.

Definition delete_symbol (n : string) : M unit :=
  modify (fun st => set_symbol_table (remove_first (symbol_table st) n) st).

Definition add_ext_to_list (n : string) (addr : Z) : M unit :=
  modify (fun st => set_ext_table (ext_table st ++ [mk_ext n addr]) st).

(** ** [first_pass.c] *)

Definition DQUOTE : ascii := "034".
Definition NUL : ascii := "000".
Definition TAB : ascii := "009".
Definition NEWLINE : ascii := "010".

(** The separator sets of the calls: colon, tab, space; comma, tab, space;
    tab, space. *)
Definition SEPS_COLON : string := String ":" (String TAB " ").
Definition SEPS_COMMA : string := String "," (String TAB " ").
Definition SEPS_BLANK : string := String TAB " ".

Definition is_string (str : string) : bool :=
  match str with
  | String c rest =>
      (2 <=? strlen str) && ascii_eqb c DQUOTE &&
      match str_last str with Some l => ascii_eqb l DQUOTE | None => false end &&
      (fix no_quote (s : string) : bool :=
         match s with
         | String d s' => if ascii_eqb d DQUOTE then false else no_quote s'
         | EmptyString => true
         end) (str_init rest)
  | EmptyString => false
  end.

Fixpoint count_commas (str : string) : Z :=
  match str with
  | String c rest => (if ascii_eqb c "," then 1 else 0) + count_commas rest
  | EmptyString => 0
  end.

(** The loop of [has_consecutive_commas] with its flag [comma_found]. *)
Fixpoint consecutive_commas_from (comma_found : bool) (str : string) : bool :=
  match str with
  | String c rest =>
      if ascii_eqb c "," && comma_found then true
      else if ascii_eqb c "," then consecutive_commas_from true rest
      else if negb (isspace c) then consecutive_commas_from false rest
      else consecutive_commas_from comma_found rest
  | EmptyString => false
  end.

Definition has_consecutive_commas (str : string) : bool :=
  consecutive_commas_from false str.

(** The mode [detect_addr_mode] returns. *)
Definition addr_mode_of (operand : string) : addressing_mode :=
  if is_number operand then IMMEDIATE_ADDR
  else if is_register operand then REG_DIRECT_ADDR
  else if accepted (symbol_verdict operand false) then DIRECT_ADDR
  else NONE_ADDR.

Definition detect_addr_mode (operand : string) : M addressing_mode :=
  if is_number operand then ret IMMEDIATE_ADDR
  else if is_register operand then ret REG_DIRECT_ADDR
  else
    b <- is_symbol operand false ;;
    if b then ret DIRECT_ADDR else ret NONE_ADDR.

Definition is_valid_operand_count (op_type : opcode) (has_first has_second : bool)
    : bool :=
  match op_type with
  | MOV_OP | CMP_OP | ADD_OP | SUB_OP | LEA_OP => has_first && has_second
  | NOT_OP | CLR_OP | INC_OP | DEC_OP | JMP_OP | BNE_OP | RED_OP | PRN_OP
  | JSR_OP => has_first && negb has_second
  | RTS_OP | STOP_OP => negb has_first && negb has_second
  | NONE_OP => false
  end.

Definition is_valid_mode_combination (op_type : opcode)
    (first_mode second_mode : addressing_mode) : bool :=
  match op_type with
  | MOV_OP | ADD_OP | SUB_OP =>
      (mode_eqb first_mode IMMEDIATE_ADDR || mode_eqb first_mode DIRECT_ADDR ||
       mode_eqb first_mode REG_DIRECT_ADDR) &&
      (mode_eqb second_mode DIRECT_ADDR || mode_eqb second_mode REG_DIRECT_ADDR)
  | LEA_OP =>
      mode_eqb first_mode DIRECT_ADDR &&
      (mode_eqb second_mode DIRECT_ADDR || mode_eqb second_mode REG_DIRECT_ADDR)
  | NOT_OP | CLR_OP | INC_OP | DEC_OP | JMP_OP | BNE_OP | RED_OP | JSR_OP =>
      mode_eqb first_mode DIRECT_ADDR || mode_eqb first_mode REG_DIRECT_ADDR
  | PRN_OP | CMP_OP | RTS_OP | STOP_OP => true
  | NONE_OP => false
  end.

(** [data[dc++] = (unsigned int)num]. *)
Definition append_number_to_data (num : Z) : M unit :=
  fun st =>
    match array_store (data st) (dc st) (to_uint num) with
    | Some d => Some (tt, set_dc (dc st + 1) (set_data d st))
    | None => None
    end.

(** [data[dc++] = (unsigned int)ch]. *)
Definition append_character_to_data (ch : ascii) : M unit :=
  fun st =>
    match array_store (data st) (dc st) (to_uint (char_to_int ch)) with
    | Some d => Some (tt, set_dc (dc st + 1) (set_data d st))
    | None => None
    end.

Definition get_additional_word_count (has_first has_second : bool)
    (first_mode second_mode : addressing_mode) : Z :=
  let count := 0 in
  let count := if has_first then count + 1 else count in
  let count := if has_second then count + 1 else count in
  let count :=
    if has_first && has_second && mode_eqb first_mode REG_DIRECT_ADDR &&
       mode_eqb second_mode REG_DIRECT_ADDR
    then count - 1 else count in
  count.

Definition encode_first_op_word (op_type : opcode) (has_first has_second : bool)
    (first_mode second_mode : addressing_mode) : Z :=
  let word :=
    if has_first && has_second then
      to_uint (Z.lor (Z.lor (Z.shiftl (mode_val first_mode) (OPCODE_BITS + ADDR_MODE_BITS))
                            (Z.shiftl (opcode_val op_type) ADDR_MODE_BITS))
                     (mode_val second_mode))
    else if has_first then
      to_uint (Z.lor (Z.shiftl (opcode_val op_type) ADDR_MODE_BITS) (mode_val first_mode))
    else to_uint (Z.shiftl (opcode_val op_type) ADDR_MODE_BITS) in
  encode_are word ABSOLUTE.

(** The operands of an instruction as [process_operation] finds them: the
    flags [has_first_operand] and [has_second_operand] and the two buffers. *)
Record operands : Type := mk_operands {
  has_first_operand : bool;
  has_second_operand : bool;
  first_operand : string;
  second_operand : string
}.

(** The first half of [process_operation], up to the test for text after
    the operands.  [None] is the dereference of a null [line] or an operand
    written past the end of [first_operand] or [second_operand], arrays of
    [MAX_OPERAND_LEN] bytes. *)
Definition extract_operands (op_type : opcode) (line : string)
    : option (err + operands) :=
  let commas_cnt := count_commas line in
  if OP_MAX_NUM_COMMAS <? commas_cnt then Some (inl OP_EXTRANEOUS_COMMA)
  else if negb (commas_cnt =? 0) then
    match copy_next_token_to MAX_OPERAND_LEN line SEPS_COMMA with
    | None => None
    | Some first =>
        let line := extract_remaining_seq line SEPS_COMMA in
        if negb (is_empty (Some first)) then
          match line with
          | Some (String c line1) =>
              if ascii_eqb c "," then
                match copy_next_token_to MAX_OPERAND_LEN line1 SEPS_BLANK with
                | None => None
                | Some second =>
                    let line := extract_remaining_seq line1 SEPS_BLANK in
                    if negb (is_empty (Some second)) then
                      if negb (is_empty line) then Some (inl OP_EXTRANEOUS_TEXT)
                      else Some (inr (mk_operands true true first second))
                    else Some (inl OP_MISSING_OPERAND)
                end
              else Some (inl OP_EXTRANEOUS_TEXT)
          | Some EmptyString => Some (inl OP_EXTRANEOUS_TEXT)
          | None => None
          end
        else Some (inl OP_MISSING_OPERAND)
    end
  else
    match copy_next_token_to MAX_OPERAND_LEN line SEPS_BLANK with
    | None => None
    | Some first =>
        let line := extract_remaining_seq line SEPS_BLANK in
        if negb (is_empty (Some first)) then
          if negb (is_empty line) then Some (inl OP_EXTRANEOUS_TEXT)
          else Some (inr (mk_operands true false first EmptyString))
        else if negb (opcode_eqb op_type RTS_OP) && negb (opcode_eqb op_type STOP_OP)
        then Some (inl OP_MISSING_OPERAND)
        else if negb (is_empty line) then Some (inl OP_EXTRANEOUS_TEXT)
        else Some (inr (mk_operands false false EmptyString EmptyString))
    end.

Definition process_operation (op_type : opcode) (line : string) : M bool :=
  match extract_operands op_type line with
  | None => undefined
  | Some (inl e) => print_error e ;; ret false
  | Some (inr ops) =>
      let has_first := has_first_operand ops in
      let has_second := has_second_operand ops in
      first_mode <- (if has_first then detect_addr_mode (first_operand ops)
                     else ret NONE_ADDR) ;;
      second_mode <- (if has_second then detect_addr_mode (second_operand ops)
                      else ret NONE_ADDR) ;;
      if (has_first && mode_eqb first_mode NONE_ADDR) ||
         (has_second && mode_eqb second_mode NONE_ADDR)
      then print_error OP_INVALID_ADDR_MODE ;; ret false
      else if negb (is_valid_operand_count op_type has_first has_second)
      then print_error OP_INVALID_OPERANDS_NUM ;; ret false
      else if negb (is_valid_mode_combination op_type first_mode second_mode)
      then print_error OP_INVALID_OPERANDS_MODE ;; ret false
      else
        append_word_to_code
          (encode_first_op_word op_type has_first has_second first_mode second_mode) ;;
        modify (fun st =>
                  set_ic (ic st + get_additional_word_count has_first has_second
                                    first_mode second_mode) st) ;;
        ret true
  end.

(** The loop of [process_data_dir].  Every turn that continues drops at
    least the comma from [line]: [fuel] above the length of [line] is never
    used up (see [process_data_dir_loop_fuel]).  [param] is an array of
    [MAX_OPERAND_LEN] bytes.  Where [line] is at the terminator,
    [is_empty(line + 1)] reads the bytes of the line buffer behind the
    terminator; what they hold does not change the test, whose second half
    [line[0] == ','] fails there, and [str_drop 1] stays at the terminator. *)
Fixpoint process_data_dir_loop (fuel : nat) (line : string) : M bool :=
  match fuel with
  | O => undefined
  | S fuel' =>
      if is_empty (Some line) then ret true
      else
        match copy_next_token_to MAX_OPERAND_LEN line SEPS_COMMA with
        | None => undefined
        | Some param =>
            if negb (is_number param) then print_error DATA_NOT_NUM ;; ret false
            else
              match extract_remaining_seq line SEPS_COMMA with
              | None => undefined
              | Some line =>
                  let comma :=
                    match line with
                    | String c _ => ascii_eqb c ","
                    | EmptyString => false
                    end in
                  if negb (is_empty (Some line)) && negb comma
                  then print_error DATA_MISSING_COMMA ;; ret false
                  else if is_empty (Some (str_drop 1 line)) && comma
                  then print_error DATA_EXTRANEOUS_TEXT ;; ret false
                  else
                    match atoi param with
                    | None => undefined
                    | Some num =>
                        append_number_to_data num ;;
                        process_data_dir_loop fuel'
                          (if negb (is_empty (Some line)) then str_drop 1 line
                           else line)
                    end
              end
        end
  end.

Definition process_data_dir (line : string) : M bool :=
  process_data_dir_loop (S (String.length line)) line.

(** The loop [for (i = 1; i < param_len - 1; i++)] over the characters
    between the quotes. *)
Fixpoint append_characters (chars : string) : M unit :=
  match chars with
  | String c rest => append_character_to_data c ;; append_characters rest
  | EmptyString => ret tt
  end.

(** [param] is an array of [MAX_OPERAND_LEN] bytes. *)
Definition process_string_dir (line : string) : M bool :=
  let line := trim_end_whitespaces line in
  match copy_next_token_to MAX_OPERAND_LEN line EmptyString with
  | None => undefined
  | Some param =>
      if negb (is_string param) then print_error STRING_NOT_STR ;; ret false
      else
        append_characters (str_init (str_drop 1 param)) ;;
        append_character_to_data NUL ;;
        ret true
  end.

(** [param] is an array of [MAX_SYMBOL_LEN] bytes, filled before
    [is_symbol] tests the length of the name. *)
Definition process_entry_dir (line : string) : M bool :=
  match copy_next_token_to MAX_SYMBOL_LEN line SEPS_BLANK with
  | None => undefined
  | Some param =>
      if is_empty (Some param) then print_error ENTRY_MISSING_SYMBOL ;; ret false
      else
        ok <- is_symbol param false ;;
        if negb ok then ret false
        else
          let line := extract_remaining_seq line SEPS_BLANK in
          if negb (is_empty line) then print_error ENTRY_EXTRANEOUS_TEXT ;; ret false
          else ret true
  end.

(** [param] is an array of [MAX_SYMBOL_LEN] bytes, as in
    [process_entry_dir]. *)
Definition process_extern_dir (line : string) : M bool :=
  match copy_next_token_to MAX_SYMBOL_LEN line SEPS_BLANK with
  | None => undefined
  | Some param =>
      if is_empty (Some param) then print_error EXTERN_MISSING_SYMBOL ;; ret false
      else
        ok <- is_symbol param false ;;
        if negb ok then ret false
        else
          let line := extract_remaining_seq line SEPS_BLANK in
          if negb (is_empty line) then print_error EXTERN_EXTRANEOUS_TEXT ;; ret false
          else
            added <- add_symbol_to_list param DEFAULT_ADDR true ;;
            match added with
            | None => ret false
            | Some _ => ret true
            end
  end.

Definition process_directive (dir_type : directive) (line : string) : M bool :=
  if is_empty (Some line) then print_error DIR_MISSING_PARAMS ;; ret false
  else
    match dir_type with
    | DATA => process_data_dir line
    | STRING => process_string_dir line
    | ENTRY => process_entry_dir line
    | EXTERN => process_extern_dir line
    | NONE_DIR => ret false
    end.

(** [current_symbol->name], [current_symbol->type = t] and
    [current_symbol->address = addr] for the node at position [p]. *)
Definition symbol_name_at (p : nat) : M string :=
  fun st =>
    match symbol_table st !! p with
    | Some s => Some (name s, st)
    | None => None
    end.

Definition set_symbol_type_address (p : nat) (t : statement_type) (addr : Z)
    : M unit :=
  modify (fun st =>
            set_symbol_table
              (alter (fun s => mk_symbol (name s) (to_uint addr) (Some t)
                                 (is_ext s) (is_ent s)) p (symbol_table st)) st).

(** [if (is_symbol_exists) { delete_symbol(&symbol_table, current_symbol->name);
    is_symbol_exists = FALSE; }]: [current_symbol] is [Some p] while
    [is_symbol_exists] holds. *)
Definition drop_label (current_symbol : option nat) : M unit :=
  match current_symbol with
  | Some p => n <- symbol_name_at p ;; delete_symbol n
  | None => ret tt
  end.

(** The comma tests that the two branches of [parse_line] share. *)
Definition check_commas (current_symbol : option nat) (line : option string)
    (k : string -> M bool) : M bool :=
  match line with
  | None => undefined
  | Some line =>
      if match line with String c _ => ascii_eqb c "," | EmptyString => false end
      then drop_label current_symbol ;; print_error ILLEGAL_COMMA ;; ret false
      else if has_consecutive_commas line
      then drop_label current_symbol ;; print_error CONSECUTIVE_COMMAS ;; ret false
      else k line
  end.

(** [parse_line] from the test of the operation name on: [current_token] is
    the operation or directive name and [line] starts at it. *)
Definition parse_statement (current_symbol : option nat) (current_token : string)
    (line : string) : M bool :=
  let op_val := find_operation current_token in
  if is_op op_val then
    match current_symbol with
    | Some p => cur_ic <- gets ic ;; set_symbol_type_address p INSTRUCTION cur_ic
    | None => ret tt
    end ;;
    check_commas current_symbol (extract_remaining_seq line SEPS_COMMA)
      (fun line =>
         ok <- process_operation op_val line ;;
         if negb ok then drop_label current_symbol ;; ret false
         else ret true)
  else
    let dir_val := find_directive current_token in
    if is_dir dir_val then
      current_symbol <-
        match current_symbol with
        | Some p =>
            match dir_val with
            | EXTERN | ENTRY => drop_label (Some p) ;; ret None
            | _ =>
                cur_dc <- gets dc ;;
                set_symbol_type_address p DIRECTIVE cur_dc ;; ret (Some p)
            end
        | None => ret None
        end ;;
      check_commas current_symbol (extract_remaining_seq line SEPS_COMMA)
        (fun line =>
           ok <- process_directive dir_val line ;;
           if negb ok then drop_label current_symbol ;; ret false
           else ret true)
    else
      drop_label current_symbol ;;
      print_error UNDEFINED_OP_DIR ;;
      ret false.

Definition parse_line (line : string) : M bool :=
  let current_token := copy_next_token line SEPS_COLON in
  labelled <- is_symbol current_token true ;;
  if labelled then
    let current_token := str_init current_token in
    current_symbol <- add_symbol_to_list current_token DEFAULT_ADDR false ;;
    match current_symbol with
    | None => ret false
    | Some p =>
        let line := extract_remaining_seq line ":" in
        if is_empty line then
          drop_label (Some p) ;; print_error SYMBOL_ONLY ;; ret false
        else
          match line with
          | None => undefined
          | Some line =>
              parse_statement (Some p) (copy_next_token line SEPS_COMMA) line
          end
    end
  else parse_statement None current_token line.

(** ** Files *)

(** [fgets(line, n, fd)] on the rest of a stream: at most [room] = [n - 1]
    characters, up to and with the first newline. *)
Fixpoint fgets_chars (room : nat) (stream : string) : string * string :=
  match room, stream with
  | S room', String c rest =>
      if ascii_eqb c NEWLINE then (String c EmptyString, rest)
      else let (l, s) := fgets_chars room' rest in (String c l, s)
  | _, _ => (EmptyString, stream)
  end.

(** The string that a buffer holds: its characters up to the first NUL. *)
Fixpoint c_string (buffer : string) : string :=
  match buffer with
  | String c rest => if ascii_eqb c NUL then EmptyString else String c (c_string rest)
  | EmptyString => EmptyString
  end.

(** Whether [s] holds a NUL. *)
Fixpoint has_nul (s : string) : bool :=
  match s with
  | String c rest => ascii_eqb c NUL || has_nul rest
  | EmptyString => false
  end.

(** The result is the string that [line] holds after the call, with the
    rest of the stream: the characters read behind a NUL are in the buffer
    and in no string. *)
Definition fgets (n : nat) (stream : string) : option (string * string) :=
  match stream with
  | EmptyString => None
  | String _ _ =>
      let (buffer, rest) := fgets_chars (n - 1) stream in Some (c_string buffer, rest)
  end.

(** The lines that the loop [while (fgets(line, MAX_LINE_LEN, fd))] reads;
    a call takes a character at least, so that [fuel] up to the length of
    the stream reads it all (see [file_lines_concat]). *)
Fixpoint read_lines (fuel : nat) (stream : string) : list string :=
  match fuel with
  | O => []
  | S fuel' =>
      match fgets MAX_LINE_LEN stream with
      | None => []
      | Some (line, rest) => line :: read_lines fuel' rest
      end
  end.

Definition file_lines (stream : string) : list string :=
  read_lines (String.length stream) stream.

(** The body of the reading loop of [first_process] over the lines read. *)
Fixpoint first_pass_lines (lines : list string) (was_error : bool) : M bool :=
  match lines with
  | [] => ret was_error
  | line :: rest =>
      let line := trim_whitespaces line in
      ok <- (if negb (should_ignore line) then parse_line line else ret true) ;;
      modify (fun st => set_line_num (line_num st + 1) st) ;;
      first_pass_lines rest (if negb ok then true else was_error)
  end.

(** The assignments that open [first_process]. *)
Definition first_pass_start (st : state) : state :=
  set_is_extern_exists false
    (set_is_entry_exists false
       (set_symbol_table [] (set_line_num 1 (set_dc 0 (set_ic 0 st))))).

(** [first_process] on the content of the expanded source file. *)
Definition first_process (am_file : string) : M bool :=
  modify first_pass_start ;;
  was_error <- first_pass_lines (file_lines am_file) false ;;
  modify (fun st =>
            set_symbol_table
              (update_symbol_addr (symbol_table st) MEM_START INSTRUCTION) st) ;;
  modify (fun st =>
            set_symbol_table
              (update_symbol_addr (symbol_table st) (ic st + MEM_START) DIRECTIVE) st) ;;
  ret was_error.

(** The globals of [main.c] when the program starts: objects with static
    storage are zero. *)
Definition initial_state : state :=
  mk_state false false (replicate (Z.to_nat MEM_SIZE) 0)
    (replicate (Z.to_nat MEM_SIZE) 0) 0 0 0 [] [] [].

(** ** [second_pass.c] *)

(** An addressing mode read back from a code word is the integer of the
    bit field, which need not be a value of the enumeration. *)
Definition determine_operand (op_type : opcode) (has_src has_dest : bool)
    : bool * bool :=
  match op_type with
  | MOV_OP | CMP_OP | ADD_OP | SUB_OP | LEA_OP => (true, true)
  | NOT_OP | CLR_OP | INC_OP | DEC_OP | JMP_OP | BNE_OP | RED_OP | PRN_OP
  | JSR_OP => (false, true)
  | RTS_OP | STOP_OP => (false, false)
  | NONE_OP => (has_src, has_dest)
  end.

Definition encode_reg (reg : string) (is_dest : bool) : M Z :=
  match atoi (str_drop SKIP_TO_NUM_REG reg) with
  | None => undefined
  | Some register_num =>
      let word :=
        if negb is_dest then to_uint (Z.shiftl register_num BITS_IN_REG)
        else to_uint register_num in
      ret (encode_are word ABSOLUTE)
  end.

Definition encode_symbol (symbol_name : string) : M bool :=
  table <- gets symbol_table ;;
  if is_existing_symbol table symbol_name then
    let word := get_symbol_addr table symbol_name in
    word <-
      (if is_extern_symbol table symbol_name then
         cur_ic <- gets ic ;;
         add_ext_to_list symbol_name (to_uint (cur_ic + MEM_START)) ;;
         ret (encode_are word EXTERNAL)
       else ret (encode_are word RELOCATABLE)) ;;
    append_word_to_code word ;;
    ret true
  else
    modify (fun st => set_ic (ic st + 1) st) ;;
    print_error SYMBOL_NOT_FOUND ;;
    ret false.

Definition encode_operand_to_code (operand : string) (addr_mode : Z)
    (is_dest : bool) : M bool :=
  if addr_mode =? mode_val IMMEDIATE_ADDR then
    match atoi operand with
    | None => undefined
    | Some num =>
        append_word_to_code (encode_are (to_uint num) ABSOLUTE) ;; ret true
    end
  else if addr_mode =? mode_val DIRECT_ADDR then encode_symbol operand
  else if addr_mode =? mode_val REG_DIRECT_ADDR then
    word <- encode_reg operand is_dest ;;
    append_word_to_code word ;; ret true
  else ret false.

Definition encode_additional_words (src dest : string) (has_src has_dest : bool)
    (src_mode dest_mode : Z) : M bool :=
  if has_src && has_dest && (src_mode =? mode_val REG_DIRECT_ADDR) &&
     (dest_mode =? mode_val REG_DIRECT_ADDR)
  then
    s <- encode_reg src false ;;
    d <- encode_reg dest true ;;
    append_word_to_code (Z.lor s d) ;; ret true
  else if has_dest then
    if has_src then
      src_success <- encode_operand_to_code src src_mode false ;;
      dest_success <- encode_operand_to_code dest dest_mode true ;;
      ret (dest_success && src_success)
    else encode_operand_to_code dest dest_mode true
  else ret true.

(** [code[ic]]. *)
Definition current_code_word : M Z :=
  fun st =>
    match array_load (code st) (ic st) with
    | Some w => Some (w, st)
    | None => None
    end.

Definition process_operation_second_pass (op_type : opcode) (line : string)
    : M bool :=
  let '(has_src, has_dest) := determine_operand op_type false false in
  src_addr_mode <-
    (if has_src then
       w <- current_code_word ;;
       ret (extract_bits w SRC_MODE_START_POS SRC_MODE_END_POS)
     else ret (mode_val NONE_ADDR)) ;;
  dest_addr_mode <-
    (if has_dest then
       w <- current_code_word ;;
       ret (extract_bits w DEST_MODE_START_POS DEST_MODE_END_POS)
     else ret (mode_val NONE_ADDR)) ;;
  operands <-
    (if has_dest then
       if has_src then
         match copy_next_token_to MAX_OPERAND_LEN line SEPS_COMMA with
         | None => undefined
         | Some src =>
             match extract_remaining_seq line SEPS_COMMA with
             | Some (String _ line) =>
                 match copy_next_token_to MAX_OPERAND_LEN line SEPS_BLANK with
                 | None => undefined
                 | Some dest => ret (src, dest)
                 end
             | _ => undefined
             end
         end
       else
         match copy_next_token_to MAX_OPERAND_LEN line SEPS_BLANK with
         | None => undefined
         | Some dest => ret (EmptyString, dest)
         end
     else ret (EmptyString, EmptyString)) ;;
  modify (fun st => set_ic (ic st + 1) st) ;;
  encode_additional_words (fst operands) (snd operands) has_src has_dest
    src_addr_mode dest_addr_mode.

Definition parse_line_second_pass (line : string) : M bool :=
  let current_token := copy_next_token line SEPS_COLON in
  labelled <- is_symbol current_token true ;;
  token_line <-
    (if labelled then
       match extract_remaining_seq line ":" with
       | Some line => ret (copy_next_token line SEPS_COMMA, line)
       | None => undefined
       end
     else ret (current_token, line)) ;;
  let current_token := fst token_line in
  let line := snd token_line in
  let op_val := find_operation current_token in
  if is_op op_val then
    match extract_remaining_seq line SEPS_COMMA with
    | Some line => process_operation_second_pass op_val line
    | None => undefined
    end
  else
    let dir_val := find_directive current_token in
    if is_dir dir_val then
      match dir_val with
      | ENTRY =>
          match extract_remaining_seq line SEPS_COMMA with
          | Some line => make_entry (copy_next_token line SEPS_BLANK)
          | None => undefined
          end
      | _ => ret true
      end
    else ret true.

Fixpoint second_pass_lines (lines : list string) (was_error : bool) : M bool :=
  match lines with
  | [] => ret was_error
  | line :: rest =>
      let line := trim_whitespaces line in
      ok <- (if negb (should_ignore line) then parse_line_second_pass line
             else ret true) ;;
      modify (fun st => set_line_num (line_num st + 1) st) ;;
      second_pass_lines rest (if negb ok then true else was_error)
  end.

(** The assignments that open [second_process]. *)
Definition second_pass_start (st : state) : state :=
  set_ext_table [] (set_line_num 1 (set_ic 0 st)).

Definition second_process (am_file : string) : M bool :=
  modify second_pass_start ;;
  second_pass_lines (file_lines am_file) false.

(** ** [pre_asm.c] *)

Record mcr : Type := mk_mcr {
  mcr_name : string;
  lines : list string
}.

(** [strncmp(s, prefix, strlen(prefix)) == 0]. *)
Fixpoint starts_with (prefix s : string) : bool :=
  match prefix, s with
  | EmptyString, _ => true
  | String p prefix', String c s' => ascii_eqb p c && starts_with prefix' s'
  | String _ _, EmptyString => false
  end.

(** [strtok]: the token that follows the leading delimiters, and the text
    after the delimiter that ended it, where the next call resumes. *)
Fixpoint strtok_skip (s delims : string) : string :=
  match s with
  | String c rest => if is_separator c delims then strtok_skip rest delims else s
  | EmptyString => EmptyString
  end.

Fixpoint strtok_split (s delims : string) : string * string :=
  match s with
  | String c rest =>
      if is_separator c delims then (EmptyString, rest)
      else let (t, r) := strtok_split rest delims in (String c t, r)
  | EmptyString => (EmptyString, EmptyString)
  end.

Definition strtok (s delims : string) : option (string * string) :=
  match strtok_skip s delims with
  | EmptyString => None
  | String c rest => Some (strtok_split (String c rest) delims)
  end.

(** A [Mcrptr] into the table is the position of the node. *)
Fixpoint find_macro (macro_table : list mcr) (n : string) : option nat :=
  match macro_table with
  | [] => None
  | m :: rest =>
      if streq (mcr_name m) n then Some O
      else match find_macro rest n with Some i => Some (S i) | None => None end
  end.

Definition add_line_to_macro (macro : nat) (line : string) (macro_table : list mcr)
    : list mcr :=
  alter (fun m => mk_mcr (mcr_name m) (lines m ++ [line])) macro macro_table.

(** The lines written one after the other. *)
Definition concat_lines (ls : list string) : string :=
  fold_right String.append EmptyString ls.

(** The text [expand_macro] writes. *)
Definition expand_macro (macro_table : list mcr) (macro_name : string)
    : option string :=
  match find_macro macro_table macro_name with
  | Some i =>
      match macro_table !! i with
      | Some m => Some (concat_lines (lines m))
      | None => None
      end
  | None => None
  end.

(** The checks of [is_macro], in the order of the source. *)
Definition macro_verdict (token : string) : verdict :=
  let token_len := strlen token in
  if MAX_MCR_LEN <? token_len then Reject (Some MCR_TOO_LONG)
  else if is_register token then Reject (Some MCR_CANNOT_BE_REG)
  else if is_op (find_operation token) then Reject (Some MCR_CANNOT_BE_OP)
  else if is_dir (find_directive token) then Reject (Some MCR_CANNOT_BE_DIR)
  else Accept.

Definition is_macro (token : string) : M bool := report (macro_verdict token).

(** The local variables of [pre_process] that live across the lines, and
    the text written to the expanded file so far. *)
Record pre_state : Type := mk_pre_state {
  macro_table : list mcr;
  current_macro : option nat;
  is_inside_macro : bool;
  extended_src : string
}.

(** One turn of the loop of [pre_process]: [inl] is [success = FALSE; break],
    [inr] the locals after the turn, before [line_num++].  [macro_name] is
    the token that [strcpy] copies into a block of [MAX_MCR_LEN] bytes
    before [is_macro] tests its length; the copy has no capacity here, and
    for a name that does not fit the block the model goes on with the
    tests of [is_macro]. *)
Definition pre_process_line (line : string) (ps : pre_state)
    : M (unit + pre_state) :=
  let trimmed_line := trim_whitespaces line in
  if starts_with "mcro" trimmed_line then
    match strtok (str_drop 4 trimmed_line) " " with
    | None => print_error MCR_MISSING_NAME ;; ret (inl tt)
    | Some (macro_name, rest) =>
        match strtok rest " " with
        | Some _ => print_error MCR_MCRO_EXTRANEOUS_TEXT ;; ret (inl tt)
        | None =>
            ok <- is_macro macro_name ;;
            if ok then
              ret (inr (mk_pre_state
                          (macro_table ps ++ [mk_mcr macro_name []])
                          (Some (length (macro_table ps)))
                          true (extended_src ps)))
            else ret (inl tt)
        end
    end
  else if is_inside_macro ps && starts_with "endmcro" trimmed_line then
    match strtok (str_drop 7 trimmed_line) " " with
    | Some _ => print_error MCR_ENDMCRO_EXTRANEOUS_TEXT ;; ret (inl tt)
    | None =>
        ret (inr (mk_pre_state (macro_table ps) None false (extended_src ps)))
    end
  else if is_inside_macro ps then
    match current_macro ps with
    | Some m =>
        ret (inr (mk_pre_state (add_line_to_macro m line (macro_table ps))
                    (current_macro ps) (is_inside_macro ps) (extended_src ps)))
    | None => undefined
    end
  else
    match expand_macro (macro_table ps) trimmed_line with
    | Some text =>
        ret (inr (mk_pre_state (macro_table ps) (current_macro ps)
                    (is_inside_macro ps) (extended_src ps ++ text)))
    | None =>
        ret (inr (mk_pre_state (macro_table ps) (current_macro ps)
                    (is_inside_macro ps) (extended_src ps ++ line)))
    end.

(** The loop of [pre_process]: the value of [success] and the locals when
    it ends. *)
Fixpoint pre_process_lines (src_lines : list string) (ps : pre_state)
    : M (bool * pre_state) :=
  match src_lines with
  | [] => ret (true, ps)
  | line :: rest =>
      r <- pre_process_line line ps ;;
      match r with
      | inl _ => ret (false, ps)
      | inr ps' =>
          modify (fun st => set_line_num (line_num st + 1) st) ;;
          pre_process_lines rest ps'
      end
  end.

(** [pre_process] on the content of the source file: the value returned
    and the content of the expanded file, which is removed on failure. *)
Definition pre_process (as_file : string) : M (bool * option string) :=
  modify (set_line_num 1) ;;
  r <- pre_process_lines (file_lines as_file)
         (mk_pre_state [] None false EmptyString) ;;
  let '(success, ps) := r in
  if success then ret (true, Some (extended_src ps)) else ret (false, None).

(** ** Notions used to state the properties *)

(** The two arrays have the [MEM_SIZE] words that [main.c] declares. *)
Definition arrays_ok (st : state) : Prop :=
  Z.of_nat (length (code st)) = MEM_SIZE /\ Z.of_nat (length (data st)) = MEM_SIZE.

(** The words of the data segment: [data[0 .. dc)]. *)
Definition data_segment (st : state) : list Z := take (Z.to_nat (dc st)) (data st).

(** [st'] is [st] but for the messages printed. *)
Definition only_out (st st' : state) : Prop := st' = set_out (out st') st.

(** The node [find_symbol] points to. *)
Definition lookup_symbol (table : list symbol) (n : string) : option symbol :=
  match find_symbol table n with
  | Some i => table !! i
  | None => None
  end.

(** The parts of a statement as [parse_line] and [parse_line_second_pass]
    cut them: the first token, whether it is a label, the text from the
    operation or directive name on, that name, and the text after it. *)
Definition first_token (line : string) : string := copy_next_token line SEPS_COLON.

Definition has_label (line : string) : bool :=
  accepted (symbol_verdict (first_token line) true).

Definition statement_text (line : string) : string :=
  if has_label line then
    match extract_remaining_seq line ":" with Some l => l | None => EmptyString end
  else line.

Definition keyword (line : string) : string :=
  if has_label line then copy_next_token (statement_text line) SEPS_COMMA
  else first_token line.

Definition operand_text (line : string) : string :=
  match extract_remaining_seq (statement_text line) SEPS_COMMA with
  | Some l => l
  | None => EmptyString
  end.

(** The number of operand words in the words of the specification: one for
    each operand, and one for both when both are registers. *)
Definition operand_words (ops : operands) : Z :=
  if has_first_operand ops && has_second_operand ops &&
     mode_eqb (addr_mode_of (first_operand ops)) REG_DIRECT_ADDR &&
     mode_eqb (addr_mode_of (second_operand ops)) REG_DIRECT_ADDR
  then 1
  else (if has_first_operand ops then 1 else 0) +
       (if has_second_operand ops then 1 else 0).

(** The source and destination fields of the first word of an instruction
    in the words of the specification. *)
Definition src_mode_field (ops : operands) : Z :=
  if has_first_operand ops && has_second_operand ops
  then mode_val (addr_mode_of (first_operand ops)) else 0.

Definition dest_mode_field (ops : operands) : Z :=
  if has_first_operand ops && has_second_operand ops
  then mode_val (addr_mode_of (second_operand ops))
  else if has_first_operand ops then mode_val (addr_mode_of (first_operand ops))
  else 0.

(** The address of a symbol after the two sweeps that end the first pass. *)
Definition finalise (final_ic : Z) (s : symbol) : symbol :=
  if is_ext s then s
  else
    match type s with
    | Some INSTRUCTION =>
        mk_symbol (name s) (address s + MEM_START) (type s) (is_ext s) (is_ent s)
    | Some DIRECTIVE =>
        mk_symbol (name s) (address s + (final_ic + MEM_START)) (type s)
          (is_ext s) (is_ent s)
    | None => s
    end.

(** The parameters that the loop of [process_data_dir] reads from a line it
    accepts. *)
Fixpoint data_params (fuel : nat) (line : string) : list string :=
  match fuel with
  | O => []
  | S fuel' =>
      if is_empty (Some line) then []
      else
        copy_next_token line SEPS_COMMA ::
        match extract_remaining_seq line SEPS_COMMA with
        | Some line =>
            data_params fuel'
              (if negb (is_empty (Some line)) then str_drop 1 line else line)
        | None => []
        end
  end.

(** The characters between the quotes of the parameter of [.string]. *)
Definition string_chars (line : string) : string :=
  str_init (str_drop 1 (copy_next_token (trim_end_whitespaces line) EmptyString)).

Fixpoint chars_of (s : string) : list ascii :=
  match s with
  | String c rest => c :: chars_of rest
  | EmptyString => []
  end.

(** A data word as the specification describes it: the value in two's
    complement on [bits] bits (twelve in its words, ten in its mask
    [0x3FF]), shifted above the field [ARE] set to [ABSOLUTE]. *)
Definition data_word_spec (bits value : Z) : Z :=
  Z.lor (Z.shiftl (Z.land value (Z.ones bits)) ARE_BITS) (are_val ABSOLUTE).


(** The characters of [s] are those of ASCII, the characters on which the
    functions of [ctype.h] are defined whatever the sign of [char]. *)
Fixpoint ascii_only (s : string) : bool :=
  match s with
  | String c rest => (char_code c <? 128) && ascii_only rest
  | EmptyString => true
  end.

(** A line of a macro definition in the words of the specification: its
    first token is [mcro]. *)
Definition mcro_line_spec (line : string) : bool :=
  streq (copy_next_token line SEPS_BLANK) "mcro".


(** The rules that [is_macro] enforces. *)
Definition macro_name_rules (n : string) : Prop :=
  strlen n <= MAX_MCR_LEN /\
  is_register n = false /\
  is_op (find_operation n) = false /\
  is_dir (find_directive n) = false.

(** The state with [msgs] printed. *)
Definition log (msgs : list (Z * err)) (st : state) : state :=
  set_out (out st ++ msgs) st.

(** The words [ws] stored from index [i] on, one after the other. *)
Fixpoint store_list (a : list Z) (i : Z) (ws : list Z) : option (list Z) :=
  match ws with
  | [] => Some a
  | w :: rest =>
      match array_store a i w with
      | Some a' => store_list a' (i + 1) rest
      | None => None
      end
  end.

(** The parameters of a [.data] line and the words they denote. *)
Definition data_items (line : string) : list string :=
  data_params (S (String.length line)) line.

Definition number_word (param : string) : Z := to_uint (atoi_value param).

(** A parameter of [.data] with the text [rest] behind it, white space
    skipped, is appended when it is a number and [rest] is the end of the
    line or a comma in front of text that is not blank. *)
Definition appendable (param rest : string) : bool :=
  is_number param &&
  match rest with
  | EmptyString => true
  | String c rest' => ascii_eqb c "," && negb (is_empty (Some rest'))
  end.

(** The parameters in front of the first one of the line that is not
    [appendable]. *)
Fixpoint appended_params (fuel : nat) (line : string) : list string :=
  match fuel with
  | O => []
  | S fuel' =>
      if is_empty (Some line) then []
      else
        match extract_remaining_seq line SEPS_COMMA with
        | Some rest =>
            if appendable (copy_next_token line SEPS_COMMA) rest
            then copy_next_token line SEPS_COMMA ::
                 appended_params fuel'
                   (if negb (is_empty (Some rest)) then str_drop 1 rest else rest)
            else []
        | None => []
        end
  end.

Definition data_appended (line : string) : list string :=
  appended_params (S (String.length line)) line.

(** The tests that the text after the name of a directive passes before
    the function of the directive reads it: the two comma tests of
    [parse_line] and the test of [process_directive] for a missing
    parameter. *)
Definition passes_commas (text : string) : bool :=
  negb (match text with String c _ => ascii_eqb c "," | EmptyString => false end) &&
  negb (has_consecutive_commas text) &&
  negb (is_empty (Some text)).

(** Whether [parse_line] reaches the parameters of the directive of
    [line]: the label of the line, if it has one, is not in the table yet,
    and the text after the name of the directive passes the tests above. *)
Definition reads_params (line : string) (st : state) : bool :=
  negb (has_label line &&
        is_existing_symbol (symbol_table st) (str_init (first_token line))) &&
  passes_commas (operand_text line).

Definition character_word (c : ascii) : Z := to_uint (char_to_int c).

(** The symbol table while [parse_line] holds a provisional label: the
    label [lab] is the last node, at position [p], and its name is new. *)
Definition labelled (current_symbol : option nat) (table : list symbol)
    (lab : symbol) (st : state) : Prop :=
  match current_symbol with
  | None => symbol_table st = table
  | Some p =>
      symbol_table st = (table ++ [lab])%list /\ p = length table /\
      find_symbol table (name lab) = None
  end.

(** The label with its segment and address set. *)
Definition placed (lab : symbol) (t : statement_type) (addr : Z) : symbol :=
  mk_symbol (name lab) (to_uint addr) (Some t) (is_ext lab) (is_ent lab).

Definition with_label (current_symbol : option nat) (table : list symbol)
    (lab : symbol) (t : statement_type) (addr : Z) (st : state) : state :=
  match current_symbol with
  | Some _ => set_symbol_table (table ++ [placed lab t addr]) st
  | None => st
  end.

(** The label of a line, as [parse_line] adds it to the table. *)
Definition label_of (line : string) : symbol :=
  mk_symbol (str_init (first_token line)) DEFAULT_ADDR None false false.

(** The symbol that [.extern] adds. *)
Definition extern_symbol (n : string) : symbol :=
  mk_symbol n DEFAULT_ADDR (Some DIRECTIVE) true false.

(** The state in which [parse_line] runs [process_operation] or
    [process_directive]: the messages of the label test are printed and the
    label of the line, if it has one, is in the table with its segment and
    address. *)
Definition label_state (line : string) (t : statement_type) (addr : Z)
    (msgs : list (Z * err)) (st : state) : state :=
  if has_label line
  then set_symbol_table (symbol_table st ++ [placed (label_of line) t addr])
         (log msgs st)
  else log msgs st.

(** What holds of a symbol during the first pass: an external symbol has
    address zero in the segment [DIRECTIVE]; any other one has its segment
    set and an address below the counter of that segment. *)
Definition symbol_ok (st : state) (s : symbol) : Prop :=
  if is_ext s then address s = 0 /\ type s = Some DIRECTIVE
  else (type s = Some INSTRUCTION /\ 0 <= address s < ic st) \/
       (type s = Some DIRECTIVE /\ 0 <= address s < dc st).

(** The invariant of the first pass. *)
Definition pass1_inv (st : state) : Prop :=
  arrays_ok st /\
  0 <= ic st <= MEM_SIZE + 2 /\
  0 <= dc st <= MEM_SIZE /\
  Forall (symbol_ok st) (symbol_table st).

(** The convention on the symbol table that the encoding of a direct
    operand relies on: an external symbol has address zero, and every
    address fits in thirty bits. *)
Definition table_convention (table : list symbol) : Prop :=
  Forall (fun s => (is_ext s = true -> address s = 0) /\ 0 <= address s < 2 ^ 30)
    table.

(** ** Sample inputs *)

(** The state a run ends in. *)
Definition run_state {A : Type} (r : option (A * state)) : state :=
  match r with
  | Some (_, st) => st
  | None => initial_state
  end.

Definition EOL : string := String NEWLINE EmptyString.

Definition sample_mov : string := "MAIN: mov @r3, @r4".

Definition sample_program : string :=
  "MAIN: mov @r3, @r4" ++ EOL ++ "LIST: .data 7, -57, +17" ++ EOL ++
  "      jmp MAIN" ++ EOL ++ "      stop" ++ EOL.

Definition sample_data : string := "LIST: .data 7, -57, +17".

Definition sample_bad_data : string := ".data 1, x".

Definition sample_trailing_comma : string := ".data 1, 2,".

Definition sample_missing_comma : string := ".data 5 x".


Definition sample_mcro_label : string := "mcrodata: .data 5" ++ EOL.

Definition sample_nul_line : string := String "a" (String NUL (String "b" EOL)).

Definition sample_extern_program : string :=
  "      .extern EXT" ++ EOL ++ "      jmp EXT" ++ EOL.

Definition sample_macro_line : string := "mcro INIT" ++ EOL.


Definition sample_unknown : string := "LOOP: foo @r1".

(** ** [stdio.h]: formatted output *)

(** The conversion [%d] of an [int]. *)
Definition print_int (z : Z) : string := NilZero.string_of_int (Z.to_int z).

(** [%d] given an [unsigned int]: the value has to be one of [int] too. *)
Definition print_unsigned (u : Z) : option string :=
  if u <=? INT_MAX then Some (print_int u) else None.

(** The tab of the formats. *)
Definition TABS : string := String TAB EmptyString.

(** ** [utils.c]: [generate_new_filename] *)

(** [utils.h]: [file_type]. *)
Inductive file_type : Type :=
  | FILE_SOURCE | FILE_MACRO | FILE_OBJECT | FILE_ENTRIES | FILE_EXTERNALS.

(** [strcpy] and [strcat] into the buffer allocated for the name. *)
Definition generate_new_filename (original : string) (type : file_type) : string :=
  original ++
  match type with
  | FILE_SOURCE => ".as"
  | FILE_MACRO => ".am"
  | FILE_OBJECT => ".ob"
  | FILE_ENTRIES => ".ent"
  | FILE_EXTERNALS => ".ext"
  end.

(** ** [output_files.h], [output_files.c] *)

Definition BASE64_ENCODED_STRING_SIZE : Z := 2.
Definition FIRST_HALF_START : Z := 0.
Definition FIRST_HALF_END : Z := 5.
Definition SECOND_HALF_START : Z := 6.
Definition SECOND_HALF_END : Z := 11.

(** The array [base64_table] of [convert_to_base64], without its
    terminator. *)
Definition base64_table : list ascii :=
  chars_of "ABCDEFGHIJKLMNOPQRSTUVWXYZabcdefghijklmnopqrstuvwxyz0123456789+/".

(** [convert_to_base64]: the content of [encoded_string]; [None] is an
    index outside [base64_table]. *)
Definition convert_to_base64 (word : Z) : option string :=
  match base64_table !! Z.to_nat (extract_bits word SECOND_HALF_START SECOND_HALF_END),
        base64_table !! Z.to_nat (extract_bits word FIRST_HALF_START FIRST_HALF_END) with
  | Some hi, Some lo => Some (String hi (String lo EmptyString))
  | _, _ => None
  end.

(** [fprintf(fd, "%s\t%d\n", name, address)]. *)
Definition print_name_address (n : string) (addr : Z) : option string :=
  match print_unsigned addr with
  | Some a => Some (n ++ TABS ++ a ++ EOL)
  | None => None
  end.

(** [create_ent_file]: the text written, for the symbol table from
    [current_symbol] on. *)
Fixpoint create_ent_file (table : list symbol) : option string :=
  match table with
  | [] => Some EmptyString
  | current_symbol :: rest =>
      match (if is_ent current_symbol
             then print_name_address (name current_symbol) (address current_symbol)
             else Some EmptyString),
            create_ent_file rest with
      | Some line, Some text => Some (line ++ text)
      | _, _ => None
      end
  end.

(** [create_ext_file]: the text written, for the table of external
    references from [current_ext] on. *)
Fixpoint create_ext_file (table : list ext) : option string :=
  match table with
  | [] => Some EmptyString
  | current_ext :: rest =>
      match print_name_address (ext_name current_ext) (ext_address current_ext),
            create_ext_file rest with
      | Some line, Some text => Some (line ++ text)
      | _, _ => None
      end
  end.

(** The loop [for (i = 0; i < ic + dc; i++)] of [create_ob_file], with
    [n] turns left. *)
Fixpoint create_ob_file_loop (n : nat) (i : Z) (st : state) : option string :=
  match n with
  | O => Some EmptyString
  | S n' =>
      match (if i <? ic st then array_load (code st) i
             else array_load (data st) (i - ic st)) with
      | Some word =>
          match convert_to_base64 word, create_ob_file_loop n' (i + 1) st with
          | Some encoded_string, Some text => Some (encoded_string ++ EOL ++ text)
          | _, _ => None
          end
      | None => None
      end
  end.

(** [create_ob_file]: the text written; [None] is a load outside an
    array. *)
Definition create_ob_file (st : state) : option string :=
  match create_ob_file_loop (Z.to_nat (ic st + dc st)) 0 st with
  | Some text => Some (print_int (ic st) ++ TABS ++ print_int (dc st) ++ EOL ++ text)
  | None => None
  end.

(** The text that a writer of [output_files.c] leaves in the file it is
    given. *)
Definition written (text : state -> option string) : M string :=
  fun st =>
    match text st with
    | Some t => Some (t, st)
    | None => None
    end.

(** [create_output_files]: the files written, name and content, in the
    order of the calls, and [false] where the function called [exit(1)];
    [can_create] tells whether [fopen(name, "w")] gives a stream. *)
Definition create_output_files (can_create : string -> bool) (source_filename : string)
    : M (bool * list (string * string)) :=
  let modified_filename_object := generate_new_filename source_filename FILE_OBJECT in
  if negb (can_create modified_filename_object) then
    print_error CANNOT_CREATE_FILE ;; ret (false, [])
  else
    ob <- written create_ob_file ;;
    let files := [(modified_filename_object, ob)] in
    entry <- gets is_entry_exists ;;
    r <- (if entry then
            let modified_filename_entries :=
              generate_new_filename source_filename FILE_ENTRIES in
            if negb (can_create modified_filename_entries) then
              print_error CANNOT_CREATE_FILE ;; ret (false, files)
            else
              ent <- written (fun st => create_ent_file (symbol_table st)) ;;
              ret (true, (files ++ [(modified_filename_entries, ent)])%list)
          else ret (true, files)) ;;
    if negb (fst r) then ret r
    else
      let files := snd r in
      extern <- gets is_extern_exists ;;
      if extern then
        let modified_filename_externals :=
          generate_new_filename source_filename FILE_EXTERNALS in
        if negb (can_create modified_filename_externals) then
          print_error CANNOT_CREATE_FILE ;; ret (false, files)
        else
          ext <- written (fun st => create_ext_file (ext_table st)) ;;
          ret (true, (files ++ [(modified_filename_externals, ext)])%list)
      else ret (true, files).

(** ** The files of the directory *)

(** The content of each file that opens for reading. *)
Definition files : Type := string -> option string.

(** [fopen(filename, "w")], the text written, [fclose]. *)
Definition write_file (filename text : string) (fs : files) : files :=
  fun n => if streq n filename then Some text else fs n.

(** [remove(filename)], when it succeeds. *)
Definition remove_file (filename : string) (fs : files) : files :=
  fun n => if streq n filename then None else fs n.

(** The files of a list written one after the other. *)
Definition write_files (written : list (string * string)) (fs : files) : files :=
  fold_left (fun fs f => write_file (fst f) (snd f) fs) written fs.

(** ** The three stages on named files *)

(** [pre_process]: [can_create] tells whether [fopen(name, "w")] gives a
    stream and [can_remove] whether [remove(name)] returns zero; the value
    returned and the files when it returns. *)
Definition pre_process_file (can_create can_remove : string -> bool) (fs : files)
    (source_filename : string) : M (bool * files) :=
  modify (set_line_num 1) ;;
  let modified_filename_source := generate_new_filename source_filename FILE_SOURCE in
  let modified_filename_macro := generate_new_filename source_filename FILE_MACRO in
  match fs modified_filename_source with
  | None => print_error CANNOT_OPEN_FILE ;; ret (false, fs)
  | Some as_file =>
      if negb (can_create modified_filename_macro) then
        print_error CANNOT_CREATE_FILE ;; ret (false, fs)
      else
        r <- pre_process_lines (file_lines as_file)
               (mk_pre_state [] None false EmptyString) ;;
        let fs := write_file modified_filename_macro (extended_src (snd r)) fs in
        if fst r then ret (true, fs)
        else if can_remove modified_filename_macro then
          ret (false, remove_file modified_filename_macro fs)
        else print_error CANNOT_DELETE_FILE ;; ret (false, fs)
  end.

(** [first_process] and [second_process]: the assignments, then
    [fopen(name, "r")] of the expanded file, with [CANNOT_OPEN_FILE] and
    [TRUE] when it does not open. *)
Definition first_process_file (fs : files) (source_filename : string) : M bool :=
  match fs (generate_new_filename source_filename FILE_MACRO) with
  | None => modify first_pass_start ;; print_error CANNOT_OPEN_FILE ;; ret true
  | Some am_file => first_process am_file
  end.

Definition second_process_file (fs : files) (source_filename : string) : M bool :=
  match fs (generate_new_filename source_filename FILE_MACRO) with
  | None => modify second_pass_start ;; print_error CANNOT_OPEN_FILE ;; ret true
  | Some am_file => second_process am_file
  end.

(** ** [main.c] *)

(** One turn of the loop of [main], for the argument [arg]: [false] where
    the turn called [exit(1)], and the files when it ends.  The turn ends
    with [free_symbol] and [free_ext], which empty the two tables, unless
    a [continue] skipped them. *)
Definition main_turn (can_create can_remove : string -> bool) (arg : string)
    (fs : files) : M (bool * files) :=
  r <- pre_process_file can_create can_remove fs arg ;;
  let fs := snd r in
  if negb (fst r) then print_error MCR_EXP_FAILED ;; ret (true, fs)
  else
    first_error <- first_process_file fs arg ;;
    first_success <-
      (if first_error then print_error FIRST_PASS_FAILED ;; ret false else ret true) ;;
    second_error <- second_process_file fs arg ;;
    if second_error then print_error SECOND_PASS_FAILED ;; ret (true, fs)
    else
      let second_success := true in
      r <- (if first_success && second_success
            then create_output_files can_create arg
            else ret (true, [])) ;;
      let fs := write_files (snd r) fs in
      if negb (fst r) then ret (false, fs)
      else
        modify (set_symbol_table []) ;;
        modify (set_ext_table []) ;;
        ret (true, fs).

(** The loop [for (i = 1; i < argc; i++)]: the exit status and the files. *)
Fixpoint main_loop (can_create can_remove : string -> bool) (args : list string)
    (fs : files) : M (Z * files) :=
  match args with
  | [] => ret (0, fs)
  | arg :: rest =>
      r <- main_turn can_create can_remove arg fs ;;
      if fst r then main_loop can_create can_remove rest (snd r)
      else ret (1, snd r)
  end.

(** [main]: [args] is [argv[1 .. argc - 1]]. *)
Definition main (can_create can_remove : string -> bool) (args : list string)
    (fs : files) : M (Z * files) :=
  match args with
  | [] => print_error NOT_ENOUGH_PARAMS ;; ret (1, fs)
  | _ :: _ => main_loop can_create can_remove args fs
  end.

(** ** Further notions used to state the properties *)

(** The names [is_symbol] accepts when no colon is expected. *)
Definition symbol_name_syntax (n : string) : Prop :=
  strlen n <= MAX_SYMBOL_LEN /\
  is_op (find_operation n) = false /\
  exists c rest, n = String c rest /\ isalpha c = true /\ all_alnum rest = true.

(** The messages printed between two states, all for the line that is
    being read. *)
Definition emitted (msgs : list (Z * err)) (st st' : state) : Prop :=
  line_num st' = line_num st /\
  out st' = (out st ++ msgs)%list /\
  Forall (fun m => fst m = line_num st) msgs.

(** A function that returns [b] after it printed a message if and only if
    [b] is [FALSE]. *)
Definition reports (b : bool) (st st' : state) : Prop :=
  exists msgs, emitted msgs st st' /\ (b = true <-> msgs = []).

(** Between two states only messages for the current line were printed. *)
Definition emits (st st' : state) : Prop := exists msgs, emitted msgs st st'.

(** What holds of the symbol table and of the two flags during the first
    pass. *)
Definition table_inv (st : state) : Prop :=
  NoDup (map name (symbol_table st)) /\
  Forall (fun s => is_ent s = false) (symbol_table st) /\
  is_entry_exists st = false /\
  (is_extern_exists st = true <-> Exists (fun s => is_ext s = true) (symbol_table st)).

(** What the second pass leaves as it is, and where it writes: the data,
    the data counter, the flag of external symbols and the size of the code
    array are kept, the instruction counter does not go back, and no word
    changes below the counter as it was or from the counter as it is. *)
Definition pass2_frame (st st' : state) : Prop :=
  data st' = data st /\ dc st' = dc st /\
  is_extern_exists st' = is_extern_exists st /\
  length (code st') = length (code st) /\
  ic st <= ic st' /\
  (forall j : nat, Z.of_nat j < ic st -> code st' !! j = code st !! j) /\
  (forall j : nat, ic st' <= Z.of_nat j -> code st' !! j = code st !! j).

(** A record of the table of external references: it names an external
    symbol, and its address is that of a code word, stored below the
    instruction counter, whose field [ARE] is [EXTERNAL]. *)
Definition ext_record_ok (table : list symbol) (st : state) (e : ext) : Prop :=
  is_extern_symbol table (ext_name e) = true /\
  0 <= ext_address e - MEM_START < ic st /\
  exists w, code st !! Z.to_nat (ext_address e - MEM_START) = Some w /\
            extract_bits w 0 (ARE_BITS - 1) = are_val EXTERNAL.

(** A step of the second pass that encodes [k] words: it moves the
    instruction counter by [k], keeps the symbol table and the flag of
    entries, and adds well-formed records to the table of external
    references. *)
Definition encodes (k : Z) (st st' : state) : Prop :=
  pass2_frame st st' /\
  ic st' = ic st + k /\
  symbol_table st' = symbol_table st /\
  is_entry_exists st' = is_entry_exists st /\
  exists new,
    ext_table st' = (ext_table st ++ new)%list /\
    Forall (ext_record_ok (symbol_table st) st') new.

(** The words that the second pass gives to an operand whose mode field
    holds [m], and to the operands of an instruction. *)
Definition mode_words (m : Z) : Z :=
  if (m =? mode_val IMMEDIATE_ADDR) || (m =? mode_val DIRECT_ADDR) ||
     (m =? mode_val REG_DIRECT_ADDR)
  then 1 else 0.

Definition additional_words (has_src has_dest : bool) (src_mode dest_mode : Z) : Z :=
  if has_src && has_dest && (src_mode =? mode_val REG_DIRECT_ADDR) &&
     (dest_mode =? mode_val REG_DIRECT_ADDR)
  then 1
  else if has_dest then
    if has_src then mode_words src_mode + mode_words dest_mode
    else mode_words dest_mode
  else 0.

(** Two symbol tables that differ at most by entry flags set. *)
Definition same_symbols (t t' : list symbol) : Prop :=
  Forall2 (fun s s' => name s' = name s /\ address s' = address s /\
                       type s' = type s /\ is_ext s' = is_ext s /\
                       (is_ent s = true -> is_ent s' = true)) t t'.

(** The flag of entries is set if and only if a symbol is an entry. *)
Definition entry_inv (st : state) : Prop :=
  is_entry_exists st = true <-> Exists (fun s => is_ent s = true) (symbol_table st).

(** A line of the second pass. *)
Definition pass2_step (st st' : state) : Prop :=
  pass2_frame st st' /\
  same_symbols (symbol_table st) (symbol_table st') /\
  (entry_inv st -> entry_inv st') /\
  exists new,
    ext_table st' = (ext_table st ++ new)%list /\
    Forall (ext_record_ok (symbol_table st) st') new.

(** The label test of a line prints nothing: the first token is a label,
    or it does not end with a colon. *)
Definition quiet_label (line : string) : Prop :=
  forall e, symbol_verdict (first_token line) true <> Reject (Some e).

(** The words of the code segment: [code[0 .. ic)]. *)
Definition code_segment (st : state) : list Z := take (Z.to_nat (ic st)) (code st).

(** The three kinds of output file. *)
Definition output_type (t : file_type) : Prop :=
  t = FILE_OBJECT \/ t = FILE_ENTRIES \/ t = FILE_EXTERNALS.

(** ** Further sample inputs *)

(** The value a run returns, [d] for a run that is undefined. *)
Definition run_value {A : Type} (d : A) (r : option (A * state)) : A :=
  match r with
  | Some (a, _) => a
  | None => d
  end.

Definition sample_entry_program : string :=
  "MAIN: mov @r3, @r4" ++ EOL ++ "      .entry MAIN" ++ EOL ++
  "      .extern EXT" ++ EOL ++ "      jmp EXT" ++ EOL ++ "      stop" ++ EOL.

(** A directory that holds the source file [prog.as] only. *)
Definition sample_files : files :=
  fun n => if streq n "prog.as" then Some sample_entry_program else None.

(** A directory that holds the source file [bad.as] only, of one line that
    the first pass refuses. *)
Definition sample_error_files : files :=
  fun n => if streq n "bad.as" then Some ("      foo" ++ EOL) else None.

(** Every file can be created, or removed. *)
Definition every_file (filename : string) : bool := true.

(** The states after the first pass and after the two passes on a file,
    from the initial state. *)
Definition after_first (am_file : string) : state :=
  run_state (first_process am_file initial_state).

Definition after_second (am_file : string) : state :=
  run_state (second_process am_file (after_first am_file)).

(** The state in which the second pass, after the first pass on
    [sample_extern_program], begins the second line, [jmp EXT], and the
    state in which it resolves the operand [EXT] of that line: the
    instruction counter is past the first word of the instruction. *)
Definition sample_second_line_state : state :=
  set_line_num 2 (second_pass_start (after_first sample_extern_program)).

Definition sample_operand_state : state := set_ic 1 sample_second_line_state.

Definition sample_macro_body : list string := ["      mov @r1, @r2" ++ EOL].

Definition sample_macro_end : string := "endmcro" ++ EOL.


(** The locals of [pre_process] before the first line. *)
Definition pre_start : pre_state := mk_pre_state [] None false EmptyString.

Definition sample_entries : list symbol :=
  [mk_symbol "MAIN" 100 (Some INSTRUCTION) false true;
   mk_symbol "EXT" 0 (Some DIRECTIVE) true false].

Definition sample_externals : list ext := [mk_ext "EXT" 103].

(** * Properties *)








(** ** Lexical utilities *)

#[local] Arguments is_empty : simpl never.
#[local] Arguments copy_next_token : simpl never.
#[local] Arguments extract_remaining_seq : simpl never.

Lemma is_empty_cons c s :
  is_empty (Some (String c s)) = isspace c && is_empty (Some s).
Proof. unfold is_empty. simpl. destruct (isspace c); reflexivity. Qed.

Lemma skip_whitespaces_split s :
  exists l, s = l ++ skip_whitespaces s /\ is_empty (Some l) = true.
Proof.
  induction s as [|c s (l & E & B)]; simpl.
  - exists "". split; reflexivity.
  - destruct (isspace c) eqn:Hc.
    + exists (String c l). split; [simpl; now rewrite <- E|].
      rewrite is_empty_cons, Hc. exact B.
    + exists "". split; reflexivity.
Qed.

Lemma skip_whitespaces_head s :
  match skip_whitespaces s with String c _ => isspace c = false | EmptyString => True end.
Proof.
  induction s as [|c s IH]; simpl; [exact I|].
  destruct (isspace c) eqn:Hc; [exact IH | exact Hc].
Qed.

Lemma trim_end_whitespaces_split s :
  exists r, s = trim_end_whitespaces s ++ r /\ is_empty (Some r) = true.
Proof.
  induction s as [|c s (r & E & B)]; simpl.
  - exists "". split; reflexivity.
  - destruct (trim_end_whitespaces s) as [|d k] eqn:Ht.
    + destruct (isspace c) eqn:Hc.
      * exists (String c s). split; [reflexivity|].
        rewrite is_empty_cons, Hc. simpl in E. now rewrite E.
      * exists r. split; [simpl in *; now rewrite <- E | exact B].
    + exists r. split; [simpl in *; now rewrite <- E | exact B].
Qed.

Lemma trim_end_whitespaces_last s :
  match str_last (trim_end_whitespaces s) with
  | Some c => isspace c = false
  | None => True
  end.
Proof.
  induction s as [|c s IH]; simpl; [exact I|].
  destruct (trim_end_whitespaces s) as [|d k] eqn:Ht.
  - destruct (isspace c) eqn:Hc; simpl; [exact I | exact Hc].
  - exact IH.
Qed.

Lemma trim_end_whitespaces_head c s :
  isspace c = false ->
  exists k, trim_end_whitespaces (String c s) = String c k.
Proof.
  intros Hc. simpl. destruct (trim_end_whitespaces s); rewrite ?Hc; eauto.
Qed.

Lemma trim_end_whitespaces_fixed s :
  match str_last s with Some c => isspace c = false | None => True end ->
  trim_end_whitespaces s = s.
Proof.
  induction s as [|c s IH]; [reflexivity|].
  intros H. simpl. destruct s as [|d s'].
  - simpl in *. now rewrite H.
  - rewrite IH by exact H. reflexivity.
Qed.

Lemma skip_whitespaces_fixed s :
  match s with String c _ => isspace c = false | EmptyString => True end ->
  skip_whitespaces s = s.
Proof. destruct s as [|c s]; [reflexivity|]. simpl. now intros ->. Qed.

(** X1. [trim_whitespaces] removes white space at the two ends and nothing
    else: the string is the result between two blank strings, the result
    neither begins nor ends with a white-space character, and trimming the
    result again changes nothing. *)
Theorem trim_whitespaces_trimmed (str : string) :
  (exists l r, str = l ++ trim_whitespaces str ++ r /\
               is_empty (Some l) = true /\ is_empty (Some r) = true) /\
  match trim_whitespaces str with String c _ => isspace c = false | EmptyString => True end /\
  match str_last (trim_whitespaces str) with Some c => isspace c = false | None => True end /\
  trim_whitespaces (trim_whitespaces str) = trim_whitespaces str.
Proof.
  unfold trim_whitespaces.
  destruct (skip_whitespaces_split str) as (l & El & Bl).
  destruct (trim_end_whitespaces_split (skip_whitespaces str)) as (r & Er & Br).
  pose proof (skip_whitespaces_head str) as Hh.
  pose proof (trim_end_whitespaces_last (skip_whitespaces str)) as Hl.
  assert (Hhead : match trim_end_whitespaces (skip_whitespaces str) with
                  | String c _ => isspace c = false | EmptyString => True end).
  { destruct (skip_whitespaces str) as [|c k]; [exact I|].
    destruct (trim_end_whitespaces_head c k Hh) as (k' & ->). exact Hh. }
  split; [|split; [|split]].
  - exists l, r. split; [|split]; [|exact Bl|exact Br].
    rewrite <- Er. exact El.
  - exact Hhead.
  - exact Hl.
  - rewrite (skip_whitespaces_fixed _ Hhead). now apply trim_end_whitespaces_fixed.
Qed.

Lemma copy_skip_token s seps :
  exists body r,
    s = body ++ r /\
    (forall c, In c (chars_of body) -> is_separator c seps = false) /\
    match r with
    | String c r' =>
        is_separator c seps = true /\
        if ascii_eqb c ":" then
          copy_token s seps = body ++ ":" /\ skip_token s seps = r'
        else copy_token s seps = body /\ skip_token s seps = r
    | EmptyString => copy_token s seps = body /\ skip_token s seps = ""
    end.
Proof.
  induction s as [|c s (body & r & E & Hb & Hr)].
  - exists "", "". simpl. repeat split; auto. intros c [].
  - simpl. destruct (is_separator c seps) eqn:Hc.
    + exists "", (String c s). simpl. split; [reflexivity|]. split; [intros ? []|].
      split; [exact Hc|].
      destruct (ascii_eqb c ":") eqn:Hcol; [|split; reflexivity].
      unfold ascii_eqb in Hcol. apply Ascii.eqb_eq in Hcol. subst c. split; reflexivity.
    + exists (String c body), r. simpl. split; [now rewrite <- E|].
      split; [intros d [<-|Hd]; [exact Hc | now apply Hb]|].
      destruct r as [|d r'].
      * destruct Hr as [-> ->]. split; reflexivity.
      * destruct Hr as [Hd Hr]. split; [exact Hd|].
        destruct (ascii_eqb d ":"); destruct Hr as [-> ->]; split; reflexivity.
Qed.

Lemma is_empty_skip s : is_empty (Some (skip_whitespaces s)) = is_empty (Some s).
Proof.
  unfold is_empty. now rewrite (skip_whitespaces_fixed _ (skip_whitespaces_head s)).
Qed.

(** X2. [copy_next_token] and [extract_remaining_seq] cut a line at the
    same place.  On a blank line the token is empty and the rest is [NULL].
    Otherwise the line, after its leading white space, is a body free of
    separators followed by the rest [r]: the token is the body, and the
    remaining sequence is [r] without its leading white space; when the
    separator that ends the body is a colon, the colon belongs to the token
    and not to the remaining sequence. *)
Theorem token_then_rest (src seps : string) :
  if is_empty (Some src) then
    copy_next_token src seps = "" /\ extract_remaining_seq src seps = None
  else
    exists body r,
      skip_whitespaces src = body ++ r /\
      (forall c, In c (chars_of body) -> is_separator c seps = false) /\
      match r with
      | String c r' =>
          is_separator c seps = true /\
          if ascii_eqb c ":" then
            copy_next_token src seps = body ++ ":" /\
            extract_remaining_seq src seps = Some (skip_whitespaces r')
          else
            copy_next_token src seps = body /\
            extract_remaining_seq src seps = Some (skip_whitespaces r)
      | EmptyString =>
          copy_next_token src seps = body /\ extract_remaining_seq src seps = Some ""
      end.
Proof.
  unfold copy_next_token, extract_remaining_seq. rewrite is_empty_skip.
  destruct (is_empty (Some src)); [split; reflexivity|].
  destruct (copy_skip_token (skip_whitespaces src) seps) as (body & r & E & Hb & Hr).
  exists body, r. split; [exact E|]. split; [exact Hb|].
  destruct r as [|c r'].
  - destruct Hr as [-> ->]. split; reflexivity.
  - destruct Hr as [Hc Hr]. split; [exact Hc|].
    destruct (ascii_eqb c ":"); destruct Hr as [-> ->]; split; reflexivity.
Qed.

(** X3. [is_register] accepts the eight names [@r0] to [@r7] and no other
    string. *)
Theorem is_register_iff (token : string) :
  is_register token = true <->
  In token ["@r0"; "@r1"; "@r2"; "@r3"; "@r4"; "@r5"; "@r6"; "@r7"].
Proof.
  split.
  - destruct token as [|a [|b [|c [|d t]]]]; try discriminate.
    unfold is_register, ascii_eqb.
    destruct (Ascii.eqb_spec a "@") as [->|]; [|discriminate].
    destruct (Ascii.eqb_spec b "r") as [->|]; [|discriminate].
    destruct c as [[] [] [] [] [] [] [] []]; vm_compute; intros H;
      try discriminate H; tauto.
  - intros H. repeat (destruct H as [<-|H]; [reflexivity|]). destruct H.
Qed.

Lemma isalpha_not_at c : isalpha c = true -> ascii_eqb c "@" = false /\ ascii_eqb c "." = false.
Proof.
  unfold ascii_eqb. intros H.
  destruct (Ascii.eqb_spec c "@") as [->|_]; [discriminate H|].
  destruct (Ascii.eqb_spec c ".") as [->|_]; [discriminate H|].
  split; reflexivity.
Qed.

Lemma alpha_not_register c rest : isalpha c = true -> is_register (String c rest) = false.
Proof.
  intros H. destruct (isalpha_not_at c H) as [Ha _].
  unfold is_register. destruct rest as [|b [|d [|e t]]]; try reflexivity.
  now rewrite Ha.
Qed.

Lemma alpha_not_directive c rest :
  isalpha c = true -> is_dir (find_directive (String c rest)) = false.
Proof.
  intros H. destruct (isalpha_not_at c H) as [_ Hd].
  unfold find_directive, streq. simpl. unfold ascii_eqb in Hd.
  rewrite Hd. reflexivity.
Qed.

Lemma symbol_verdict_plain n :
  accepted (symbol_verdict n false) = true <-> symbol_name_syntax n.
Proof.
  unfold symbol_verdict, symbol_name_syntax. simpl.
  destruct (Z.ltb_spec MAX_SYMBOL_LEN (strlen n)) as [Hlen|Hlen].
  { split; [discriminate | lia]. }
  destruct n as [|c rest].
  { simpl. split; [discriminate|]. intros (_ & _ & c & r & E & _). discriminate E. }
  destruct (isalpha c) eqn:Hc.
  - rewrite (alpha_not_register c rest Hc), (alpha_not_directive c rest Hc).
    destruct (is_op (find_operation (String c rest))) eqn:Hop.
    + split; [discriminate|]. intros (_ & H & _). discriminate H.
    + simpl. destruct (all_alnum rest) eqn:Hr; simpl.
      * split; [|reflexivity]. intros _. split; [exact Hlen|]. split; [reflexivity|].
        exists c, rest. auto.
      * split; [discriminate|]. intros (_ & _ & c' & r' & [= -> ->] & _ & H). congruence.
  - split.
    + destruct (is_register _); [discriminate|].
      destruct (is_op _); [discriminate|]. destruct (is_dir _); discriminate.
    + intros (_ & _ & c' & r' & [= -> ->] & H & _). congruence.
Qed.

Lemma str_last_init s c : str_last s = Some c -> s = str_init s ++ String c "".
Proof.
  induction s as [|a s IH]; [discriminate|].
  simpl. destruct s as [|b s'].
  - now intros [= ->].
  - intros H. simpl. f_equal. now apply IH.
Qed.

Lemma str_last_app n c : str_last (n ++ String c "") = Some c.
Proof.
  induction n as [|a n IH]; [reflexivity|].
  simpl. destruct (n ++ String c "") eqn:E; [|exact IH].
  destruct n; discriminate E.
Qed.

Lemma str_init_app n c : str_init (n ++ String c "") = n.
Proof.
  induction n as [|a n IH]; [reflexivity|].
  simpl. destruct (n ++ String c "") eqn:E.
  - destruct n; discriminate E.
  - now rewrite IH.
Qed.

(** X4. The names [is_symbol] accepts: at most [MAX_SYMBOL_LEN] characters,
    not the name of an operation, a letter first and letters or digits
    after it (which rules out register and directive names).  Where a
    colon is expected, the token is such a name followed by the colon. *)
Theorem is_symbol_accepts (token : string) :
  (accepted (symbol_verdict token false) = true <-> symbol_name_syntax token) /\
  (accepted (symbol_verdict token true) = true <->
   exists n, token = n ++ ":" /\ symbol_name_syntax n).
Proof.
  split; [apply symbol_verdict_plain|].
  pose proof (symbol_verdict_plain (str_init token)) as Hp.
  unfold symbol_verdict in *. simpl in *.
  destruct (str_last token) as [c|] eqn:Hl.
  - unfold ascii_eqb. destruct (Ascii.eqb_spec c ":") as [->|Hne]; simpl.
    + rewrite Hp. split.
      * intros H. exists (str_init token). split; [now apply str_last_init | exact H].
      * intros (n & -> & H). now rewrite str_init_app.
    + split; [discriminate|]. intros (n & -> & _).
      rewrite str_last_app in Hl. congruence.
  - simpl. split; [discriminate|]. intros (n & -> & _).
    rewrite str_last_app in Hl. discriminate.
Qed.

Lemma no_quote_iff s :
  (fix no_quote (s : string) : bool :=
     match s with
     | String d s' => if ascii_eqb d DQUOTE then false else no_quote s'
     | EmptyString => true
     end) s = true <-> ~ In DQUOTE (chars_of s).
Proof.
  induction s as [|d s IH]; simpl.
  - split; [intros _ [] | reflexivity].
  - unfold ascii_eqb. destruct (Ascii.eqb_spec d DQUOTE) as [->|Hne].
    + split; [discriminate|]. intros H. exfalso. apply H. now left.
    + rewrite IH. split.
      * intros H [E|E]; [congruence | auto].
      * intros H E. apply H. now right.
Qed.

Lemma strlen_cons c s : strlen (String c s) = 1 + strlen s.
Proof. unfold strlen. simpl String.length. lia. Qed.

(** X5. [is_string] accepts the strings that open and close with a double
    quote and hold no other double quote, and only those. *)
Theorem is_string_iff (str : string) :
  is_string str = true <->
  exists body, str = String DQUOTE (body ++ String DQUOTE "") /\
               ~ In DQUOTE (chars_of body).
Proof.
  unfold is_string. destruct str as [|c rest].
  { split; [discriminate|]. intros (b & E & _). discriminate E. }
  rewrite !andb_true_iff, no_quote_iff. unfold ascii_eqb. split.
  - intros [[[Hlen Hc] Hl] Hq].
    apply Ascii.eqb_eq in Hc. subst c.
    destruct rest as [|d rest'].
    { rewrite strlen_cons in Hlen. unfold strlen in Hlen. simpl in Hlen. discriminate Hlen. }
    change (str_last (String DQUOTE (String d rest'))) with (str_last (String d rest')) in Hl.
    destruct (str_last (String d rest')) as [l|] eqn:El; [|discriminate].
    apply Ascii.eqb_eq in Hl. subst l.
    exists (str_init (String d rest')). split; [|exact Hq].
    f_equal. now apply str_last_init.
  - intros (body & [= -> ->] & Hq).
    rewrite str_init_app. split; [split; [split|]|].
    + apply Z.leb_le. unfold strlen. destruct body; simpl String.length; lia.
    + apply Ascii.eqb_refl.
    + change (str_last (String DQUOTE (body ++ String DQUOTE "")))
        with (str_last (String DQUOTE body ++ String DQUOTE "")).
      rewrite str_last_app. apply Ascii.eqb_refl.
    + exact Hq.
Qed.

Lemma blank_not_comma c : isspace c = true -> ascii_eqb c "," = false.
Proof.
  unfold ascii_eqb. destruct (Ascii.eqb_spec c ",") as [->|]; [discriminate | reflexivity].
Qed.

Lemma consecutive_after_comma ws b :
  is_empty (Some ws) = true ->
  consecutive_commas_from true (ws ++ String "," b) = true.
Proof.
  induction ws as [|c ws IH]; [reflexivity|].
  rewrite is_empty_cons. intros [Hc Hw]%andb_true_iff.
  simpl. rewrite (blank_not_comma c Hc), Hc. simpl. now apply IH.
Qed.

Lemma consecutive_found a ws b : forall f,
  is_empty (Some ws) = true ->
  consecutive_commas_from f (a ++ String "," (ws ++ String "," b)) = true.
Proof.
  induction a as [|c a IH]; intros f Hw.
  - simpl. destruct f; [reflexivity|]. now apply consecutive_after_comma.
  - simpl. destruct (ascii_eqb c ","); simpl.
    + destruct f; [reflexivity|]. now apply IH.
    + destruct (isspace c); simpl; now apply IH.
Qed.

Lemma consecutive_inv s : forall f,
  consecutive_commas_from f s = true ->
  (f = true /\ exists ws b, s = ws ++ String "," b /\ is_empty (Some ws) = true) \/
  (exists a ws b, s = a ++ String "," (ws ++ String "," b) /\ is_empty (Some ws) = true).
Proof.
  induction s as [|c s IH]; intros f; [discriminate|].
  simpl. unfold ascii_eqb. destruct (Ascii.eqb_spec c ",") as [->|Hne]; simpl.
  - destruct f.
    + intros _. left. split; [reflexivity|]. exists "", s. split; reflexivity.
    + intros H. destruct (IH true H) as [(_ & ws & b & -> & Hw)|(a & ws & b & -> & Hw)].
      * right. exists "", ws, b. split; [reflexivity | exact Hw].
      * right. exists (String "," a), ws, b. split; [reflexivity | exact Hw].
  - destruct (isspace c) eqn:Hc; simpl; intros H.
    + destruct (IH f H) as [(-> & ws & b & -> & Hw)|(a & ws & b & -> & Hw)].
      * left. split; [reflexivity|]. exists (String c ws), b. split; [reflexivity|].
        now rewrite is_empty_cons, Hc.
      * right. exists (String c a), ws, b. split; [reflexivity | exact Hw].
    + destruct (IH false H) as [(Hf & _)|(a & ws & b & -> & Hw)]; [discriminate|].
      right. exists (String c a), ws, b. split; [reflexivity | exact Hw].
Qed.

(** X6. [has_consecutive_commas] returns [TRUE] if and only if two commas
    of the string have nothing but white space between them. *)
Theorem has_consecutive_commas_iff (str : string) :
  has_consecutive_commas str = true <->
  exists a ws b, str = a ++ "," ++ ws ++ "," ++ b /\ is_empty (Some ws) = true.
Proof.
  unfold has_consecutive_commas. split.
  - intros H. destruct (consecutive_inv str false H) as [(Hf & _)|H']; [discriminate|].
    exact H'.
  - intros (a & ws & b & -> & Hw). now apply consecutive_found.
Qed.

(** ** The monad *)

#[local] Arguments is_empty : simpl never.
#[local] Arguments copy_next_token : simpl never.
#[local] Arguments copy_next_token_to : simpl never.
#[local] Arguments extract_remaining_seq : simpl never.
#[local] Arguments is_number : simpl never.
#[local] Arguments is_string : simpl never.
#[local] Arguments is_register : simpl never.
#[local] Arguments trim_whitespaces : simpl never.
#[local] Arguments trim_end_whitespaces : simpl never.
#[local] Arguments should_ignore : simpl never.
#[local] Arguments atoi : simpl never.
#[local] Arguments to_uint : simpl never.
#[local] Arguments encode_are : simpl never.
#[local] Arguments find_operation : simpl never.
#[local] Arguments find_directive : simpl never.
#[local] Arguments symbol_verdict : simpl never.
#[local] Arguments macro_verdict : simpl never.
#[local] Arguments has_consecutive_commas : simpl never.
#[local] Arguments count_commas : simpl never.
#[local] Arguments str_drop : simpl never.
#[local] Arguments str_init : simpl never.

Lemma log_nil st : log [] st = st.
Proof. destruct st. unfold log, set_out. simpl. now rewrite app_nil_r. Qed.

Lemma log_log m1 m2 st : log m2 (log m1 st) = log (m1 ++ m2) st.
Proof. unfold log, set_out. simpl. now rewrite app_assoc. Qed.

Lemma bind_inv {A B : Type} (m : M A) (k : A -> M B) st b st' :
  bind m k st = Some (b, st') ->
  exists a st1, m st = Some (a, st1) /\ k a st1 = Some (b, st').
Proof.
  unfold bind. destruct (m st) as [[a st1]|]; [|discriminate].
  intros H. now exists a, st1.
Qed.

Lemma bind_run {A B : Type} (m : M A) (k : A -> M B) st a st1 :
  m st = Some (a, st1) -> bind m k st = k a st1.
Proof. unfold bind. now intros ->. Qed.

Lemma print_error_run e st : print_error e st = Some (tt, log [(line_num st, e)] st).
Proof. reflexivity. Qed.

(** Hypotheses on a run of a composed computation, taken apart. *)
Ltac minv_eq H := first [injection H as <- <- | injection H as <-].

Ltac minv H :=
  lazymatch type of H with
  | bind _ _ _ = Some _ =>
      let a := fresh "a" in
      let st := fresh "st" in
      let H1 := fresh "Hrun" in
      apply bind_inv in H as (a & st & H1 & H); minv H1; minv H
  | ret _ _ = Some _ => unfold ret in H; minv_eq H
  | undefined _ = Some _ => discriminate H
  | modify _ _ = Some _ => unfold modify in H; minv_eq H
  | gets _ _ = Some _ => unfold gets in H; minv_eq H
  | print_error _ _ = Some _ => rewrite print_error_run in H; minv_eq H
  | _ => idtac
  end.

Lemma copy_next_token_to_inv size src seps token :
  copy_next_token_to size src seps = Some token ->
  token = copy_next_token src seps /\ strlen token < size.
Proof.
  unfold copy_next_token_to. cbv zeta.
  destruct (Z.ltb_spec (strlen (copy_next_token src seps)) size); [|discriminate].
  intros [= <-]. now split.
Qed.

Lemma copy_next_token_to_run size src seps :
  strlen (copy_next_token src seps) < size ->
  copy_next_token_to size src seps = Some (copy_next_token src seps).
Proof.
  intros H. unfold copy_next_token_to. cbv zeta.
  destruct (Z.ltb_spec (strlen (copy_next_token src seps)) size); [reflexivity | lia].
Qed.

(** A token read into an array in a run that returns: it is the token of
    [copy_next_token] and fits the array. *)
Ltac token_inv H :=
  match type of H with
  | context [copy_next_token_to ?n ?s ?p] =>
      let E := fresh "Hfit" in
      destruct (copy_next_token_to n s p) eqn:E; [|discriminate H];
      apply copy_next_token_to_inv in E as [-> E]
  end.

(** The operands that [process_operation_second_pass] reads, in a run
    that returns. *)
Ltac operands_inv H :=
  repeat first
    [ match type of H with
      | context [copy_next_token_to ?n ?s ?p] =>
          destruct (copy_next_token_to n s p); [|discriminate H]
      end
    | match type of H with
      | context [extract_remaining_seq ?l ?p] =>
          destruct (extract_remaining_seq l p) as [[|? ?]|]; try discriminate H
      end ].

Lemma report_run v st :
  exists msgs, report v st = Some (accepted v, log msgs st).
Proof.
  destruct v as [|[e|]]; simpl.
  - exists []. now rewrite log_nil.
  - exists [(line_num st, e)]. reflexivity.
  - exists []. now rewrite log_nil.
Qed.

Lemma is_symbol_run token colon st :
  exists msgs,
    is_symbol token colon st = Some (accepted (symbol_verdict token colon), log msgs st).
Proof. apply report_run. Qed.

Lemma is_macro_run token st :
  exists msgs, is_macro token st = Some (accepted (macro_verdict token), log msgs st).
Proof. apply report_run. Qed.

Lemma detect_addr_mode_run operand st :
  exists msgs, detect_addr_mode operand st = Some (addr_mode_of operand, log msgs st).
Proof.
  unfold detect_addr_mode, addr_mode_of.
  destruct (is_number operand); [exists []; now rewrite log_nil|].
  destruct (is_register operand); [exists []; now rewrite log_nil|].
  destruct (is_symbol_run operand false st) as [msgs Hs].
  exists msgs. rewrite (bind_run _ _ _ _ _ Hs).
  now destruct (accepted _).
Qed.

(** ** The first word of an instruction *)

Lemma mode_eqb_eq a b : mode_eqb a b = true <-> a = b.
Proof. destruct a, b; vm_compute; split; congruence. Qed.

(** The operands that [process_operation] hands to [detect_addr_mode], and
    so to [is_number], are not empty. *)
Lemma extract_operands_not_blank op line ops :
  extract_operands op line = Some (inr ops) ->
  (has_first_operand ops = true -> is_empty (Some (first_operand ops)) = false) /\
  (has_second_operand ops = true -> is_empty (Some (second_operand ops)) = false).
Proof.
  unfold extract_operands. cbv zeta.
  repeat match goal with
         | |- context [copy_next_token_to ?n ?l ?p] =>
             destruct (copy_next_token_to n l p); [|discriminate]
         | |- context [negb (is_empty (Some ?t))] =>
             destruct (is_empty (Some t)) eqn:?; cbn [negb]
         | |- context [if ?c then _ else _] => destruct c
         | |- context [match ?l with Some _ => _ | None => _ end] => destruct l
         | |- context [match ?l with EmptyString => _ | String _ _ => _ end] => destruct l
         end;
    intros [= <-]; cbn [has_first_operand has_second_operand first_operand
                          second_operand]; split; congruence.
Qed.

(** What [process_operation] does: nothing but messages when it fails; when
    it succeeds, the operands passed the tests, the first word is stored at
    [ic] and [ic] moves past the words of the instruction. *)
Lemma process_operation_run op line st b st' :
  process_operation op line st = Some (b, st') ->
  (b = false /\ exists msgs, st' = log msgs st) \/
  (b = true /\
   exists ops msgs c,
     extract_operands op line = Some (inr ops) /\
     (has_first_operand ops = true -> addr_mode_of (first_operand ops) <> NONE_ADDR) /\
     (has_second_operand ops = true -> addr_mode_of (second_operand ops) <> NONE_ADDR) /\
     is_valid_operand_count op (has_first_operand ops) (has_second_operand ops) = true /\
     is_valid_mode_combination op
       (if has_first_operand ops then addr_mode_of (first_operand ops) else NONE_ADDR)
       (if has_second_operand ops then addr_mode_of (second_operand ops) else NONE_ADDR)
       = true /\
     array_store (code st) (ic st)
       (encode_first_op_word op (has_first_operand ops) (has_second_operand ops)
          (if has_first_operand ops then addr_mode_of (first_operand ops) else NONE_ADDR)
          (if has_second_operand ops then addr_mode_of (second_operand ops) else NONE_ADDR))
       = Some c /\
     st' = set_ic (ic st + 1 +
                   get_additional_word_count (has_first_operand ops)
                     (has_second_operand ops)
                     (if has_first_operand ops then addr_mode_of (first_operand ops)
                      else NONE_ADDR)
                     (if has_second_operand ops then addr_mode_of (second_operand ops)
                      else NONE_ADDR))
             (set_code c (log msgs st))).
Proof.
  unfold process_operation. intros H.
  destruct (extract_operands op line) as [[e|ops]|]; [| |discriminate].
  { minv H. left. split; [reflexivity|]. now exists [(line_num st, e)]. }
  cbv zeta in H.
  apply bind_inv in H as (m1 & st1 & H1 & H).
  apply bind_inv in H as (m2 & st2 & H2 & H).
  assert (exists msgs1, m1 = (if has_first_operand ops
                              then addr_mode_of (first_operand ops) else NONE_ADDR)
                        /\ st1 = log msgs1 st) as (msgs1 & -> & ->).
  { destruct (has_first_operand ops).
    - destruct (detect_addr_mode_run (first_operand ops) st) as [msgs Hd].
      rewrite Hd in H1. injection H1 as <- <-. now exists msgs.
    - minv H1. exists []. now rewrite log_nil. }
  assert (exists msgs2, m2 = (if has_second_operand ops
                              then addr_mode_of (second_operand ops) else NONE_ADDR)
                        /\ st2 = log msgs2 (log msgs1 st)) as (msgs2 & -> & ->).
  { destruct (has_second_operand ops).
    - destruct (detect_addr_mode_run (second_operand ops) (log msgs1 st)) as [msgs Hd].
      rewrite Hd in H2. injection H2 as <- <-. now exists msgs.
    - minv H2. exists []. now rewrite log_nil. }
  rewrite log_log in H.
  match type of H with (if ?c then _ else _) _ = _ => destruct c eqn:Hnone end.
  { minv H. left. split; [reflexivity|]. rewrite log_log. eauto. }
  match type of H with (if ?c then _ else _) _ = _ => destruct c eqn:Hcount end.
  { minv H. left. split; [reflexivity|]. rewrite log_log. eauto. }
  match type of H with (if ?c then _ else _) _ = _ => destruct c eqn:Hcomb end.
  { minv H. left. split; [reflexivity|]. rewrite log_log. eauto. }
  right. apply bind_inv in H as ([] & st3 & H3 & H). minv H.
  unfold append_word_to_code in H3.
  destruct (array_store _ _ _) as [c|] eqn:Hstore; [|discriminate].
  injection H3 as <-. split; [reflexivity|].
  exists ops, (msgs1 ++ msgs2)%list, c.
  apply negb_false_iff in Hcount, Hcomb.
  apply orb_false_iff in Hnone as [Hn1 Hn2].
  repeat split; try assumption.
  - intros Hf E. rewrite Hf in Hn1. rewrite E in Hn1. discriminate.
  - intros Hs E. rewrite Hs in Hn2. rewrite E in Hn2. discriminate.
Qed.


(** ** Arrays *)

Lemma array_store_inv a i w a' :
  array_store a i w = Some a' ->
  0 <= i < Z.of_nat (length a) /\ a' = <[Z.to_nat i := w]> a /\ length a' = length a.
Proof.
  unfold array_store. destruct (_ && _) eqn:Hb; [|discriminate].
  intros [= <-]. apply andb_true_iff in Hb as [H1 H2].
  rewrite length_insert. split; [lia|]. auto.
Qed.

Lemma array_store_lookup a i w a' :
  array_store a i w = Some a' -> a' !! Z.to_nat i = Some w.
Proof.
  intros H. apply array_store_inv in H as (Hi & -> & _).
  apply list_lookup_insert_eq. lia.
Qed.

Lemma array_store_other a i w a' (j : nat) :
  array_store a i w = Some a' -> j <> Z.to_nat i -> a' !! j = a !! j.
Proof.
  intros H Hj. apply array_store_inv in H as (Hi & -> & _).
  now apply list_lookup_insert_ne.
Qed.

Lemma store_list_length ws : forall a i a',
  store_list a i ws = Some a' -> length a' = length a.
Proof.
  induction ws as [|w ws IH]; simpl; intros a i a' H.
  - now injection H as <-.
  - destruct (array_store a i w) as [a1|] eqn:Hs; [|discriminate].
    apply IH in H. apply array_store_inv in Hs as (_ & _ & Hl). congruence.
Qed.

Lemma store_list_bounds ws : forall a i a',
  ws <> [] -> store_list a i ws = Some a' ->
  0 <= i /\ i + Z.of_nat (length ws) <= Z.of_nat (length a).
Proof.
  induction ws as [|w ws IH]; simpl; intros a i a' Hne H; [congruence|].
  destruct (array_store a i w) as [a1|] eqn:Hs; [|discriminate].
  apply array_store_inv in Hs as (Hi & _ & Hl).
  destruct ws as [|w' ws'].
  - simpl. lia.
  - apply IH in H; [|discriminate]. rewrite Hl in H. simpl in *. lia.
Qed.

Lemma store_list_take ws : forall a i a',
  0 <= i -> store_list a i ws = Some a' ->
  take (Z.to_nat (i + Z.of_nat (length ws))) a' = (take (Z.to_nat i) a ++ ws)%list.
Proof.
  induction ws as [|w ws IH]; intros a i a' Hi H; simpl in H.
  - injection H as <-. simpl. rewrite Z.add_0_r. now rewrite app_nil_r.
  - destruct (array_store a i w) as [a1|] eqn:Hs; [|discriminate].
    specialize (IH a1 (i + 1) a' ltac:(lia) H).
    replace (Z.to_nat (i + Z.of_nat (length (w :: ws))))
      with (Z.to_nat (i + 1 + Z.of_nat (length ws))) by (simpl; lia).
    rewrite IH. replace (Z.to_nat (i + 1)) with (S (Z.to_nat i)) by lia.
    rewrite (take_S_r a1 (Z.to_nat i) w) by (eapply array_store_lookup; eauto).
    apply array_store_inv in Hs as (_ & -> & _).
    rewrite take_insert_ge by lia. now rewrite <- app_assoc.
Qed.

Lemma store_list_app ws1 : forall ws2 a i a1 a2,
  store_list a i ws1 = Some a1 ->
  store_list a1 (i + Z.of_nat (length ws1)) ws2 = Some a2 ->
  store_list a i (ws1 ++ ws2) = Some a2.
Proof.
  induction ws1 as [|w ws1 IH]; intros ws2 a i a1 a2 H1 H2; simpl in H1.
  - injection H1 as <-. simpl in H2. now rewrite Z.add_0_r in H2.
  - simpl. destruct (array_store a i w) as [a'|]; [|discriminate].
    eapply IH; [exact H1|].
    now replace (i + 1 + Z.of_nat (length ws1))
      with (i + Z.of_nat (length (w :: ws1))) by (simpl; lia).
Qed.

(** ** The symbol table *)

Lemma add_symbol_to_list_run n addr e st :
  add_symbol_to_list n addr e st =
  if is_existing_symbol (symbol_table st) n
  then Some (None, log [(line_num st, SYMBOL_ALREADY_EXISTS)] st)
  else Some (Some (length (symbol_table st)),
             set_symbol_table
               (symbol_table st ++
                [mk_symbol n addr (if e then Some DIRECTIVE else None) e false])
               (if e then set_is_extern_exists true st else st)).
Proof.
  unfold add_symbol_to_list, bind, gets.
  destruct (is_existing_symbol _ _); [reflexivity|].
  unfold create_symbol, modify, ret. now destruct e.
Qed.

Lemma is_existing_symbol_false table n :
  is_existing_symbol table n = false <-> find_symbol table n = None.
Proof. unfold is_existing_symbol. destruct (find_symbol table n); split; congruence. Qed.

Lemma remove_first_fresh table s :
  find_symbol table (name s) = None -> remove_first (table ++ [s]) (name s) = table.
Proof.
  induction table as [|t table IH]; simpl.
  - unfold streq. now rewrite String.eqb_refl.
  - destruct (streq (name t) (name s)); [discriminate|].
    destruct (find_symbol table (name s)); [discriminate|].
    intros _. now rewrite IH.
Qed.

Lemma alter_last {A : Type} (f : A -> A) (l : list A) (x : A) :
  alter f (length l) (l ++ [x])%list = (l ++ [f x])%list.
Proof. induction l as [|y l IH]; simpl; [reflexivity|]. f_equal. exact IH. Qed.

Lemma lookup_last {A : Type} (l : list A) (x : A) :
  (l ++ [x])%list !! length l = Some x.
Proof. induction l as [|y l IH]; simpl; [reflexivity|]. exact IH. Qed.


(** ** The directives of the first pass *)

(** Equations between states built from the same state by the setters. *)
Ltac state_eq :=
  repeat match goal with st : state |- _ => destruct st end;
  unfold log, set_out, set_dc, set_data, set_ic, set_code, set_symbol_table,
    set_ext_table, set_line_num, set_is_entry_exists, set_is_extern_exists;
  simpl; rewrite ?app_nil_r, <- ?app_assoc; f_equal; try lia; auto.

Lemma append_number_to_data_inv num st u st' :
  append_number_to_data num st = Some (u, st') ->
  exists d, array_store (data st) (dc st) (to_uint num) = Some d /\
            st' = set_dc (dc st + 1) (set_data d st).
Proof.
  unfold append_number_to_data. destruct (array_store _ _ _) as [d|]; [|discriminate].
  intros [= <- <-]. now exists d.
Qed.

Lemma append_character_to_data_inv ch st u st' :
  append_character_to_data ch st = Some (u, st') ->
  exists d, array_store (data st) (dc st) (character_word ch) = Some d /\
            st' = set_dc (dc st + 1) (set_data d st).
Proof.
  unfold append_character_to_data, character_word.
  destruct (array_store _ _ _) as [d|]; [|discriminate].
  intros [= <- <-]. now exists d.
Qed.

Lemma atoi_some param num : atoi param = Some num -> num = atoi_value param.
Proof. unfold atoi. destruct (_ && _); [|discriminate]. now intros [= <-]. Qed.

Lemma extract_remaining_seq_head line seps rest :
  extract_remaining_seq line seps = Some rest ->
  match rest with String c _ => isspace c = false | EmptyString => True end.
Proof.
  unfold extract_remaining_seq. cbv zeta.
  destruct (is_empty _); [discriminate|]. intros [= <-].
  apply skip_whitespaces_head.
Qed.

(** The two comma tests of the loop of [process_data_dir] on the text
    behind a number, in the words of [appendable]. *)
Lemma comma_tests_appendable line seps rest param :
  extract_remaining_seq line seps = Some rest ->
  is_number param = true ->
  appendable param rest =
  negb (negb (is_empty (Some rest)) &&
        negb match rest with String c _ => ascii_eqb c "," | EmptyString => false end) &&
  negb (is_empty (Some (str_drop 1 rest)) &&
        match rest with String c _ => ascii_eqb c "," | EmptyString => false end).
Proof.
  intros Hrest Hnum. apply extract_remaining_seq_head in Hrest.
  unfold appendable. rewrite Hnum.
  destruct rest as [|c rest']; [reflexivity|].
  rewrite is_empty_cons, Hrest. unfold str_drop.
  destruct (ascii_eqb c ","), (is_empty (Some rest')); reflexivity.
Qed.

Lemma process_data_dir_loop_run fuel : forall line st b st',
  process_data_dir_loop fuel line st = Some (b, st') ->
  exists ws msgs d,
    store_list (data st) (dc st) ws = Some d /\
    st' = set_dc (dc st + Z.of_nat (length ws)) (set_data d (log msgs st)) /\
    (b = true ->
     ws = map number_word (data_params fuel line) /\
     Forall (fun p => is_number p = true) (data_params fuel line) /\
     (is_empty (Some line) = false -> ws <> [])) /\
    (b = false ->
     ws = map number_word (appended_params fuel line) /\
     exists k, (k < length (data_params fuel line))%nat /\
               appended_params fuel line = take k (data_params fuel line)).
Proof.
  induction fuel as [|fuel IH]; intros line st b st' H; [discriminate|].
  simpl in H. simpl data_params. simpl appended_params.
  destruct (is_empty (Some line)) eqn:Hempty.
  { minv H. exists [], [], (data st). split; [reflexivity|].
    split; [state_eq|]. split; [|discriminate].
    intros _. repeat split; [constructor | congruence]. }
  token_inv H.
  destruct (is_number (copy_next_token line SEPS_COMMA)) eqn:Hnum; simpl in H.
  2:{ minv H. exists [], [(line_num st, DATA_NOT_NUM)], (data st).
      split; [reflexivity|]. split; [state_eq|].
      split; [discriminate|]. intros _.
      unfold appendable. rewrite Hnum. simpl.
      destruct (extract_remaining_seq line SEPS_COMMA);
        (split; [reflexivity|]); exists 0%nat; (split; [simpl; lia | reflexivity]). }
  destruct (extract_remaining_seq line SEPS_COMMA) as [rest|] eqn:Hrest; [|discriminate].
  rewrite (comma_tests_appendable _ _ _ _ Hrest Hnum).
  match type of H with (if ?c then _ else _) _ = _ => destruct c end.
  { minv H. exists [], [(line_num st, DATA_MISSING_COMMA)], (data st).
    split; [reflexivity|]. split; [state_eq|].
    split; [discriminate|]. intros _. simpl.
    split; [reflexivity|]. exists 0%nat. split; [simpl; lia | reflexivity]. }
  match type of H with (if ?c then _ else _) _ = _ => destruct c end.
  { minv H. exists [], [(line_num st, DATA_EXTRANEOUS_TEXT)], (data st).
    split; [reflexivity|]. split; [state_eq|].
    split; [discriminate|]. intros _. simpl.
    split; [reflexivity|]. exists 0%nat. split; [simpl; lia | reflexivity]. }
  simpl.
  destruct (atoi _) as [num|] eqn:Hatoi; [|discriminate].
  apply atoi_some in Hatoi.
  apply bind_inv in H as ([] & st1 & Happ & H).
  apply append_number_to_data_inv in Happ as (d1 & Hstore & ->).
  apply IH in H as (ws & msgs & d & Hws & -> & Hb & Hf).
  simpl in Hws.
  exists (to_uint num :: ws), msgs, d. split; [simpl; now rewrite Hstore|].
  split; [simpl length; state_eq|].
  split.
  - intros Ht. destruct (Hb Ht) as (E & Hall & _).
    repeat split.
    + rewrite E. simpl. unfold number_word at 1. now rewrite Hatoi.
    + constructor; assumption.
    + discriminate.
  - intros Ht. destruct (Hf Ht) as (E & k & Hk & Hpre).
    split.
    + rewrite E. simpl. unfold number_word at 1. now rewrite Hatoi.
    + exists (S k). split; [simpl; lia|]. simpl. now rewrite Hpre.
Qed.

Lemma process_data_dir_run line st b st' :
  process_data_dir line st = Some (b, st') ->
  exists ws msgs d,
    store_list (data st) (dc st) ws = Some d /\
    st' = set_dc (dc st + Z.of_nat (length ws)) (set_data d (log msgs st)) /\
    (b = true ->
     ws = map number_word (data_items line) /\
     Forall (fun p => is_number p = true) (data_items line) /\
     (is_empty (Some line) = false -> ws <> [])) /\
    (b = false ->
     ws = map number_word (data_appended line) /\
     exists k, (k < length (data_items line))%nat /\
               data_appended line = take k (data_items line)).
Proof. apply process_data_dir_loop_run. Qed.

Lemma append_characters_run chars : forall st u st',
  append_characters chars st = Some (u, st') ->
  exists d,
    store_list (data st) (dc st) (map character_word (chars_of chars)) = Some d /\
    st' = set_dc (dc st + Z.of_nat (length (chars_of chars))) (set_data d st).
Proof.
  induction chars as [|c chars IH]; intros st u st' H; simpl in H.
  - minv H. exists (data st). split; [reflexivity | state_eq].
  - apply bind_inv in H as ([] & st1 & Happ & H).
    apply append_character_to_data_inv in Happ as (d1 & Hstore & ->).
    apply IH in H as (d & Hws & ->). simpl in Hws.
    exists d. split; [simpl; now rewrite Hstore|]. simpl length. state_eq.
Qed.

Lemma process_string_dir_run line st b st' :
  process_string_dir line st = Some (b, st') ->
  (b = false /\ st' = log [(line_num st, STRING_NOT_STR)] st) \/
  (b = true /\
   exists d,
     let ws := map character_word (chars_of (string_chars line) ++ [NUL]) in
     store_list (data st) (dc st) ws = Some d /\
     st' = set_dc (dc st + Z.of_nat (length ws)) (set_data d st)).
Proof.
  unfold process_string_dir. intros H. cbv zeta in H. token_inv H.
  destruct (is_string _); simpl in H.
  2:{ minv H. now left. }
  right. apply bind_inv in H as ([] & st1 & Hchars & H).
  apply bind_inv in H as ([] & st2 & Hnul & H). minv H.
  apply append_characters_run in Hchars as (d1 & Hs1 & ->).
  apply append_character_to_data_inv in Hnul as (d2 & Hs2 & ->).
  simpl in Hs2. split; [reflexivity|]. exists d2. cbv zeta.
  fold (string_chars line) in *.
  split.
  - rewrite map_app. eapply store_list_app; [exact Hs1|]. simpl.
    rewrite length_map. now rewrite Hs2.
  - rewrite length_map, length_app. simpl length. state_eq.
Qed.


Lemma process_entry_dir_run line st b st' :
  process_entry_dir line st = Some (b, st') -> exists msgs, st' = log msgs st.
Proof.
  unfold process_entry_dir. intros H. token_inv H.
  destruct (is_empty (Some _)).
  { minv H. eauto. }
  apply bind_inv in H as (ok & st1 & Hs & H).
  destruct (is_symbol_run (copy_next_token line SEPS_BLANK) false st) as [msgs Hr].
  rewrite Hr in Hs. injection Hs as <- <-.
  destruct (negb _).
  { minv H. eauto. }
  destruct (negb _); minv H; rewrite ?log_log; eauto.
Qed.

Lemma process_extern_dir_run line st b st' :
  process_extern_dir line st = Some (b, st') ->
  exists msgs,
    if b then
      find_symbol (symbol_table st) (copy_next_token line SEPS_BLANK) = None /\
      st' = set_symbol_table
              (symbol_table st ++ [extern_symbol (copy_next_token line SEPS_BLANK)])
              (set_is_extern_exists true (log msgs st))
    else st' = log msgs st.
Proof.
  unfold process_extern_dir. intros H. token_inv H.
  destruct (is_empty (Some _)).
  { minv H. eauto. }
  apply bind_inv in H as (ok & st1 & Hs & H).
  destruct (is_symbol_run (copy_next_token line SEPS_BLANK) false st) as [msgs Hr].
  rewrite Hr in Hs. injection Hs as <- <-.
  destruct (negb _).
  { minv H. eauto. }
  destruct (negb _).
  { minv H. rewrite log_log. eauto. }
  apply bind_inv in H as (added & st2 & Hadd & H).
  rewrite add_symbol_to_list_run in Hadd.
  destruct (is_existing_symbol _ _) eqn:Hex.
  - injection Hadd as <- <-. minv H. rewrite log_log. eauto.
  - injection Hadd as <- <-. minv H. exists msgs.
    apply is_existing_symbol_false in Hex. split; [exact Hex | reflexivity].
Qed.

Lemma data_appended_blank line :
  is_empty (Some line) = true -> data_appended line = [].
Proof. intros H. unfold data_appended. simpl. now rewrite H. Qed.

(** What a directive does in the first pass: it appends the words [ws] to
    the data segment and prints messages; [.extern] adds its symbol.  A
    directive that fails appends nothing unless it is [.data]. *)
Lemma process_directive_run dir line st b st' :
  process_directive dir line st = Some (b, st') ->
  exists ws msgs d,
    store_list (data st) (dc st) ws = Some d /\
    let base := set_dc (dc st + Z.of_nat (length ws)) (set_data d (log msgs st)) in
    match b, dir with
    | false, _ =>
        st' = base /\ (dir <> DATA -> ws = []) /\
        (dir = DATA ->
         ws = map number_word (data_appended line) /\
         (is_empty (Some line) = false ->
          exists k, (k < length (data_items line))%nat /\
                    data_appended line = take k (data_items line)))
    | true, DATA => st' = base /\ ws = map number_word (data_items line) /\ ws <> []
    | true, STRING =>
        st' = base /\
        ws = map character_word (chars_of (string_chars line) ++ [NUL])
    | true, ENTRY => st' = base /\ ws = []
    | true, EXTERN =>
        ws = [] /\
        find_symbol (symbol_table st) (copy_next_token line SEPS_BLANK) = None /\
        st' = set_symbol_table
                (symbol_table st ++ [extern_symbol (copy_next_token line SEPS_BLANK)])
                (set_is_extern_exists true base)
    | true, NONE_DIR => False
    end.
Proof.
  unfold process_directive. intros H.
  destruct (is_empty (Some line)) eqn:Hempty.
  { minv H. exists [], [(line_num st, DIR_MISSING_PARAMS)], (data st).
    split; [reflexivity|]. split; [state_eq | split; [reflexivity|]].
    intros _. rewrite (data_appended_blank _ Hempty). split; [reflexivity | discriminate]. }
  destruct dir.
  - apply process_data_dir_run in H as (ws & msgs & d & Hws & -> & Hb & Hf).
    exists ws, msgs, d. split; [exact Hws|]. destruct b.
    + destruct (Hb eq_refl) as (-> & _ & Hne). repeat split. now apply Hne.
    + split; [reflexivity|]. split; [congruence|]. intros _.
      destruct (Hf eq_refl) as [E Hk]. split; [exact E | intros _; exact Hk].
  - apply process_string_dir_run in H as [[-> ->]|[-> (d & Hws & ->)]].
    + exists [], [(line_num st, STRING_NOT_STR)], (data st).
      split; [reflexivity|]. split; [state_eq | split; [reflexivity | discriminate]].
    + eexists _, [], d. split; [exact Hws|]. split; [state_eq | reflexivity].
  - apply process_entry_dir_run in H as [msgs ->].
    exists [], msgs, (data st). split; [reflexivity|].
    destruct b; (split; [state_eq|]); [reflexivity | split; [reflexivity | discriminate]].
  - apply process_extern_dir_run in H as [msgs H].
    exists [], msgs, (data st). split; [reflexivity|]. destruct b.
    + destruct H as [Hnew ->]. repeat split; [exact Hnew | state_eq].
    + subst st'. split; [state_eq | split; [reflexivity | discriminate]].
  - minv H. exists [], [], (data st). split; [reflexivity|].
    split; [state_eq | split; [reflexivity | discriminate]].
Qed.


(** ** Lines of the first pass *)

Lemma labelled_same cur tbl lab st st' :
  labelled cur tbl lab st -> symbol_table st' = symbol_table st ->
  labelled cur tbl lab st'.
Proof. unfold labelled. intros H E. destruct cur; now rewrite E. Qed.

Lemma set_symbol_table_same st : set_symbol_table (symbol_table st) st = st.
Proof. now destruct st. Qed.

Lemma drop_label_run cur tbl lab st :
  labelled cur tbl lab st -> drop_label cur st = Some (tt, set_symbol_table tbl st).
Proof.
  destruct cur as [p|]; simpl.
  - intros (Htbl & -> & Hnew). unfold bind, symbol_name_at.
    rewrite Htbl, lookup_last. unfold delete_symbol, modify.
    now rewrite Htbl, remove_first_fresh.
  - intros <-. unfold ret. now rewrite set_symbol_table_same.
Qed.

Lemma with_label_labelled cur tbl lab t addr st :
  labelled cur tbl lab st ->
  labelled cur tbl (placed lab t addr) (with_label cur tbl lab t addr st).
Proof. destruct cur; simpl; [|auto]. intros (_ & -> & Hnew). auto. Qed.

Lemma place_label_run cur tbl lab t addr st :
  labelled cur tbl lab st ->
  match cur with
  | Some p => set_symbol_type_address p t addr
  | None => ret tt
  end st = Some (tt, with_label cur tbl lab t addr st).
Proof.
  destruct cur as [p|]; simpl; [|reflexivity].
  intros (Htbl & -> & _). unfold set_symbol_type_address, modify.
  now rewrite Htbl, alter_last.
Qed.

Lemma find_directive_not_op k :
  is_dir (find_directive k) = true -> is_op (find_operation k) = false.
Proof.
  unfold find_directive, streq.
  destruct (String.eqb_spec k ".data") as [->|_]; [reflexivity|].
  destruct (String.eqb_spec k ".string") as [->|_]; [reflexivity|].
  destruct (String.eqb_spec k ".entry") as [->|_]; [reflexivity|].
  destruct (String.eqb_spec k ".extern") as [->|_]; [reflexivity|].
  discriminate.
Qed.

Lemma check_commas_run cur tbl lab line k st b st' :
  labelled cur tbl lab st ->
  check_commas cur line k st = Some (b, st') ->
  (b = false /\
   exists msgs rest,
     st' = set_symbol_table tbl (log msgs st) /\
     line = Some rest /\ passes_commas rest = false) \/
  (exists rest,
     line = Some rest /\ k rest st = Some (b, st') /\
     passes_commas rest = negb (is_empty (Some rest))).
Proof.
  intros Hlab H. unfold check_commas in H.
  destruct line as [rest|]; [|discriminate].
  match type of H with (if ?c then _ else _) _ = _ => destruct c eqn:Hc1 end.
  { apply bind_inv in H as ([] & st1 & Hd & H). minv H.
    rewrite (drop_label_run _ _ _ _ Hlab) in Hd. injection Hd as <-.
    left. split; [reflexivity|]. exists [(line_num st, ILLEGAL_COMMA)], rest.
    split; [state_eq | split; [reflexivity|]].
    unfold passes_commas. now rewrite Hc1. }
  destruct (has_consecutive_commas rest) eqn:Hc2.
  { apply bind_inv in H as ([] & st1 & Hd & H). minv H.
    rewrite (drop_label_run _ _ _ _ Hlab) in Hd. injection Hd as <-.
    left. split; [reflexivity|]. exists [(line_num st, CONSECUTIVE_COMMAS)], rest.
    split; [state_eq | split; [reflexivity|]].
    unfold passes_commas. rewrite Hc2. now rewrite andb_false_r. }
  right. exists rest. split; [reflexivity|]. split; [exact H|].
  unfold passes_commas. now rewrite Hc1, Hc2.
Qed.

(** The three ways [parse_line] ends once the name of the statement is
    read: a failure, which restores the table and appends at most the
    numbers of an ill-formed [.data] line; an instruction that
    [process_operation] accepts; a directive that [process_directive]
    accepts. *)
Lemma parse_statement_run cur tbl lab tok line st b st' :
  labelled cur tbl lab st ->
  parse_statement cur tok line st = Some (b, st') ->
  (b = false /\
   exists ws msgs d,
     store_list (data st) (dc st) ws = Some d /\
     st' = set_dc (dc st + Z.of_nat (length ws))
             (set_data d (set_symbol_table tbl (log msgs st))) /\
     (find_directive tok <> DATA -> ws = []) /\
     (find_directive tok = DATA ->
      let rest := match extract_remaining_seq line SEPS_COMMA with
                  | Some rest => rest
                  | None => EmptyString
                  end in
      if passes_commas rest
      then ws = map number_word (data_appended rest) /\
           exists k, (k < length (data_items rest))%nat /\
                     data_appended rest = take k (data_items rest)
      else ws = [])) \/
  (b = true /\ is_op (find_operation tok) = true /\
   exists rest,
     extract_remaining_seq line SEPS_COMMA = Some rest /\
     process_operation (find_operation tok) rest
       (with_label cur tbl lab INSTRUCTION (ic st) st) = Some (true, st')) \/
  (b = true /\ is_op (find_operation tok) = false /\
   is_dir (find_directive tok) = true /\
   exists rest,
     extract_remaining_seq line SEPS_COMMA = Some rest /\
     process_directive (find_directive tok) rest
       (match find_directive tok with
        | EXTERN | ENTRY => set_symbol_table tbl st
        | _ => with_label cur tbl lab DIRECTIVE (dc st) st
        end) = Some (true, st')).
Proof.
  intros Hlab H. unfold parse_statement in H. cbv zeta in H.
  destruct (is_op (find_operation tok)) eqn:Hop.
  - apply bind_inv in H as ([] & st1 & Hplace & H).
    assert (st1 = with_label cur tbl lab INSTRUCTION (ic st) st) as ->.
    { destruct cur as [p|].
      - apply bind_inv in Hplace as (a & st2 & Hg & Hplace). minv Hg.
        rewrite (place_label_run (Some p) tbl lab INSTRUCTION (ic st) st Hlab) in Hplace.
        congruence.
      - now minv Hplace. }
    pose proof (with_label_labelled _ _ _ INSTRUCTION (ic st) _ Hlab) as Hlab1.
    assert (Hnd : find_directive tok <> DATA).
    { intros E. pose proof (find_directive_not_op tok) as Hn.
      rewrite E, Hop in Hn. now specialize (Hn eq_refl). }
    apply (check_commas_run _ _ _ _ _ _ _ _ Hlab1) in H
      as [[-> (msgs & rest & -> & _)]|(rest & Hrest & H & _)].
    { left. split; [reflexivity|]. exists [], msgs, (data st).
      split; [reflexivity|]. split; [|split; [reflexivity | contradiction]].
      destruct cur; simpl; state_eq. }
    apply bind_inv in H as (ok & st2 & Hproc & H).
    destruct ok; simpl in H.
    + minv H. right. left. repeat split. eauto.
    + apply bind_inv in H as ([] & st3 & Hd & H). minv H.
      apply process_operation_run in Hproc as [[_ [msgs ->]]|[? _]]; [|discriminate].
      rewrite (drop_label_run cur tbl (placed lab INSTRUCTION (ic st)) _) in Hd
        by (eapply labelled_same; [exact Hlab1 | reflexivity]).
      injection Hd as <-. left. split; [reflexivity|].
      exists [], msgs, (data st). split; [reflexivity|].
      split; [|split; [reflexivity | contradiction]].
      destruct cur; simpl; state_eq.
  - destruct (is_dir (find_directive tok)) eqn:Hdir.
    + apply bind_inv in H as (cur' & st1 & Hplace & H).
      set (st_d := match find_directive tok with
                   | EXTERN | ENTRY => set_symbol_table tbl st
                   | _ => with_label cur tbl lab DIRECTIVE (dc st) st
                   end).
      assert (st1 = st_d /\
              exists lab', labelled cur' tbl lab' st_d) as [-> [lab' Hlab1]].
      { destruct cur as [p|].
        - destruct (find_directive tok) eqn:Hd; try discriminate Hdir.
          + apply bind_inv in Hplace as (a & st2 & Hg & Hplace). minv Hg.
            apply bind_inv in Hplace as ([] & st3 & Hp & Hplace). minv Hplace.
            rewrite (place_label_run (Some p) tbl lab DIRECTIVE (dc st) st Hlab) in Hp.
            injection Hp as <-. split; [reflexivity|].
            eexists. now apply with_label_labelled.
          + apply bind_inv in Hplace as (a & st2 & Hg & Hplace). minv Hg.
            apply bind_inv in Hplace as ([] & st3 & Hp & Hplace). minv Hplace.
            rewrite (place_label_run (Some p) tbl lab DIRECTIVE (dc st) st Hlab) in Hp.
            injection Hp as <-. split; [reflexivity|].
            eexists. now apply with_label_labelled.
          + apply bind_inv in Hplace as ([] & st2 & Hp & Hplace). minv Hplace.
            rewrite (drop_label_run _ _ _ _ Hlab) in Hp. injection Hp as <-.
            split; [reflexivity|]. exists lab. reflexivity.
          + apply bind_inv in Hplace as ([] & st2 & Hp & Hplace). minv Hplace.
            rewrite (drop_label_run _ _ _ _ Hlab) in Hp. injection Hp as <-.
            split; [reflexivity|]. exists lab. reflexivity.
        - minv Hplace. simpl in Hlab. subst st_d. simpl.
          split.
          + destruct (find_directive tok); try reflexivity;
              now rewrite <- Hlab, set_symbol_table_same.
          + exists lab. simpl.
            destruct (find_directive tok); simpl; auto. }
      assert (Hdata : data st_d = data st /\ dc st_d = dc st /\
                      exists msgs0, set_symbol_table tbl st_d
                                    = set_symbol_table tbl (log msgs0 st)).
      { subst st_d. destruct (find_directive tok), cur; simpl;
          (split; [reflexivity|]); (split; [reflexivity|]); exists []; state_eq. }
      destruct Hdata as (Hdata & Hdc & msgs0 & Htbl).
      apply (check_commas_run _ _ _ _ _ _ _ _ Hlab1) in H
        as [[-> (msgs & rest & -> & Hrest & Hcm)]|(rest & Hrest & H & Hcm)].
      { left. split; [reflexivity|]. exists [], (msgs0 ++ msgs)%list, (data st).
        split; [reflexivity|].
        split; [|split; [reflexivity | intros _; rewrite Hrest; cbv zeta; now rewrite Hcm]].
        transitivity (log msgs (set_symbol_table tbl st_d)); [state_eq|].
        rewrite Htbl. state_eq. }
      apply bind_inv in H as (ok & st2 & Hproc & H).
      destruct ok; simpl in H.
      * minv H. right. right. repeat split. eauto.
      * apply bind_inv in H as ([] & st3 & Hd & H). minv H.
        apply process_directive_run in Hproc as (ws & msgs & d & Hws & Hst).
        cbv zeta in Hst. destruct Hst as (-> & Hne & Hk).
        rewrite (drop_label_run cur' tbl lab' _) in Hd
          by (eapply labelled_same; [exact Hlab1 | reflexivity]).
        injection Hd as <-. left. split; [reflexivity|].
        exists ws, (msgs0 ++ msgs)%list, d. rewrite Hdata, Hdc in Hws.
        split; [exact Hws|]. split; [|split; [exact Hne|]].
        2:{ intros Hd. rewrite Hrest. cbv zeta. rewrite Hcm.
            destruct (Hk Hd) as [E Hpre].
            destruct (is_empty (Some rest)) eqn:Hblank; simpl.
            - rewrite E. now rewrite (data_appended_blank _ Hblank).
            - split; [exact E | now apply Hpre]. }
        rewrite Hdc.
        transitivity (set_dc (dc st + Z.of_nat (length ws))
                        (set_data d (log msgs (set_symbol_table tbl st_d))));
          [state_eq|].
        rewrite Htbl. state_eq.
    + apply bind_inv in H as ([] & st1 & Hd & H). minv H.
      rewrite (drop_label_run _ _ _ _ Hlab) in Hd. injection Hd as <-.
      left. split; [reflexivity|].
      exists [], [(line_num st, UNDEFINED_OP_DIR)], (data st).
      split; [reflexivity|].
      split; [state_eq | split; [reflexivity|]].
      intros E. rewrite E in Hdir. discriminate.
Qed.


Lemma operand_text_eq line rest :
  extract_remaining_seq (statement_text line) SEPS_COMMA = Some rest ->
  operand_text line = rest.
Proof. unfold operand_text. now intros ->. Qed.

Lemma label_only_keyword line :
  has_label line = true ->
  is_empty (extract_remaining_seq line ":") = true ->
  find_directive (keyword line) = NONE_DIR.
Proof.
  intros Hl He. unfold keyword, statement_text. rewrite Hl.
  assert (E : copy_next_token
                match extract_remaining_seq line ":" with
                | Some l => l
                | None => EmptyString
                end SEPS_COMMA = EmptyString).
  { unfold copy_next_token. cbv zeta. rewrite is_empty_skip.
    destruct (extract_remaining_seq line ":") as [text|]; [now rewrite He | reflexivity]. }
  now rewrite E.
Qed.

(** [parse_line], line by line: a failure leaves all but the messages and,
    for [.data], the numbers appended before the fault; otherwise the
    instruction or the directive ran to success in the state that holds the
    label. *)
Lemma parse_line_run line st b st' :
  parse_line line st = Some (b, st') ->
  (b = false /\
   exists ws msgs d,
     store_list (data st) (dc st) ws = Some d /\
     st' = set_dc (dc st + Z.of_nat (length ws)) (set_data d (log msgs st)) /\
     (find_directive (keyword line) <> DATA -> ws = []) /\
     (find_directive (keyword line) = DATA ->
      if reads_params line st
      then ws = map number_word (data_appended (operand_text line)) /\
           exists k, (k < length (data_items (operand_text line)))%nat /\
                     data_appended (operand_text line)
                     = take k (data_items (operand_text line))
      else ws = [])) \/
  (b = true /\ is_op (find_operation (keyword line)) = true /\
   exists msgs,
     (has_label line = true ->
      find_symbol (symbol_table st) (name (label_of line)) = None) /\
     process_operation (find_operation (keyword line)) (operand_text line)
       (label_state line INSTRUCTION (ic st) msgs st) = Some (true, st')) \/
  (b = true /\ is_op (find_operation (keyword line)) = false /\
   is_dir (find_directive (keyword line)) = true /\
   exists msgs,
     (has_label line = true ->
      find_symbol (symbol_table st) (name (label_of line)) = None) /\
     process_directive (find_directive (keyword line)) (operand_text line)
       (match find_directive (keyword line) with
        | EXTERN | ENTRY => log msgs st
        | _ => label_state line DIRECTIVE (dc st) msgs st
        end) = Some (true, st')).
Proof.
  unfold parse_line. intros H. cbv zeta in H.
  apply bind_inv in H as (lbl & st1 & Hs & H).
  destruct (is_symbol_run (copy_next_token line SEPS_COLON) true st) as [msgs Hr].
  rewrite Hr in Hs. injection Hs as <- <-.
  fold (first_token line) in H. fold (has_label line) in H.
  destruct (has_label line) eqn:Hlbl.
  - apply bind_inv in H as (cur & st2 & Hadd & H).
    rewrite add_symbol_to_list_run in Hadd.
    destruct (is_existing_symbol _ _) eqn:Hex.
    { injection Hadd as <- <-. minv H. left. split; [reflexivity|].
      exists [], (msgs ++ [(line_num st, SYMBOL_ALREADY_EXISTS)])%list, (data st).
      split; [reflexivity|].
      split; [state_eq | split; [reflexivity|]].
      intros _. unfold reads_params. rewrite Hlbl. simpl in Hex. now rewrite Hex. }
    cbv iota in Hadd. injection Hadd as <- <-.
    assert (Hreads : reads_params line st = passes_commas (operand_text line)).
    { unfold reads_params. rewrite Hlbl. simpl in Hex. now rewrite Hex. }
    apply is_existing_symbol_false in Hex. simpl in Hex.
    fold (label_of line) in H.
    change (symbol_table (log msgs st)) with (symbol_table st) in H.
    set (st_l := set_symbol_table (symbol_table st ++ [label_of line])
                   (log msgs st)) in *.
    assert (Hlab : labelled (Some (length (symbol_table st)))
                     (symbol_table st) (label_of line) st_l).
    { repeat split. exact Hex. }
    destruct (is_empty (extract_remaining_seq line ":")) eqn:Hempty.
    { apply bind_inv in H as ([] & st3 & Hd & H). minv H.
      rewrite (drop_label_run _ _ _ _ Hlab) in Hd. injection Hd as <-.
      left. split; [reflexivity|].
      exists [], (msgs ++ [(line_num st, SYMBOL_ONLY)])%list, (data st).
      split; [reflexivity|].
      split; [subst st_l; state_eq | split; [reflexivity|]].
      intros Hd. rewrite (label_only_keyword _ Hlbl Hempty) in Hd. discriminate. }
    destruct (extract_remaining_seq line ":") as [text|] eqn:Htext; [|discriminate].
    assert (Hst : statement_text line = text).
    { unfold statement_text. now rewrite Hlbl, Htext. }
    assert (Hkw : keyword line = copy_next_token text SEPS_COMMA).
    { unfold keyword. now rewrite Hlbl, Hst. }
    rewrite <- Hkw in H.
    apply (parse_statement_run _ _ _ _ _ _ _ _ Hlab) in H
      as [(-> & ws & msgs' & d & Hws & -> & Hne)
         |[(-> & Hop & rest & Hrest & H)|(-> & Hop & Hdir & rest & Hrest & H)]].
    + left. split; [reflexivity|]. exists ws, (msgs ++ msgs')%list, d.
      split; [exact Hws|]. split; [subst st_l; state_eq|].
      rewrite Hreads. unfold operand_text. rewrite Hst. exact Hne.
    + right. left. repeat split; [exact Hop|]. exists msgs.
      split; [intros _; exact Hex|].
      rewrite <- Hst in Hrest. rewrite (operand_text_eq _ _ Hrest).
      unfold label_state. rewrite Hlbl. exact H.
    + right. right. repeat split; [exact Hop | exact Hdir|]. exists msgs.
      split; [intros _; exact Hex|].
      rewrite <- Hst in Hrest. rewrite (operand_text_eq _ _ Hrest).
      unfold label_state. rewrite Hlbl.
      replace (set_symbol_table (symbol_table st) st_l) with (log msgs st) in H
        by (subst st_l; state_eq).
      exact H.
  - assert (Hlab : labelled None (symbol_table st) (label_of line) (log msgs st))
      by reflexivity.
    assert (Hst : statement_text line = line).
    { unfold statement_text. now rewrite Hlbl. }
    assert (Hkw : keyword line = first_token line).
    { unfold keyword. now rewrite Hlbl. }
    rewrite <- Hkw in H.
    assert (Hreads : reads_params line st = passes_commas (operand_text line)).
    { unfold reads_params. now rewrite Hlbl. }
    apply (parse_statement_run _ _ _ _ _ _ _ _ Hlab) in H
      as [(-> & ws & msgs' & d & Hws & -> & Hne)
         |[(-> & Hop & rest & Hrest & H)|(-> & Hop & Hdir & rest & Hrest & H)]].
    + left. split; [reflexivity|]. exists ws, (msgs ++ msgs')%list, d.
      split; [exact Hws|]. split; [state_eq|].
      rewrite Hreads. unfold operand_text. rewrite Hst. exact Hne.
    + right. left. repeat split; [exact Hop|]. exists msgs.
      split; [discriminate|].
      rewrite <- Hst in Hrest. rewrite (operand_text_eq _ _ Hrest).
      unfold label_state. rewrite Hlbl. exact H.
    + right. right. repeat split; [exact Hop | exact Hdir|]. exists msgs.
      split; [discriminate|].
      rewrite <- Hst in Hrest. rewrite (operand_text_eq _ _ Hrest).
      unfold label_state. rewrite Hlbl.
      replace (set_symbol_table (symbol_table st) (log msgs st))
        with (log msgs st) in H by state_eq.
      simpl with_label in H.
      now destruct (find_directive (keyword line)).
Qed.


(** ** Instructions in the first pass *)

(** The layout of the first word, for every operation and every pair of
    operands that the tests of [process_operation] let through. *)
Lemma encode_first_op_word_layout op hf hs m1 m2 :
  is_valid_operand_count op hf hs = true ->
  (hf = true -> m1 <> NONE_ADDR) ->
  (hs = true -> m2 <> NONE_ADDR) ->
  let src := if hf && hs then mode_val m1 else 0 in
  let dst := if hf && hs then mode_val m2 else if hf then mode_val m1 else 0 in
  let word := encode_first_op_word op hf hs
                (if hf then m1 else NONE_ADDR) (if hs then m2 else NONE_ADDR) in
  word = Z.lor (Z.lor (Z.shiftl src 9) (Z.shiftl (opcode_val op) 5)) (Z.shiftl dst 2) /\
  extract_bits word 0 (ARE_BITS - 1) = are_val ABSOLUTE /\
  extract_bits word DEST_MODE_START_POS DEST_MODE_END_POS = dst /\
  extract_bits word 5 8 = opcode_val op /\
  extract_bits word SRC_MODE_START_POS SRC_MODE_END_POS = src.
Proof.
  intros Hcount H1 H2.
  destruct hf, hs; destruct op; try discriminate Hcount;
    destruct m1; try (exfalso; now apply H1);
    destruct m2; try (exfalso; now apply H2);
    vm_compute; repeat split; reflexivity.
Qed.

Lemma get_additional_word_count_words ops :
  get_additional_word_count (has_first_operand ops) (has_second_operand ops)
    (if has_first_operand ops then addr_mode_of (first_operand ops) else NONE_ADDR)
    (if has_second_operand ops then addr_mode_of (second_operand ops) else NONE_ADDR)
  = operand_words ops.
Proof.
  unfold get_additional_word_count, operand_words.
  destruct (has_first_operand ops), (has_second_operand ops); simpl;
    repeat match goal with |- context [mode_eqb ?a ?b] => destruct (mode_eqb a b) end;
    reflexivity.
Qed.

(** An instruction line that the first pass accepts, seen from
    [process_operation]: its operands, the word stored and the counters. *)
Lemma parse_line_instruction line st st' :
  parse_line line st = Some (true, st') ->
  is_op (find_operation (keyword line)) = true ->
  exists ops msgs c,
    extract_operands (find_operation (keyword line)) (operand_text line)
      = Some (inr ops) /\
    (has_first_operand ops = true -> addr_mode_of (first_operand ops) <> NONE_ADDR) /\
    (has_second_operand ops = true -> addr_mode_of (second_operand ops) <> NONE_ADDR) /\
    is_valid_operand_count (find_operation (keyword line))
      (has_first_operand ops) (has_second_operand ops) = true /\
    array_store (code st) (ic st)
      (encode_first_op_word (find_operation (keyword line))
         (has_first_operand ops) (has_second_operand ops)
         (if has_first_operand ops then addr_mode_of (first_operand ops) else NONE_ADDR)
         (if has_second_operand ops then addr_mode_of (second_operand ops) else NONE_ADDR))
      = Some c /\
    st' = set_ic (ic st + 1 + operand_words ops)
            (set_code c (label_state line INSTRUCTION (ic st) msgs st)).
Proof.
  intros H Hop.
  apply parse_line_run in H
    as [(E & _)|[(_ & _ & msgs & _ & H)|(_ & Hnop & _)]];
    [discriminate | | congruence].
  apply process_operation_run in H as [(E & _)|(_ & ops & msgs' & c & He & H1 & H2 & Hc & _ & Hs & ->)];
    [discriminate|].
  exists ops, (msgs ++ msgs')%list, c.
  repeat split; try assumption.
  - unfold label_state in Hs. now destruct (has_label line).
  - rewrite get_additional_word_count_words.
    unfold label_state. destruct (has_label line); state_eq.
Qed.

(** C1. The first word of every instruction line that the first pass
    accepts, stored at the instruction counter of the line, is
    [(src_mode << 9) | (opcode << 5) | (dest_mode << 2)]: the source mode in
    bits 9 to 11, the operation code in bits 5 to 8, the destination mode
    in bits 2 to 4 and [ABSOLUTE] in the two low bits.  With one operand the
    source field is zero and the operand fills the destination field; with
    none both fields are zero. *)
Theorem first_word_layout line st st' :
  parse_line line st = Some (true, st') ->
  is_op (find_operation (keyword line)) = true ->
  exists ops word,
    extract_operands (find_operation (keyword line)) (operand_text line)
      = Some (inr ops) /\
    code st' !! Z.to_nat (ic st) = Some word /\
    word = Z.lor (Z.lor (Z.shiftl (src_mode_field ops) 9)
                        (Z.shiftl (opcode_val (find_operation (keyword line))) 5))
                 (Z.shiftl (dest_mode_field ops) 2) /\
    extract_bits word 0 (ARE_BITS - 1) = are_val ABSOLUTE /\
    extract_bits word DEST_MODE_START_POS DEST_MODE_END_POS = dest_mode_field ops /\
    extract_bits word 5 8 = opcode_val (find_operation (keyword line)) /\
    extract_bits word SRC_MODE_START_POS SRC_MODE_END_POS = src_mode_field ops.
Proof.
  intros H Hop.
  destruct (parse_line_instruction _ _ _ H Hop)
    as (ops & msgs & c & He & H1 & H2 & Hc & Hs & ->).
  eexists ops, _. split; [exact He|].
  split; [simpl; eapply array_store_lookup; exact Hs|].
  exact (encode_first_op_word_layout _ _ _ _ _ Hc H1 H2).
Qed.

(** C2. Every instruction line that the first pass accepts moves the
    instruction counter by one word for the operation and one for each
    operand, two register operands sharing one word. *)
Theorem ic_advance line st st' :
  parse_line line st = Some (true, st') ->
  is_op (find_operation (keyword line)) = true ->
  exists ops,
    extract_operands (find_operation (keyword line)) (operand_text line)
      = Some (inr ops) /\
    ic st' = ic st + 1 + operand_words ops /\
    (has_first_operand ops = true -> has_second_operand ops = true ->
     addr_mode_of (first_operand ops) = REG_DIRECT_ADDR ->
     addr_mode_of (second_operand ops) = REG_DIRECT_ADDR ->
     ic st' = ic st + 2).
Proof.
  intros H Hop.
  destruct (parse_line_instruction _ _ _ H Hop)
    as (ops & msgs & c & He & H1 & H2 & Hc & Hs & ->).
  exists ops. split; [exact He|]. split; [reflexivity|].
  intros Hf Hsnd E1 E2. simpl. unfold operand_words.
  rewrite Hf, Hsnd, E1, E2. change (mode_eqb REG_DIRECT_ADDR REG_DIRECT_ADDR) with true.
  simpl. lia.
Qed.


(** ** Lines that fail, and the data segment *)

Lemma data_segment_stored st ws d msgs :
  store_list (data st) (dc st) ws = Some d ->
  data_segment (set_dc (dc st + Z.of_nat (length ws)) (set_data d (log msgs st)))
  = (data_segment st ++ ws)%list.
Proof.
  intros Hws. unfold data_segment. simpl.
  destruct ws as [|w ws].
  - injection Hws as <-. simpl. now rewrite Z.add_0_r, app_nil_r.
  - apply store_list_take; [|exact Hws].
    now destruct (store_list_bounds (w :: ws) _ _ d ltac:(discriminate) Hws).
Qed.

(** C4, as the code has it.  A line that the first pass refuses leaves the
    code array, the instruction counter, the symbol table, the table of
    external references and the two flags as they were, its label removed.
    The data and their counter are as they were too unless the line is a
    [.data] directive refused at one of its parameters: then the numbers
    of the parameters in front of that one stay appended, and no other.
    A parameter is appended after the comma tests on the text behind it,
    so that the parameter at which the line is refused is not appended,
    be it a number. *)
Theorem failed_line_effect line st st' :
  parse_line line st = Some (false, st') ->
  code st' = code st /\ ic st' = ic st /\
  symbol_table st' = symbol_table st /\ ext_table st' = ext_table st /\
  is_entry_exists st' = is_entry_exists st /\
  is_extern_exists st' = is_extern_exists st /\
  (find_directive (keyword line) <> DATA -> data st' = data st /\ dc st' = dc st) /\
  (find_directive (keyword line) = DATA ->
   let items := data_items (operand_text line) in
   let appended :=
     if reads_params line st then data_appended (operand_text line) else [] in
   data_segment st' = (data_segment st ++ map number_word appended)%list /\
   dc st' = dc st + Z.of_nat (length appended) /\
   (reads_params line st = true ->
    exists k, (k < length items)%nat /\ appended = take k items)).
Proof.
  intros H.
  apply parse_line_run in H
    as [(_ & ws & msgs & d & Hws & -> & Hne & Hd)|[(E & _)|(E & _)]];
    [|discriminate|discriminate].
  do 6 (split; [reflexivity|]). split.
  - intros H. apply Hne in H. subst ws. simpl in Hws. injection Hws as <-.
    split; [reflexivity | simpl; lia].
  - intros Hdata. cbv zeta. specialize (Hd Hdata).
    assert (Hws' : ws = map number_word
                          (if reads_params line st
                           then data_appended (operand_text line) else [])).
    { destruct (reads_params line st); [apply Hd | exact Hd]. }
    split; [rewrite <- Hws'; now apply data_segment_stored|].
    split; [rewrite Hws' at 1; now rewrite length_map|].
    intros Hr. rewrite Hr in Hd |- *. apply Hd.
Qed.

(** A directive line that the first pass accepts, seen from
    [process_directive]. *)
Lemma parse_line_directive line st st' :
  parse_line line st = Some (true, st') ->
  is_dir (find_directive (keyword line)) = true ->
  exists msgs,
    process_directive (find_directive (keyword line)) (operand_text line)
      (match find_directive (keyword line) with
       | EXTERN | ENTRY => log msgs st
       | _ => label_state line DIRECTIVE (dc st) msgs st
       end) = Some (true, st').
Proof.
  intros H Hdir.
  apply parse_line_run in H
    as [(E & _)|[(_ & Hop & _)|(_ & _ & _ & msgs & _ & H)]]; [discriminate | |eauto].
  apply find_directive_not_op in Hdir. congruence.
Qed.

Lemma label_state_data line t addr msgs st :
  data (label_state line t addr msgs st) = data st /\
  dc (label_state line t addr msgs st) = dc st.
Proof. unfold label_state. now destruct (has_label line). Qed.

(** C5, as the code has it.  The words that an accepted [.data] or
    [.string] line appends to the data segment are the values themselves
    converted to [unsigned int], in the order of the line: the number that
    [atoi] reads for each parameter of [.data]; the code of each character
    between the quotes of [.string], then a zero.  No word is shifted and
    none carries a field [ARE]. *)
Theorem data_words_stored line st st' :
  parse_line line st = Some (true, st') ->
  (find_directive (keyword line) = DATA ->
   let ws := map number_word (data_items (operand_text line)) in
   data_segment st' = (data_segment st ++ ws)%list /\
   dc st' = dc st + Z.of_nat (length ws)) /\
  (find_directive (keyword line) = STRING ->
   let ws := map character_word (chars_of (string_chars (operand_text line)) ++ [NUL]) in
   data_segment st' = (data_segment st ++ ws)%list /\
   dc st' = dc st + Z.of_nat (length ws)).
Proof.
  intros H. split; intros Hd; cbv zeta.
  - destruct (parse_line_directive _ _ _ H) as [msgs Hp]; [now rewrite Hd|].
    rewrite Hd in Hp.
    apply process_directive_run in Hp as (ws & msgs' & d & Hws & Hst).
    cbv zeta in Hst. destruct Hst as (-> & -> & _).
    destruct (label_state_data line DIRECTIVE (dc st) msgs st) as [Edata Edc].
    rewrite data_segment_stored by exact Hws.
    unfold data_segment. simpl. now rewrite Edata, Edc.
  - destruct (parse_line_directive _ _ _ H) as [msgs Hp]; [now rewrite Hd|].
    rewrite Hd in Hp.
    apply process_directive_run in Hp as (ws & msgs' & d & Hws & Hst).
    cbv zeta in Hst. destruct Hst as (-> & ->).
    destruct (label_state_data line DIRECTIVE (dc st) msgs st) as [Edata Edc].
    rewrite data_segment_stored by exact Hws.
    unfold data_segment. simpl. now rewrite Edata, Edc.
Qed.

(** The low twelve bits of a data word, which the object file prints, are
    the value in twelve-bit two's complement. *)
Lemma number_word_low_bits param :
  Z.land (number_word param) 4095 = atoi_value param mod 4096.
Proof.
  unfold number_word, to_uint, UINT_MOD.
  change 4095 with (Z.ones 12). rewrite Z.land_ones by lia.
  apply Z.mod_mod_divide. exists (2 ^ 20). reflexivity.
Qed.

(** ** The invariant of the first pass *)

Lemma to_uint_small z : 0 <= z < UINT_MOD -> to_uint z = z.
Proof. intros H. unfold to_uint. now apply Z.mod_small. Qed.

Lemma operand_words_range ops : 0 <= operand_words ops <= 2.
Proof.
  unfold operand_words.
  destruct (_ && _), (has_first_operand ops), (has_second_operand ops); lia.
Qed.

Lemma symbol_ok_mono st st' s :
  symbol_ok st s -> ic st <= ic st' -> dc st <= dc st' -> symbol_ok st' s.
Proof.
  unfold symbol_ok. destruct (is_ext s); [auto|].
  intros [[Ht Ha]|[Ht Ha]] ? ?; [left|right]; (split; [exact Ht | lia]).
Qed.

Lemma symbols_ok_mono st st' tbl :
  Forall (symbol_ok st) tbl -> ic st <= ic st' -> dc st <= dc st' ->
  Forall (symbol_ok st') tbl.
Proof. intros H ? ?. eapply Forall_impl; [exact H|]. intros s Hs. eapply symbol_ok_mono; eauto. Qed.

(** The table that [label_state] holds, under a state whose counters moved
    past the address of the label. *)
Lemma label_state_symbols_ok line t addr msgs st st' :
  Forall (symbol_ok st) (symbol_table st) ->
  ic st <= ic st' -> dc st <= dc st' ->
  0 <= addr < UINT_MOD ->
  match t with INSTRUCTION => addr < ic st' | DIRECTIVE => addr < dc st' end ->
  Forall (symbol_ok st') (symbol_table (label_state line t addr msgs st)).
Proof.
  intros Hall Hic Hdc Haddr Hlt. unfold label_state.
  destruct (has_label line); simpl; [|eapply symbols_ok_mono; eauto].
  apply Forall_app. split; [eapply symbols_ok_mono; eauto|].
  constructor; [|constructor].
  unfold symbol_ok. simpl. rewrite to_uint_small by exact Haddr.
  destruct t; [left | right]; (split; [reflexivity | lia]).
Qed.

Lemma label_state_fields line t addr msgs st :
  code (label_state line t addr msgs st) = code st /\
  data (label_state line t addr msgs st) = data st /\
  ic (label_state line t addr msgs st) = ic st /\
  dc (label_state line t addr msgs st) = dc st.
Proof. unfold label_state. now destruct (has_label line). Qed.

Lemma parse_line_inv line st b st' :
  pass1_inv st -> parse_line line st = Some (b, st') -> pass1_inv st'.
Proof.
  intros ([Hcode Hdata] & Hic & Hdc & Hall) H.
  assert (Hmod : MEM_SIZE + 2 < UINT_MOD) by (vm_compute; reflexivity).
  destruct b.
  - destruct (is_op (find_operation (keyword line))) eqn:Hop.
    + destruct (parse_line_instruction _ _ _ H Hop)
        as (ops & msgs & c & _ & _ & _ & _ & Hs & ->).
      apply array_store_inv in Hs as (Hi & _ & Hlen).
      pose proof (operand_words_range ops) as Hw.
      destruct (label_state_fields line INSTRUCTION (ic st) msgs st)
        as (_ & Ed & _ & Edc).
      unfold pass1_inv, arrays_ok. simpl. rewrite Hlen, Ed, Edc.
      repeat split; try lia.
      apply label_state_symbols_ok; simpl; try assumption; lia.
    + apply parse_line_run in H
        as [(E & _)|[(_ & Hop' & _)|(_ & _ & Hdir & msgs & _ & H)]];
        [discriminate | congruence |].
      apply process_directive_run in H as (ws & msgs' & d & Hws & Hst).
      cbv zeta in Hst.
      destruct (label_state_fields line DIRECTIVE (dc st) msgs st)
        as (Ec & Ed & Ei & Edc).
      assert (Hws' : store_list (data st) (dc st) ws = Some d).
      { destruct (find_directive (keyword line)); first
          [now rewrite Ed, Edc in Hws | exact Hws]. }
      pose proof (store_list_length _ _ _ _ Hws') as Hlen.
      assert (Hb : ws <> [] -> dc st + Z.of_nat (length ws) <= MEM_SIZE).
      { intros Hne. destruct (store_list_bounds _ _ _ _ Hne Hws'). lia. }
      destruct (find_directive (keyword line)) eqn:Hd; try contradiction.
      * destruct Hst as (-> & _ & Hne). specialize (Hb Hne).
        assert (0 < Z.of_nat (length ws)) by (destruct ws; [congruence | simpl; lia]).
        unfold pass1_inv, arrays_ok. simpl. rewrite Hlen, Ec, Ei, Edc.
        repeat split; try lia.
        apply label_state_symbols_ok; simpl; try assumption; lia.
      * destruct Hst as (-> & Ews).
        assert (Hne : ws <> []).
        { rewrite Ews, map_app. intros E. now apply app_eq_nil in E as [_ E]. }
        specialize (Hb Hne).
        assert (0 < Z.of_nat (length ws)) by (destruct ws; [congruence | simpl; lia]).
        unfold pass1_inv, arrays_ok. simpl. rewrite Hlen, Ec, Ei, Edc.
        repeat split; try lia.
        apply label_state_symbols_ok; simpl; try assumption; lia.
      * destruct Hst as (-> & ->). injection Hws' as <-.
        unfold pass1_inv, arrays_ok. simpl.
        repeat split; try lia. eapply symbols_ok_mono; eauto; simpl; lia.
      * destruct Hst as (-> & _ & ->). injection Hws' as <-.
        unfold pass1_inv, arrays_ok. simpl.
        repeat split; try lia. apply Forall_app. split.
        -- eapply symbols_ok_mono; eauto; simpl; lia.
        -- constructor; [|constructor]. unfold symbol_ok. simpl. auto.
  - apply parse_line_run in H
      as [(_ & ws & msgs & d & Hws & -> & _)|[(E & _)|(E & _)]];
      [|discriminate|discriminate].
    pose proof (store_list_length _ _ _ _ Hws) as Hlen.
    assert (Hb : dc st + Z.of_nat (length ws) <= MEM_SIZE).
    { destruct ws as [|w ws]; [simpl; lia|].
      destruct (store_list_bounds (w :: ws) _ _ _ ltac:(discriminate) Hws). lia. }
    unfold pass1_inv, arrays_ok. simpl. rewrite Hlen.
    repeat split; try lia. eapply symbols_ok_mono; eauto; simpl; lia.
Qed.

Lemma first_pass_lines_inv lines : forall e st e' st',
  pass1_inv st -> first_pass_lines lines e st = Some (e', st') -> pass1_inv st'.
Proof.
  induction lines as [|line lines IH]; intros e st e' st' Hinv H; simpl in H.
  - now minv H.
  - apply bind_inv in H as (ok & st1 & Hline & H).
    apply bind_inv in H as ([] & st2 & Hnum & H). minv Hnum.
    eapply IH; [|exact H].
    assert (Hinv1 : pass1_inv st1).
    { destruct (negb _); [eapply parse_line_inv; eauto | now minv Hline]. }
    destruct Hinv1 as ([Ha1 Ha2] & Hi & Hd & Hall).
    unfold pass1_inv, arrays_ok. simpl. repeat split; try assumption; lia.
Qed.


(** ** The end of the first pass *)

Lemma first_pass_start_inv st : arrays_ok st -> pass1_inv (first_pass_start st).
Proof.
  intros H. unfold pass1_inv. repeat split; try apply H; simpl;
    try (vm_compute; congruence). constructor.
Qed.

(** The two sweeps of [update_symbol_addr] on a table of the first pass. *)
Lemma update_symbol_addr_finalise st tbl :
  0 <= ic st <= MEM_SIZE + 2 -> 0 <= dc st <= MEM_SIZE ->
  Forall (symbol_ok st) tbl ->
  update_symbol_addr (update_symbol_addr tbl MEM_START INSTRUCTION)
    (ic st + MEM_START) DIRECTIVE
  = map (finalise (ic st)) tbl.
Proof.
  intros Hic Hdc Hall. unfold MEM_SIZE in *.
  induction Hall as [|s tbl Hs Hall IH]; [reflexivity|].
  unfold update_symbol_addr in *. simpl. rewrite IH. f_equal.
  unfold symbol_ok in Hs. unfold finalise. destruct s as [n a t e ent]. simpl in *.
  destruct e; simpl.
  - reflexivity.
  - destruct Hs as [[-> Ha]|[-> Ha]]; simpl;
      (rewrite to_uint_small by (unfold UINT_MOD, MEM_START; lia)); reflexivity.
Qed.

Lemma finalise_range st s :
  0 <= ic st -> 0 <= dc st -> symbol_ok st s -> is_ext s = false ->
  MEM_START <= address (finalise (ic st) s) < MEM_START + ic st + dc st.
Proof.
  intros Hic Hdc Hs He. unfold symbol_ok in Hs. unfold finalise.
  rewrite He in *. destruct Hs as [[-> Ha]|[-> Ha]]; simpl; lia.
Qed.

(** [first_process] from its end: the state when the reading loop ends,
    which meets the invariant, and the table after the two sweeps. *)
Lemma first_process_end am_file st0 was_error st :
  arrays_ok st0 ->
  first_process am_file st0 = Some (was_error, st) ->
  exists st1,
    first_pass_lines (file_lines am_file) false (first_pass_start st0)
      = Some (was_error, st1) /\
    pass1_inv st1 /\
    ic st = ic st1 /\ dc st = dc st1 /\
    symbol_table st = map (finalise (ic st1)) (symbol_table st1).
Proof.
  intros Harr H. unfold first_process in H.
  apply bind_inv in H as ([] & st_a & Hstart & H). minv Hstart.
  apply bind_inv in H as (e & st1 & Hloop & H).
  apply bind_inv in H as ([] & st2 & Hs1 & H). minv Hs1.
  apply bind_inv in H as ([] & st3 & Hs2 & H). minv Hs2. minv H.
  exists st1. split; [exact Hloop|].
  pose proof (first_pass_lines_inv _ _ _ _ _ (first_pass_start_inv _ Harr) Hloop) as Hinv.
  split; [exact Hinv|]. destruct Hinv as (_ & Hic & Hdc & Hall). simpl.
  rewrite (update_symbol_addr_finalise st1) by assumption.
  repeat split.
Qed.

(** C3. [first_process] ends with the two sweeps of the symbol table: a
    symbol that is not external has its address raised by [MEM_START] if
    its segment is [INSTRUCTION] and by the final [ic] plus [MEM_START] if
    it is [DIRECTIVE], an external symbol is as it was; and every symbol
    that is not external then has an address in
    [[MEM_START, MEM_START + ic + dc)]. *)
Theorem symbol_addresses_finalised am_file st0 was_error st :
  arrays_ok st0 ->
  first_process am_file st0 = Some (was_error, st) ->
  exists st1,
    first_pass_lines (file_lines am_file) false (first_pass_start st0)
      = Some (was_error, st1) /\
    ic st = ic st1 /\ dc st = dc st1 /\
    symbol_table st = map (finalise (ic st1)) (symbol_table st1) /\
    (forall s, is_ext s = true -> finalise (ic st1) s = s) /\
    (forall s, is_ext s = false -> type s = Some INSTRUCTION ->
               address (finalise (ic st1) s) = address s + MEM_START) /\
    (forall s, is_ext s = false -> type s = Some DIRECTIVE ->
               address (finalise (ic st1) s) = address s + (ic st1 + MEM_START)) /\
    (forall s, In s (symbol_table st) -> is_ext s = false ->
               MEM_START <= address s < MEM_START + ic st + dc st).
Proof.
  intros Harr H.
  destruct (first_process_end _ _ _ _ Harr H)
    as (st1 & Hloop & (_ & Hic & Hdc & Hall) & Eic & Edc & Etbl).
  exists st1. split; [exact Hloop|].
  split; [exact Eic|]. split; [exact Edc|]. split; [exact Etbl|].
  split; [intros s He; unfold finalise; now rewrite He|].
  split; [intros s He Ht; unfold finalise; now rewrite He, Ht|].
  split; [intros s He Ht; unfold finalise; now rewrite He, Ht|].
  intros s Hin He. rewrite Etbl in Hin.
  apply in_map_iff in Hin as (s0 & <- & Hin).
  assert (He0 : is_ext s0 = false).
  { unfold finalise in He. destruct (is_ext s0) eqn:E; [congruence | reflexivity]. }
  rewrite Eic, Edc. apply finalise_range; try lia; [|exact He0].
  rewrite Forall_forall in Hall. apply Hall. now apply list_elem_of_In.
Qed.


(** ** The second pass *)

Lemma array_store_some a i w :
  0 <= i < Z.of_nat (length a) -> array_store a i w = Some (<[Z.to_nat i := w]> a).
Proof.
  intros H. unfold array_store.
  destruct (Z.leb_spec 0 i); [|lia]. destruct (Z.ltb_spec i (Z.of_nat (length a))); [|lia].
  reflexivity.
Qed.

Lemma lookup_symbol_found table n s :
  lookup_symbol table n = Some s ->
  is_existing_symbol table n = true /\
  get_symbol_addr table n = address s /\
  is_extern_symbol table n = is_ext s.
Proof.
  unfold lookup_symbol, is_existing_symbol, get_symbol_addr, is_extern_symbol.
  destruct (find_symbol table n) as [i|]; [|discriminate].
  now intros ->.
Qed.

Lemma encode_are_relocatable a :
  0 <= a < 2 ^ 30 ->
  encode_are a RELOCATABLE = Z.lor (Z.shiftl a ARE_BITS) (are_val RELOCATABLE).
Proof.
  intros H. unfold encode_are. rewrite to_uint_small; [reflexivity|].
  unfold ARE_BITS, UINT_MOD. rewrite Z.shiftl_mul_pow2 by lia. lia.
Qed.

(** C6. An operand that the second pass resolves in the direct mode,
    [encode_operand_to_code] with [DIRECT_ADDR], and whose symbol is in
    the table, in a table that keeps external symbols at address zero: for
    an external symbol the word stored at [ic] is [1], value zero under
    [EXTERNAL], and one record with the name and [ic + MEM_START] is added
    at the end of the table of external references; for any other symbol
    the word is the address shifted by two bits under [RELOCATABLE] and no
    record is added. *)
Theorem direct_operand_word operand is_dest s st :
  arrays_ok st ->
  0 <= ic st < MEM_SIZE ->
  lookup_symbol (symbol_table st) operand = Some s ->
  (is_ext s = true -> address s = 0) ->
  0 <= address s < 2 ^ 30 ->
  exists st',
    encode_operand_to_code operand (mode_val DIRECT_ADDR) is_dest st
      = Some (true, st') /\
    ic st' = ic st + 1 /\
    symbol_table st' = symbol_table st /\
    (forall j : nat, j <> Z.to_nat (ic st) -> code st' !! j = code st !! j) /\
    if is_ext s then
      code st' !! Z.to_nat (ic st) = Some 1 /\
      1 = Z.lor (Z.shiftl 0 ARE_BITS) (are_val EXTERNAL) /\
      ext_table st' = (ext_table st ++ [mk_ext operand (ic st + MEM_START)])%list
    else
      code st' !! Z.to_nat (ic st)
        = Some (Z.lor (Z.shiftl (address s) ARE_BITS) (are_val RELOCATABLE)) /\
      ext_table st' = ext_table st.
Proof.
  intros [Hcode _] Hic Hs Hzero Haddr.
  apply lookup_symbol_found in Hs as (Hex & Hget & Hext).
  assert (Hin : 0 <= ic st < Z.of_nat (length (code st))) by (rewrite Hcode; exact Hic).
  unfold encode_operand_to_code.
  change (mode_val DIRECT_ADDR =? mode_val IMMEDIATE_ADDR) with false.
  change (mode_val DIRECT_ADDR =? mode_val DIRECT_ADDR) with true. cbv iota.
  unfold encode_symbol, bind, gets. rewrite Hex, Hget, Hext.
  destruct (is_ext s) eqn:He.
  - rewrite (Hzero eq_refl). unfold add_ext_to_list, modify, ret, append_word_to_code.
    simpl. rewrite (array_store_some _ _ _ Hin).
    eexists. split; [reflexivity|]. simpl.
    split; [reflexivity|]. split; [reflexivity|].
    split; [intros j Hj; now apply list_lookup_insert_ne|].
    split; [apply list_lookup_insert_eq; lia|]. split; [reflexivity|].
    rewrite to_uint_small; [reflexivity|]. unfold MEM_SIZE, MEM_START, UINT_MOD in *. lia.
  - unfold ret, append_word_to_code. rewrite (array_store_some _ _ _ Hin).
    eexists. split; [reflexivity|]. simpl.
    split; [reflexivity|]. split; [reflexivity|].
    split; [intros j Hj; now apply list_lookup_insert_ne|].
    split; [|reflexivity].
    rewrite encode_are_relocatable by exact Haddr.
    apply list_lookup_insert_eq. lia.
Qed.

(** After the first pass every symbol of the table is as the encoding of
    a direct operand expects it: an external symbol at address zero, and
    every address short enough to be shifted. *)
Lemma first_process_table am_file st0 was_error st :
  arrays_ok st0 ->
  first_process am_file st0 = Some (was_error, st) ->
  forall s, In s (symbol_table st) ->
    (is_ext s = true -> address s = 0) /\ 0 <= address s < 2 ^ 30.
Proof.
  intros Harr H.
  destruct (first_process_end _ _ _ _ Harr H)
    as (st1 & _ & (_ & Hic & Hdc & Hall) & _ & _ & Etbl).
  intros s Hin. rewrite Etbl in Hin.
  apply in_map_iff in Hin as (s0 & <- & Hin0).
  rewrite Forall_forall in Hall. apply list_elem_of_In, Hall in Hin0.
  destruct (is_ext s0) eqn:He0.
  - unfold finalise. rewrite He0. unfold symbol_ok in Hin0. rewrite He0 in Hin0.
    destruct Hin0 as [-> _]. split; [reflexivity | lia].
  - pose proof (finalise_range st1 s0 ltac:(lia) ltac:(lia) Hin0 He0) as Hr.
    split.
    + intros He. unfold finalise in He. rewrite He0 in He.
      destruct (type s0) as [[]|]; simpl in He; congruence.
    + unfold MEM_START, MEM_SIZE in *. lia.
Qed.







(** ** The preprocessor *)

Lemma macro_verdict_iff n : accepted (macro_verdict n) = true <-> macro_name_rules n.
Proof.
  unfold macro_verdict, macro_name_rules.
  destruct (Z.ltb_spec MAX_MCR_LEN (strlen n)).
  { simpl. split; [discriminate | lia]. }
  destruct (is_register n); [simpl; split; [discriminate | intuition discriminate]|].
  destruct (is_op (find_operation n)); [simpl; split; [discriminate | intuition discriminate]|].
  destruct (is_dir (find_directive n)); [simpl; split; [discriminate | intuition discriminate]|].
  simpl. split; [intros _; repeat split; lia | reflexivity].
Qed.

Lemma macro_verdict_rejects n :
  accepted (macro_verdict n) = false -> exists e, macro_verdict n = Reject (Some e).
Proof.
  unfold macro_verdict.
  repeat match goal with |- context [if ?c then _ else _] => destruct c; [eauto|] end.
  discriminate.
Qed.


Lemma string_app_assoc (a b c : string) : ((a ++ b) ++ c = a ++ (b ++ c))%string.
Proof. induction a as [|x a IH]; simpl; [reflexivity|]. now rewrite IH. Qed.

Lemma string_app_nil_r (a : string) : (a ++ "" = a)%string.
Proof. induction a as [|x a IH]; simpl; [reflexivity|]. now rewrite IH. Qed.

(** [fgets] splits the stream and takes a character at least. *)
Lemma fgets_chars_split room : forall stream,
  (fst (fgets_chars room stream) ++ snd (fgets_chars room stream) = stream)%string.
Proof.
  induction room as [|room IH]; intros [|c rest]; simpl; try reflexivity.
  destruct (ascii_eqb c NEWLINE); simpl; [reflexivity|].
  specialize (IH rest). destruct (fgets_chars room rest) as [l s]. simpl in *.
  now rewrite IH.
Qed.

Lemma fgets_chars_rest room c rest :
  (String.length (snd (fgets_chars (S room) (String c rest))) <= String.length rest)%nat.
Proof.
  revert c rest. induction room as [|room IH]; intros c rest; simpl.
  - destruct (ascii_eqb c NEWLINE); simpl; [lia|]. destruct rest; simpl; lia.
  - destruct (ascii_eqb c NEWLINE); simpl; [lia|].
    destruct rest as [|c' rest']; [simpl; lia|].
    specialize (IH c' rest'). simpl in IH |- *.
    destruct (ascii_eqb c' NEWLINE); simpl in *; [lia|].
    destruct (fgets_chars room rest') as [l s]. simpl in *. lia.
Qed.

Lemma has_nul_app (a b : string) :
  has_nul (a ++ b) = has_nul a || has_nul b.
Proof.
  induction a as [|c a IH]; simpl; [reflexivity|].
  rewrite IH. now rewrite orb_assoc.
Qed.

Lemma c_string_plain buffer : has_nul buffer = false -> c_string buffer = buffer.
Proof.
  induction buffer as [|c buffer IH]; simpl; [reflexivity|].
  intros H. apply orb_false_iff in H as [Hc Hrest].
  rewrite Hc. now rewrite IH.
Qed.

Lemma read_lines_concat fuel : forall stream,
  has_nul stream = false ->
  (String.length stream <= fuel)%nat -> concat_lines (read_lines fuel stream) = stream.
Proof.
  induction fuel as [|fuel IH]; intros stream Hnul Hlen.
  - destruct stream; [reflexivity | simpl in Hlen; lia].
  - destruct stream as [|c rest]; [reflexivity|].
    cbn [read_lines fgets]. change (MAX_LINE_LEN - 1)%nat with 80%nat.
    pose proof (fgets_chars_split 80 (String c rest)) as Hsplit.
    pose proof (fgets_chars_rest 79 c rest) as Hrest.
    destruct (fgets_chars 80 (String c rest)) as [l s].
    cbn [fst snd] in Hsplit, Hrest. cbn [String.length] in Hlen.
    rewrite <- Hsplit, has_nul_app in Hnul.
    apply orb_false_iff in Hnul as [Hl Hs].
    rewrite (c_string_plain _ Hl).
    change (concat_lines (l :: read_lines fuel s))
      with (l ++ concat_lines (read_lines fuel s))%string.
    rewrite IH by (assumption || lia). exact Hsplit.
Qed.

(** The lines that [fgets] reads from a stream without NUL, put end to
    end, are the stream. *)
Lemma file_lines_concat stream :
  has_nul stream = false -> concat_lines (file_lines stream) = stream.
Proof. intros H. apply read_lines_concat; [exact H | lia]. Qed.

Lemma pre_process_lines_plain src_lines : forall ps st,
  Forall (fun l => starts_with "mcro" (trim_whitespaces l) = false) src_lines ->
  macro_table ps = [] -> is_inside_macro ps = false ->
  pre_process_lines src_lines ps st =
  Some ((true,
         mk_pre_state [] (current_macro ps) false
           (extended_src ps ++ concat_lines src_lines)),
        set_line_num (line_num st + Z.of_nat (length src_lines)) st).
Proof.
  induction src_lines as [|line rest IH]; intros ps st Hall Htbl Hin.
  - simpl. unfold ret. rewrite string_app_nil_r, Z.add_0_r.
    destruct ps, st. simpl in *. now subst.
  - inversion Hall as [|? ? Hline Hrest]; subst.
    cbn [pre_process_lines]. unfold bind at 1. unfold pre_process_line. cbv zeta.
    rewrite Hline, Hin, Htbl. cbn [andb expand_macro find_macro]. unfold ret at 1.
    cbv beta iota. unfold bind at 1, modify.
    rewrite IH by (simpl; auto). simpl.
    rewrite string_app_assoc. do 2 f_equal. state_eq.
Qed.

(** C9, as the code has it.  When the source holds no NUL and no line read
    from it (at most eighty characters at a time) begins, once trimmed,
    with the four characters [mcro], [pre_process] succeeds and the
    expanded file is the source file, character for character. *)
Theorem pre_process_identity as_file st :
  has_nul as_file = false ->
  Forall (fun l => starts_with "mcro" (trim_whitespaces l) = false)
    (file_lines as_file) ->
  pre_process as_file st =
  Some ((true, Some as_file),
        set_line_num (1 + Z.of_nat (length (file_lines as_file))) st).
Proof.
  intros Hnul Hall. unfold pre_process, bind at 1, modify.
  unfold bind.
  rewrite (pre_process_lines_plain _ (mk_pre_state [] None false EmptyString) _
             Hall eq_refl eq_refl).
  simpl. unfold ret. now rewrite (file_lines_concat _ Hnul).
Qed.


(** ** The loop of [process_data_dir] ends within its fuel *)

Lemma skip_whitespaces_length s :
  (String.length (skip_whitespaces s) <= String.length s)%nat.
Proof.
  induction s as [|c s IH]; simpl; [lia|].
  destruct (isspace c); simpl; lia.
Qed.

Lemma skip_whitespaces_idem s : skip_whitespaces (skip_whitespaces s) = skip_whitespaces s.
Proof.
  induction s as [|c s IH]; simpl; [reflexivity|].
  destruct (isspace c) eqn:E; [exact IH|]. simpl. now rewrite E.
Qed.

Lemma skip_token_length s seps :
  (String.length (skip_token s seps) <= String.length s)%nat.
Proof.
  induction s as [|c s IH]; simpl; [lia|].
  destruct (is_separator c seps); [destruct (ascii_eqb c ":"); simpl; lia|].
  lia.
Qed.

Lemma extract_remaining_seq_length line seps rest :
  extract_remaining_seq line seps = Some rest ->
  (String.length rest <= String.length line)%nat /\
  (is_empty (Some rest) = true -> rest = EmptyString).
Proof.
  unfold extract_remaining_seq. destruct (is_empty _); [discriminate|].
  intros [= <-]. split.
  - pose proof (skip_whitespaces_length (skip_token (skip_whitespaces line) seps)).
    pose proof (skip_token_length (skip_whitespaces line) seps).
    pose proof (skip_whitespaces_length line). lia.
  - unfold is_empty. rewrite skip_whitespaces_idem.
    now destruct (skip_whitespaces _).
Qed.

Lemma is_empty_false_length line :
  is_empty (Some line) = false -> (0 < String.length line)%nat.
Proof. unfold is_empty. destruct line; simpl; [discriminate | lia]. Qed.

Lemma str_drop_1_length s :
  (0 < String.length s)%nat -> (String.length (str_drop 1 s) < String.length s)%nat.
Proof. destruct s; unfold str_drop; simpl; lia. Qed.

(** Any fuel above the length of the line gives the same run: the loop
    never stops for want of fuel. *)
Lemma process_data_dir_loop_fuel f1 : forall f2 line st,
  (String.length line < f1)%nat -> (String.length line < f2)%nat ->
  process_data_dir_loop f1 line st = process_data_dir_loop f2 line st.
Proof.
  induction f1 as [|f1 IH]; intros [|f2] line st H1 H2; try lia.
  cbn [process_data_dir_loop].
  destruct (is_empty (Some line)) eqn:Hempty; [reflexivity|].
  destruct (copy_next_token_to MAX_OPERAND_LEN line SEPS_COMMA) as [param|];
    [|reflexivity].
  destruct (negb (is_number _)); [reflexivity|].
  destruct (extract_remaining_seq line SEPS_COMMA) as [rest|] eqn:Hrest; [|reflexivity].
  destruct (_ && _); [reflexivity|]. destruct (_ && _); [reflexivity|].
  destruct (atoi _); [|reflexivity].
  unfold bind. destruct (append_number_to_data z st) as [[[] st1]|]; [|reflexivity].
  apply extract_remaining_seq_length in Hrest as [Hlen Hnil].
  apply is_empty_false_length in Hempty.
  destruct (is_empty (Some rest)) eqn:Hr; simpl negb; cbv iota.
  - rewrite (Hnil eq_refl). apply IH; simpl; lia.
  - apply is_empty_false_length in Hr. pose proof (str_drop_1_length rest Hr).
    apply IH; lia.
Qed.


(** ** The symbol table in the second pass *)

Lemma first_process_convention am_file st0 was_error st :
  arrays_ok st0 ->
  first_process am_file st0 = Some (was_error, st) ->
  table_convention (symbol_table st).
Proof.
  intros Harr H. apply Forall_forall. intros s Hin.
  apply (first_process_table _ _ _ _ Harr H). now apply list_elem_of_In.
Qed.

Lemma encode_reg_run reg is_dest st w st' :
  encode_reg reg is_dest st = Some (w, st') -> st' = st.
Proof. unfold encode_reg. destruct (atoi _); [|discriminate]. now intros [= _ <-]. Qed.

Lemma append_word_to_code_table w st u st' :
  append_word_to_code w st = Some (u, st') -> symbol_table st' = symbol_table st.
Proof.
  unfold append_word_to_code. destruct (array_store _ _ _); [|discriminate].
  now intros [= _ <-].
Qed.

Lemma encode_symbol_table n st b st' :
  encode_symbol n st = Some (b, st') -> symbol_table st' = symbol_table st.
Proof.
  unfold encode_symbol. intros H.
  apply bind_inv in H as (tbl & st1 & Hg & H). minv Hg.
  destruct (is_existing_symbol _ _).
  - apply bind_inv in H as (w & st2 & Hw & H).
    apply bind_inv in H as ([] & st3 & Ha & H). minv H.
    apply append_word_to_code_table in Ha. rewrite Ha.
    destruct (is_extern_symbol _ _).
    + apply bind_inv in Hw as (i & st4 & Hg & Hw). minv Hg.
      apply bind_inv in Hw as ([] & st5 & He & Hw). minv Hw.
      unfold add_ext_to_list, modify in He. now injection He as <-.
    + now minv Hw.
  - apply bind_inv in H as ([] & st2 & Hm & H). minv Hm.
    apply bind_inv in H as ([] & st3 & Hp & H). minv Hp. now minv H.
Qed.

Lemma encode_operand_to_code_table operand mode is_dest st b st' :
  encode_operand_to_code operand mode is_dest st = Some (b, st') ->
  symbol_table st' = symbol_table st.
Proof.
  unfold encode_operand_to_code. intros H.
  destruct (mode =? mode_val IMMEDIATE_ADDR).
  { destruct (atoi operand); [|discriminate].
    apply bind_inv in H as ([] & st1 & Ha & H). minv H.
    now apply append_word_to_code_table in Ha. }
  destruct (mode =? mode_val DIRECT_ADDR); [now apply encode_symbol_table in H|].
  destruct (mode =? mode_val REG_DIRECT_ADDR); [|now minv H].
  apply bind_inv in H as (w & st1 & Hr & H). apply encode_reg_run in Hr as ->.
  apply bind_inv in H as ([] & st2 & Ha & H). minv H.
  now apply append_word_to_code_table in Ha.
Qed.

Lemma encode_additional_words_table src dest has_src has_dest ms md st b st' :
  encode_additional_words src dest has_src has_dest ms md st = Some (b, st') ->
  symbol_table st' = symbol_table st.
Proof.
  unfold encode_additional_words. intros H.
  destruct (_ && _).
  { apply bind_inv in H as (w1 & st1 & H1 & H). apply encode_reg_run in H1 as ->.
    apply bind_inv in H as (w2 & st2 & H2 & H). apply encode_reg_run in H2 as ->.
    apply bind_inv in H as ([] & st3 & Ha & H). minv H.
    now apply append_word_to_code_table in Ha. }
  destruct has_dest; [|now minv H].
  destruct has_src; [|now apply encode_operand_to_code_table in H].
  apply bind_inv in H as (b1 & st1 & H1 & H).
  apply bind_inv in H as (b2 & st2 & H2 & H). minv H.
  apply encode_operand_to_code_table in H1, H2. congruence.
Qed.

Lemma process_operation_second_pass_table op line st b st' :
  process_operation_second_pass op line st = Some (b, st') ->
  symbol_table st' = symbol_table st.
Proof.
  unfold process_operation_second_pass. intros H.
  destruct (determine_operand op false false) as [has_src has_dest].
  apply bind_inv in H as (ms & st1 & H1 & H).
  assert (st1 = st) as ->.
  { destruct has_src; [|now minv H1].
    apply bind_inv in H1 as (w & st2 & Hw & H1). minv H1.
    unfold current_code_word in Hw. destruct (array_load _ _); [|discriminate].
    now injection Hw as _ <-. }
  apply bind_inv in H as (md & st1 & H2 & H).
  assert (st1 = st) as ->.
  { destruct has_dest; [|now minv H2].
    apply bind_inv in H2 as (w & st2 & Hw & H2). minv H2.
    unfold current_code_word in Hw. destruct (array_load _ _); [|discriminate].
    now injection Hw as _ <-. }
  apply bind_inv in H as (ops & st1 & H3 & H).
  assert (st1 = st) as ->.
  { destruct has_dest; [|now minv H3].
    destruct has_src; operands_inv H3; now minv H3. }
  apply bind_inv in H as ([] & st1 & Hm & H). minv Hm.
  now apply encode_additional_words_table in H.
Qed.

Lemma make_entry_convention n st b st' :
  make_entry n st = Some (b, st') ->
  table_convention (symbol_table st) -> table_convention (symbol_table st').
Proof.
  unfold make_entry, table_convention. intros H Hconv.
  destruct (find_symbol _ _) as [i|]; [|now minv H].
  destruct (symbol_table st !! i) as [s|] eqn:Hs; [|discriminate].
  destruct (is_ext s) eqn:He; [now minv H|].
  injection H as _ <-. simpl. apply Forall_insert; [exact Hconv|].
  rewrite Forall_forall in Hconv.
  split; [discriminate|].
  exact (proj2 (Hconv s (list_elem_of_lookup_2 _ _ _ Hs))).
Qed.

(** The second pass keeps the convention on the symbol table: it sets
    entry flags and nothing else in the table. *)
Lemma parse_line_second_pass_convention line st b st' :
  parse_line_second_pass line st = Some (b, st') ->
  table_convention (symbol_table st) -> table_convention (symbol_table st').
Proof.
  unfold parse_line_second_pass. cbv zeta. intros H Hconv.
  apply bind_inv in H as (lbl & st1 & Hs & H).
  destruct (is_symbol_run (copy_next_token line SEPS_COLON) true st) as [msgs Hr].
  rewrite Hr in Hs. injection Hs as <- <-.
  apply bind_inv in H as (tl & st1 & Ht & H).
  assert (st1 = log msgs st) as ->.
  { destruct (accepted _); [|now minv Ht].
    destruct (extract_remaining_seq line ":"); [now minv Ht | discriminate]. }
  destruct (is_op _).
  { destruct (extract_remaining_seq _ _); [|discriminate].
    apply process_operation_second_pass_table in H. now rewrite H. }
  destruct (is_dir _); [|now minv H].
  destruct (find_directive _); try now minv H.
  destruct (extract_remaining_seq _ _); [|discriminate].
  eapply make_entry_convention; [exact H | exact Hconv].
Qed.

Lemma second_pass_lines_convention src_lines : forall e st e' st',
  second_pass_lines src_lines e st = Some (e', st') ->
  table_convention (symbol_table st) -> table_convention (symbol_table st').
Proof.
  induction src_lines as [|line rest IH]; intros e st e' st' H Hconv; simpl in H.
  - now minv H.
  - apply bind_inv in H as (ok & st1 & Hline & H).
    apply bind_inv in H as ([] & st2 & Hnum & H). minv Hnum.
    eapply IH; [exact H|]. simpl.
    destruct (negb _); [|now minv Hline].
    eapply parse_line_second_pass_convention; eauto.
Qed.

(** ** The properties on sample inputs *)

Lemma first_word_layout_witness :
  parse_line sample_mov initial_state
    = Some (true, run_state (parse_line sample_mov initial_state)) /\
  is_op (find_operation (keyword sample_mov)) = true /\
  exists ops word,
    extract_operands (find_operation (keyword sample_mov)) (operand_text sample_mov)
      = Some (inr ops) /\
    code (run_state (parse_line sample_mov initial_state)) !! Z.to_nat (ic initial_state)
      = Some word /\
    word = Z.lor (Z.lor (Z.shiftl (src_mode_field ops) 9)
                        (Z.shiftl (opcode_val (find_operation (keyword sample_mov))) 5))
                 (Z.shiftl (dest_mode_field ops) 2) /\
    extract_bits word 0 (ARE_BITS - 1) = are_val ABSOLUTE /\
    extract_bits word DEST_MODE_START_POS DEST_MODE_END_POS = dest_mode_field ops /\
    extract_bits word 5 8 = opcode_val (find_operation (keyword sample_mov)) /\
    extract_bits word SRC_MODE_START_POS SRC_MODE_END_POS = src_mode_field ops.
Proof.
  assert (H1 : parse_line sample_mov initial_state
               = Some (true, run_state (parse_line sample_mov initial_state)))
    by (vm_compute; reflexivity).
  assert (H2 : is_op (find_operation (keyword sample_mov)) = true)
    by (vm_compute; reflexivity).
  split; [exact H1|]. split; [exact H2|].
  exact (first_word_layout _ _ _ H1 H2).
Defined.

Lemma ic_advance_witness :
  parse_line sample_mov initial_state
    = Some (true, run_state (parse_line sample_mov initial_state)) /\
  is_op (find_operation (keyword sample_mov)) = true /\
  exists ops,
    extract_operands (find_operation (keyword sample_mov)) (operand_text sample_mov)
      = Some (inr ops) /\
    ic (run_state (parse_line sample_mov initial_state))
      = ic initial_state + 1 + operand_words ops /\
    (has_first_operand ops = true -> has_second_operand ops = true ->
     addr_mode_of (first_operand ops) = REG_DIRECT_ADDR ->
     addr_mode_of (second_operand ops) = REG_DIRECT_ADDR ->
     ic (run_state (parse_line sample_mov initial_state)) = ic initial_state + 2).
Proof.
  assert (H1 : parse_line sample_mov initial_state
               = Some (true, run_state (parse_line sample_mov initial_state)))
    by (vm_compute; reflexivity).
  assert (H2 : is_op (find_operation (keyword sample_mov)) = true)
    by (vm_compute; reflexivity).
  split; [exact H1|]. split; [exact H2|].
  exact (ic_advance _ _ _ H1 H2).
Defined.

(** The first word of [mov @r3, @r4] and the counter after it. *)
Example sample_mov_word :
  code (run_state (parse_line sample_mov initial_state)) !! 0%nat = Some 2580 /\
  ic (run_state (parse_line sample_mov initial_state)) = 2.
Proof. split; vm_compute; reflexivity. Qed.

Lemma symbol_addresses_finalised_witness :
  arrays_ok initial_state /\
  first_process sample_program initial_state
    = Some (false, run_state (first_process sample_program initial_state)) /\
  forall s,
    In s (symbol_table (run_state (first_process sample_program initial_state))) ->
    is_ext s = false ->
    MEM_START <= address s
    < MEM_START + ic (run_state (first_process sample_program initial_state))
      + dc (run_state (first_process sample_program initial_state)).
Proof.
  assert (H1 : arrays_ok initial_state) by (split; reflexivity).
  assert (H2 : first_process sample_program initial_state
               = Some (false, run_state (first_process sample_program initial_state)))
    by (vm_compute; reflexivity).
  split; [exact H1|]. split; [exact H2|].
  destruct (symbol_addresses_finalised _ _ _ _ H1 H2)
    as (st1 & _ & _ & _ & _ & _ & _ & _ & Hrange).
  exact Hrange.
Defined.

(** The table of the sample program: [MAIN] at 100 and, after the five
    words of code, [LIST] at 105. *)
Example sample_program_table :
  map (fun s => (name s, address s))
    (symbol_table (run_state (first_process sample_program initial_state)))
  = [("MAIN", 100); ("LIST", 105)] /\
  ic (run_state (first_process sample_program initial_state)) = 5 /\
  dc (run_state (first_process sample_program initial_state)) = 3.
Proof. repeat split; vm_compute; reflexivity. Qed.

(** C4, the claim as the specification states it, fails: the line
    [.data 1, x] is refused at [x], after [1] is appended. *)
Lemma failed_data_line_appends :
  parse_line sample_bad_data initial_state
    = Some (false, run_state (parse_line sample_bad_data initial_state)) /\
  data_segment initial_state = [] /\
  data_segment (run_state (parse_line sample_bad_data initial_state)) = [1] /\
  data (run_state (parse_line sample_bad_data initial_state)) <> data initial_state.
Proof.
  split; [vm_compute; reflexivity|]. split; [vm_compute; reflexivity|].
  split; [vm_compute; reflexivity|]. vm_compute. discriminate.
Qed.

Lemma failed_line_effect_witness :
  parse_line sample_trailing_comma initial_state
    = Some (false, run_state (parse_line sample_trailing_comma initial_state)) /\
  find_directive (keyword sample_trailing_comma) = DATA /\
  reads_params sample_trailing_comma initial_state = true /\
  data_items (operand_text sample_trailing_comma) = ["1"; "2"] /\
  data_appended (operand_text sample_trailing_comma) = ["1"] /\
  code (run_state (parse_line sample_trailing_comma initial_state))
    = code initial_state /\
  symbol_table (run_state (parse_line sample_trailing_comma initial_state))
    = symbol_table initial_state /\
  data_segment (run_state (parse_line sample_trailing_comma initial_state))
    = (data_segment initial_state ++ [1])%list /\
  dc (run_state (parse_line sample_trailing_comma initial_state))
    = dc initial_state + 1.
Proof.
  assert (H1 : parse_line sample_trailing_comma initial_state
               = Some (false, run_state (parse_line sample_trailing_comma initial_state)))
    by (vm_compute; reflexivity).
  assert (H2 : find_directive (keyword sample_trailing_comma) = DATA)
    by (vm_compute; reflexivity).
  assert (H3 : reads_params sample_trailing_comma initial_state = true)
    by (vm_compute; reflexivity).
  assert (H4 : data_appended (operand_text sample_trailing_comma) = ["1"])
    by (vm_compute; reflexivity).
  split; [exact H1|]. split; [exact H2|]. split; [exact H3|].
  split; [vm_compute; reflexivity|]. split; [exact H4|].
  destruct (failed_line_effect _ _ _ H1) as (Hc & _ & Ht & _ & _ & _ & _ & Hd).
  split; [exact Hc|]. split; [exact Ht|].
  destruct (Hd H2) as (Hseg & Hdc & _). rewrite H3, H4 in Hseg, Hdc.
  split; [exact Hseg | exact Hdc].
Defined.

(** The number in front of a missing comma is read and not appended:
    [.data 5 x] is refused at [5] and appends nothing. *)
Example missing_comma_appends_nothing :
  parse_line sample_missing_comma initial_state
    = Some (false, log [(0, DATA_MISSING_COMMA)] initial_state) /\
  reads_params sample_missing_comma initial_state = true /\
  data_items (operand_text sample_missing_comma) = ["5"] /\
  data_appended (operand_text sample_missing_comma) = [].
Proof. repeat split; vm_compute; reflexivity. Qed.


(** C5, the claim as the specification states it, fails: the words
    appended for [7, -57, +17] are the numbers themselves as
    [unsigned int], not the numbers shifted above a field [ARE], whether
    the value part is cut to twelve bits or to the ten of [0x3FF]. *)
Lemma data_words_not_shifted :
  parse_line sample_data initial_state
    = Some (true, run_state (parse_line sample_data initial_state)) /\
  data_segment (run_state (parse_line sample_data initial_state))
    = [7; 4294967239; 17] /\
  map (data_word_spec 10) [7; -57; 17] = [28; 3868; 68] /\
  map (data_word_spec 12) [7; -57; 17] = [28; 16156; 68] /\
  data_segment (run_state (parse_line sample_data initial_state))
    <> map (data_word_spec 10) [7; -57; 17] /\
  data_segment (run_state (parse_line sample_data initial_state))
    <> map (data_word_spec 12) [7; -57; 17].
Proof.
  split; [vm_compute; reflexivity|]. split; [vm_compute; reflexivity|].
  split; [vm_compute; reflexivity|]. split; [vm_compute; reflexivity|].
  split; vm_compute; discriminate.
Qed.

Lemma data_words_stored_witness :
  parse_line sample_data initial_state
    = Some (true, run_state (parse_line sample_data initial_state)) /\
  find_directive (keyword sample_data) = DATA /\
  data_segment (run_state (parse_line sample_data initial_state))
    = (data_segment initial_state
       ++ map number_word (data_items (operand_text sample_data)))%list.
Proof.
  assert (H1 : parse_line sample_data initial_state
               = Some (true, run_state (parse_line sample_data initial_state)))
    by (vm_compute; reflexivity).
  assert (H2 : find_directive (keyword sample_data) = DATA) by (vm_compute; reflexivity).
  split; [exact H1|]. split; [exact H2|].
  destruct (data_words_stored _ _ _ H1) as [Hd _].
  exact (proj1 (Hd H2)).
Defined.


Lemma direct_operand_word_witness :
  arrays_ok sample_operand_state /\
  0 <= ic sample_operand_state < MEM_SIZE /\
  lookup_symbol (symbol_table sample_operand_state) "EXT"
    = Some (extern_symbol "EXT") /\
  parse_line_second_pass "jmp EXT" sample_second_line_state
    = encode_operand_to_code "EXT" (mode_val DIRECT_ADDR) true sample_operand_state /\
  second_process sample_extern_program (after_first sample_extern_program)
    = Some (false, after_second sample_extern_program) /\
  code (after_second sample_extern_program) !! 1%nat = Some 1 /\
  ext_table (after_second sample_extern_program) = [mk_ext "EXT" 101] /\
  exists st',
    encode_operand_to_code "EXT" (mode_val DIRECT_ADDR) true sample_operand_state
      = Some (true, st') /\
    code st' !! 1%nat = Some 1 /\
    ext_table st' = [mk_ext "EXT" 101].
Proof.
  assert (H1 : arrays_ok sample_operand_state) by (split; vm_compute; reflexivity).
  assert (H2 : 0 <= ic sample_operand_state < MEM_SIZE)
    by (vm_compute; split; congruence).
  assert (H3 : lookup_symbol (symbol_table sample_operand_state) "EXT"
               = Some (extern_symbol "EXT")) by (vm_compute; reflexivity).
  assert (H4 : is_ext (extern_symbol "EXT") = true -> address (extern_symbol "EXT") = 0)
    by reflexivity.
  assert (H5 : 0 <= address (extern_symbol "EXT") < 2 ^ 30)
    by (vm_compute; split; congruence).
  split; [exact H1|]. split; [exact H2|]. split; [exact H3|].
  split; [vm_compute; reflexivity|]. split; [vm_compute; reflexivity|].
  split; [vm_compute; reflexivity|]. split; [vm_compute; reflexivity|].
  destruct (direct_operand_word "EXT" true _ sample_operand_state H1 H2 H3 H4 H5)
    as (st' & Hrun & _ & _ & _ & Hword & _ & Hext).
  exists st'. split; [exact Hrun|]. split; [exact Hword | exact Hext].
Defined.



Lemma pre_process_identity_witness :
  has_nul sample_program = false /\
  Forall (fun l => starts_with "mcro" (trim_whitespaces l) = false)
    (file_lines sample_program) /\
  pre_process sample_program initial_state
  = Some ((true, Some sample_program),
          set_line_num (1 + Z.of_nat (length (file_lines sample_program)))
            initial_state).
Proof.
  assert (H0 : has_nul sample_program = false) by reflexivity.
  assert (H1 : Forall (fun l => starts_with "mcro" (trim_whitespaces l) = false)
                 (file_lines sample_program))
    by (vm_compute; repeat constructor).
  split; [exact H0|]. split; [exact H1|].
  exact (pre_process_identity sample_program initial_state H0 H1).
Defined.

(** C9, the claim as the specification states it, fails.  The first token
    of the line [mcrodata: .data 5] is not [mcro], yet the line is taken
    for a macro definition, for its first four characters, and refused for
    the text after the name: the preprocessing fails and there is no
    expanded file.  And on a line that holds a NUL the characters behind
    it are read and not written. *)
Lemma mcro_prefix_line_refused :
  Forall (fun l => mcro_line_spec l = false) (file_lines sample_mcro_label) /\
  pre_process sample_mcro_label initial_state
  = Some ((false, None),
          log [(1, MCR_MCRO_EXTRANEOUS_TEXT)] (set_line_num 1 initial_state)) /\
  Forall (fun l => mcro_line_spec l = false) (file_lines sample_nul_line) /\
  pre_process sample_nul_line initial_state
  = Some ((true, Some "a"), set_line_num 2 initial_state) /\
  sample_nul_line <> "a".
Proof.
  split; [vm_compute; repeat constructor|].
  split; [vm_compute; reflexivity|].
  split; [vm_compute; repeat constructor|].
  split; [vm_compute; reflexivity | discriminate].
Qed.

(** The test for a definition is a test of the first four characters: the
    line [mcrox] defines the macro [x] and is not written. *)
Example mcro_prefix_is_a_definition :
  pre_process ("mcrox" ++ EOL ++ "stop" ++ EOL) initial_state
  = Some ((true, Some ""), set_line_num 3 initial_state).
Proof. vm_compute. reflexivity. Qed.



(** * Further properties *)

#[local] Arguments extract_bits : simpl never.

(** ** Words in base 64, the [ARE] field *)

Lemma extract_bits_arith word start finish :
  0 <= start -> 0 <= finish - start + 1 < 32 ->
  extract_bits word start finish = (word / 2 ^ start) mod 2 ^ (finish - start + 1).
Proof.
  intros Hs Hn. unfold extract_bits.
  rewrite Z.shiftl_1_l.
  assert (Hp : 0 < 2 ^ (finish - start + 1) <= 2 ^ 31).
  { split; [apply Z.pow_pos_nonneg; lia|]. apply Z.pow_le_mono_r; lia. }
  rewrite to_uint_small by (unfold UINT_MOD; change (2 ^ 32) with (2 * 2 ^ 31); lia).
  replace (2 ^ (finish - start + 1) - 1) with (Z.ones (finish - start + 1))
    by (rewrite Z.ones_equiv; lia).
  rewrite Z.land_ones by lia.
  now rewrite Z.shiftr_div_pow2 by lia.
Qed.

Lemma base64_table_NoDup : NoDup (map char_code base64_table).
Proof. apply (bool_decide_unpack _). vm_compute. exact I. Qed.

Lemma base64_index_inj (i j : Z) a :
  0 <= i -> 0 <= j ->
  base64_table !! Z.to_nat i = Some a -> base64_table !! Z.to_nat j = Some a -> i = j.
Proof.
  intros Hi Hj Ha Hb.
  assert (E : Z.to_nat i = Z.to_nat j).
  { eapply NoDup_lookup; [exact base64_table_NoDup| |].
    - rewrite list_lookup_fmap, Ha. reflexivity.
    - rewrite list_lookup_fmap, Hb. reflexivity. }
  lia.
Qed.

Lemma base64_halves word :
  extract_bits word SECOND_HALF_START SECOND_HALF_END = (word / 64) mod 64 /\
  extract_bits word FIRST_HALF_START FIRST_HALF_END = word mod 64.
Proof.
  split; rewrite extract_bits_arith
    by (unfold SECOND_HALF_START, SECOND_HALF_END, FIRST_HALF_START, FIRST_HALF_END; lia).
  - reflexivity.
  - change (2 ^ FIRST_HALF_START) with 1. now rewrite Z.div_1_r.
Qed.

Lemma low_twelve_bits word : word mod 4096 = word mod 64 + 64 * ((word / 64) mod 64).
Proof. change 4096 with (64 * 64). apply Z.rem_mul_r; lia. Qed.

Lemma base64_table_lookup i :
  0 <= i < 64 -> exists a, base64_table !! Z.to_nat i = Some a /\ In a base64_table.
Proof.
  intros Hi. destruct (base64_table !! Z.to_nat i) as [a|] eqn:E.
  - exists a. split; [reflexivity|]. apply list_elem_of_In. eapply list_elem_of_lookup_2. exact E.
  - apply lookup_ge_None in E. change (length base64_table) with 64%nat in E. lia.
Qed.

(** X7. [convert_to_base64] always indexes inside its table: it gives two
    characters of the table for every word.  The result depends on the
    twelve low bits of the word only, and two words with the same result
    have the same twelve low bits: on twelve-bit words the encoding is
    one to one. *)
Theorem convert_to_base64_low_bits (word : Z) :
  (exists hi lo, convert_to_base64 word = Some (String hi (String lo "")) /\
                 In hi base64_table /\ In lo base64_table) /\
  convert_to_base64 word = convert_to_base64 (word mod 4096) /\
  (forall word', convert_to_base64 word' = convert_to_base64 word ->
                 word' mod 4096 = word mod 4096).
Proof.
  assert (Hdef : forall w, exists hi lo,
             base64_table !! Z.to_nat ((w / 64) mod 64) = Some hi /\
             base64_table !! Z.to_nat (w mod 64) = Some lo /\
             In hi base64_table /\ In lo base64_table).
  { intros w.
    destruct (base64_table_lookup ((w / 64) mod 64)) as (hi & Hhi & Ihi);
      [apply Z.mod_pos_bound; lia|].
    destruct (base64_table_lookup (w mod 64)) as (lo & Hlo & Ilo);
      [apply Z.mod_pos_bound; lia|].
    exists hi, lo. auto. }
  unfold convert_to_base64. split; [|split].
  - destruct (base64_halves word) as [-> ->].
    destruct (Hdef word) as (hi & lo & -> & -> & Ihi & Ilo). exists hi, lo. auto.
  - destruct (base64_halves word) as [-> ->].
    destruct (base64_halves (word mod 4096)) as [-> ->].
    assert (E1 : ((word mod 4096) / 64) mod 64 = (word / 64) mod 64).
    { rewrite (low_twelve_bits word).
      rewrite (Z.add_comm (word mod 64)), (Z.mul_comm 64), Z.div_add_l by lia.
      rewrite (Z.div_small (word mod 64)) by (apply Z.mod_pos_bound; lia).
      rewrite Z.add_0_r. apply Z.mod_mod. lia. }
    assert (E2 : (word mod 4096) mod 64 = word mod 64).
    { apply Z.mod_mod_divide. exists 64. reflexivity. }
    now rewrite E1, E2.
  - intros word'.
    destruct (base64_halves word) as [-> ->].
    destruct (base64_halves word') as [-> ->].
    destruct (Hdef word) as (hi & lo & Hhi & Hlo & _).
    destruct (Hdef word') as (hi' & lo' & Hhi' & Hlo' & _).
    rewrite Hhi, Hlo, Hhi', Hlo'. intros [= -> ->].
    rewrite (low_twelve_bits word), (low_twelve_bits word').
    assert (E1 : (word' / 64) mod 64 = (word / 64) mod 64).
    { eapply base64_index_inj; eauto; apply Z.mod_pos_bound; lia. }
    assert (E2 : word' mod 64 = word mod 64).
    { eapply base64_index_inj; eauto; apply Z.mod_pos_bound; lia. }
    now rewrite E1, E2.
Qed.

Lemma lor_low_bits x a n :
  0 <= n -> 0 <= a < 2 ^ n -> Z.lor (x * 2 ^ n) a = x * 2 ^ n + a.
Proof.
  intros Hn Ha. symmetry. apply Z.add_nocarry_lor.
  apply Z.bits_inj'. intros i Hi.
  rewrite Z.land_spec, Z.bits_0, <- Z.shiftl_mul_pow2 by lia.
  destruct (Z.lt_ge_cases i n) as [Hlt|Hge].
  - rewrite Z.shiftl_spec_low by lia. reflexivity.
  - rewrite <- (Z.mod_small a (2 ^ n)) by lia.
    rewrite Z.mod_pow2_bits_high by lia. apply andb_false_r.
Qed.

Lemma are_val_range a : 0 <= are_val a < 2 ^ ARE_BITS.
Proof. destruct a; vm_compute; split; congruence. Qed.

Lemma encode_are_arith word a :
  encode_are word a = (word mod 2 ^ 30) * 2 ^ ARE_BITS + are_val a.
Proof.
  unfold encode_are, to_uint, UINT_MOD.
  rewrite Z.shiftl_mul_pow2 by (unfold ARE_BITS; lia).
  change (2 ^ 32) with (2 ^ 30 * 2 ^ ARE_BITS).
  rewrite Z.mul_mod_distr_r by (unfold ARE_BITS; lia).
  apply lor_low_bits; [unfold ARE_BITS; lia | apply are_val_range].
Qed.

(** X8. [encode_are] puts the value of the [ARE] field in the two low bits
    of the word and the payload above them: the result is an
    [unsigned int], its two low bits read back as the field, and the bits
    above read back as the payload modulo [2^30], so that a payload that
    needs more than thirty bits loses its high bits. *)
Theorem encode_are_fields (word : Z) (a : are) :
  0 <= encode_are word a < UINT_MOD /\
  extract_bits (encode_are word a) 0 (ARE_BITS - 1) = are_val a /\
  Z.shiftr (encode_are word a) ARE_BITS = word mod 2 ^ 30 /\
  (0 <= word < 2 ^ 30 -> Z.shiftr (encode_are word a) ARE_BITS = word).
Proof.
  pose proof (are_val_range a) as Ha.
  pose proof (Z.mod_pos_bound word (2 ^ 30) ltac:(lia)) as Hw.
  rewrite encode_are_arith.
  assert (Hs : Z.shiftr (word mod 2 ^ 30 * 2 ^ ARE_BITS + are_val a) ARE_BITS
               = word mod 2 ^ 30).
  { rewrite Z.shiftr_div_pow2 by (unfold ARE_BITS; lia).
    rewrite Z.div_add_l by (unfold ARE_BITS; lia).
    rewrite (Z.div_small (are_val a)) by exact Ha. lia. }
  split; [|split; [|split]].
  - unfold UINT_MOD. change (2 ^ 32) with (2 ^ 30 * 2 ^ ARE_BITS).
    change (2 ^ ARE_BITS) with 4 in *. lia.
  - rewrite extract_bits_arith by (unfold ARE_BITS; lia).
    change (2 ^ 0) with 1. rewrite Z.div_1_r.
    change (ARE_BITS - 1 - 0 + 1) with ARE_BITS.
    rewrite Z.add_comm, Z.mod_add by (unfold ARE_BITS; lia).
    now apply Z.mod_small.
  - exact Hs.
  - intros H. rewrite Hs. now apply Z.mod_small.
Qed.

(** ** Operations on the symbol table *)

Lemma streq_eq a b : streq a b = true <-> a = b.
Proof. apply String.eqb_eq. Qed.

Lemma streq_neq a b : streq a b = false <-> a <> b.
Proof. apply String.eqb_neq. Qed.

Lemma find_symbol_lookup table n i :
  find_symbol table n = Some i ->
  exists s, table !! i = Some s /\ name s = n /\
            forall j s', (j < i)%nat -> table !! j = Some s' -> name s' <> n.
Proof.
  revert i. induction table as [|s table IH]; intros i; [discriminate|].
  simpl. destruct (streq (name s) n) eqn:E.
  - intros [= <-]. exists s. split; [reflexivity|]. split; [now apply streq_eq|].
    intros j s' Hj. lia.
  - destruct (find_symbol table n) as [k|]; [|discriminate].
    intros [= <-]. destruct (IH k eq_refl) as (s0 & Hs0 & Hn & Hfirst).
    exists s0. split; [exact Hs0|]. split; [exact Hn|].
    intros [|j] s' Hj Hs'.
    + simpl in Hs'. injection Hs' as <-. now apply streq_neq.
    + simpl in Hs'. eapply Hfirst; [|exact Hs']. lia.
Qed.

Lemma find_symbol_None table n :
  find_symbol table n = None <-> ~ In n (map name table).
Proof.
  induction table as [|s table IH]; simpl.
  - split; [intros _ [] | reflexivity].
  - destruct (streq (name s) n) eqn:E.
    + apply streq_eq in E. split; [discriminate|]. intros H. exfalso. apply H. now left.
    + apply streq_neq in E. destruct (find_symbol table n).
      * split; [discriminate|]. intros H. exfalso.
        assert (Hn : ~ In n (map name table)) by (intros Hi; apply H; now right).
        apply IH in Hn. discriminate.
      * split; [|reflexivity]. intros _ [H|H]; [congruence|].
        now apply (proj1 IH).
Qed.

Lemma find_symbol_app table s n :
  find_symbol (table ++ [s]) n =
  match find_symbol table n with
  | Some i => Some i
  | None => if streq (name s) n then Some (length table) else None
  end.
Proof.
  induction table as [|t table IH]; simpl.
  - destruct (streq (name s) n); reflexivity.
  - destruct (streq (name t) n); [reflexivity|].
    rewrite IH. destruct (find_symbol table n); [reflexivity|].
    destruct (streq (name s) n); reflexivity.
Qed.

Lemma lookup_symbol_app table s n :
  lookup_symbol (table ++ [s]) n =
  match lookup_symbol table n with
  | Some t => Some t
  | None => if streq (name s) n then Some s else None
  end.
Proof.
  unfold lookup_symbol. rewrite find_symbol_app.
  destruct (find_symbol table n) as [i|] eqn:E.
  - destruct (find_symbol_lookup _ _ _ E) as (t & Ht & _).
    rewrite lookup_app_l by (eapply lookup_lt_Some; exact Ht). now rewrite Ht.
  - destruct (streq (name s) n); [|reflexivity]. apply lookup_last.
Qed.

(** X9. [add_symbol_to_list] on a name that is in the table prints
    [SYMBOL_ALREADY_EXISTS], returns [NULL] and changes nothing else.  On a
    new name it appends one node, which a lookup of the name then finds
    ([.extern] symbols in the segment [DIRECTIVE], the others with no
    segment yet); the other names are looked up as before, the flag
    [is_extern_exists] is raised for an external symbol, and nothing is
    printed. *)
Theorem add_symbol_then_lookup (n : string) (addr : Z) (e : bool) (st : state) :
  if is_existing_symbol (symbol_table st) n then
    add_symbol_to_list n addr e st
    = Some (None, log [(line_num st, SYMBOL_ALREADY_EXISTS)] st)
  else
    exists st',
      let new := mk_symbol n addr (if e then Some DIRECTIVE else None) e false in
      add_symbol_to_list n addr e st = Some (Some (length (symbol_table st)), st') /\
      symbol_table st' = (symbol_table st ++ [new])%list /\
      lookup_symbol (symbol_table st') n = Some new /\
      (forall m, m <> n ->
         lookup_symbol (symbol_table st') m = lookup_symbol (symbol_table st) m) /\
      is_extern_exists st' = (e || is_extern_exists st) /\
      out st' = out st.
Proof.
  rewrite add_symbol_to_list_run.
  destruct (is_existing_symbol (symbol_table st) n) eqn:Hex; [reflexivity|].
  apply is_existing_symbol_false in Hex.
  eexists. cbv zeta. split; [reflexivity|].
  assert (Ht : forall st0 tbl, symbol_table (set_symbol_table tbl st0) = tbl) by reflexivity.
  rewrite Ht. split; [reflexivity|]. split; [|split; [|split]].
  - rewrite lookup_symbol_app. unfold lookup_symbol. rewrite Hex. simpl.
    unfold streq. now rewrite String.eqb_refl.
  - intros m Hm. rewrite lookup_symbol_app.
    destruct (lookup_symbol (symbol_table st) m); [reflexivity|].
    simpl. apply not_eq_sym, streq_neq in Hm. now rewrite Hm.
  - destruct e; reflexivity.
  - destruct e; reflexivity.
Qed.

Lemma remove_first_missing table n :
  find_symbol table n = None -> remove_first table n = table.
Proof.
  induction table as [|s table IH]; [reflexivity|].
  simpl. destruct (streq (name s) n); [discriminate|].
  destruct (find_symbol table n) eqn:E; [discriminate|].
  intros _. now rewrite IH.
Qed.

Lemma lookup_symbol_remove_first table n m :
  m <> n -> lookup_symbol (remove_first table n) m = lookup_symbol table m.
Proof.
  intros Hm. unfold lookup_symbol.
  induction table as [|s table IH]; [reflexivity|].
  simpl. destruct (streq (name s) n) eqn:En.
  - apply streq_eq in En. destruct (streq (name s) m) eqn:Em.
    + apply streq_eq in Em. congruence.
    + destruct (find_symbol table m); reflexivity.
  - simpl. destruct (streq (name s) m); [reflexivity|].
    destruct (find_symbol (remove_first table n) m), (find_symbol table m);
      simpl in *; congruence.
Qed.

Lemma remove_first_names table n :
  NoDup (map name table) -> ~ In n (map name (remove_first table n)).
Proof.
  induction table as [|s table IH]; simpl; [intros _ []|].
  intros Hnd. apply NoDup_cons in Hnd as [Hs Hnd].
  destruct (streq (name s) n) eqn:E.
  - apply streq_eq in E. subst n. intros Hi. apply Hs. now apply list_elem_of_In.
  - apply streq_neq in E. simpl. intros [H|H]; [congruence|]. now apply IH.
Qed.

(** X10. [delete_symbol] removes the first node that bears the name and
    touches nothing but the symbol table: a missing name leaves the table
    as it is, the other names are looked up as before, in a table without
    duplicate names the name is no longer found, and deleting a symbol
    right after [add_symbol_to_list] added it restores the table. *)
Theorem delete_symbol_effect (n : string) (st : state) :
  exists st',
    delete_symbol n st = Some (tt, st') /\
    st' = set_symbol_table (symbol_table st') st /\
    (find_symbol (symbol_table st) n = None -> symbol_table st' = symbol_table st) /\
    (forall m, m <> n ->
       lookup_symbol (symbol_table st') m = lookup_symbol (symbol_table st) m) /\
    (NoDup (map name (symbol_table st)) -> find_symbol (symbol_table st') n = None) /\
    (forall addr e st1 p,
       add_symbol_to_list n addr e st = Some (Some p, st1) ->
       exists st2, delete_symbol n st1 = Some (tt, st2) /\
                   symbol_table st2 = symbol_table st).
Proof.
  eexists. split; [reflexivity|].
  assert (Ht : forall st0 tbl, symbol_table (set_symbol_table tbl st0) = tbl) by reflexivity.
  rewrite Ht. split; [now destruct st|]. split; [|split; [|split]].
  - apply remove_first_missing.
  - intros m Hm. now apply lookup_symbol_remove_first.
  - intros Hnd. apply find_symbol_None. now apply remove_first_names.
  - intros addr e st1 p. rewrite add_symbol_to_list_run.
    destruct (is_existing_symbol (symbol_table st) n) eqn:Hex; [discriminate|].
    apply is_existing_symbol_false in Hex. intros [= _ <-].
    eexists. split; [reflexivity|]. rewrite !Ht.
    apply (remove_first_fresh (symbol_table st)
             (mk_symbol n addr (if e then Some DIRECTIVE else None) e false)).
    exact Hex.
Qed.

Lemma find_symbol_names t1 : forall t2 n,
  map name t1 = map name t2 -> find_symbol t1 n = find_symbol t2 n.
Proof.
  induction t1 as [|s t1 IH]; intros [|s2 t2] n E; try discriminate; [reflexivity|].
  simpl in *. injection E as E1 E2. rewrite E1, (IH t2 n E2). reflexivity.
Qed.

Lemma map_name_insert (table : list symbol) i s s' :
  table !! i = Some s -> name s' = name s ->
  map name (<[i := s']> table) = map name table.
Proof.
  revert i. induction table as [|t table IH]; intros [|i] H E; try discriminate.
  - simpl in *. injection H as ->. now rewrite E.
  - simpl in *. f_equal. now apply IH.
Qed.

(** X11. [make_entry] on a missing name prints [ENTRY_SYMBOL_NOT_FOUND] and
    returns [FALSE]; on an external symbol it prints
    [ENTRY_CANNOT_BE_EXTERN] and returns [FALSE]; otherwise it returns
    [TRUE], raises [is_entry_exists] and marks the symbol as an entry,
    keeping its name, address, segment and the rest of the table. *)
Theorem make_entry_effect (n : string) (st : state) :
  match lookup_symbol (symbol_table st) n with
  | None =>
      make_entry n st = Some (false, log [(line_num st, ENTRY_SYMBOL_NOT_FOUND)] st)
  | Some s =>
      if is_ext s then
        make_entry n st = Some (false, log [(line_num st, ENTRY_CANNOT_BE_EXTERN)] st)
      else
        exists st',
          make_entry n st = Some (true, st') /\
          st' = set_is_entry_exists true (set_symbol_table (symbol_table st') st) /\
          lookup_symbol (symbol_table st') n
            = Some (mk_symbol (name s) (address s) (type s) (is_ext s) true) /\
          (forall m, m <> n ->
             lookup_symbol (symbol_table st') m = lookup_symbol (symbol_table st) m) /\
          length (symbol_table st') = length (symbol_table st)
  end.
Proof.
  unfold lookup_symbol, make_entry.
  destruct (find_symbol (symbol_table st) n) as [i|] eqn:Hf; [|reflexivity].
  destruct (find_symbol_lookup _ _ _ Hf) as (s & Hs & Hn & _).
  rewrite Hs. destruct (is_ext s) eqn:He; [reflexivity|].
  eexists. split; [reflexivity|].
  assert (Ht : forall st0 tbl,
             symbol_table (set_is_entry_exists true (set_symbol_table tbl st0)) = tbl)
    by reflexivity.
  rewrite Ht.
  set (s' := mk_symbol (name s) (address s) (type s) false true).
  assert (Hnames : map name (<[i := s']> (symbol_table st)) = map name (symbol_table st)).
  { now apply (map_name_insert _ i s s'). }
  split; [reflexivity|]. split; [|split].
  - rewrite (find_symbol_names _ _ n Hnames), Hf.
    apply list_lookup_insert_eq. eapply lookup_lt_Some. exact Hs.
  - intros m Hm. rewrite (find_symbol_names _ _ m Hnames).
    destruct (find_symbol (symbol_table st) m) as [j|] eqn:Hj; [|reflexivity].
    apply list_lookup_insert_ne. intros <-.
    destruct (find_symbol_lookup _ _ _ Hj) as (s2 & Hs2 & Hn2 & _). congruence.
  - apply length_insert.
Qed.

Lemma to_uint_add_l a b : to_uint (to_uint a + b) = to_uint (a + b).
Proof. unfold to_uint. apply Zplus_mod_idemp_l. Qed.

Lemma lookup_symbol_map (f : symbol -> symbol) table n :
  (forall s, name (f s) = name s) ->
  lookup_symbol (map f table) n = option_map f (lookup_symbol table n).
Proof.
  intros Hf. unfold lookup_symbol.
  rewrite (find_symbol_names (map f table) table n).
  - destruct (find_symbol table n) as [i|]; [|reflexivity].
    change (map f table) with (f <$> table). rewrite list_lookup_fmap.
    destruct (table !! i); reflexivity.
  - rewrite map_map. apply map_ext. exact Hf.
Qed.

(** X12. [update_symbol_addr] adds the offset, as an [unsigned int], to the
    address of every symbol of the given segment that is not external and
    leaves the other symbols alone.  Two sweeps of one segment add up, and
    the sweeps of the two segments commute. *)
Theorem update_symbol_addr_effect (table : list symbol) (a b : Z) (t : statement_type) :
  (forall n,
     lookup_symbol (update_symbol_addr table a t) n =
     match lookup_symbol table n with
     | Some s =>
         if negb (is_ext s) &&
            match type s with Some t' => statement_type_eqb t' t | None => false end
         then Some (mk_symbol (name s) (to_uint (address s + a)) (type s) (is_ext s)
                      (is_ent s))
         else Some s
     | None => None
     end) /\
  update_symbol_addr (update_symbol_addr table a t) b t
    = update_symbol_addr table (a + b) t /\
  update_symbol_addr (update_symbol_addr table a INSTRUCTION) b DIRECTIVE
    = update_symbol_addr (update_symbol_addr table b DIRECTIVE) a INSTRUCTION.
Proof.
  split; [|split].
  - intros n. unfold update_symbol_addr. rewrite lookup_symbol_map.
    + destruct (lookup_symbol table n) as [s|]; [|reflexivity]. simpl.
      destruct (negb (is_ext s) && _); reflexivity.
    + intros s. destruct (negb (is_ext s) && _); reflexivity.
  - unfold update_symbol_addr. rewrite map_map. apply map_ext. intros s.
    destruct (negb (is_ext s) &&
              match type s with Some t' => statement_type_eqb t' t | None => false end)
      eqn:E; simpl; rewrite E; [|reflexivity].
    now rewrite to_uint_add_l, Z.add_assoc.
  - unfold update_symbol_addr. rewrite !map_map. apply map_ext. intros s.
    destruct (is_ext s) eqn:He; simpl; rewrite ?He; simpl; [reflexivity|].
    destruct (type s) as [[]|] eqn:Ht; simpl; rewrite ?He, ?Ht; reflexivity.
Qed.

(** ** The messages of the first pass *)

Lemma emitted_quiet st st' :
  line_num st' = line_num st -> out st' = out st -> emitted [] st st'.
Proof. intros Hl Ho. repeat split; [exact Hl | now rewrite app_nil_r | constructor]. Qed.

Lemma emitted_refl st : emitted [] st st.
Proof. now apply emitted_quiet. Qed.

Lemma emitted_log e st : emitted [(line_num st, e)] st (log [(line_num st, e)] st).
Proof. repeat split. repeat constructor. Qed.

Lemma emitted_trans m1 m2 st st1 st2 :
  emitted m1 st st1 -> emitted m2 st1 st2 -> emitted (m1 ++ m2) st st2.
Proof.
  intros (L1 & O1 & T1) (L2 & O2 & T2). repeat split.
  - congruence.
  - now rewrite O2, O1, app_assoc.
  - apply Forall_app. split; [exact T1|]. now rewrite L1 in T2.
Qed.

Lemma reports_true st st' :
  line_num st' = line_num st -> out st' = out st -> reports true st st'.
Proof. intros Hl Ho. exists []. split; [now apply emitted_quiet | tauto]. Qed.

Lemma reports_false m st st' : emitted m st st' -> m <> [] -> reports false st st'.
Proof. intros He Hm. exists m. split; [exact He|]. split; [discriminate | contradiction]. Qed.

Lemma reports_error e st : reports false st (log [(line_num st, e)] st).
Proof. eapply reports_false; [apply emitted_log | discriminate]. Qed.

Lemma reports_after m b st st1 st2 :
  emitted m st st1 -> reports b st1 st2 -> (m <> [] -> b = false) -> reports b st st2.
Proof.
  intros H1 (m2 & H2 & Hb) Hm. exists (m ++ m2)%list.
  split; [eapply emitted_trans; eauto|].
  split.
  - intros ->. destruct m as [|x m]; [simpl; tauto|]. discriminate Hm. discriminate.
  - intros [-> ->]%app_eq_nil. now apply Hb.
Qed.

Lemma reports_then b st st1 st2 :
  reports b st st1 -> emitted [] st1 st2 -> reports b st st2.
Proof.
  intros (m & H1 & Hb) H2. exists m. split; [|exact Hb].
  rewrite <- (app_nil_r m). eapply emitted_trans; eauto.
Qed.

Lemma report_emitted v st b st' :
  report v st = Some (b, st') ->
  b = accepted v /\
  exists msgs, emitted msgs st st' /\
               (msgs = [] <-> v = Accept \/ v = Reject None).
Proof.
  destruct v as [|[e|]]; simpl; intros H; minv H; (split; [reflexivity|]).
  - exists []. split; [apply emitted_refl | tauto].
  - exists [(line_num st, e)]. split; [apply emitted_log|].
    split; [discriminate | intros [|]; discriminate].
  - exists []. split; [apply emitted_refl | tauto].
Qed.

Lemma symbol_verdict_quiet token colon :
  symbol_verdict token colon = Reject None ->
  colon = true /\ str_last token <> Some ":"%char.
Proof.
  unfold symbol_verdict.
  destruct colon; simpl.
  - destruct (str_last token) as [c|] eqn:El.
    + unfold ascii_eqb. destruct (Ascii.eqb_spec c ":") as [->|Hne]; simpl.
      * destruct (_ <? _); [discriminate|]. destruct (is_register _); [discriminate|].
        destruct (is_op _); [discriminate|]. destruct (is_dir _); [discriminate|].
        destruct (str_init token) as [|d r]; [discriminate|].
        destruct (negb (isalpha d)); [discriminate|].
        destruct (negb (all_alnum r)); discriminate.
      * intros _. split; [reflexivity | congruence].
    + intros _. split; [reflexivity | discriminate].
  - destruct (_ <? _); [discriminate|]. destruct (is_register _); [discriminate|].
    destruct (is_op _); [discriminate|]. destruct (is_dir _); [discriminate|].
    destruct token as [|d r]; [discriminate|].
    destruct (negb (isalpha d)); [discriminate|].
    destruct (negb (all_alnum r)); discriminate.
Qed.

Lemma symbol_verdict_noisy token e :
  symbol_verdict token true = Reject (Some e) -> str_last token = Some ":"%char.
Proof.
  unfold symbol_verdict. simpl.
  destruct (str_last token) as [c|]; simpl; [|discriminate].
  unfold ascii_eqb. destruct (Ascii.eqb_spec c ":") as [->|]; simpl; [reflexivity|discriminate].
Qed.

(** [is_symbol]: silent when it accepts; when it refuses, silent only for
    want of the colon it expects. *)
Lemma is_symbol_emitted token colon st b st' :
  is_symbol token colon st = Some (b, st') ->
  b = accepted (symbol_verdict token colon) /\
  exists msgs, emitted msgs st st' /\
    (b = true -> msgs = []) /\
    (colon = false -> b = false -> msgs <> []) /\
    (msgs <> [] -> colon = true -> str_last token = Some ":"%char).
Proof.
  unfold is_symbol. intros H.
  apply report_emitted in H as (-> & msgs & He & Hm).
  split; [reflexivity|]. exists msgs. split; [exact He|].
  split; [|split].
  - intros Hb. apply Hm. left. destruct (symbol_verdict token colon); [reflexivity|discriminate].
  - intros -> Hb Hnil. apply Hm in Hnil as [Hv|Hv].
    + rewrite Hv in Hb. discriminate.
    + apply symbol_verdict_quiet in Hv as [Hc _]. discriminate.
  - intros Hne ->. destruct (symbol_verdict token true) as [|[e|]] eqn:Hv.
    + exfalso. apply Hne, Hm. now left.
    + eapply symbol_verdict_noisy. exact Hv.
    + exfalso. apply Hne, Hm. now right.
Qed.

Lemma detect_addr_mode_emitted operand st m st' :
  detect_addr_mode operand st = Some (m, st') ->
  m = addr_mode_of operand /\
  exists msgs, emitted msgs st st' /\ (msgs = [] <-> m <> NONE_ADDR).
Proof.
  unfold detect_addr_mode, addr_mode_of. intros H.
  destruct (is_number operand).
  { minv H. split; [reflexivity|]. exists []. split; [apply emitted_refl|].
    split; [discriminate | reflexivity]. }
  destruct (is_register operand).
  { minv H. split; [reflexivity|]. exists []. split; [apply emitted_refl|].
    split; [discriminate | reflexivity]. }
  apply bind_inv in H as (b & st1 & Hs & H).
  apply is_symbol_emitted in Hs as (-> & msgs & He & Ht & Hf & _).
  destruct (accepted _); minv H; (split; [reflexivity|]); exists msgs; (split; [exact He|]).
  - split; [discriminate | intros _; now apply Ht].
  - split; [intros Hn; now destruct (Hf eq_refl eq_refl) | congruence].
Qed.

Lemma process_operation_reports op line st b st' :
  process_operation op line st = Some (b, st') -> reports b st st'.
Proof.
  unfold process_operation. intros H.
  destruct (extract_operands op line) as [[e|ops]|]; [| |discriminate].
  { minv H. apply reports_error. }
  cbv zeta in H.
  apply bind_inv in H as (m1 & st1 & H1 & H).
  apply bind_inv in H as (m2 & st2 & H2 & H).
  assert (exists msgs1, emitted msgs1 st st1 /\
            (msgs1 <> [] -> has_first_operand ops && mode_eqb m1 NONE_ADDR = true))
    as (msgs1 & E1 & N1).
  { destruct (has_first_operand ops).
    - apply detect_addr_mode_emitted in H1 as (_ & msgs & He & Hm). exists msgs.
      split; [exact He|]. intros Hne. simpl. apply mode_eqb_eq.
      destruct (mode_eqb m1 NONE_ADDR) eqn:E; [now apply mode_eqb_eq|].
      exfalso. apply Hne, Hm. intros ->. discriminate E.
    - minv H1. exists []. split; [apply emitted_refl | congruence]. }
  assert (exists msgs2, emitted msgs2 st1 st2 /\
            (msgs2 <> [] -> has_second_operand ops && mode_eqb m2 NONE_ADDR = true))
    as (msgs2 & E2 & N2).
  { destruct (has_second_operand ops).
    - apply detect_addr_mode_emitted in H2 as (_ & msgs & He & Hm). exists msgs.
      split; [exact He|]. intros Hne. simpl. apply mode_eqb_eq.
      destruct (mode_eqb m2 NONE_ADDR) eqn:E; [now apply mode_eqb_eq|].
      exfalso. apply Hne, Hm. intros ->. discriminate E.
    - minv H2. exists []. split; [apply emitted_refl | congruence]. }
  pose proof (emitted_trans _ _ _ _ _ E1 E2) as E12.
  match type of H with (if ?c then _ else _) _ = _ => destruct c eqn:Hnone end.
  { minv H. eapply reports_after; [exact E12 | apply reports_error | reflexivity]. }
  apply orb_false_iff in Hnone as [Hn1 Hn2].
  assert (msgs1 = []) as ->.
  { destruct msgs1; [reflexivity|]. rewrite N1 in Hn1; [discriminate | discriminate]. }
  assert (msgs2 = []) as ->.
  { destruct msgs2; [reflexivity|]. rewrite N2 in Hn2; [discriminate | discriminate]. }
  simpl in E12.
  match type of H with (if ?c then _ else _) _ = _ => destruct c end.
  { minv H. eapply reports_after; [exact E12 | apply reports_error | congruence]. }
  match type of H with (if ?c then _ else _) _ = _ => destruct c end.
  { minv H. eapply reports_after; [exact E12 | apply reports_error | congruence]. }
  apply bind_inv in H as ([] & st3 & H3 & H). minv H.
  unfold append_word_to_code in H3.
  destruct (array_store _ _ _) as [c|]; [|discriminate].
  injection H3 as <-.
  eapply reports_after; [exact E12 | | congruence].
  now apply reports_true.
Qed.

Lemma append_number_to_data_quiet num st u st' :
  append_number_to_data num st = Some (u, st') -> emitted [] st st'.
Proof.
  intros H. apply append_number_to_data_inv in H as (d & _ & ->). now apply emitted_quiet.
Qed.

Lemma process_data_dir_loop_reports fuel : forall line st b st',
  process_data_dir_loop fuel line st = Some (b, st') -> reports b st st'.
Proof.
  induction fuel as [|fuel IH]; intros line st b st' H; [discriminate|].
  simpl in H.
  destruct (is_empty (Some line)); [minv H; now apply reports_true|].
  token_inv H.
  destruct (negb (is_number _)); [minv H; apply reports_error|].
  destruct (extract_remaining_seq line SEPS_COMMA) as [rest|]; [|discriminate].
  match type of H with (if ?c then _ else _) _ = _ => destruct c end.
  { minv H. apply reports_error. }
  match type of H with (if ?c then _ else _) _ = _ => destruct c end.
  { minv H. apply reports_error. }
  destruct (atoi _) as [num|]; [|discriminate].
  apply bind_inv in H as ([] & st1 & Ha & H).
  apply append_number_to_data_quiet in Ha.
  eapply reports_after; [exact Ha | eapply IH; exact H | congruence].
Qed.

Lemma process_string_dir_reports line st b st' :
  process_string_dir line st = Some (b, st') -> reports b st st'.
Proof.
  intros H. apply process_string_dir_run in H as [[-> ->]|(-> & d & _ & ->)].
  - apply reports_error.
  - now apply reports_true.
Qed.

Lemma process_entry_dir_reports line st b st' :
  process_entry_dir line st = Some (b, st') -> reports b st st'.
Proof.
  unfold process_entry_dir. intros H. token_inv H.
  destruct (is_empty (Some _)); [minv H; apply reports_error|].
  apply bind_inv in H as (ok & st1 & Hs & H).
  apply is_symbol_emitted in Hs as (-> & msgs & He & Ht & Hf & _).
  destruct (accepted _); simpl in H.
  - rewrite (Ht eq_refl) in He.
    destruct (negb (is_empty _)); minv H.
    + eapply reports_after; [exact He | apply reports_error | congruence].
    + eapply reports_after; [exact He | now apply reports_true | congruence].
  - minv H. eapply reports_false; [exact He | now apply Hf].
Qed.

Lemma process_extern_dir_reports line st b st' :
  process_extern_dir line st = Some (b, st') -> reports b st st'.
Proof.
  unfold process_extern_dir. intros H. token_inv H.
  destruct (is_empty (Some _)); [minv H; apply reports_error|].
  apply bind_inv in H as (ok & st1 & Hs & H).
  apply is_symbol_emitted in Hs as (-> & msgs & He & Ht & Hf & _).
  destruct (accepted _); simpl in H.
  - rewrite (Ht eq_refl) in He.
    destruct (negb (is_empty _)).
    + minv H. eapply reports_after; [exact He | apply reports_error | congruence].
    + apply bind_inv in H as (added & st2 & Ha & H).
      rewrite add_symbol_to_list_run in Ha.
      destruct (is_existing_symbol _ _); injection Ha as <- <-; minv H.
      * eapply reports_after; [exact He | apply reports_error | congruence].
      * eapply reports_after; [exact He | now apply reports_true | congruence].
  - minv H. eapply reports_false; [exact He | now apply Hf].
Qed.

Lemma process_directive_reports dir line st b st' :
  dir <> NONE_DIR ->
  process_directive dir line st = Some (b, st') -> reports b st st'.
Proof.
  unfold process_directive. intros Hd H.
  destruct (is_empty (Some line)); [minv H; apply reports_error|].
  destruct dir.
  - eapply process_data_dir_loop_reports. exact H.
  - now apply process_string_dir_reports in H.
  - now apply process_entry_dir_reports in H.
  - now apply process_extern_dir_reports in H.
  - contradiction.
Qed.

Lemma drop_label_quiet cur st u st' :
  drop_label cur st = Some (u, st') -> emitted [] st st'.
Proof.
  destruct cur as [p|]; simpl; intros H.
  - apply bind_inv in H as (n & st1 & Hn & H).
    unfold symbol_name_at in Hn. destruct (symbol_table st !! p); [|discriminate].
    injection Hn as <- <-. unfold delete_symbol in H. minv H. now apply emitted_quiet.
  - minv H. apply emitted_refl.
Qed.

Lemma check_commas_reports cur line k st b st' :
  (forall rest st1, k rest st1 = Some (b, st') -> reports b st1 st') ->
  check_commas cur line k st = Some (b, st') -> reports b st st'.
Proof.
  intros Hk H. unfold check_commas in H.
  destruct line as [line|]; [|discriminate].
  match type of H with (if ?c then _ else _) _ = _ => destruct c end.
  { apply bind_inv in H as ([] & st1 & Hd & H). apply drop_label_quiet in Hd.
    minv H. eapply reports_after; [exact Hd | apply reports_error | congruence]. }
  destruct (has_consecutive_commas line).
  { apply bind_inv in H as ([] & st1 & Hd & H). apply drop_label_quiet in Hd.
    minv H. eapply reports_after; [exact Hd | apply reports_error | congruence]. }
  eapply Hk. exact H.
Qed.

Lemma set_symbol_type_address_quiet p t addr st u st' :
  set_symbol_type_address p t addr st = Some (u, st') -> emitted [] st st'.
Proof. unfold set_symbol_type_address. intros H. minv H. now apply emitted_quiet. Qed.

Lemma is_dir_not_none tok : is_dir (find_directive tok) = true -> find_directive tok <> NONE_DIR.
Proof. now destruct (find_directive tok). Qed.

Lemma parse_statement_reports cur tok line st b st' :
  parse_statement cur tok line st = Some (b, st') -> reports b st st'.
Proof.
  unfold parse_statement. intros H. cbv zeta in H.
  destruct (is_op (find_operation tok)).
  - apply bind_inv in H as ([] & st1 & Hp & H).
    assert (E1 : emitted [] st st1).
    { destruct cur as [p|]; [|minv Hp; apply emitted_refl].
      apply bind_inv in Hp as (c & st0 & Hg & Hp). minv Hg.
      eapply set_symbol_type_address_quiet. exact Hp. }
    eapply reports_after; [exact E1 | | congruence].
    eapply check_commas_reports; [|exact H].
    intros rest st2 Hk.
    apply bind_inv in Hk as (ok & st3 & Ho & Hk).
    apply process_operation_reports in Ho.
    destruct ok; simpl in Hk.
    + minv Hk. exact Ho.
    + apply bind_inv in Hk as ([] & st4 & Hd & Hk). apply drop_label_quiet in Hd.
      minv Hk. eapply reports_then; eauto.
  - destruct (is_dir (find_directive tok)) eqn:Hdir.
    + apply bind_inv in H as (cur' & st1 & Hp & H).
      assert (E1 : emitted [] st st1).
      { destruct cur as [p|]; [|minv Hp; apply emitted_refl].
        destruct (find_directive tok).
        - apply bind_inv in Hp as (c & st0 & Hg & Hp). minv Hg.
          apply bind_inv in Hp as ([] & st2 & Hs & Hp). minv Hp.
          eapply set_symbol_type_address_quiet. exact Hs.
        - apply bind_inv in Hp as (c & st0 & Hg & Hp). minv Hg.
          apply bind_inv in Hp as ([] & st2 & Hs & Hp). minv Hp.
          eapply set_symbol_type_address_quiet. exact Hs.
        - apply bind_inv in Hp as ([] & st2 & Hs & Hp). minv Hp.
          eapply drop_label_quiet. exact Hs.
        - apply bind_inv in Hp as ([] & st2 & Hs & Hp). minv Hp.
          eapply drop_label_quiet. exact Hs.
        - apply bind_inv in Hp as (c & st0 & Hg & Hp). minv Hg.
          apply bind_inv in Hp as ([] & st2 & Hs & Hp). minv Hp.
          eapply set_symbol_type_address_quiet. exact Hs. }
      eapply reports_after; [exact E1 | | congruence].
      eapply check_commas_reports; [|exact H].
      intros rest st2 Hk.
      apply bind_inv in Hk as (ok & st3 & Ho & Hk).
      apply process_directive_reports in Ho; [|now apply is_dir_not_none].
      destruct ok; simpl in Hk.
      * minv Hk. exact Ho.
      * apply bind_inv in Hk as ([] & st4 & Hd & Hk). apply drop_label_quiet in Hd.
        minv Hk. eapply reports_then; eauto.
    + apply bind_inv in H as ([] & st1 & Hd & H). apply drop_label_quiet in Hd.
      minv H. eapply reports_after; [exact Hd | apply reports_error | congruence].
Qed.

Lemma colon_not_keyword tok :
  str_last tok = Some ":"%char ->
  is_op (find_operation tok) = false /\ is_dir (find_directive tok) = false.
Proof.
  intros H. split.
  - unfold find_operation.
    repeat (match goal with
            | |- context [streq tok ?k] =>
                destruct (streq tok k) eqn:E;
                [apply String.eqb_eq in E; subst tok; discriminate H | clear E]
            end).
    reflexivity.
  - unfold find_directive.
    repeat (match goal with
            | |- context [streq tok ?k] =>
                destruct (streq tok k) eqn:E;
                [apply String.eqb_eq in E; subst tok; discriminate H | clear E]
            end).
    reflexivity.
Qed.

Lemma parse_statement_undefined cur tok line st b st' :
  is_op (find_operation tok) = false -> is_dir (find_directive tok) = false ->
  parse_statement cur tok line st = Some (b, st') -> b = false.
Proof.
  unfold parse_statement. cbv zeta. intros -> -> H.
  apply bind_inv in H as ([] & st1 & _ & H). now minv H.
Qed.

(** A line of the first pass: [parse_line] returns [FALSE] if and only if
    it printed a message, and every message bears the number of the line. *)
Lemma parse_line_reports line st b st' :
  parse_line line st = Some (b, st') -> reports b st st'.
Proof.
  unfold parse_line. cbv zeta. intros H.
  apply bind_inv in H as (lab & st1 & Hs & H).
  apply is_symbol_emitted in Hs as (-> & msgs & He & Ht & _ & Hc).
  destruct (accepted _) eqn:Hacc.
  - rewrite (Ht eq_refl) in He.
    apply bind_inv in H as (cur & st2 & Ha & H).
    rewrite add_symbol_to_list_run in Ha.
    destruct (is_existing_symbol _ _); injection Ha as <- <-.
    { minv H. eapply reports_after; [exact He | apply reports_error | congruence]. }
    eapply reports_after; [exact He | | congruence].
    match type of H with _ ?s = _ => set (st2 := s) in H end.
    assert (E2 : emitted [] st1 st2) by now apply emitted_quiet.
    eapply reports_after; [exact E2 | | congruence].
    destruct (is_empty _).
    + apply bind_inv in H as ([] & st3 & Hd & H). apply drop_label_quiet in Hd.
      minv H. eapply reports_after; [exact Hd | apply reports_error | congruence].
    + destruct (extract_remaining_seq line ":") as [rest|]; [|discriminate].
      eapply parse_statement_reports. exact H.
  - eapply reports_after; [exact He | eapply parse_statement_reports; exact H |].
    intros Hne. destruct (colon_not_keyword _ (Hc Hne eq_refl)) as [Ho Hd].
    eapply parse_statement_undefined; eauto.
Qed.

(** X13. A line of the first pass reports what it refuses: [parse_line]
    returns [FALSE] if and only if it printed a message, every message
    bears the number of the current line, and the line number is not
    changed. *)
Theorem parse_line_messages (line : string) (st st' : state) (b : bool) :
  parse_line line st = Some (b, st') ->
  line_num st' = line_num st /\
  exists msgs,
    out st' = (out st ++ msgs)%list /\
    Forall (fun m => fst m = line_num st) msgs /\
    (b = true <-> msgs = []).
Proof.
  intros H. apply parse_line_reports in H as (msgs & (Hl & Ho & Ht) & Hb).
  split; [exact Hl|]. exists msgs. auto.
Qed.

Lemma first_pass_lines_messages src_lines : forall e st e' st',
  first_pass_lines src_lines e st = Some (e', st') ->
  line_num st' = line_num st + Z.of_nat (length src_lines) /\
  exists msgs,
    out st' = (out st ++ msgs)%list /\
    Forall (fun m => line_num st <= fst m < line_num st + Z.of_nat (length src_lines)) msgs /\
    (e' = false <-> e = false /\ msgs = []).
Proof.
  induction src_lines as [|line rest IH]; intros e st e' st' H.
  - simpl in H. minv H. split; [simpl; lia|]. exists [].
    split; [now rewrite app_nil_r|]. split; [constructor | tauto].
  - simpl in H.
    apply bind_inv in H as (ok & st1 & Hp & H).
    apply bind_inv in H as ([] & st2 & Hm & H). minv Hm.
    assert (Hr : reports ok st st1).
    { destruct (negb (should_ignore _)).
      - eapply parse_line_reports. exact Hp.
      - minv Hp. now apply reports_true. }
    destruct Hr as (m1 & (Hl & Ho & Ht) & Hb).
    apply IH in H as (Hl2 & m2 & Ho2 & Ht2 & He).
    simpl in Hl2, Ho2, Ht2. rewrite Hl in Hl2, Ht2.
    split; [rewrite Hl2; simpl length; lia|].
    exists (m1 ++ m2)%list. split; [now rewrite Ho2, Ho, app_assoc|]. split.
    + apply Forall_app. split.
      * eapply Forall_impl; [exact Ht|]. intros m Hm. simpl in Hm. simpl length. lia.
      * eapply Forall_impl; [exact Ht2|]. intros m Hm. simpl in Hm. simpl length. lia.
    + rewrite He. split.
      * intros [Hok ->]. destruct ok; simpl in Hok.
        -- split; [exact Hok|]. rewrite (proj1 Hb eq_refl). reflexivity.
        -- discriminate.
      * intros [-> [-> ->]%app_eq_nil]. rewrite (proj2 Hb eq_refl). auto.
Qed.

Lemma first_process_emits (am_file : string) (st0 st : state) (was_error : bool) :
  first_process am_file st0 = Some (was_error, st) ->
  line_num st = 1 + Z.of_nat (length (file_lines am_file)) /\
  exists msgs,
    out st = (out st0 ++ msgs)%list /\
    Forall (fun m => 1 <= fst m <= Z.of_nat (length (file_lines am_file))) msgs /\
    (was_error = false <-> msgs = []).
Proof.
  unfold first_process. intros H.
  apply bind_inv in H as ([] & st1 & Hm & H). minv Hm.
  apply bind_inv in H as (e & st2 & Hp & H).
  apply bind_inv in H as ([] & st3 & Hm & H). minv Hm.
  apply bind_inv in H as ([] & st4 & Hm & H). minv Hm. minv H.
  apply first_pass_lines_messages in Hp as (Hl & msgs & Ho & Ht & He).
  simpl in *. split; [exact Hl|]. exists msgs. split; [exact Ho|]. split.
  - eapply Forall_impl; [exact Ht|]. intros m Hm. simpl in Hm. lia.
  - rewrite He. tauto.
Qed.

(** X14. The first pass as a whole: [first_process] counts the lines that
    [fgets] reads, only adds messages to the output, each with the number
    of a line of the file, and returns [FALSE] (no error) if and only if
    it printed none. *)
Theorem first_process_messages (am_file : string) (st0 st : state) (was_error : bool) :
  first_process am_file st0 = Some (was_error, st) ->
  line_num st = 1 + Z.of_nat (length (file_lines am_file)) /\
  exists msgs,
    out st = (out st0 ++ msgs)%list /\
    Forall (fun m => 1 <= fst m <= Z.of_nat (length (file_lines am_file))) msgs /\
    (was_error = false <-> msgs = []).
Proof.
  intros H. eapply first_process_emits. exact H.
Qed.

(** ** The symbol table of the first pass *)

Lemma label_state_table line t addr msgs st :
  symbol_table (label_state line t addr msgs st) =
  if has_label line
  then (symbol_table st ++ [placed (label_of line) t addr])%list
  else symbol_table st.
Proof. unfold label_state. now destruct (has_label line). Qed.

Lemma label_state_flags line t addr msgs st :
  is_entry_exists (label_state line t addr msgs st) = is_entry_exists st /\
  is_extern_exists (label_state line t addr msgs st) = is_extern_exists st /\
  ext_table (label_state line t addr msgs st) = ext_table st /\
  line_num (label_state line t addr msgs st) = line_num st.
Proof. unfold label_state. now destruct (has_label line). Qed.

(** The symbol table after a line that the first pass accepts. *)
Lemma parse_line_accepted_table line st st' :
  parse_line line st = Some (true, st') ->
  (has_label line = true ->
   find_symbol (symbol_table st) (name (label_of line)) = None) /\
  is_entry_exists st' = is_entry_exists st /\
  ext_table st' = ext_table st /\
  if is_op (find_operation (keyword line)) then
    symbol_table st' = symbol_table (label_state line INSTRUCTION (ic st) [] st)
  else
    match find_directive (keyword line) with
    | DATA | STRING =>
        symbol_table st' = symbol_table (label_state line DIRECTIVE (dc st) [] st)
    | ENTRY => symbol_table st' = symbol_table st
    | EXTERN =>
        find_symbol (symbol_table st)
          (copy_next_token (operand_text line) SEPS_BLANK) = None /\
        symbol_table st' =
          (symbol_table st ++
           [extern_symbol (copy_next_token (operand_text line) SEPS_BLANK)])%list
    | NONE_DIR => False
    end.
Proof.
  intros H. apply parse_line_run in H as [(Hb & _)|[(_ & Hop & msgs & Hnew & H)|
                                           (_ & Hop & Hdir & msgs & Hnew & H)]];
    [discriminate| |].
  - rewrite Hop. split; [exact Hnew|].
    apply process_operation_run in H as [(Hb & _)|(_ & ops & m2 & c & _ & _ & _ & _ & _ & _ & ->)];
      [discriminate|].
    destruct (label_state_flags line INSTRUCTION (ic st) msgs st) as (F1 & F2 & F3 & F4).
    simpl. rewrite F1, F3, !label_state_table. auto.
  - rewrite Hop. split; [exact Hnew|].
    apply process_directive_run in H as (ws & m2 & d & _ & H).
    cbv zeta in H.
    destruct (find_directive (keyword line)) eqn:Hd.
    + destruct H as (-> & _).
      destruct (label_state_flags line DIRECTIVE (dc st) msgs st) as (F1 & F2 & F3 & F4).
      simpl. rewrite F1, F3, !label_state_table. auto.
    + destruct H as (-> & _).
      destruct (label_state_flags line DIRECTIVE (dc st) msgs st) as (F1 & F2 & F3 & F4).
      simpl. rewrite F1, F3, !label_state_table. auto.
    + destruct H as (-> & _). simpl. auto.
    + destruct H as (_ & Hf & ->). simpl in *. auto.
    + discriminate Hdir.
Qed.

Lemma parse_line_refused_table line st st' :
  parse_line line st = Some (false, st') ->
  symbol_table st' = symbol_table st /\
  is_entry_exists st' = is_entry_exists st /\
  is_extern_exists st' = is_extern_exists st /\
  ext_table st' = ext_table st.
Proof.
  intros H. apply parse_line_run in H as [(_ & ws & msgs & d & _ & -> & _)|
                                           [(Hb & _)|(Hb & _)]];
    [|discriminate|discriminate].
  simpl. auto.
Qed.

Lemma find_symbol_fresh table n :
  find_symbol table n = None <-> n ∉ map name table.
Proof.
  induction table as [|s table IH]; simpl.
  - split; [intros _; apply not_elem_of_nil | reflexivity].
  - rewrite not_elem_of_cons. unfold streq.
    destruct (String.eqb_spec (name s) n) as [E|E].
    + split; [discriminate | intros [H _]; congruence].
    + destruct (find_symbol table n).
      * split; [discriminate|]. intros [_ H]. apply IH in H. discriminate.
      * split; [|reflexivity]. intros _. split; [congruence | now apply IH].
Qed.

Lemma NoDup_names_snoc table s :
  NoDup (map name table) -> find_symbol table (name s) = None ->
  NoDup (map name (table ++ [s])).
Proof.
  intros Hnd Hf. rewrite map_app. apply NoDup_app. split; [exact Hnd|]. split.
  - intros n Hn Hs. apply list_elem_of_In in Hs as [<-|[]].
    now apply find_symbol_fresh in Hf.
  - simpl. apply NoDup_singleton.
Qed.

Lemma parse_line_table_inv line st b st' :
  table_inv st -> parse_line line st = Some (b, st') -> table_inv st'.
Proof.
  intros (Hnd & Hent & Hflag & Hext) H. destruct b.
  - pose proof H as Hrun.
    apply parse_line_accepted_table in H as (Hnew & F1 & _ & H).
    assert (Hlab : forall t addr,
               NoDup (map name (symbol_table (label_state line t addr [] st))) /\
               Forall (fun s => is_ent s = false)
                 (symbol_table (label_state line t addr [] st)) /\
               (Exists (fun s => is_ext s = true)
                  (symbol_table (label_state line t addr [] st)) <->
                Exists (fun s => is_ext s = true) (symbol_table st))).
    { intros t addr. rewrite label_state_table.
      destruct (has_label line); [|tauto].
      split; [apply NoDup_names_snoc; [exact Hnd | now apply Hnew]|].
      split; [apply Forall_app; split; [exact Hent | repeat constructor]|].
      rewrite Exists_app, Exists_cons, Exists_nil. simpl. intuition discriminate. }
    assert (Hx : is_extern_exists st' = true <->
                 if is_op (find_operation (keyword line)) then is_extern_exists st = true
                 else match find_directive (keyword line) with
                      | EXTERN => True
                      | _ => is_extern_exists st = true
                      end).
    { apply parse_line_run in Hrun as [(Hb & _)|[(_ & Hop & msgs & _ & Hr)|
                                                 (_ & Hop & Hdir & msgs & _ & Hr)]];
        [discriminate| |]; rewrite Hop.
      - apply process_operation_run in Hr as
            [(Hb & _)|(_ & ops & m2 & c & _ & _ & _ & _ & _ & _ & ->)]; [discriminate|].
        simpl. now rewrite (proj1 (proj2 (label_state_flags line INSTRUCTION (ic st) msgs st))).
      - apply process_directive_run in Hr as (ws & m2 & d & _ & Hr). cbv zeta in Hr.
        destruct (find_directive (keyword line)).
        + destruct Hr as (-> & _). simpl.
          now rewrite (proj1 (proj2 (label_state_flags line DIRECTIVE (dc st) msgs st))).
        + destruct Hr as (-> & _). simpl.
          now rewrite (proj1 (proj2 (label_state_flags line DIRECTIVE (dc st) msgs st))).
        + destruct Hr as (-> & _). simpl. reflexivity.
        + destruct Hr as (_ & _ & ->). simpl. tauto.
        + discriminate Hdir. }
    unfold table_inv. rewrite F1, Hx. clear Hx Hrun. revert H.
    destruct (is_op (find_operation (keyword line))).
    { intros H. rewrite H. destruct (Hlab INSTRUCTION (ic st)) as (L1 & L2 & L3).
      rewrite L3. tauto. }
    destruct (find_directive (keyword line)); intros H.
    + rewrite H. destruct (Hlab DIRECTIVE (dc st)) as (L1 & L2 & L3). rewrite L3. tauto.
    + rewrite H. destruct (Hlab DIRECTIVE (dc st)) as (L1 & L2 & L3). rewrite L3. tauto.
    + rewrite H. tauto.
    + destruct H as (Hf & ->).
      split; [now apply NoDup_names_snoc|].
      split; [apply Forall_app; split; [exact Hent | repeat constructor]|].
      split; [exact Hflag|].
      rewrite Exists_app, Exists_cons. simpl. tauto.
    + destruct H.
  - apply parse_line_refused_table in H as (E1 & E2 & E3 & _).
    unfold table_inv. rewrite E1, E2, E3. tauto.
Qed.

Lemma first_pass_lines_table_inv src_lines : forall e st e' st',
  table_inv st -> first_pass_lines src_lines e st = Some (e', st') -> table_inv st'.
Proof.
  induction src_lines as [|line rest IH]; intros e st e' st' Hi H.
  - simpl in H. now minv H.
  - simpl in H.
    apply bind_inv in H as (ok & st1 & Hp & H).
    apply bind_inv in H as ([] & st2 & Hm & H). minv Hm.
    eapply IH; [|exact H].
    assert (Hi1 : table_inv st1).
    { destruct (negb (should_ignore _)).
      - eapply parse_line_table_inv; eauto.
      - now minv Hp. }
    exact Hi1.
Qed.

Lemma update_symbol_addr_fields table inc t :
  map name (update_symbol_addr table inc t) = map name table /\
  map is_ext (update_symbol_addr table inc t) = map is_ext table /\
  map is_ent (update_symbol_addr table inc t) = map is_ent table.
Proof.
  unfold update_symbol_addr. rewrite !map_map.
  repeat split; apply map_ext; intros s; destruct (negb (is_ext s) && _); reflexivity.
Qed.

Lemma Forall_map_eq {A B : Type} (f : A -> B) (P : B -> Prop) l l' :
  map f l = map f l' -> Forall (fun x => P (f x)) l -> Forall (fun x => P (f x)) l'.
Proof.
  intros E H. apply Forall_fmap. apply Forall_fmap in H.
  change (f <$> l') with (map f l'). now rewrite <- E.
Qed.

Lemma Exists_map_eq {A B : Type} (f : A -> B) (P : B -> Prop) l l' :
  map f l = map f l' -> Exists (fun x => P (f x)) l -> Exists (fun x => P (f x)) l'.
Proof.
  intros E H. apply Exists_fmap. apply Exists_fmap in H.
  change (f <$> l') with (map f l'). now rewrite <- E.
Qed.

Lemma update_symbol_addr_table_inv st inc t :
  table_inv st ->
  table_inv (set_symbol_table (update_symbol_addr (symbol_table st) inc t) st).
Proof.
  intros (Hnd & Hent & Hflag & Hext).
  destruct (update_symbol_addr_fields (symbol_table st) inc t) as (En & Ex & Ee).
  unfold table_inv. simpl. rewrite En. split; [exact Hnd|]. split; [|split; [exact Hflag|]].
  - eapply (Forall_map_eq is_ent (fun b => b = false)); [symmetry; exact Ee | exact Hent].
  - rewrite Hext. split; apply (Exists_map_eq is_ext (fun b => b = true)); congruence.
Qed.

Lemma first_process_table_inv am_file st0 was_error st :
  first_process am_file st0 = Some (was_error, st) -> table_inv st.
Proof.
  unfold first_process. intros H.
  apply bind_inv in H as ([] & st1 & Hm & H). minv Hm.
  apply bind_inv in H as (e & st2 & Hp & H).
  apply bind_inv in H as ([] & st3 & Hm & H). minv Hm.
  apply bind_inv in H as ([] & st4 & Hm & H). minv Hm. minv H.
  assert (H0 : table_inv (first_pass_start st0)).
  { unfold table_inv. simpl. split; [constructor|]. split; [constructor|].
    split; [reflexivity|]. split; [discriminate|]. intros H. inversion H. }
  pose proof (first_pass_lines_table_inv _ _ _ _ _ H0 Hp) as H2.
  apply (update_symbol_addr_table_inv _ MEM_START INSTRUCTION) in H2.
  apply (update_symbol_addr_table_inv _ (ic st2 + MEM_START) DIRECTIVE) in H2.
  exact H2.
Qed.

(** X15. The symbol table when the first pass ends, from any state and
    whether or not the pass reported errors: no two symbols have the same
    name, no symbol is an entry and [is_entry_exists] is [FALSE], and
    [is_extern_exists] holds if and only if a symbol is external. *)
Theorem first_pass_table (am_file : string) (st0 st : state) (was_error : bool) :
  first_process am_file st0 = Some (was_error, st) ->
  NoDup (map name (symbol_table st)) /\
  Forall (fun s => is_ent s = false) (symbol_table st) /\
  is_entry_exists st = false /\
  (is_extern_exists st = true <-> Exists (fun s => is_ext s = true) (symbol_table st)).
Proof.
  intros H. eapply first_process_table_inv. exact H.
Qed.

Lemma find_symbol_lookup_none table n :
  find_symbol table n = None -> lookup_symbol table n = None.
Proof. unfold lookup_symbol. now intros ->. Qed.

Lemma lookup_symbol_snoc table s n :
  lookup_symbol (table ++ [s]) n =
  match lookup_symbol table n with
  | Some t => Some t
  | None => if streq (name s) n then Some s else None
  end.
Proof.
  unfold lookup_symbol.
  assert (Hf : forall tbl, find_symbol (tbl ++ [s]) n =
                match find_symbol tbl n with
                | Some i => Some i
                | None => if streq (name s) n then Some (length tbl) else None
                end).
  { induction tbl as [|t tbl IH]; simpl.
    - destruct (streq (name s) n); reflexivity.
    - destruct (streq (name t) n); [reflexivity|].
      rewrite IH. destruct (find_symbol tbl n); [reflexivity|].
      destruct (streq (name s) n); reflexivity. }
  rewrite Hf. destruct (find_symbol table n) as [i|] eqn:E.
  - assert (Hi : (i < length table)%nat).
    { clear Hf. revert i E. induction table as [|t tbl IH]; intros i; [discriminate|].
      simpl. destruct (streq (name t) n); [intros [= <-]; simpl; lia|].
      destruct (find_symbol tbl n) as [k|]; [|discriminate].
      intros [= <-]. specialize (IH k eq_refl). simpl. lia. }
    rewrite lookup_app_l by exact Hi.
    destruct (table !! i) eqn:El; [reflexivity|].
    apply lookup_ge_None in El. lia.
  - destruct (streq (name s) n); [apply lookup_last | reflexivity].
Qed.

(** X16. The label of a line that the first pass accepts is a new name.
    Before an instruction it is defined with the instruction counter in the
    segment [INSTRUCTION]; before [.data] or [.string], with the data
    counter in the segment [DIRECTIVE]; before [.entry] or [.extern] it is
    dropped, so that the name stays undefined unless it is the operand of
    the [.extern]. *)
Theorem label_definition (line : string) (st st' : state) :
  parse_line line st = Some (true, st') ->
  has_label line = true ->
  let n := str_init (first_token line) in
  lookup_symbol (symbol_table st) n = None /\
  if is_op (find_operation (keyword line)) then
    lookup_symbol (symbol_table st') n
    = Some (mk_symbol n (to_uint (ic st)) (Some INSTRUCTION) false false)
  else
    match find_directive (keyword line) with
    | DATA | STRING =>
        lookup_symbol (symbol_table st') n
        = Some (mk_symbol n (to_uint (dc st)) (Some DIRECTIVE) false false)
    | ENTRY => lookup_symbol (symbol_table st') n = None
    | EXTERN =>
        lookup_symbol (symbol_table st') n =
        if streq (copy_next_token (operand_text line) SEPS_BLANK) n
        then Some (extern_symbol n) else None
    | NONE_DIR => False
    end.
Proof.
  intros H Hlab. cbv zeta.
  apply parse_line_accepted_table in H as (Hnew & _ & _ & H).
  specialize (Hnew Hlab). change (name (label_of line)) with (str_init (first_token line)) in Hnew.
  apply find_symbol_lookup_none in Hnew. split; [exact Hnew|].
  assert (Hl : forall t addr,
             lookup_symbol (symbol_table (label_state line t addr [] st))
               (str_init (first_token line))
             = Some (mk_symbol (str_init (first_token line)) (to_uint addr) (Some t)
                       false false)).
  { intros t addr. rewrite label_state_table, Hlab, lookup_symbol_snoc, Hnew.
    simpl. unfold streq. now rewrite String.eqb_refl. }
  destruct (is_op (find_operation (keyword line))); [rewrite H; apply Hl|].
  destruct (find_directive (keyword line)).
  - rewrite H. apply Hl.
  - rewrite H. apply Hl.
  - now rewrite H.
  - destruct H as (_ & ->). rewrite lookup_symbol_snoc, Hnew. simpl.
    destruct (streq _ _) eqn:E; [|reflexivity].
    apply String.eqb_eq in E. now rewrite E.
  - exact H.
Qed.

(** ** What the second pass keeps and what it records *)

Lemma pass2_frame_refl st : pass2_frame st st.
Proof. unfold pass2_frame. repeat split; auto; lia. Qed.

Lemma pass2_frame_trans st st1 st2 :
  pass2_frame st st1 -> pass2_frame st1 st2 -> pass2_frame st st2.
Proof.
  intros (A1 & A2 & A3 & A5 & A6 & A7 & A8) (B1 & B2 & B3 & B5 & B6 & B7 & B8).
  unfold pass2_frame. repeat split; try congruence; try lia.
  - intros j Hj. rewrite B7 by lia. now apply A7.
  - intros j Hj. rewrite B8 by lia. apply A8. lia.
Qed.

Lemma ext_record_ok_later table st st' e :
  pass2_frame st st' -> ext_record_ok table st e -> ext_record_ok table st' e.
Proof.
  intros (_ & _ & _ & _ & Hic & Hlow & _) (Hx & Ha & w & Hw & Hb).
  split; [exact Hx|]. split; [lia|]. exists w. split; [|exact Hb].
  rewrite Hlow; [exact Hw|]. rewrite Z2Nat.id; lia.
Qed.

Lemma encodes_refl st : encodes 0 st st.
Proof.
  split; [apply pass2_frame_refl|]. split; [lia|]. split; [reflexivity|].
  split; [reflexivity|]. exists []. split; [now rewrite app_nil_r | constructor].
Qed.

Lemma encodes_trans k1 k2 st st1 st2 :
  encodes k1 st st1 -> encodes k2 st1 st2 -> encodes (k1 + k2) st st2.
Proof.
  intros (F1 & I1 & T1 & E1 & n1 & X1 & R1) (F2 & I2 & T2 & E2 & n2 & X2 & R2).
  split; [eapply pass2_frame_trans; eauto|]. split; [lia|].
  split; [congruence|]. split; [congruence|].
  exists (n1 ++ n2)%list. split; [now rewrite X2, X1, app_assoc|].
  apply Forall_app. split.
  - eapply Forall_impl; [exact R1|]. intros e. now apply ext_record_ok_later.
  - now rewrite T1 in R2.
Qed.

Lemma append_word_to_code_run w st u st' :
  append_word_to_code w st = Some (u, st') ->
  0 <= ic st < Z.of_nat (length (code st)) /\
  st' = set_ic (ic st + 1) (set_code (<[Z.to_nat (ic st) := w]> (code st)) st).
Proof.
  unfold append_word_to_code. intros H.
  destruct (array_store _ _ _) as [c|] eqn:Hs; [|discriminate].
  apply array_store_inv in Hs as (Hb & -> & _). injection H as <-. auto.
Qed.

Lemma append_word_to_code_frame w st u st' :
  append_word_to_code w st = Some (u, st') ->
  pass2_frame st st' /\ ic st' = ic st + 1 /\
  0 <= ic st < Z.of_nat (length (code st)) /\
  code st' !! Z.to_nat (ic st) = Some w /\
  symbol_table st' = symbol_table st /\
  is_entry_exists st' = is_entry_exists st /\
  ext_table st' = ext_table st.
Proof.
  intros H. apply append_word_to_code_run in H as (Hb & ->). simpl.
  split; [|split; [reflexivity|split; [lia|split; [|auto]]]].
  - unfold pass2_frame. simpl. repeat split; try lia.
    + apply length_insert.
    + intros j Hj. apply list_lookup_insert_ne. lia.
    + intros j Hj. apply list_lookup_insert_ne. lia.
  - apply list_lookup_insert_eq. lia.
Qed.

Lemma append_word_to_code_encodes w st u st' :
  append_word_to_code w st = Some (u, st') -> encodes 1 st st'.
Proof.
  intros H. apply append_word_to_code_frame in H as (F & I & _ & _ & T & E & X).
  split; [exact F|]. split; [exact I|]. split; [exact T|]. split; [exact E|].
  exists []. split; [now rewrite app_nil_r | constructor].
Qed.

Lemma encode_are_low_bits word a :
  extract_bits (encode_are word a) 0 (ARE_BITS - 1) = are_val a.
Proof.
  unfold extract_bits, encode_are.
  change (to_uint (Z.shiftl 1 (ARE_BITS - 1 - 0 + 1) - 1)) with (Z.ones 2).
  rewrite Z.shiftr_0_r, Z.land_ones by lia.
  apply Z.bits_inj'. intros i Hi.
  destruct (Z.lt_ge_cases i 2) as [Hlt|Hge].
  - rewrite Z.mod_pow2_bits_low by lia.
    rewrite Z.lor_spec. unfold to_uint, UINT_MOD.
    rewrite Z.mod_pow2_bits_low by lia.
    rewrite Z.shiftl_spec_low by (unfold ARE_BITS; lia). reflexivity.
  - rewrite Z.mod_pow2_bits_high by lia.
    symmetry. destruct a; simpl.
    + apply Z.bits_0.
    + rewrite <- (Z.mod_small 1 (2 ^ 2)) by (split; [lia | reflexivity]).
      apply Z.mod_pow2_bits_high. lia.
    + rewrite <- (Z.mod_small 2 (2 ^ 2)) by (split; [lia | reflexivity]).
      apply Z.mod_pow2_bits_high. lia.
Qed.

Lemma encode_symbol_encodes n st b st' :
  Z.of_nat (length (code st)) = MEM_SIZE ->
  encode_symbol n st = Some (b, st') -> encodes 1 st st'.
Proof.
  unfold encode_symbol. intros Hlen H.
  apply bind_inv in H as (table & st0 & Hg & H). minv Hg.
  destruct (is_existing_symbol (symbol_table st) n).
  - apply bind_inv in H as (word & st1 & Hw & H).
    apply bind_inv in H as ([] & st2 & Ha & H). minv H.
    destruct (is_extern_symbol (symbol_table st) n) eqn:Hx.
    + apply bind_inv in Hw as (cur & st3 & Hg & Hw). minv Hg.
      apply bind_inv in Hw as ([] & st4 & He & Hw). unfold add_ext_to_list in He.
      minv He. minv Hw.
      apply append_word_to_code_frame in Ha as (F & I & Hic & Hc & T & E & X).
      simpl in *.
      assert (Hbound : ic st < MEM_SIZE) by lia.
      split.
      { destruct F as (F1 & F2 & F3 & F5 & F6 & F7 & F8).
        unfold pass2_frame. simpl in *. repeat split; auto. }
      split; [exact I|]. split; [exact T|]. split; [exact E|].
      exists [mk_ext n (to_uint (ic st + MEM_START))].
      split; [exact X|]. constructor; [|constructor].
      unfold ext_record_ok. simpl.
      rewrite to_uint_small by (unfold UINT_MOD, MEM_START, MEM_SIZE in *; lia).
      split; [exact Hx|]. split; [lia|].
      exists (encode_are (get_symbol_addr (symbol_table st) n) EXTERNAL).
      split; [|apply (encode_are_low_bits _ EXTERNAL)].
      replace (ic st + MEM_START - MEM_START) with (ic st) by lia. exact Hc.
    + minv Hw. now apply append_word_to_code_encodes in Ha.
  - apply bind_inv in H as ([] & st1 & Hm & H). minv Hm. minv H.
    split.
    { unfold pass2_frame. simpl. repeat split; auto; try lia. }
    simpl. split; [reflexivity|]. split; [reflexivity|]. split; [reflexivity|].
    exists []. split; [now rewrite app_nil_r | constructor].
Qed.

Lemma encodes_length k st st' :
  encodes k st st' -> length (code st') = length (code st).
Proof. intros ((_ & _ & _ & H & _) & _). exact H. Qed.

Lemma encode_operand_to_code_encodes operand mode is_dest st b st' :
  Z.of_nat (length (code st)) = MEM_SIZE ->
  encode_operand_to_code operand mode is_dest st = Some (b, st') ->
  encodes (mode_words mode) st st'.
Proof.
  unfold encode_operand_to_code, mode_words. intros Hlen.
  destruct (mode =? mode_val IMMEDIATE_ADDR);
    [|destruct (mode =? mode_val DIRECT_ADDR);
      [|destruct (mode =? mode_val REG_DIRECT_ADDR)]];
    cbn [orb]; intros H.
  - destruct (atoi operand); [|discriminate].
    apply bind_inv in H as ([] & st1 & Ha & H). minv H.
    now apply append_word_to_code_encodes in Ha.
  - now apply encode_symbol_encodes in H.
  - apply bind_inv in H as (w & st1 & Hr & H).
    apply encode_reg_run in Hr as ->.
    apply bind_inv in H as ([] & st2 & Ha & H). minv H.
    now apply append_word_to_code_encodes in Ha.
  - minv H. apply encodes_refl.
Qed.

Lemma encode_additional_words_encodes src dest has_src has_dest ms md st b st' :
  Z.of_nat (length (code st)) = MEM_SIZE ->
  encode_additional_words src dest has_src has_dest ms md st = Some (b, st') ->
  encodes (additional_words has_src has_dest ms md) st st'.
Proof.
  unfold encode_additional_words, additional_words. intros Hlen.
  destruct (has_src && has_dest && (ms =? mode_val REG_DIRECT_ADDR) &&
            (md =? mode_val REG_DIRECT_ADDR)); intros H.
  { apply bind_inv in H as (s & st1 & Hs & H). apply encode_reg_run in Hs as ->.
    apply bind_inv in H as (d & st2 & Hd & H). apply encode_reg_run in Hd as ->.
    apply bind_inv in H as ([] & st3 & Ha & H). minv H.
    now apply append_word_to_code_encodes in Ha. }
  destruct has_dest; [|minv H; apply encodes_refl].
  destruct has_src.
  - apply bind_inv in H as (ss & st1 & Hs & H).
    apply bind_inv in H as (ds & st2 & Hd & H). minv H.
    apply encode_operand_to_code_encodes in Hs; [|exact Hlen].
    apply encode_operand_to_code_encodes in Hd;
      [|now rewrite (encodes_length _ _ _ Hs)].
    eapply encodes_trans; eauto.
  - now apply encode_operand_to_code_encodes in H.
Qed.

Lemma process_operation_second_pass_encodes op line st b st' :
  Z.of_nat (length (code st)) = MEM_SIZE ->
  process_operation_second_pass op line st = Some (b, st') ->
  exists w,
    (fst (determine_operand op false false) || snd (determine_operand op false false)
     = true -> array_load (code st) (ic st) = Some w) /\
    encodes (1 + additional_words
                   (fst (determine_operand op false false))
                   (snd (determine_operand op false false))
                   (if fst (determine_operand op false false)
                    then extract_bits w SRC_MODE_START_POS SRC_MODE_END_POS
                    else mode_val NONE_ADDR)
                   (if snd (determine_operand op false false)
                    then extract_bits w DEST_MODE_START_POS DEST_MODE_END_POS
                    else mode_val NONE_ADDR))
      st st'.
Proof.
  unfold process_operation_second_pass. intros Hlen H.
  destruct (determine_operand op false false) as [has_src has_dest]. simpl fst. simpl snd.
  apply bind_inv in H as (ms & st1 & Hs & H).
  apply bind_inv in H as (md & st2 & Hd & H).
  apply bind_inv in H as (operands & st3 & Ho & H).
  apply bind_inv in H as ([] & st4 & Hm & H). minv Hm.
  assert (exists w, (has_src || has_dest = true -> array_load (code st) (ic st) = Some w) /\
                    st2 = st /\
                    ms = (if has_src then extract_bits w SRC_MODE_START_POS SRC_MODE_END_POS
                          else mode_val NONE_ADDR) /\
                    md = (if has_dest then extract_bits w DEST_MODE_START_POS DEST_MODE_END_POS
                          else mode_val NONE_ADDR)) as (w & Hw & -> & -> & ->).
  { unfold current_code_word in *.
    destruct has_src, has_dest.
    - apply bind_inv in Hs as (w & st0 & Hc & Hs). minv Hs.
      destruct (array_load (code st) (ic st)) as [w0|] eqn:El; [|discriminate].
      injection Hc as <- <-.
      apply bind_inv in Hd as (w' & st0 & Hc & Hd). minv Hd.
      rewrite El in Hc. injection Hc as <- <-. exists w0. auto.
    - apply bind_inv in Hs as (w & st0 & Hc & Hs). minv Hs.
      destruct (array_load (code st) (ic st)) as [w0|] eqn:El; [|discriminate].
      injection Hc as <- <-. minv Hd. exists w0. auto.
    - minv Hs.
      apply bind_inv in Hd as (w' & st0 & Hc & Hd). minv Hd.
      destruct (array_load (code st) (ic st)) as [w0|] eqn:El; [|discriminate].
      injection Hc as <- <-. exists w0. auto.
    - minv Hs. minv Hd. exists 0. split; [discriminate | auto]. }
  exists w. split; [exact Hw|].
  assert (st3 = st) as ->.
  { destruct has_dest; [destruct has_src|]; operands_inv Ho; now minv Ho. }
  apply encode_additional_words_encodes in H; [|exact Hlen].
  eapply (encodes_trans 1); [|exact H].
  split.
  { unfold pass2_frame. simpl. repeat split; auto; try lia. }
  simpl. split; [lia|]. split; [reflexivity|]. split; [reflexivity|].
  exists []. split; [now rewrite app_nil_r | constructor].
Qed.

Lemma same_symbols_refl t : same_symbols t t.
Proof. apply Forall2_same_length_lookup_2; [reflexivity|]. intros i x y H1 H2.
       rewrite H1 in H2. injection H2 as <-. auto. Qed.

Lemma same_symbols_trans t1 t2 t3 :
  same_symbols t1 t2 -> same_symbols t2 t3 -> same_symbols t1 t3.
Proof.
  unfold same_symbols. intros H1. revert t3.
  induction H1 as [|x y t1 t2 (A1 & A2 & A3 & A4 & A5) _ IH]; intros t3 H2.
  - inversion H2. constructor.
  - inversion H2 as [|y' z t2' t3' (B1 & B2 & B3 & B4 & B5) H3]; subst.
    constructor; [|now apply IH].
    repeat split; try congruence. auto.
Qed.

Lemma same_symbols_find t t' n :
  same_symbols t t' -> find_symbol t' n = find_symbol t n.
Proof.
  induction 1 as [|s s' t t' (Hn & _) _ IH]; [reflexivity|].
  simpl. now rewrite Hn, IH.
Qed.

Lemma same_symbols_extern t t' n :
  same_symbols t t' -> is_extern_symbol t' n = is_extern_symbol t n.
Proof.
  intros H. unfold is_extern_symbol. rewrite (same_symbols_find _ _ n H).
  destruct (find_symbol t n) as [i|]; [|reflexivity].
  destruct (t !! i) as [s|] eqn:E.
  - destruct (Forall2_lookup_l _ _ _ _ _ H E) as (s' & -> & _ & _ & _ & Hx & _). exact Hx.
  - apply lookup_ge_None in E. rewrite (Forall2_length _ _ _ H) in E.
    apply lookup_ge_None in E. now rewrite E.
Qed.

Lemma encodes_step k st st' : encodes k st st' -> pass2_step st st'.
Proof.
  intros (F & _ & T & E & X). split; [exact F|].
  split; [rewrite T; apply same_symbols_refl|].
  split; [unfold entry_inv; now rewrite T, E | exact X].
Qed.

Lemma make_entry_step n st b st' :
  make_entry n st = Some (b, st') -> pass2_step st st'.
Proof.
  unfold make_entry. intros H.
  assert (Hquiet : forall e, pass2_step st (log [(line_num st, e)] st)).
  { intros e. apply (encodes_step 0).
    split; [unfold pass2_frame; simpl; repeat split; auto; lia|].
    simpl. split; [lia|]. split; [reflexivity|]. split; [reflexivity|].
    exists []. split; [now rewrite app_nil_r | constructor]. }
  destruct (find_symbol (symbol_table st) n) as [i|]; [|minv H; apply Hquiet].
  destruct (symbol_table st !! i) as [s|] eqn:Hs; [|discriminate].
  destruct (is_ext s) eqn:He; [minv H; apply Hquiet|].
  injection H as <- <-.
  split; [unfold pass2_frame; simpl; repeat split; auto; lia|].
  simpl. split; [|split].
  - apply Forall2_same_length_lookup_2; [now rewrite length_insert|].
    intros j x y Hx Hy. destruct (decide (j = i)) as [->|Hne].
    + rewrite list_lookup_insert_eq in Hy by (eapply lookup_lt_Some; exact Hs).
      injection Hy as <-. rewrite Hs in Hx. injection Hx as <-. simpl. auto.
    + rewrite list_lookup_insert_ne in Hy by congruence.
      rewrite Hx in Hy. injection Hy as <-. auto.
  - intros _. unfold entry_inv. simpl. split; [intros _|reflexivity].
    apply Exists_exists. eexists. split.
    + eapply list_elem_of_lookup_2. apply list_lookup_insert_eq.
      eapply lookup_lt_Some. exact Hs.
    + reflexivity.
  - exists []. split; [now rewrite app_nil_r | constructor].
Qed.

Lemma parse_line_second_pass_step line st b st' :
  Z.of_nat (length (code st)) = MEM_SIZE ->
  parse_line_second_pass line st = Some (b, st') -> pass2_step st st'.
Proof.
  unfold parse_line_second_pass. cbv zeta. intros Hlen H.
  apply bind_inv in H as (lab & st1 & Hs & H).
  destruct (is_symbol_run (copy_next_token line SEPS_COLON) true st) as [msgs Hrun].
  rewrite Hrun in Hs. injection Hs as <- <-.
  assert (Hlog : forall st2, pass2_step (log msgs st) st2 -> pass2_step st st2).
  { intros st2 (F & S & E & X). split; [exact F|]. split; [exact S|]. split; exact E || exact X. }
  apply Hlog.
  apply bind_inv in H as (tl & st2 & Ht & H).
  assert (st2 = log msgs st) as ->.
  { destruct (accepted _); [|now minv Ht].
    destruct (extract_remaining_seq line ":"); [now minv Ht | discriminate]. }
  destruct (is_op (find_operation (fst tl))).
  - destruct (extract_remaining_seq (snd tl) SEPS_COMMA) as [rest|]; [|discriminate].
    apply process_operation_second_pass_encodes in H as (w & _ & H); [|exact Hlen].
    eapply encodes_step. exact H.
  - assert (Hret : pass2_step (log msgs st) (log msgs st)) by apply (encodes_step 0), encodes_refl.
    destruct (is_dir (find_directive (fst tl))); [|now minv H].
    destruct (find_directive (fst tl)); try now minv H.
    destruct (extract_remaining_seq (snd tl) SEPS_COMMA) as [rest|]; [|discriminate].
    eapply make_entry_step. exact H.
Qed.

Lemma pass2_step_refl st : pass2_step st st.
Proof. apply (encodes_step 0), encodes_refl. Qed.

Lemma pass2_step_trans st st1 st2 :
  pass2_step st st1 -> pass2_step st1 st2 -> pass2_step st st2.
Proof.
  intros (F1 & S1 & E1 & n1 & X1 & R1) (F2 & S2 & E2 & n2 & X2 & R2).
  split; [eapply pass2_frame_trans; eauto|].
  split; [eapply same_symbols_trans; eauto|].
  split; [auto|].
  exists (n1 ++ n2)%list. split; [now rewrite X2, X1, app_assoc|].
  apply Forall_app. split.
  - eapply Forall_impl; [exact R1|]. intros e. now apply ext_record_ok_later.
  - eapply Forall_impl; [exact R2|]. intros e (Hx & Hr). split; [|exact Hr].
    now rewrite <- (same_symbols_extern _ _ (ext_name e) S1).
Qed.

Lemma pass2_step_length st st' :
  pass2_step st st' -> length (code st') = length (code st).
Proof. intros ((_ & _ & _ & H & _) & _). exact H. Qed.

Lemma second_pass_lines_step src_lines : forall e st e' st',
  Z.of_nat (length (code st)) = MEM_SIZE ->
  second_pass_lines src_lines e st = Some (e', st') -> pass2_step st st'.
Proof.
  induction src_lines as [|line rest IH]; intros e st e' st' Hlen H.
  - simpl in H. minv H. apply pass2_step_refl.
  - simpl in H.
    apply bind_inv in H as (ok & st1 & Hp & H).
    apply bind_inv in H as ([] & st2 & Hm & H). minv Hm.
    assert (H1 : pass2_step st st1).
    { destruct (negb (should_ignore _)).
      - eapply parse_line_second_pass_step; eauto.
      - minv Hp. apply pass2_step_refl. }
    assert (H2 : pass2_step st1 (set_line_num (line_num st1 + 1) st1)).
    { apply (encodes_step 0).
      split; [unfold pass2_frame; simpl; repeat split; auto; lia|].
      simpl. split; [lia|]. split; [reflexivity|]. split; [reflexivity|].
      exists []. split; [now rewrite app_nil_r | constructor]. }
    eapply pass2_step_trans; [exact H1|].
    eapply pass2_step_trans; [exact H2|].
    eapply IH; [|exact H]. simpl. now rewrite (pass2_step_length _ _ H1).
Qed.

Lemma second_process_step am_file st e st' :
  Z.of_nat (length (code st)) = MEM_SIZE ->
  second_process am_file st = Some (e, st') ->
  pass2_step (second_pass_start st) st'.
Proof.
  unfold second_process. intros Hlen H.
  apply bind_inv in H as ([] & st1 & Hm & H). minv Hm.
  eapply second_pass_lines_step; [|exact H]. exact Hlen.
Qed.

(** X17. What the second pass leaves as it is, whether or not it reports
    errors: the data segment and its counter, the flag [is_extern_exists],
    the size of the code array, and for every symbol its name, address,
    segment and external mark; a symbol that is an entry remains one. *)
Theorem second_process_keeps (am_file : string) (st st' : state) (was_error : bool) :
  Z.of_nat (length (code st)) = MEM_SIZE ->
  second_process am_file st = Some (was_error, st') ->
  data st' = data st /\ dc st' = dc st /\
  is_extern_exists st' = is_extern_exists st /\
  length (code st') = length (code st) /\
  0 <= ic st' /\
  Forall2 (fun s s' => name s' = name s /\ address s' = address s /\
                       type s' = type s /\ is_ext s' = is_ext s /\
                       (is_ent s = true -> is_ent s' = true))
    (symbol_table st) (symbol_table st').
Proof.
  intros Hlen H. apply second_process_step in H as (F & S & _); [|exact Hlen].
  destruct F as (F1 & F2 & F3 & F4 & F5 & _). simpl in *.
  split; [exact F1|]. split; [exact F2|]. split; [exact F3|]. split; [exact F4|].
  split; [exact F5 | exact S].
Qed.

(** X18. Every record of the table of external references that the second
    pass builds names an external symbol of the symbol table, and its
    address is [MEM_START] plus the index of a code word below the
    instruction counter whose [ARE] field is [EXTERNAL]. *)
Theorem externals_table_records (am_file : string) (st st' : state) (was_error : bool) :
  Z.of_nat (length (code st)) = MEM_SIZE ->
  second_process am_file st = Some (was_error, st') ->
  Forall (fun e =>
            is_extern_symbol (symbol_table st') (ext_name e) = true /\
            MEM_START <= ext_address e < MEM_START + ic st' /\
            exists w, code st' !! Z.to_nat (ext_address e - MEM_START) = Some w /\
                      extract_bits w 0 (ARE_BITS - 1) = are_val EXTERNAL)
    (ext_table st').
Proof.
  intros Hlen H. apply second_process_step in H as (_ & S & _ & new & X & R); [|exact Hlen].
  simpl in X. rewrite X. eapply Forall_impl; [exact R|].
  intros e (Hx & Ha & Hw). simpl in *.
  split; [now rewrite (same_symbols_extern _ _ (ext_name e) S)|].
  split; [lia | exact Hw].
Qed.

(** ** The two passes on the same file *)

Lemma first_process_arrays am_file st0 was_error st :
  arrays_ok st0 -> first_process am_file st0 = Some (was_error, st) -> arrays_ok st.
Proof.
  intros H0 H. unfold first_process in H.
  apply bind_inv in H as ([] & st1 & Hm & H). minv Hm.
  apply bind_inv in H as (e & st2 & Hp & H).
  apply bind_inv in H as ([] & st3 & Hm & H). minv Hm.
  apply bind_inv in H as ([] & st4 & Hm & H). minv Hm. minv H.
  apply first_pass_lines_inv in Hp as (Ha & _); [|now apply first_pass_start_inv].
  exact Ha.
Qed.

Lemma two_passes_flags (am_file : string) (st0 st1 st2 : state) (e1 e2 : bool) :
  arrays_ok st0 ->
  first_process am_file st0 = Some (e1, st1) ->
  second_process am_file st1 = Some (e2, st2) ->
  (is_entry_exists st2 = true <-> Exists (fun s => is_ent s = true) (symbol_table st2)) /\
  (is_extern_exists st2 = true <-> Exists (fun s => is_ext s = true) (symbol_table st2)).
Proof.
  intros H0 H1 H2.
  pose proof (first_process_arrays _ _ _ _ H0 H1) as [Hlen _].
  apply first_process_table_inv in H1 as (_ & Hent & Hflag & Hext).
  apply second_process_step in H2 as (F & S & E & _); [|exact Hlen].
  split.
  - apply E. unfold entry_inv. simpl. rewrite Hflag. split; [discriminate|].
    intros Hx. apply Exists_exists in Hx as (s & Hs & Hs').
    rewrite Forall_forall in Hent. rewrite (Hent s Hs) in Hs'. discriminate.
  - destruct F as (_ & _ & -> & _). simpl in *. rewrite Hext.
    clear -S. induction S as [|s s' t t' (_ & _ & _ & Hx & _) _ IH].
    + split; intros H; inversion H.
    + rewrite !Exists_cons, Hx, IH. reflexivity.
Qed.

(** X19. When the two passes are over, each of the two flags that decide
    which output files are written tells whether the symbol table holds
    such a symbol: [is_entry_exists] for an entry, [is_extern_exists] for
    an external symbol. *)
Theorem flags_after_passes (am_file : string) (st0 st1 st2 : state) (e1 e2 : bool) :
  arrays_ok st0 ->
  first_process am_file st0 = Some (e1, st1) ->
  second_process am_file st1 = Some (e2, st2) ->
  (is_entry_exists st2 = true <-> Exists (fun s => is_ent s = true) (symbol_table st2)) /\
  (is_extern_exists st2 = true <-> Exists (fun s => is_ext s = true) (symbol_table st2)).
Proof.
  intros H0 H1 H2. eapply two_passes_flags; eassumption.
Qed.

Lemma additional_words_operand_words op ops :
  is_valid_operand_count op (has_first_operand ops) (has_second_operand ops) = true ->
  (has_first_operand ops = true -> addr_mode_of (first_operand ops) <> NONE_ADDR) ->
  (has_second_operand ops = true -> addr_mode_of (second_operand ops) <> NONE_ADDR) ->
  let hf := has_first_operand ops in
  let hs := has_second_operand ops in
  let src := if hf && hs then mode_val (addr_mode_of (first_operand ops)) else 0 in
  let dst := if hf && hs then mode_val (addr_mode_of (second_operand ops))
             else if hf then mode_val (addr_mode_of (first_operand ops)) else 0 in
  additional_words (fst (determine_operand op false false))
    (snd (determine_operand op false false))
    (if fst (determine_operand op false false) then src else mode_val NONE_ADDR)
    (if snd (determine_operand op false false) then dst else mode_val NONE_ADDR)
  = operand_words ops.
Proof.
  unfold operand_words, additional_words, mode_words, mode_eqb.
  destruct (has_first_operand ops), (has_second_operand ops);
    intros Hc H1 H2; cbv zeta;
    destruct op; try discriminate Hc; simpl;
    try reflexivity;
    try (specialize (H1 eq_refl)); try (specialize (H2 eq_refl));
    destruct (addr_mode_of (first_operand ops)); try contradiction;
    try reflexivity;
    destruct (addr_mode_of (second_operand ops)); try contradiction; reflexivity.
Qed.

(** The statement that the second pass reads on a line is the one the
    first pass read. *)
Lemma parse_line_second_pass_operation line st b st' :
  is_op (find_operation (keyword line)) = true ->
  parse_line_second_pass line st = Some (b, st') ->
  exists msgs,
    process_operation_second_pass (find_operation (keyword line)) (operand_text line)
      (log msgs st) = Some (b, st').
Proof.
  unfold parse_line_second_pass. cbv zeta. intros Hop H.
  apply bind_inv in H as (lab & st1 & Hs & H).
  destruct (is_symbol_run (copy_next_token line SEPS_COLON) true st) as [msgs Hrun].
  rewrite Hrun in Hs. injection Hs as <- <-. exists msgs.
  apply bind_inv in H as (tl & st2 & Ht & H).
  assert (fst tl = keyword line /\ snd tl = statement_text line /\ st2 = log msgs st)
    as (Hk & Ht' & ->).
  { unfold keyword, statement_text, has_label, first_token.
    destruct (accepted _).
    - destruct (extract_remaining_seq line ":"); [|discriminate]. now minv Ht.
    - now minv Ht. }
  rewrite Hk, Ht', Hop in H.
  unfold operand_text.
  destruct (extract_remaining_seq (statement_text line) SEPS_COMMA); [exact H | discriminate].
Qed.

Lemma instruction_line_in_step (line : string) (st1 st1' st2 st2' : state) (b : bool) :
  parse_line line st1 = Some (true, st1') ->
  is_op (find_operation (keyword line)) = true ->
  Z.of_nat (length (code st2)) = MEM_SIZE ->
  ic st2 = ic st1 ->
  code st2 !! Z.to_nat (ic st1) = code st1' !! Z.to_nat (ic st1) ->
  parse_line_second_pass line st2 = Some (b, st2') ->
  ic st2' = ic st1'.
Proof.
  intros H1 Hop Hlen Hic Hword H2.
  apply parse_line_instruction in H1 as (ops & m1 & c & _ & Hm1 & Hm2 & Hcount & Hstore & ->);
    [|exact Hop].
  apply parse_line_second_pass_operation in H2 as (m2 & H2); [|exact Hop].
  apply process_operation_second_pass_encodes in H2 as (w & Hw & (_ & Hadv & _));
    [|exact Hlen].
  cbn [ic set_ic code set_code] in Hword |- *. cbn [ic log set_out] in Hadv.
  rewrite Hadv, Hic.
  enough (E : additional_words
                (fst (determine_operand (find_operation (keyword line)) false false))
                (snd (determine_operand (find_operation (keyword line)) false false))
                (if fst (determine_operand (find_operation (keyword line)) false false)
                 then extract_bits w SRC_MODE_START_POS SRC_MODE_END_POS
                 else mode_val NONE_ADDR)
                (if snd (determine_operand (find_operation (keyword line)) false false)
                 then extract_bits w DEST_MODE_START_POS DEST_MODE_END_POS
                 else mode_val NONE_ADDR) = operand_words ops) by (rewrite E; lia).
  pose proof (array_store_lookup _ _ _ _ Hstore) as Hc.
  rewrite Hc in Hword.
  pose proof (array_store_inv _ _ _ _ Hstore) as ((Hlo & _) & _).
  destruct (encode_first_op_word_layout (find_operation (keyword line))
              (has_first_operand ops) (has_second_operand ops)
              (addr_mode_of (first_operand ops)) (addr_mode_of (second_operand ops))
              Hcount Hm1 Hm2) as (_ & _ & Hdst & _ & Hsrc).
  cbv zeta in Hdst, Hsrc.
  rewrite <- (additional_words_operand_words _ _ Hcount Hm1 Hm2). cbv zeta.
  destruct (fst (determine_operand (find_operation (keyword line)) false false)
            || snd (determine_operand (find_operation (keyword line)) false false)) eqn:Hany.
  - specialize (Hw eq_refl). unfold array_load in Hw.
    cbn [code ic log set_out] in Hw. rewrite Hic in Hw. destruct (0 <=? ic st1) eqn:Hnn; [|lia].
    rewrite Hword in Hw. injection Hw as <-.
    rewrite Hdst, Hsrc. reflexivity.
  - apply orb_false_iff in Hany as [-> ->]. reflexivity.
Qed.

(** The code array and the instruction counter along a line of the first
    pass: an instruction that is accepted stores one word, at the counter,
    and moves the counter forward; any other line leaves both. *)
Lemma parse_line_code line st b st' :
  parse_line line st = Some (b, st') ->
  (b = true /\ is_op (find_operation (keyword line)) = true /\
   0 <= ic st < ic st' /\
   forall j : nat, j <> Z.to_nat (ic st) -> code st' !! j = code st !! j) \/
  ((b = false \/ is_op (find_operation (keyword line)) = false) /\
   ic st' = ic st /\ code st' = code st).
Proof.
  intros H. pose proof H as Hrun.
  apply parse_line_run in H as [(-> & ws & msgs & d & _ & -> & _)|
                                [(-> & Hop & msgs & _ & H)|
                                 (-> & Hop & Hdir & msgs & _ & H)]].
  - right. simpl. auto.
  - left. split; [reflexivity|]. split; [exact Hop|].
    apply parse_line_instruction in Hrun as (ops & m1 & c & _ & _ & _ & _ & Hstore & ->);
      [|exact Hop].
    pose proof (operand_words_range ops) as Hr.
    pose proof (array_store_inv _ _ _ _ Hstore) as (Hb & _ & _).
    cbn [ic set_ic code set_code]. split; [lia|].
    intros j Hj. eapply array_store_other; eauto.
  - right. split; [now right|].
    apply process_directive_run in H as (ws & m2 & d & _ & H). cbv zeta in H.
    destruct (label_state_fields line DIRECTIVE (dc st) msgs st) as (L1 & _ & L3 & _).
    destruct (find_directive (keyword line)).
    + destruct H as (-> & _). simpl. auto.
    + destruct H as (-> & _). simpl. auto.
    + destruct H as (-> & _). simpl. auto.
    + destruct H as (_ & _ & ->). simpl. auto.
    + destruct H.
Qed.

Lemma first_pass_lines_code src_lines : forall e st e' st',
  first_pass_lines src_lines e st = Some (e', st') ->
  ic st <= ic st' /\
  (forall j : nat, Z.of_nat j < ic st -> code st' !! j = code st !! j) /\
  (e = true -> e' = true).
Proof.
  induction src_lines as [|line rest IH]; intros e st e' st' H.
  - simpl in H. minv H. split; [lia|]. auto.
  - simpl in H.
    apply bind_inv in H as (ok & st1 & Hp & H).
    apply bind_inv in H as ([] & st2 & Hm & H). minv Hm.
    apply IH in H as (Hic & Hlow & He). cbn [ic code set_line_num] in Hic, Hlow.
    assert (H1 : ic st <= ic st1 /\
                 forall j : nat, Z.of_nat j < ic st -> code st1 !! j = code st !! j).
    { destruct (negb (should_ignore _)).
      - apply parse_line_code in Hp as [(_ & _ & Hi & Hc)|(_ & -> & ->)].
        + split; [lia|]. intros j Hj. apply Hc. lia.
        + split; [lia | auto].
      - minv Hp. split; [lia | auto]. }
    destruct H1 as (Hic1 & Hlow1).
    split; [lia|]. split.
    + intros j Hj. rewrite Hlow by lia. now apply Hlow1.
    + intros ->. apply He. now destruct ok.
Qed.

Lemma parse_line_second_pass_other line st b st' :
  is_op (find_operation (keyword line)) = false ->
  parse_line_second_pass line st = Some (b, st') ->
  ic st' = ic st /\ code st' = code st.
Proof.
  unfold parse_line_second_pass. cbv zeta. intros Hop H.
  apply bind_inv in H as (lab & st1 & Hs & H).
  destruct (is_symbol_run (copy_next_token line SEPS_COLON) true st) as [msgs Hrun].
  rewrite Hrun in Hs. injection Hs as <- <-.
  apply bind_inv in H as (tl & st2 & Ht & H).
  assert (fst tl = keyword line /\ st2 = log msgs st) as (Hk & ->).
  { unfold keyword, statement_text, has_label, first_token.
    destruct (accepted _).
    - destruct (extract_remaining_seq line ":"); [|discriminate]. now minv Ht.
    - now minv Ht. }
  rewrite Hk, Hop in H.
  destruct (is_dir (find_directive (keyword line))); [|now minv H].
  destruct (find_directive (keyword line)); try now minv H.
  destruct (extract_remaining_seq (snd tl) SEPS_COMMA) as [rest|]; [|discriminate].
  unfold make_entry in H.
  destruct (find_symbol _ _) as [i|]; [|now minv H].
  cbn [symbol_table log set_out] in H.
  destruct (symbol_table st !! i) as [s|]; [|discriminate].
  destruct (is_ext s); [now minv H|]. now injection H as <- <-.
Qed.

Lemma passes_in_step src_lines : forall st1 st1' st2 e2 e2' st2',
  first_pass_lines src_lines false st1 = Some (false, st1') ->
  Z.of_nat (length (code st2)) = MEM_SIZE ->
  ic st2 = ic st1 ->
  (forall j : nat, ic st1 <= Z.of_nat j -> code st2 !! j = code st1' !! j) ->
  second_pass_lines src_lines e2 st2 = Some (e2', st2') ->
  ic st2' = ic st1'.
Proof.
  induction src_lines as [|line rest IH]; intros st1 st1' st2 e2 e2' st2' H1 Hlen Hic Hcode H2.
  - simpl in H1, H2. minv H1. minv H2. exact Hic.
  - simpl in H1, H2.
    apply bind_inv in H1 as (ok1 & st1a & Hp1 & H1).
    apply bind_inv in H1 as ([] & st1b & Hm & H1). minv Hm.
    apply bind_inv in H2 as (ok2 & st2a & Hp2 & H2).
    apply bind_inv in H2 as ([] & st2b & Hm & H2). minv Hm.
    assert (ok1 = true) as ->.
    { destruct ok1; [reflexivity|]. simpl in H1.
      apply first_pass_lines_code in H1 as (_ & _ & He). now specialize (He eq_refl). }
    simpl in H1.
    pose proof (first_pass_lines_code _ _ _ _ _ H1) as (Hic1 & Hlow1 & _).
    cbn [ic code set_line_num] in Hic1, Hlow1.
    assert (Hstep : ic st2a = ic st1a /\ length (code st2a) = length (code st2) /\
                    ic st1 <= ic st1a /\
                    forall j : nat, ic st2a <= Z.of_nat j -> code st2a !! j = code st2 !! j).
    { destruct (negb (should_ignore (trim_whitespaces line))).
      - pose proof Hp1 as Hc1.
        apply parse_line_code in Hc1 as [(_ & Hop & Hi & Hc)|([Hb|Hop] & Ei & Ec)];
          [| discriminate Hb |].
        + pose proof (parse_line_second_pass_step _ _ _ _ Hlen Hp2) as (F & _).
          destruct F as (_ & _ & _ & Hl & _ & _ & Hhigh).
          split; [|split; [exact Hl | split; [lia | exact Hhigh]]].
          eapply instruction_line_in_step; eauto.
          rewrite Hcode by (rewrite Z2Nat.id; lia).
          apply Hlow1. rewrite Z2Nat.id; lia.
        + apply parse_line_second_pass_other in Hp2 as (E2i & E2c); [|exact Hop].
          rewrite E2i, E2c, Ei. split; [exact Hic|]. split; [reflexivity|].
          split; [lia | auto].
      - minv Hp1. minv Hp2. split; [exact Hic|]. split; [reflexivity|].
        split; [lia | auto]. }
    destruct Hstep as (Eic & Elen & Hmono & Hhigh).
    eapply (IH _ _ _ _ _ _ H1); [| | |exact H2].
    + cbn [code set_line_num]. now rewrite Elen.
    + exact Eic.
    + cbn [ic code set_line_num]. intros j Hj.
      rewrite Hhigh by lia. apply Hcode. lia.
Qed.

(** X20. When the first pass reports no error, the second pass, run on the
    same file, ends with the instruction counter of the first: the two
    passes count the same number of words for the code. *)
Theorem passes_agree_on_ic (am_file : string) (st0 st1 st2 : state) (e2 : bool) :
  arrays_ok st0 ->
  first_process am_file st0 = Some (false, st1) ->
  second_process am_file st1 = Some (e2, st2) ->
  ic st2 = ic st1.
Proof.
  intros H0 H1 H2.
  pose proof (first_process_arrays _ _ _ _ H0 H1) as [Hlen _].
  unfold first_process in H1.
  apply bind_inv in H1 as ([] & s1 & Hm & H1). minv Hm.
  apply bind_inv in H1 as (e & s2 & Hp & H1).
  apply bind_inv in H1 as ([] & s3 & Hm & H1). minv Hm.
  apply bind_inv in H1 as ([] & s4 & Hm & H1). minv Hm.
  unfold ret in H1. injection H1 as -> <-.
  unfold second_process in H2.
  apply bind_inv in H2 as ([] & s5 & Hm & H2). minv Hm.
  cbn [ic set_symbol_table].
  eapply (passes_in_step _ _ _ _ _ _ _ Hp); [| | |exact H2].
  - exact Hlen.
  - reflexivity.
  - intros j _. reflexivity.
Qed.

(** ** Macro definitions and calls *)

Lemma starts_with_endmcro s :
  starts_with "endmcro" s = true -> starts_with "mcro" s = false.
Proof.
  destruct s as [|c s]; [discriminate|].
  change (starts_with "endmcro" (String c s))
    with (ascii_eqb "e" c && starts_with "ndmcro" s).
  change (starts_with "mcro" (String c s)) with (ascii_eqb "m" c && starts_with "cro" s).
  unfold ascii_eqb. destruct (Ascii.eqb_spec "e" c) as [<-|]; [reflexivity | discriminate].
Qed.

Lemma add_line_to_macro_last tbl n body line :
  add_line_to_macro (length tbl) line (tbl ++ [mk_mcr n body])
  = (tbl ++ [mk_mcr n (body ++ [line])])%list.
Proof. unfold add_line_to_macro. now rewrite alter_last. Qed.

(** The lines of the body of a definition, one turn of the loop each. *)
Lemma pre_process_lines_body body : forall tbl n lines0 text rest st,
  Forall (fun l => starts_with "mcro" (trim_whitespaces l) = false /\
                   starts_with "endmcro" (trim_whitespaces l) = false) body ->
  pre_process_lines (body ++ rest)
    (mk_pre_state (tbl ++ [mk_mcr n lines0]) (Some (length tbl)) true text) st
  = pre_process_lines rest
      (mk_pre_state (tbl ++ [mk_mcr n (lines0 ++ body)]) (Some (length tbl)) true text)
      (set_line_num (line_num st + Z.of_nat (length body)) st).
Proof.
  induction body as [|line body IH]; intros tbl n lines0 text rest st Hall.
  - simpl. rewrite app_nil_r, Z.add_0_r. now destruct st.
  - inversion Hall as [|? ? [Hm He] Hrest]; subst.
    cbn [app pre_process_lines]. unfold bind at 1. unfold pre_process_line. cbv zeta.
    rewrite Hm, He. cbn [is_inside_macro current_macro macro_table extended_src andb].
    unfold ret at 1. cbv beta iota. unfold bind at 1, modify.
    rewrite add_line_to_macro_last, IH by exact Hrest.
    rewrite <- app_assoc. cbn [app]. f_equal.
    destruct st. unfold set_line_num. simpl. f_equal. lia.
Qed.

Lemma pre_process_lines_definition
    (def_line end_line n r : string) (body rest : list string)
    (ps : pre_state) (st : state) :
  is_inside_macro ps = false ->
  starts_with "mcro" (trim_whitespaces def_line) = true ->
  strtok (str_drop 4 (trim_whitespaces def_line)) " " = Some (n, r) ->
  strtok r " " = None ->
  macro_name_rules n ->
  Forall (fun l => starts_with "mcro" (trim_whitespaces l) = false /\
                   starts_with "endmcro" (trim_whitespaces l) = false) body ->
  starts_with "endmcro" (trim_whitespaces end_line) = true ->
  strtok (str_drop 7 (trim_whitespaces end_line)) " " = None ->
  pre_process_lines (def_line :: body ++ end_line :: rest) ps st
  = pre_process_lines rest
      (mk_pre_state (macro_table ps ++ [mk_mcr n body]) None false (extended_src ps))
      (set_line_num (line_num st + 2 + Z.of_nat (length body)) st).
Proof.
  intros Hout Hd Hn Hr Hrules Hbody He Het.
  cbn [pre_process_lines]. unfold bind at 1. unfold pre_process_line at 1. cbv zeta.
  rewrite Hd, Hn, Hr.
  apply macro_verdict_iff in Hrules.
  unfold is_macro. destruct (macro_verdict n) as [|e] eqn:Hv; [|discriminate Hrules].
  cbn [report]. unfold bind at 1. unfold ret at 1. cbv beta iota. unfold ret at 1.
  cbv beta iota. unfold bind at 1, modify.
  rewrite (pre_process_lines_body body (macro_table ps) n [] (extended_src ps)) by exact Hbody.
  cbn [app pre_process_lines]. unfold bind at 1. unfold pre_process_line at 1. cbv zeta.
  rewrite (starts_with_endmcro _ He), He, Het.
  cbn [is_inside_macro current_macro macro_table extended_src andb].
  unfold ret at 1. cbv beta iota. unfold bind at 1, modify.
  f_equal. destruct st. unfold set_line_num. simpl. f_equal. lia.
Qed.




(** X21. A macro definition ([mcro] and a name accepted by [is_macro], the
    lines of the body, [endmcro]) is taken out of the text: the
    preprocessor writes nothing for these lines, adds to its table the
    macro with the body lines as they are, counts the lines and goes on
    with the rest outside any definition. *)
Theorem macro_definition_absorbed
    (def_line end_line n r : string) (body rest : list string)
    (ps : pre_state) (st : state) :
  is_inside_macro ps = false ->
  starts_with "mcro" (trim_whitespaces def_line) = true ->
  strtok (str_drop 4 (trim_whitespaces def_line)) " " = Some (n, r) ->
  strtok r " " = None ->
  macro_name_rules n ->
  Forall (fun l => starts_with "mcro" (trim_whitespaces l) = false /\
                   starts_with "endmcro" (trim_whitespaces l) = false) body ->
  starts_with "endmcro" (trim_whitespaces end_line) = true ->
  strtok (str_drop 7 (trim_whitespaces end_line)) " " = None ->
  pre_process_lines (def_line :: body ++ end_line :: rest) ps st
  = pre_process_lines rest
      (mk_pre_state (macro_table ps ++ [mk_mcr n body]) None false (extended_src ps))
      (set_line_num (line_num st + 2 + Z.of_nat (length body)) st).
Proof.
  intros Hout Hd Hn Hr Hrules Hbody He Het.
  eapply pre_process_lines_definition; eassumption.
Qed.


(** ** The text of the output files *)

Lemma convert_to_base64_defined word :
  exists e, convert_to_base64 word = Some e /\ String.length e = 2%nat.
Proof.
  unfold convert_to_base64. destruct (base64_halves word) as [-> ->].
  destruct (base64_table_lookup ((word / 64) mod 64)) as (hi & -> & _);
    [apply Z.mod_pos_bound; lia|].
  destruct (base64_table_lookup (word mod 64)) as (lo & -> & _);
    [apply Z.mod_pos_bound; lia|].
  eexists. split; reflexivity.
Qed.

Lemma create_ob_file_loop_words n : forall i st,
  0 <= i -> 0 <= ic st -> 0 <= dc st ->
  ic st <= Z.of_nat (length (code st)) -> dc st <= Z.of_nat (length (data st)) ->
  i + Z.of_nat n = ic st + dc st ->
  exists encoded,
    Forall2 (fun w e => convert_to_base64 w = Some e)
      (drop (Z.to_nat i) (code_segment st ++ data_segment st)%list) encoded /\
    create_ob_file_loop n i st = Some (concat_lines (map (fun e => e ++ EOL) encoded)).
Proof.
  induction n as [|n IH]; intros i st Hi Hic Hdc Hc Hd Hn.
  - exists []. split; [|reflexivity].
    rewrite drop_ge; [constructor|].
    unfold code_segment, data_segment. rewrite length_app, !length_take. lia.
  - simpl.
    assert (Hlook : (code_segment st ++ data_segment st)%list !! Z.to_nat i =
                    (if i <? ic st then array_load (code st) i
                     else array_load (data st) (i - ic st))).
    { unfold array_load, code_segment, data_segment.
      destruct (Z.ltb_spec i (ic st)) as [Hlt|Hge].
      - destruct (Z.leb_spec 0 i); [|lia].
        rewrite lookup_app_l by (rewrite length_take; lia).
        apply lookup_take_lt. lia.
      - destruct (Z.leb_spec 0 (i - ic st)); [|lia].
        rewrite lookup_app_r by (rewrite length_take; lia).
        rewrite length_take.
        replace (Z.to_nat i - Z.to_nat (ic st) `min` length (code st))%nat
          with (Z.to_nat (i - ic st)) by lia.
        apply lookup_take_lt. lia. }
    rewrite <- Hlook.
    destruct ((code_segment st ++ data_segment st)%list !! Z.to_nat i) as [w|] eqn:Hw.
    + destruct (convert_to_base64_defined w) as (e & He & _). rewrite He.
      destruct (IH (i + 1) st) as (encoded & Hall & ->); try lia.
      exists (e :: encoded).
      split; [|cbn [map concat_lines fold_right]; now rewrite string_app_assoc].
      rewrite (drop_S _ _ _ Hw). constructor; [exact He|].
      replace (S (Z.to_nat i)) with (Z.to_nat (i + 1)) by lia. exact Hall.
    + exfalso. apply lookup_ge_None in Hw.
      unfold code_segment, data_segment in Hw.
      rewrite length_app, !length_take in Hw. lia.
Qed.

Lemma create_ob_file_text (st : state) :
  0 <= ic st <= Z.of_nat (length (code st)) ->
  0 <= dc st <= Z.of_nat (length (data st)) ->
  exists encoded,
    Forall2 (fun w e => convert_to_base64 w = Some e)
      (code_segment st ++ data_segment st)%list encoded /\
    create_ob_file st =
    Some (print_int (ic st) ++ TABS ++ print_int (dc st) ++ EOL ++
          concat_lines (map (fun e => e ++ EOL) encoded)) /\
    Z.of_nat (length encoded) = ic st + dc st.
Proof.
  intros Hic Hdc. unfold create_ob_file.
  destruct (create_ob_file_loop_words (Z.to_nat (ic st + dc st)) 0 st)
    as (encoded & Hall & ->); try lia.
  change (drop (Z.to_nat 0) (code_segment st ++ data_segment st)%list)
    with (code_segment st ++ data_segment st)%list in Hall.
  exists encoded. split; [exact Hall|]. split; [reflexivity|].
  rewrite <- (Forall2_length _ _ _ Hall).
  unfold code_segment, data_segment. rewrite length_app, !length_take. lia.
Qed.

Lemma create_ent_ext_files_text (table : list symbol) (exts : list ext) :
  Forall (fun s => is_ent s = true -> address s <= INT_MAX) table ->
  Forall (fun e => ext_address e <= INT_MAX) exts ->
  create_ent_file table =
  Some (concat_lines
          (map (fun s => name s ++ TABS ++ print_int (address s) ++ EOL)
             (List.filter is_ent table))) /\
  create_ext_file exts =
  Some (concat_lines
          (map (fun e => ext_name e ++ TABS ++ print_int (ext_address e) ++ EOL) exts)).
Proof.
  intros Ht He. split.
  - induction Ht as [|s table Hs _ IH]; [reflexivity|].
    cbn [create_ent_file List.filter]. rewrite IH.
    destruct (is_ent s); [|reflexivity].
    unfold print_name_address, print_unsigned.
    destruct (Z.leb_spec (address s) INT_MAX) as [_|Hgt]; [reflexivity|].
    specialize (Hs eq_refl). lia.
  - induction He as [|e exts Hs _ IH]; [reflexivity|].
    cbn [create_ext_file]. rewrite IH.
    unfold print_name_address, print_unsigned.
    destruct (Z.leb_spec (ext_address e) INT_MAX) as [_|Hgt]; [reflexivity|lia].
Qed.

(** X23. The object file, for counters within the two arrays: a first line
    with [ic] and [dc] in decimal separated by a tab, then one line of two
    base-64 characters for each word of the code segment followed by each
    word of the data segment, [ic + dc] lines in all. *)
Theorem create_ob_file_layout (st : state) :
  0 <= ic st <= Z.of_nat (length (code st)) ->
  0 <= dc st <= Z.of_nat (length (data st)) ->
  exists encoded,
    Forall2 (fun w e => convert_to_base64 w = Some e)
      (code_segment st ++ data_segment st)%list encoded /\
    create_ob_file st =
    Some (print_int (ic st) ++ TABS ++ print_int (dc st) ++ EOL ++
          concat_lines (map (fun e => e ++ EOL) encoded)) /\
    Z.of_nat (length encoded) = ic st + dc st.
Proof.
  intros Hic Hdc. apply create_ob_file_text; assumption.
Qed.

(** X24. The entries file holds one line, the name, a tab and the address
    in decimal, for each symbol of the table marked as an entry, in the
    order of the table; the externals file holds such a line for each
    record of the table of external references, one for each use of an
    external symbol; this for addresses that [%d] can print. *)
Theorem create_ent_ext_files (table : list symbol) (exts : list ext) :
  Forall (fun s => is_ent s = true -> address s <= INT_MAX) table ->
  Forall (fun e => ext_address e <= INT_MAX) exts ->
  create_ent_file table =
  Some (concat_lines
          (map (fun s => name s ++ TABS ++ print_int (address s) ++ EOL)
             (List.filter is_ent table))) /\
  create_ext_file exts =
  Some (concat_lines
          (map (fun e => ext_name e ++ TABS ++ print_int (ext_address e) ++ EOL) exts)).
Proof.
  intros Ht He. apply create_ent_ext_files_text; assumption.
Qed.

(** ** Success without messages *)

Lemma append_word_to_code_out w st u st' :
  append_word_to_code w st = Some (u, st') -> out st' = out st.
Proof. intros H. apply append_word_to_code_run in H as (_ & ->). reflexivity. Qed.

Lemma encode_symbol_silent n st st' :
  encode_symbol n st = Some (true, st') -> out st' = out st.
Proof.
  unfold encode_symbol. intros H.
  apply bind_inv in H as (table & st0 & Hg & H). minv Hg.
  destruct (is_existing_symbol (symbol_table st) n).
  - apply bind_inv in H as (word & st1 & Hw & H).
    apply bind_inv in H as ([] & st2 & Ha & H). unfold ret in H. injection H as <-.
    apply append_word_to_code_out in Ha. rewrite Ha.
    destruct (is_extern_symbol (symbol_table st) n).
    + apply bind_inv in Hw as (cur & st3 & Hg & Hw). minv Hg.
      apply bind_inv in Hw as ([] & st4 & He & Hw). unfold add_ext_to_list in He.
      minv He. now minv Hw.
    + now minv Hw.
  - apply bind_inv in H as ([] & st1 & Hm & H). minv Hm.
    apply bind_inv in H as ([] & st2 & Hm & H). minv Hm. discriminate H.
Qed.

Lemma encode_operand_to_code_silent operand mode is_dest st st' :
  encode_operand_to_code operand mode is_dest st = Some (true, st') -> out st' = out st.
Proof.
  unfold encode_operand_to_code.
  destruct (mode =? mode_val IMMEDIATE_ADDR);
    [|destruct (mode =? mode_val DIRECT_ADDR);
      [|destruct (mode =? mode_val REG_DIRECT_ADDR)]]; intros H.
  - destruct (atoi operand); [|discriminate].
    apply bind_inv in H as ([] & st1 & Ha & H). unfold ret in H. injection H as <-.
    now apply append_word_to_code_out in Ha.
  - now apply encode_symbol_silent in H.
  - apply bind_inv in H as (w & st1 & Hr & H).
    apply encode_reg_run in Hr as ->.
    apply bind_inv in H as ([] & st2 & Ha & H). unfold ret in H. injection H as <-.
    now apply append_word_to_code_out in Ha.
  - discriminate H.
Qed.

Lemma encode_additional_words_silent src dest has_src has_dest ms md st st' :
  encode_additional_words src dest has_src has_dest ms md st = Some (true, st') ->
  out st' = out st.
Proof.
  unfold encode_additional_words.
  destruct (has_src && has_dest && (ms =? mode_val REG_DIRECT_ADDR) &&
            (md =? mode_val REG_DIRECT_ADDR)); intros H.
  { apply bind_inv in H as (s & st1 & Hs & H). apply encode_reg_run in Hs as ->.
    apply bind_inv in H as (d & st2 & Hd & H). apply encode_reg_run in Hd as ->.
    apply bind_inv in H as ([] & st3 & Ha & H). unfold ret in H. injection H as <-.
    now apply append_word_to_code_out in Ha. }
  destruct has_dest; [|unfold ret in H; now injection H as <-].
  destruct has_src.
  - apply bind_inv in H as (ss & st1 & Hs & H).
    apply bind_inv in H as (ds & st2 & Hd & H). unfold ret in H.
    injection H as Hb <-. apply andb_true_iff in Hb as [-> ->].
    apply encode_operand_to_code_silent in Hs, Hd. congruence.
  - now apply encode_operand_to_code_silent in H.
Qed.

Lemma process_operation_second_pass_silent op line st st' :
  process_operation_second_pass op line st = Some (true, st') -> out st' = out st.
Proof.
  unfold process_operation_second_pass. intros H.
  destruct (determine_operand op false false) as [has_src has_dest].
  apply bind_inv in H as (ms & st1 & Hs & H).
  apply bind_inv in H as (md & st2 & Hd & H).
  apply bind_inv in H as (operands & st3 & Ho & H).
  apply bind_inv in H as ([] & st4 & Hm & H). minv Hm.
  apply encode_additional_words_silent in H. cbn [out set_ic] in H. rewrite H.
  assert (st1 = st) as ->.
  { destruct has_src; [|now minv Hs].
    apply bind_inv in Hs as (w & st0 & Hc & Hs). minv Hs.
    unfold current_code_word in Hc. destruct (array_load _ _); [|discriminate].
    now injection Hc as _ <-. }
  assert (st2 = st) as ->.
  { destruct has_dest; [|now minv Hd].
    apply bind_inv in Hd as (w & st0 & Hc & Hd). minv Hd.
    unfold current_code_word in Hc. destruct (array_load _ _); [|discriminate].
    now injection Hc as _ <-. }
  destruct has_dest; [destruct has_src|]; operands_inv Ho; now minv Ho.
Qed.

Lemma make_entry_silent n st st' :
  make_entry n st = Some (true, st') -> out st' = out st.
Proof.
  unfold make_entry. intros H.
  destruct (find_symbol (symbol_table st) n) as [i|].
  - destruct (symbol_table st !! i) as [s|]; [|discriminate].
    destruct (is_ext s).
    + apply bind_inv in H as ([] & st1 & Hm & H). discriminate H.
    + now injection H as <-.
  - apply bind_inv in H as ([] & st1 & Hm & H). discriminate H.
Qed.

Lemma parse_line_second_pass_silent line st st' :
  quiet_label line ->
  parse_line_second_pass line st = Some (true, st') -> out st' = out st.
Proof.
  unfold parse_line_second_pass, quiet_label, first_token. cbv zeta. intros Hq H.
  apply bind_inv in H as (lab & st1 & Hs & H).
  assert (st1 = st) as ->.
  { unfold is_symbol in Hs.
    destruct (symbol_verdict (copy_next_token line SEPS_COLON) true) as [|[e|]] eqn:Hv;
      cbn [report] in Hs.
    - now minv Hs.
    - now destruct (Hq e).
    - now minv Hs. }
  apply bind_inv in H as (tl & st2 & Ht & H).
  assert (st2 = st) as ->.
  { destruct lab; [|now minv Ht].
    destruct (extract_remaining_seq line ":"); [now minv Ht | discriminate]. }
  destruct (is_op (find_operation (fst tl))).
  - destruct (extract_remaining_seq (snd tl) SEPS_COMMA) as [rest|]; [|discriminate].
    now apply process_operation_second_pass_silent in H.
  - destruct (is_dir (find_directive (fst tl))); [|now minv H].
    destruct (find_directive (fst tl)); try now minv H.
    destruct (extract_remaining_seq (snd tl) SEPS_COMMA) as [rest|]; [|discriminate].
    now apply make_entry_silent in H.
Qed.

Lemma parse_line_accepted_label line st st' :
  parse_line line st = Some (true, st') -> quiet_label line.
Proof.
  unfold parse_line, quiet_label, first_token. cbv zeta. intros H e Hv.
  apply bind_inv in H as (lab & st1 & Hs & H).
  unfold is_symbol in Hs. rewrite Hv in Hs. cbn [report] in Hs.
  apply bind_inv in Hs as ([] & st2 & Hm & Hs). unfold ret in Hs. injection Hs as <- <-.
  apply symbol_verdict_noisy in Hv.
  destruct (colon_not_keyword _ Hv) as [Ho Hd].
  apply (parse_statement_undefined _ _ _ _ _ _ Ho Hd) in H. discriminate H.
Qed.

Lemma passes_silent src_lines : forall st1 st1' st2 st2',
  first_pass_lines src_lines false st1 = Some (false, st1') ->
  second_pass_lines src_lines false st2 = Some (false, st2') ->
  out st2' = out st2.
Proof.
  induction src_lines as [|line rest IH]; intros st1 st1' st2 st2' H1 H2.
  - simpl in H2. now minv H2.
  - simpl in H1, H2.
    apply bind_inv in H1 as (ok1 & st1a & Hp1 & H1).
    apply bind_inv in H1 as ([] & st1b & Hm & H1). minv Hm.
    apply bind_inv in H2 as (ok2 & st2a & Hp2 & H2).
    apply bind_inv in H2 as ([] & st2b & Hm & H2). minv Hm.
    assert (Hstick : forall l s e s', first_pass_lines l true s = Some (e, s') -> e = true).
    { clear. induction l as [|x l IHl]; intros s e s' H.
      - simpl in H. now minv H.
      - simpl in H. apply bind_inv in H as (ok & sa & _ & H).
        apply bind_inv in H as ([] & sb & _ & H).
        replace (if negb ok then true else true) with true in H by now destruct ok.
        eapply IHl. exact H. }
    assert (Hstick2 : forall l s e s', second_pass_lines l true s = Some (e, s') -> e = true).
    { clear. induction l as [|x l IHl]; intros s e s' H.
      - simpl in H. now minv H.
      - simpl in H. apply bind_inv in H as (ok & sa & _ & H).
        apply bind_inv in H as ([] & sb & _ & H).
        replace (if negb ok then true else true) with true in H by now destruct ok.
        eapply IHl. exact H. }
    assert (ok1 = true) as ->.
    { destruct ok1; [reflexivity|]. simpl in H1. now apply Hstick in H1. }
    assert (ok2 = true) as ->.
    { destruct ok2; [reflexivity|]. simpl in H2. now apply Hstick2 in H2. }
    simpl in H1, H2.
    rewrite (IH _ _ _ _ H1 H2). cbn [out set_line_num].
    destruct (negb (should_ignore (trim_whitespaces line))).
    + apply parse_line_accepted_label in Hp1.
      now apply parse_line_second_pass_silent in Hp2.
    + now minv Hp2.
Qed.

Lemma two_passes_silent (am_file : string) (st0 st1 st2 : state) :
  first_process am_file st0 = Some (false, st1) ->
  second_process am_file st1 = Some (false, st2) ->
  out st2 = out st0.
Proof.
  intros H1 H2.
  unfold first_process in H1.
  apply bind_inv in H1 as ([] & s1 & Hm & H1). minv Hm.
  apply bind_inv in H1 as (e & s2 & Hp & H1).
  apply bind_inv in H1 as ([] & s3 & Hm & H1). minv Hm.
  apply bind_inv in H1 as ([] & s4 & Hm & H1). minv Hm.
  unfold ret in H1. injection H1 as -> <-.
  unfold second_process in H2.
  apply bind_inv in H2 as ([] & s5 & Hm & H2). minv Hm.
  rewrite (passes_silent _ _ _ _ _ Hp H2). cbn [out second_pass_start set_ext_table set_line_num set_ic set_symbol_table].
  apply first_pass_lines_messages in Hp as (_ & msgs & Ho & _ & He).
  destruct (proj1 He eq_refl) as (_ & ->). rewrite app_nil_r in Ho. exact Ho.
Qed.

(** X25. When the two passes both return [FALSE] (no error), nothing was
    printed: the output is what it was before the first pass. *)
Theorem success_is_silent (am_file : string) (st0 st1 st2 : state) :
  first_process am_file st0 = Some (false, st1) ->
  second_process am_file st1 = Some (false, st2) ->
  out st2 = out st0.
Proof.
  intros H1 H2. eapply two_passes_silent; eassumption.
Qed.

(** ** The first pass is defined *)

Lemma extract_remaining_seq_some line seps :
  is_empty (Some line) = false -> exists rest, extract_remaining_seq line seps = Some rest.
Proof.
  intros H. unfold extract_remaining_seq. rewrite is_empty_skip, H. eauto.
Qed.

Lemma copy_next_token_blank src seps :
  is_empty (Some src) = true -> copy_next_token src seps = EmptyString.
Proof. intros H. unfold copy_next_token. now rewrite is_empty_skip, H. Qed.

Lemma token_not_empty src seps :
  is_empty (Some (copy_next_token src seps)) = false -> is_empty (Some src) = false.
Proof.
  intros H. destruct (is_empty (Some src)) eqn:E; [|reflexivity].
  rewrite (copy_next_token_blank _ _ E) in H. discriminate H.
Qed.

Lemma copy_token_length src seps :
  (String.length (copy_token src seps) <= String.length src)%nat.
Proof.
  induction src as [|c src IH]; simpl; [lia|].
  destruct (is_separator c seps); [destruct (ascii_eqb c ":"); simpl; lia|].
  simpl. lia.
Qed.

Lemma copy_next_token_length src seps :
  (String.length (copy_next_token src seps) <= String.length src)%nat.
Proof.
  unfold copy_next_token. pose proof (skip_whitespaces_length src).
  destruct (is_empty _); [simpl; lia|].
  pose proof (copy_token_length (skip_whitespaces src) seps). lia.
Qed.

(** A token of a text shorter than an array fits the array. *)
Lemma copy_next_token_to_fits size src seps :
  strlen src < size ->
  copy_next_token_to size src seps = Some (copy_next_token src seps).
Proof.
  intros H. apply copy_next_token_to_run.
  pose proof (copy_next_token_length src seps). unfold strlen in *. lia.
Qed.

Lemma extract_operands_defined op line :
  strlen line < MAX_OPERAND_LEN -> extract_operands op line <> None.
Proof.
  intros Hfit. unfold extract_operands. cbv zeta.
  destruct (OP_MAX_NUM_COMMAS <? count_commas line); [discriminate|].
  destruct (negb (count_commas line =? 0)).
  - rewrite (copy_next_token_to_fits _ _ _ Hfit).
    destruct (negb (is_empty (Some (copy_next_token line SEPS_COMMA)))) eqn:E;
      [|discriminate].
    apply negb_true_iff, token_not_empty in E.
    destruct (extract_remaining_seq_some line SEPS_COMMA E) as (rest & Hrest).
    rewrite Hrest. apply extract_remaining_seq_length in Hrest as [Hlen _].
    destruct rest as [|c r]; [discriminate|].
    destruct (ascii_eqb c ","); [|discriminate].
    rewrite copy_next_token_to_fits
      by (unfold strlen in *; cbn [String.length] in Hlen; lia).
    destruct (negb (is_empty (Some _))); [|discriminate].
    destruct (negb (is_empty _)); discriminate.
  - rewrite (copy_next_token_to_fits _ _ _ Hfit).
    destruct (negb (is_empty (Some _))).
    + destruct (negb (is_empty _)); discriminate.
    + destruct (_ && _); [discriminate|].
      destruct (negb (is_empty _)); discriminate.
Qed.

Lemma process_operation_defined op line st :
  strlen line < MAX_OPERAND_LEN ->
  0 <= ic st < Z.of_nat (length (code st)) ->
  exists b st', process_operation op line st = Some (b, st').
Proof.
  intros Hfit Hic. unfold process_operation.
  destruct (extract_operands op line) as [[e|ops]|] eqn:Hx.
  - unfold bind. rewrite print_error_run. eauto.
  - cbv zeta.
    assert (H1 : exists msgs,
               (if has_first_operand ops then detect_addr_mode (first_operand ops)
                else ret NONE_ADDR) st
               = Some ((if has_first_operand ops then addr_mode_of (first_operand ops)
                        else NONE_ADDR), log msgs st)).
    { destruct (has_first_operand ops); [apply detect_addr_mode_run|].
      exists []. now rewrite log_nil. }
    destruct H1 as (m1 & H1). rewrite (bind_run _ _ _ _ _ H1).
    assert (H2 : exists msgs,
               (if has_second_operand ops then detect_addr_mode (second_operand ops)
                else ret NONE_ADDR) (log m1 st)
               = Some ((if has_second_operand ops then addr_mode_of (second_operand ops)
                        else NONE_ADDR), log msgs (log m1 st))).
    { destruct (has_second_operand ops); [apply detect_addr_mode_run|].
      exists []. now rewrite log_nil. }
    destruct H2 as (m2 & H2). rewrite (bind_run _ _ _ _ _ H2).
    destruct (_ || _); [unfold bind; rewrite print_error_run; eauto|].
    destruct (negb (is_valid_operand_count _ _ _));
      [unfold bind; rewrite print_error_run; eauto|].
    destruct (negb (is_valid_mode_combination _ _ _));
      [unfold bind; rewrite print_error_run; eauto|].
    unfold bind at 1. unfold append_word_to_code.
    cbn [code ic log set_out].
    rewrite array_store_some by exact Hic.
    unfold bind, modify, ret. eauto.
  - now destruct (extract_operands_defined op line Hfit).
Qed.

Lemma append_characters_defined chars : forall st,
  0 <= dc st ->
  dc st + Z.of_nat (String.length chars) <= Z.of_nat (length (data st)) ->
  exists st',
    append_characters chars st = Some (tt, st') /\
    dc st' = dc st + Z.of_nat (String.length chars) /\
    length (data st') = length (data st).
Proof.
  induction chars as [|c chars IH]; intros st Hdc Hroom.
  - exists st. simpl. split; [reflexivity|]. split; [lia | reflexivity].
  - cbn [append_characters String.length] in *.
    unfold bind at 1. unfold append_character_to_data.
    rewrite array_store_some by lia.
    destruct (IH (set_dc (dc st + 1) (set_data (<[Z.to_nat (dc st) :=
                    to_uint (char_to_int c)]> (data st)) st))) as (st' & -> & Hd & Hl).
    + simpl. lia.
    + cbn [dc data set_dc set_data]. rewrite length_insert. lia.
    + exists st'. split; [reflexivity|].
      cbn [dc data set_dc set_data] in Hd, Hl. rewrite length_insert in Hl.
      split; [lia | exact Hl].
Qed.

Lemma trim_end_whitespaces_length s :
  (String.length (trim_end_whitespaces s) <= String.length s)%nat.
Proof.
  unfold trim_end_whitespaces. induction s as [|c s IH]; simpl; [lia|].
  fold trim_end_whitespaces in *.
  destruct (trim_end_whitespaces s); [destruct (isspace c)|]; simpl in *; lia.
Qed.

Lemma str_init_length s : (String.length (str_init s) <= String.length s - 1)%nat.
Proof.
  unfold str_init. induction s as [|c s IH]; simpl; [lia|].
  fold str_init in *. destruct s; simpl in *; lia.
Qed.

Lemma str_drop_1_le s : (String.length (str_drop 1 s) <= String.length s - 1)%nat.
Proof. destruct s; unfold str_drop; simpl; lia. Qed.

Lemma is_string_length s : is_string s = true -> (2 <= String.length s)%nat.
Proof.
  unfold is_string. destruct s as [|c rest]; [discriminate|].
  intros H. apply andb_true_iff in H as [H _]. apply andb_true_iff in H as [H _].
  apply andb_true_iff in H as [H _]. apply Z.leb_le in H. unfold strlen in H. lia.
Qed.

Lemma process_string_dir_defined line st :
  strlen line < MAX_OPERAND_LEN ->
  0 <= dc st ->
  dc st + Z.of_nat (String.length line) <= Z.of_nat (length (data st)) ->
  exists b st', process_string_dir line st = Some (b, st').
Proof.
  intros Hfit Hdc Hroom. unfold process_string_dir. cbv zeta.
  pose proof (trim_end_whitespaces_length line) as H4.
  rewrite copy_next_token_to_fits by (unfold strlen in *; lia).
  set (param := copy_next_token (trim_end_whitespaces line) EmptyString).
  destruct (is_string param) eqn:Hs; cbn [negb];
    [|unfold bind; rewrite print_error_run; eauto].
  pose proof (is_string_length _ Hs) as H2.
  pose proof (copy_next_token_length (trim_end_whitespaces line) EmptyString) as H3.
  pose proof (str_init_length (str_drop 1 param)) as H5.
  pose proof (str_drop_1_le param) as H6.
  fold param in H3.
  destruct (append_characters_defined (str_init (str_drop 1 param)) st)
    as (st1 & Ha & Hd & Hl); [lia | lia |].
  unfold bind at 1. rewrite Ha.
  unfold bind at 1. unfold append_character_to_data.
  rewrite array_store_some by (rewrite Hl; lia).
  unfold ret. eauto.
Qed.

Lemma process_entry_dir_defined line st :
  strlen line < MAX_SYMBOL_LEN ->
  exists b st', process_entry_dir line st = Some (b, st').
Proof.
  intros Hfit. unfold process_entry_dir.
  rewrite (copy_next_token_to_fits _ _ _ Hfit).
  destruct (is_empty (Some _)); [unfold bind; rewrite print_error_run; eauto|].
  destruct (is_symbol_run (copy_next_token line SEPS_BLANK) false st) as [msgs Hs].
  rewrite (bind_run _ _ _ _ _ Hs).
  destruct (accepted _); cbn [negb]; [|unfold ret; eauto].
  destruct (negb (is_empty _)); [unfold bind; rewrite print_error_run; eauto|].
  unfold ret. eauto.
Qed.

Lemma process_extern_dir_defined line st :
  strlen line < MAX_SYMBOL_LEN ->
  exists b st', process_extern_dir line st = Some (b, st').
Proof.
  intros Hfit. unfold process_extern_dir.
  rewrite (copy_next_token_to_fits _ _ _ Hfit).
  destruct (is_empty (Some _)); [unfold bind; rewrite print_error_run; eauto|].
  destruct (is_symbol_run (copy_next_token line SEPS_BLANK) false st) as [msgs Hs].
  rewrite (bind_run _ _ _ _ _ Hs).
  destruct (accepted _); cbn [negb]; [|unfold ret; eauto].
  destruct (negb (is_empty _)); [unfold bind; rewrite print_error_run; eauto|].
  unfold bind at 1. rewrite add_symbol_to_list_run.
  destruct (is_existing_symbol _ _); unfold ret; eauto.
Qed.

Lemma process_directive_defined dir line st :
  dir <> DATA ->
  strlen line < MAX_OPERAND_LEN ->
  0 <= dc st ->
  dc st + Z.of_nat (String.length line) <= Z.of_nat (length (data st)) ->
  exists b st', process_directive dir line st = Some (b, st').
Proof.
  intros Hdir Hfit Hdc Hroom. unfold process_directive.
  destruct (is_empty (Some line)); [unfold bind; rewrite print_error_run; eauto|].
  destruct dir.
  - contradiction.
  - now apply process_string_dir_defined.
  - now apply process_entry_dir_defined.
  - now apply process_extern_dir_defined.
  - unfold ret. eauto.
Qed.

Lemma check_commas_defined cur tbl lab rest k st :
  labelled cur tbl lab st ->
  (exists b st', k rest st = Some (b, st')) ->
  exists b st', check_commas cur (Some rest) k st = Some (b, st').
Proof.
  intros Hlab Hk. unfold check_commas.
  destruct (match rest with String c _ => ascii_eqb c "," | EmptyString => false end).
  { unfold bind at 1. rewrite (drop_label_run _ _ _ _ Hlab).
    unfold bind. rewrite print_error_run. unfold ret. eauto. }
  destruct (has_consecutive_commas rest); [|exact Hk].
  unfold bind at 1. rewrite (drop_label_run _ _ _ _ Hlab).
  unfold bind. rewrite print_error_run. unfold ret. eauto.
Qed.

Lemma with_label_fields cur tbl lab t addr st :
  code (with_label cur tbl lab t addr st) = code st /\
  data (with_label cur tbl lab t addr st) = data st /\
  ic (with_label cur tbl lab t addr st) = ic st /\
  dc (with_label cur tbl lab t addr st) = dc st.
Proof. destruct cur; simpl; auto. Qed.

Lemma parse_statement_defined cur tbl lab tok line st :
  labelled cur tbl lab st ->
  is_empty (Some line) = false ->
  0 <= ic st < Z.of_nat (length (code st)) ->
  0 <= dc st ->
  dc st + Z.of_nat (String.length line) <= Z.of_nat (length (data st)) ->
  find_directive tok <> DATA ->
  (forall rest, extract_remaining_seq line SEPS_COMMA = Some rest ->
                strlen rest < MAX_OPERAND_LEN) ->
  exists b st', parse_statement cur tok line st = Some (b, st').
Proof.
  intros Hlab Hline Hic Hdc Hroom Hnd Hfit. unfold parse_statement. cbv zeta.
  destruct (extract_remaining_seq_some line SEPS_COMMA Hline) as (rest & Hrest).
  pose proof (extract_remaining_seq_length _ _ _ Hrest) as [Hlen _].
  specialize (Hfit rest Hrest). rewrite Hrest.
  destruct (is_op (find_operation tok)).
  - unfold bind at 1.
    assert (Hplace := place_label_run cur tbl lab INSTRUCTION (ic st) st Hlab).
    assert (Hp : (match cur with
                  | Some p => cur_ic <- gets ic;; set_symbol_type_address p INSTRUCTION cur_ic
                  | None => ret tt
                  end) st = Some (tt, with_label cur tbl lab INSTRUCTION (ic st) st)).
    { destruct cur; [|exact Hplace]. unfold bind, gets. exact Hplace. }
    rewrite Hp.
    pose proof (with_label_labelled cur tbl lab INSTRUCTION (ic st) st Hlab) as Hlab1.
    destruct (with_label_fields cur tbl lab INSTRUCTION (ic st) st) as (F1 & F2 & F3 & F4).
    eapply check_commas_defined; [exact Hlab1|].
    destruct (process_operation_defined (find_operation tok) rest
                (with_label cur tbl lab INSTRUCTION (ic st) st)) as (ok & st2 & Hop);
      [exact Hfit | rewrite F1, F3; exact Hic|].
    rewrite (bind_run _ _ _ _ _ Hop).
    destruct ok; cbn [negb]; [unfold ret; eauto|].
    apply process_operation_run in Hop as [(_ & msgs & ->)|(Hb & _)]; [|discriminate].
    unfold bind. rewrite (drop_label_run cur tbl (placed lab INSTRUCTION (ic st)) _).
    + unfold ret. eauto.
    + eapply labelled_same; [exact Hlab1 | reflexivity].
  - destruct (is_dir (find_directive tok)).
    + unfold bind at 1.
      set (st1 := match find_directive tok with
                  | EXTERN | ENTRY => set_symbol_table tbl st
                  | _ => with_label cur tbl lab DIRECTIVE (dc st) st
                  end).
      set (cur1 := match find_directive tok with
                   | EXTERN | ENTRY => None
                   | _ => cur
                   end).
      assert (Hp : (match cur with
                    | Some p =>
                        match find_directive tok with
                        | EXTERN | ENTRY => drop_label (Some p);; ret None
                        | _ => cur_dc <- gets dc;;
                               set_symbol_type_address p DIRECTIVE cur_dc;; ret (Some p)
                        end
                    | None => ret None
                    end) st = Some (cur1, st1)).
      { subst st1 cur1.
        pose proof (drop_label_run cur tbl lab st Hlab) as Hd.
        pose proof (place_label_run cur tbl lab DIRECTIVE (dc st) st Hlab) as Hpl.
        destruct cur as [p|].
        - destruct (find_directive tok); unfold bind, gets;
            rewrite ?Hd, ?Hpl; reflexivity.
        - simpl in Hlab. unfold ret.
          destruct (find_directive tok); simpl; rewrite ?set_symbol_table_same;
            try reflexivity; now rewrite <- Hlab, set_symbol_table_same. }
      rewrite Hp.
      assert (Hlab1 : labelled cur1 tbl (placed lab DIRECTIVE (dc st)) st1).
      { subst st1 cur1.
        destruct (find_directive tok);
          try (now apply with_label_labelled); reflexivity. }
      assert (Hf : data st1 = data st /\ dc st1 = dc st).
      { subst st1.
        destruct (with_label_fields cur tbl lab DIRECTIVE (dc st) st) as (_ & F2 & _ & F4).
        destruct (find_directive tok); auto. }
      destruct Hf as [Fd Fc].
      eapply check_commas_defined; [exact Hlab1|].
      destruct (process_directive_defined (find_directive tok) rest st1) as (ok & st2 & Hop);
        [exact Hnd | exact Hfit | rewrite Fc; lia | rewrite Fc, Fd; lia |].
      rewrite (bind_run _ _ _ _ _ Hop).
      destruct ok; cbn [negb]; [unfold ret; eauto|].
      apply process_directive_run in Hop as (ws & msgs & d & _ & (-> & _)).
      unfold bind. rewrite (drop_label_run cur1 tbl (placed lab DIRECTIVE (dc st)) _).
      * unfold ret. eauto.
      * eapply labelled_same; [exact Hlab1 | reflexivity].
    + unfold bind at 1. rewrite (drop_label_run _ _ _ _ Hlab).
      unfold bind. rewrite print_error_run. unfold ret. eauto.
Qed.

Lemma should_ignore_false line :
  should_ignore line = false -> is_empty (Some line) = false.
Proof.
  unfold should_ignore. cbv zeta. rewrite is_empty_skip.
  now intros [H _]%orb_false_iff.
Qed.

(** X26. The first pass of a line other than a [.data] directive stays
    within the arrays.  The line is made of ASCII characters, fits the
    line buffer of [MAX_LINE_LEN] bytes and is not ignored; its first
    token has [MAX_SYMBOL_LEN] characters at most, so that a label fits the
    field [name] of its symbol; the text after the name of the operation
    or of the directive is shorter than [MAX_OPERAND_LEN], so that every
    token copied from it fits its array; the instruction counter is inside
    the code array and the data array has room for as many words as the
    line has characters.  Then [parse_line] returns: no word is stored
    outside [code] or [data], no token is written past the end of
    [first_operand], [second_operand] or [param], and no null pointer is
    read. *)
Theorem parse_line_defined (line : string) (st : state) :
  ascii_only line = true ->
  (String.length line < MAX_LINE_LEN)%nat ->
  should_ignore line = false ->
  strlen (first_token line) <= MAX_SYMBOL_LEN ->
  strlen (operand_text line) < MAX_OPERAND_LEN ->
  find_directive (keyword line) <> DATA ->
  0 <= ic st < Z.of_nat (length (code st)) ->
  0 <= dc st ->
  dc st + Z.of_nat (String.length line) <= Z.of_nat (length (data st)) ->
  exists b st', parse_line line st = Some (b, st').
Proof.
  intros _ _ Hign _ Hfit Hnd Hic Hdc Hroom. apply should_ignore_false in Hign.
  unfold parse_line. cbv zeta.
  destruct (is_symbol_run (copy_next_token line SEPS_COLON) true st) as [msgs Hr].
  rewrite (bind_run _ _ _ _ _ Hr).
  fold (first_token line). fold (has_label line).
  unfold keyword, statement_text in Hnd. unfold operand_text, statement_text in Hfit.
  destruct (has_label line) eqn:Hlbl.
  - unfold bind at 1. rewrite add_symbol_to_list_run.
    destruct (is_existing_symbol _ _) eqn:Hex; [unfold ret; eauto|].
    cbv iota. apply is_existing_symbol_false in Hex. simpl in Hex.
    fold (label_of line).
    change (symbol_table (log msgs st)) with (symbol_table st).
    set (st_l := set_symbol_table (symbol_table st ++ [label_of line]) (log msgs st)).
    assert (Hlab : labelled (Some (length (symbol_table st)))
                     (symbol_table st) (label_of line) st_l).
    { repeat split. exact Hex. }
    destruct (is_empty (extract_remaining_seq line ":")) eqn:Hempty.
    { unfold bind at 1. rewrite (drop_label_run _ _ _ _ Hlab).
      unfold bind. rewrite print_error_run. unfold ret. eauto. }
    destruct (extract_remaining_seq line ":") as [text|] eqn:Htext; [|discriminate].
    pose proof (extract_remaining_seq_length _ _ _ Htext) as [Hlen _].
    eapply parse_statement_defined;
      [exact Hlab | exact Hempty | exact Hic | exact Hdc | | exact Hnd |].
    + subst st_l. cbn [data dc set_symbol_table log] in *. simpl. lia.
    + intros rest Hrest. now rewrite Hrest in Hfit.
  - assert (Hlab : labelled None (symbol_table st) (label_of line) (log msgs st))
      by reflexivity.
    eapply parse_statement_defined;
      [exact Hlab | exact Hign | exact Hic | exact Hdc | | exact Hnd |].
    + simpl. lia.
    + intros rest Hrest. now rewrite Hrest in Hfit.
Qed.

(** ** The output files after the two passes *)

Lemma existsb_Exists {A} (f : A -> bool) (l : list A) :
  existsb f l = true <-> Exists (fun x => f x = true) l.
Proof.
  induction l as [|x l IH]; simpl.
  - split; [discriminate | intros H; inversion H].
  - rewrite Exists_cons, orb_true_iff, IH. reflexivity.
Qed.

Lemma flag_existsb (b : bool) {A} (f : A -> bool) (l : list A) :
  (b = true <-> Exists (fun x => f x = true) l) -> b = existsb f l.
Proof.
  rewrite <- existsb_Exists. destruct b, (existsb f l); intuition congruence.
Qed.

(** X27. After the two passes, for a program whose code fits the code
    array and where each file can be created, [create_output_files] goes
    through with the state unchanged and writes, in this order, the object
    file, the entries file if and only if a symbol of the table is an
    entry, and the externals file if and only if a symbol of the table is
    external, whether or not that symbol is ever used. *)
Theorem output_files_after_passes
    (can_create : string -> bool) (source_filename am_file : string)
    (st0 st1 st2 : state) (e1 e2 : bool) :
  arrays_ok st0 ->
  first_process am_file st0 = Some (e1, st1) ->
  second_process am_file st1 = Some (e2, st2) ->
  ic st2 <= MEM_SIZE ->
  (forall f, can_create f = true) ->
  exists ob ent ext,
    create_ob_file st2 = Some ob /\
    create_ent_file (symbol_table st2) = Some ent /\
    create_ext_file (ext_table st2) = Some ext /\
    create_output_files can_create source_filename st2 =
    Some ((true,
           ([(generate_new_filename source_filename FILE_OBJECT, ob)] ++
            (if existsb is_ent (symbol_table st2)
             then [(generate_new_filename source_filename FILE_ENTRIES, ent)]
             else []) ++
            (if existsb is_ext (symbol_table st2)
             then [(generate_new_filename source_filename FILE_EXTERNALS, ext)]
             else []))%list),
          st2).
Proof.
  intros H0 H1 H2 Hic Hcan.
  pose proof (first_process_arrays _ _ _ _ H0 H1) as [Hlen Hlend].
  destruct (two_passes_flags _ _ _ _ _ _ H0 H1 H2) as [Fent Fext].
  apply flag_existsb in Fent. apply flag_existsb in Fext.
  pose proof (first_process_convention _ _ _ _ H0 H1) as Hconv.
  destruct (first_process_end _ _ _ _ H0 H1) as (s1 & _ & (_ & _ & Hdc & _) & _ & Edc & _).
  pose proof (second_process_step _ _ _ _ Hlen H2) as (F & S & _ & new & X & R).
  destruct F as (F1 & F2 & _ & F4 & F5 & _). simpl in F1, F2, F4, F5, X.
  (* the object file *)
  destruct (create_ob_file_text st2) as (encoded & _ & Hob & _);
    [rewrite F4; lia | rewrite F1, F2, Edc; lia|].
  (* the entries file *)
  assert (Hent : Forall (fun s => is_ent s = true -> address s <= INT_MAX)
                   (symbol_table st2)).
  { apply Forall_forall. intros s' Hs' _.
    apply list_elem_of_lookup_1 in Hs' as (i & Hi).
    destruct (Forall2_lookup_r _ _ _ _ _ S Hi) as (s & Hs & (_ & -> & _)).
    apply list_elem_of_lookup_2 in Hs. simpl in Hs.
    unfold table_convention in Hconv. rewrite Forall_forall in Hconv.
    destruct (Hconv s Hs) as [_ Hb]. unfold INT_MAX. lia. }
  (* the externals file *)
  assert (Hext : Forall (fun e => ext_address e <= INT_MAX) (ext_table st2)).
  { rewrite X. eapply Forall_impl; [exact R|].
    intros e (_ & Ha & _). unfold INT_MAX, MEM_START, MEM_SIZE in *. lia. }
  destruct (create_ent_ext_files_text _ _ Hent Hext) as [Hte Htx].
  eexists _, _, _. split; [exact Hob|]. split; [exact Hte|]. split; [exact Htx|].
  unfold create_output_files. cbv zeta. rewrite !Hcan. cbn [negb].
  unfold bind at 1. unfold written at 1. rewrite Hob.
  unfold bind at 1. unfold gets at 1. rewrite Fent.
  destruct (existsb is_ent (symbol_table st2)).
  - unfold bind at 1. unfold bind at 1. unfold written at 1. rewrite Hte.
    unfold ret at 1. cbn [fst snd negb].
    unfold bind at 1. unfold gets at 1. rewrite Fext.
    destruct (existsb is_ext (symbol_table st2)).
    + unfold bind at 1. unfold written at 1. rewrite Htx. reflexivity.
    + reflexivity.
  - unfold bind at 1. unfold ret at 1. cbn [fst snd negb].
    unfold bind at 1. unfold gets at 1. rewrite Fext.
    destruct (existsb is_ext (symbol_table st2)).
    + unfold bind at 1. unfold written at 1. rewrite Htx. reflexivity.
    + reflexivity.
Qed.

(** ** The messages of the second pass *)

Lemma emits_refl st : emits st st.
Proof. exists []. apply emitted_refl. Qed.

Lemma emits_quiet st st' :
  line_num st' = line_num st -> out st' = out st -> emits st st'.
Proof. intros Hl Ho. exists []. now apply emitted_quiet. Qed.

Lemma emits_trans st st1 st2 : emits st st1 -> emits st1 st2 -> emits st st2.
Proof. intros (m1 & H1) (m2 & H2). exists (m1 ++ m2)%list. eapply emitted_trans; eauto. Qed.

Lemma print_error_emits e st u st' : print_error e st = Some (u, st') -> emits st st'.
Proof.
  rewrite print_error_run. intros [= _ <-]. exists [(line_num st, e)]. apply emitted_log.
Qed.

Lemma append_word_to_code_emits w st u st' :
  append_word_to_code w st = Some (u, st') -> emits st st'.
Proof. intros H. apply append_word_to_code_run in H as (_ & ->). now apply emits_quiet. Qed.

Lemma encode_symbol_emits n st b st' :
  encode_symbol n st = Some (b, st') -> emits st st'.
Proof.
  unfold encode_symbol. intros H.
  apply bind_inv in H as (table & st0 & Hg & H). minv Hg.
  destruct (is_existing_symbol (symbol_table st) n).
  - apply bind_inv in H as (word & st1 & Hw & H).
    apply bind_inv in H as ([] & st2 & Ha & H). unfold ret in H. injection H as _ <-.
    apply append_word_to_code_emits in Ha.
    eapply emits_trans; [|exact Ha].
    destruct (is_extern_symbol (symbol_table st) n).
    + apply bind_inv in Hw as (cur & st3 & Hg & Hw). minv Hg.
      apply bind_inv in Hw as ([] & st4 & He & Hw). unfold add_ext_to_list in He.
      minv He. minv Hw. now apply emits_quiet.
    + minv Hw. apply emits_refl.
  - apply bind_inv in H as ([] & st1 & Hm & H). minv Hm.
    apply bind_inv in H as ([] & st2 & Hm & H). apply print_error_emits in Hm.
    unfold ret in H. injection H as _ <-.
    eapply emits_trans; [|exact Hm]. now apply emits_quiet.
Qed.

Lemma encode_operand_to_code_emits operand mode is_dest st b st' :
  encode_operand_to_code operand mode is_dest st = Some (b, st') -> emits st st'.
Proof.
  unfold encode_operand_to_code.
  destruct (mode =? mode_val IMMEDIATE_ADDR);
    [|destruct (mode =? mode_val DIRECT_ADDR);
      [|destruct (mode =? mode_val REG_DIRECT_ADDR)]]; intros H.
  - destruct (atoi operand); [|discriminate].
    apply bind_inv in H as ([] & st1 & Ha & H). unfold ret in H. injection H as _ <-.
    now apply append_word_to_code_emits in Ha.
  - now apply encode_symbol_emits in H.
  - apply bind_inv in H as (w & st1 & Hr & H).
    apply encode_reg_run in Hr as ->.
    apply bind_inv in H as ([] & st2 & Ha & H). unfold ret in H. injection H as _ <-.
    now apply append_word_to_code_emits in Ha.
  - unfold ret in H. injection H as _ <-. apply emits_refl.
Qed.

Lemma encode_additional_words_emits src dest has_src has_dest ms md st b st' :
  encode_additional_words src dest has_src has_dest ms md st = Some (b, st') ->
  emits st st'.
Proof.
  unfold encode_additional_words.
  destruct (has_src && has_dest && (ms =? mode_val REG_DIRECT_ADDR) &&
            (md =? mode_val REG_DIRECT_ADDR)); intros H.
  { apply bind_inv in H as (s & st1 & Hs & H). apply encode_reg_run in Hs as ->.
    apply bind_inv in H as (d & st2 & Hd & H). apply encode_reg_run in Hd as ->.
    apply bind_inv in H as ([] & st3 & Ha & H). unfold ret in H. injection H as _ <-.
    now apply append_word_to_code_emits in Ha. }
  destruct has_dest; [|unfold ret in H; injection H as _ <-; apply emits_refl].
  destruct has_src.
  - apply bind_inv in H as (ss & st1 & Hs & H).
    apply bind_inv in H as (ds & st2 & Hd & H). unfold ret in H.
    injection H as _ <-.
    apply encode_operand_to_code_emits in Hs, Hd. eapply emits_trans; eauto.
  - now apply encode_operand_to_code_emits in H.
Qed.

Lemma process_operation_second_pass_emits op line st b st' :
  process_operation_second_pass op line st = Some (b, st') -> emits st st'.
Proof.
  unfold process_operation_second_pass. intros H.
  destruct (determine_operand op false false) as [has_src has_dest].
  apply bind_inv in H as (ms & st1 & Hs & H).
  apply bind_inv in H as (md & st2 & Hd & H).
  apply bind_inv in H as (operands & st3 & Ho & H).
  apply bind_inv in H as ([] & st4 & Hm & H). minv Hm.
  apply encode_additional_words_emits in H.
  eapply emits_trans; [|exact H]. apply emits_quiet; cbn [line_num out set_ic].
  all: assert (st1 = st) as ->
      by (destruct has_src; [|now minv Hs];
          apply bind_inv in Hs as (w & st0 & Hc & Hs); minv Hs;
          unfold current_code_word in Hc; destruct (array_load _ _); [|discriminate];
          now injection Hc as _ <-).
  all: assert (st2 = st) as ->
      by (destruct has_dest; [|now minv Hd];
          apply bind_inv in Hd as (w & st0 & Hc & Hd); minv Hd;
          unfold current_code_word in Hc; destruct (array_load _ _); [|discriminate];
          now injection Hc as _ <-).
  all: destruct has_dest; [destruct has_src|]; operands_inv Ho; now minv Ho.
Qed.

Lemma make_entry_emits n st b st' : make_entry n st = Some (b, st') -> emits st st'.
Proof.
  unfold make_entry. intros H.
  destruct (find_symbol (symbol_table st) n) as [i|].
  - destruct (symbol_table st !! i) as [s|]; [|discriminate].
    destruct (is_ext s).
    + apply bind_inv in H as ([] & st1 & Hm & H). apply print_error_emits in Hm.
      unfold ret in H. now injection H as _ <-.
    + injection H as _ <-. now apply emits_quiet.
  - apply bind_inv in H as ([] & st1 & Hm & H). apply print_error_emits in Hm.
    unfold ret in H. now injection H as _ <-.
Qed.

Lemma parse_line_second_pass_emits line st b st' :
  parse_line_second_pass line st = Some (b, st') -> emits st st'.
Proof.
  unfold parse_line_second_pass. cbv zeta. intros H.
  apply bind_inv in H as (lab & st1 & Hs & H).
  apply is_symbol_emitted in Hs as (_ & msgs & He & _).
  eapply emits_trans; [exists msgs; exact He|].
  apply bind_inv in H as (tl & st2 & Ht & H).
  assert (st2 = st1) as ->.
  { destruct lab; [|now minv Ht].
    destruct (extract_remaining_seq line ":"); [now minv Ht | discriminate]. }
  destruct (is_op (find_operation (fst tl))).
  - destruct (extract_remaining_seq (snd tl) SEPS_COMMA) as [rest|]; [|discriminate].
    now apply process_operation_second_pass_emits in H.
  - destruct (is_dir (find_directive (fst tl)));
      [|unfold ret in H; injection H as _ <-; apply emits_refl].
    destruct (find_directive (fst tl));
      try (unfold ret in H; injection H as _ <-; apply emits_refl).
    destruct (extract_remaining_seq (snd tl) SEPS_COMMA) as [rest|]; [|discriminate].
    now apply make_entry_emits in H.
Qed.

Lemma second_pass_lines_messages src_lines : forall e st e' st',
  second_pass_lines src_lines e st = Some (e', st') ->
  line_num st' = line_num st + Z.of_nat (length src_lines) /\
  exists msgs,
    out st' = (out st ++ msgs)%list /\
    Forall (fun m => line_num st <= fst m < line_num st + Z.of_nat (length src_lines)) msgs.
Proof.
  induction src_lines as [|line rest IH]; intros e st e' st' H.
  - simpl in H. minv H. split; [simpl; lia|]. exists [].
    split; [now rewrite app_nil_r | constructor].
  - simpl in H.
    apply bind_inv in H as (ok & st1 & Hp & H).
    apply bind_inv in H as ([] & st2 & Hm & H). minv Hm.
    apply IH in H as (Hl & m2 & Ho & Ht). cbn [line_num out set_line_num] in Hl, Ho, Ht.
    assert (He : emits st st1).
    { destruct (negb (should_ignore (trim_whitespaces line))).
      - now apply parse_line_second_pass_emits in Hp.
      - minv Hp. apply emits_refl. }
    destruct He as (m1 & L1 & O1 & T1).
    split; [rewrite Hl, L1; cbn [length]; lia|].
    exists (m1 ++ m2)%list. split; [now rewrite Ho, O1, app_assoc|].
    apply Forall_app. split.
    + eapply Forall_impl; [exact T1|]. intros m Hm. simpl in Hm. cbn [length]. lia.
    + eapply Forall_impl; [exact Ht|]. intros m Hm. simpl in Hm. cbn [length]. lia.
Qed.

Lemma second_process_emits (am_file : string) (st st' : state) (was_error : bool) :
  second_process am_file st = Some (was_error, st') ->
  line_num st' = 1 + Z.of_nat (length (file_lines am_file)) /\
  exists msgs,
    out st' = (out st ++ msgs)%list /\
    Forall (fun m => 1 <= fst m <= Z.of_nat (length (file_lines am_file))) msgs.
Proof.
  unfold second_process. intros H.
  apply bind_inv in H as ([] & st1 & Hm & H). minv Hm.
  apply second_pass_lines_messages in H as (Hl & msgs & Ho & Ht).
  simpl in *. split; [exact Hl|]. exists msgs. split; [exact Ho|].
  eapply Forall_impl; [exact Ht|]. intros m Hm. simpl in Hm. lia.
Qed.

(** ** [main] and the files *)

Lemma append_inj_l (x a b : string) : x ++ a = x ++ b -> a = b.
Proof. induction x as [|c x IH]; simpl; [auto | intros [= H]; auto]. Qed.

Lemma generate_new_filename_inj arg t t' :
  generate_new_filename arg t = generate_new_filename arg t' -> t = t'.
Proof.
  unfold generate_new_filename. intros H. apply append_inj_l in H.
  destruct t, t'; (reflexivity || discriminate H).
Qed.

Lemma write_file_same f t fs : write_file f t fs f = Some t.
Proof. unfold write_file, streq. now rewrite String.eqb_refl. Qed.

Lemma write_file_other f t fs n : n <> f -> write_file f t fs n = fs n.
Proof.
  intros H. unfold write_file, streq.
  destruct (String.eqb_spec n f); [contradiction | reflexivity].
Qed.

Lemma remove_file_other f fs n : n <> f -> remove_file f fs n = fs n.
Proof.
  intros H. unfold remove_file, streq.
  destruct (String.eqb_spec n f); [contradiction | reflexivity].
Qed.

Lemma write_files_other written : forall fs n,
  Forall (fun f => n <> fst f) written -> write_files written fs n = fs n.
Proof.
  induction written as [|f written IH]; intros fs n H; [reflexivity|].
  inversion H as [|? ? Hf Hrest]; subst. unfold write_files in *. cbn [fold_left].
  rewrite IH by exact Hrest. now apply write_file_other.
Qed.

Lemma pre_process_line_out line ps st r st' :
  pre_process_line line ps st = Some (r, st') ->
  match r with
  | inr _ => st' = st
  | inl _ => exists e, st' = log [(line_num st, e)] st
  end.
Proof.
  unfold pre_process_line. cbv zeta.
  destruct (starts_with "mcro" (trim_whitespaces line)).
  - destruct (strtok (str_drop 4 (trim_whitespaces line)) " ") as [[n rest]|].
    + destruct (strtok rest " ").
      * intros H. apply bind_inv in H as ([] & st1 & Hp & H).
        rewrite print_error_run in Hp. injection Hp as <-.
        unfold ret in H. injection H as <- <-. eauto.
      * intros H. apply bind_inv in H as (ok & st1 & Hm & H).
        destruct (is_macro_run n st) as [msgs Hr]. rewrite Hr in Hm.
        injection Hm as <- <-.
        destruct (accepted (macro_verdict n)) eqn:Hacc.
        -- unfold ret in H. injection H as <- <-.
           unfold is_macro in Hr.
           destruct (macro_verdict n) as [|[e|]]; try discriminate Hacc.
           simpl in Hr. unfold ret in Hr. congruence.
        -- unfold ret in H. injection H as <- <-.
           apply macro_verdict_rejects in Hacc as (e & He).
           unfold is_macro in Hr. rewrite He in Hr. simpl in Hr.
           unfold bind in Hr. rewrite print_error_run in Hr. unfold ret in Hr.
           exists e. congruence.
    + intros H. apply bind_inv in H as ([] & st1 & Hp & H).
      rewrite print_error_run in Hp. injection Hp as <-.
      unfold ret in H. injection H as <- <-. eauto.
  - destruct (is_inside_macro ps && starts_with "endmcro" (trim_whitespaces line)).
    + destruct (strtok (str_drop 7 (trim_whitespaces line)) " ").
      * intros H. apply bind_inv in H as ([] & st1 & Hp & H).
        rewrite print_error_run in Hp. injection Hp as <-.
        unfold ret in H. injection H as <- <-. eauto.
      * intros H. unfold ret in H. now injection H as <- <-.
    + destruct (is_inside_macro ps).
      * destruct (current_macro ps); [|discriminate].
        intros H. unfold ret in H. now injection H as <- <-.
      * destruct (expand_macro (macro_table ps) (trim_whitespaces line));
          intros H; unfold ret in H; now injection H as <- <-.
Qed.

Lemma pre_process_lines_messages src_lines : forall ps st success ps' st',
  pre_process_lines src_lines ps st = Some ((success, ps'), st') ->
  exists msgs,
    out st' = (out st ++ msgs)%list /\ (success = true <-> msgs = []).
Proof.
  induction src_lines as [|line rest IH]; intros ps st success ps' st' H.
  - simpl in H. unfold ret in H. injection H as <- <- <-.
    exists []. split; [now rewrite app_nil_r | tauto].
  - simpl in H. apply bind_inv in H as (r & st1 & Hl & H).
    apply pre_process_line_out in Hl. destruct r as [[]|ps1].
    + destruct Hl as (e & ->). unfold ret in H. injection H as <- <- <-.
      exists [(line_num st, e)]. split; [reflexivity|]. split; discriminate.
    + subst st1. apply bind_inv in H as ([] & st2 & Hm & H). minv Hm.
      apply IH in H as (msgs & Ho & Hs). exists msgs. split; [exact Ho | exact Hs].
Qed.

Lemma pre_process_file_effect can_create can_remove fs arg st ok fs' st' :
  pre_process_file can_create can_remove fs arg st = Some ((ok, fs'), st') ->
  (exists msgs, out st' = (out st ++ msgs)%list /\ (ok = true <-> msgs = [])) /\
  (forall n, n <> generate_new_filename arg FILE_MACRO -> fs' n = fs n) /\
  (ok = true -> exists am, fs' (generate_new_filename arg FILE_MACRO) = Some am).
Proof.
  unfold pre_process_file. cbv zeta. intros H.
  apply bind_inv in H as ([] & st1 & Hm & H). minv Hm.
  destruct (fs (generate_new_filename arg FILE_SOURCE)) as [as_file|].
  - destruct (negb (can_create (generate_new_filename arg FILE_MACRO))).
    + apply bind_inv in H as ([] & st1 & Hp & H).
      rewrite print_error_run in Hp. injection Hp as <-.
      unfold ret in H. injection H as <- <- <-.
      split; [eexists; split; [reflexivity | split; discriminate]|].
      split; [reflexivity | discriminate].
    + apply bind_inv in H as ([success ps] & st1 & Hl & H).
      apply pre_process_lines_messages in Hl as (msgs & Ho & Hs).
      cbn [out set_line_num] in Ho. cbn [fst snd] in H.
      destruct success.
      * unfold ret in H. injection H as <- <- <-.
        split; [exists msgs; split; [exact Ho | exact Hs]|].
        split; [intros n Hn; now apply write_file_other|].
        intros _. eexists. apply write_file_same.
      * assert (Hne : msgs <> []) by (intros E; apply Hs in E; discriminate E).
        destruct (can_remove (generate_new_filename arg FILE_MACRO)).
        -- unfold ret in H. injection H as <- <- <-.
           split; [exists msgs; split; [exact Ho | split; [discriminate | contradiction]]|].
           split; [|discriminate].
           intros n Hn. rewrite remove_file_other by exact Hn. now apply write_file_other.
        -- apply bind_inv in H as ([] & st2 & Hp & H).
           rewrite print_error_run in Hp. injection Hp as <-.
           unfold ret in H. injection H as <- <- <-.
           split; [|split; [intros n Hn; now apply write_file_other | discriminate]].
           eexists. split; [simpl; rewrite Ho, <- app_assoc; reflexivity|].
           split; [discriminate|]. intros E. now apply app_eq_nil in E as [_ E].
  - apply bind_inv in H as ([] & st1 & Hp & H).
    rewrite print_error_run in Hp. injection Hp as <-.
    unfold ret in H. injection H as <- <- <-.
    split; [eexists; split; [reflexivity | split; discriminate]|].
    split; [reflexivity | discriminate].
Qed.

Lemma create_ob_file_loop_fields n : forall i st st',
  ic st' = ic st -> code st' = code st -> data st' = data st ->
  create_ob_file_loop n i st' = create_ob_file_loop n i st.
Proof.
  induction n as [|n IH]; intros i st st' Hi Hc Hd; [reflexivity|].
  cbn [create_ob_file_loop]. rewrite Hi, Hc, Hd, (IH (i + 1) st st') by assumption.
  reflexivity.
Qed.

Lemma create_ob_file_fields st st' :
  ic st' = ic st -> dc st' = dc st -> code st' = code st -> data st' = data st ->
  create_ob_file st' = create_ob_file st.
Proof.
  intros Hi Hd Hc Hda. unfold create_ob_file.
  now rewrite Hi, Hd, (create_ob_file_loop_fields _ _ st st').
Qed.

Lemma written_run text st t st' : written text st = Some (t, st') -> text st = Some t /\ st' = st.
Proof. unfold written. destruct (text st); [|discriminate]. now intros [= <- <-]. Qed.

Lemma create_output_files_effect can_create arg st go written_files st' :
  create_output_files can_create arg st = Some ((go, written_files), st') ->
  Forall (fun f => exists t, output_type t /\ fst f = generate_new_filename arg t)
    written_files /\
  ((forall f, can_create f = true) ->
   st' = st /\ go = true /\
   exists ob rest,
     create_ob_file st = Some ob /\
     written_files = (generate_new_filename arg FILE_OBJECT, ob) :: rest /\
     Forall (fun f => generate_new_filename arg FILE_OBJECT <> fst f) rest).
Proof.
  assert (Tob : exists t, output_type t /\
                  generate_new_filename arg FILE_OBJECT = generate_new_filename arg t)
    by (exists FILE_OBJECT; unfold output_type; auto).
  assert (Tent : exists t, output_type t /\
                   generate_new_filename arg FILE_ENTRIES = generate_new_filename arg t)
    by (exists FILE_ENTRIES; unfold output_type; auto).
  assert (Text : exists t, output_type t /\
                   generate_new_filename arg FILE_EXTERNALS = generate_new_filename arg t)
    by (exists FILE_EXTERNALS; unfold output_type; auto).
  assert (Noe : generate_new_filename arg FILE_OBJECT <> generate_new_filename arg FILE_ENTRIES)
    by (intros E; apply generate_new_filename_inj in E; discriminate E).
  assert (Nox : generate_new_filename arg FILE_OBJECT <> generate_new_filename arg FILE_EXTERNALS)
    by (intros E; apply generate_new_filename_inj in E; discriminate E).
  unfold create_output_files. cbv zeta. intros H.
  destruct (can_create (generate_new_filename arg FILE_OBJECT)) eqn:Cob; cbn [negb] in H.
  2:{ apply bind_inv in H as ([] & st1 & Hp & H). unfold ret in H. injection H as <- <- <-.
      split; [constructor|]. intros Hall. rewrite Hall in Cob. discriminate Cob. }
  apply bind_inv in H as (ob & st1 & Hw & H). apply written_run in Hw as (Hob & ->).
  apply bind_inv in H as (entry & st1 & Hg & H). minv Hg.
  apply bind_inv in H as ([go1 files1] & st1 & He & H). cbn [fst snd] in H.
  assert (He' : Forall (fun f => exists t, output_type t /\
                                  fst f = generate_new_filename arg t) files1 /\
                ((forall f, can_create f = true) ->
                 st1 = st /\ go1 = true /\
                 exists rest, files1 = (generate_new_filename arg FILE_OBJECT, ob) :: rest /\
                   Forall (fun f => generate_new_filename arg FILE_OBJECT <> fst f) rest)).
  { destruct (is_entry_exists st).
    - destruct (can_create (generate_new_filename arg FILE_ENTRIES)) eqn:Cent;
        cbn [negb] in He.
      + apply bind_inv in He as (ent & st2 & Hw & He). apply written_run in Hw as (_ & ->).
        unfold ret in He. injection He as <- <- <-.
        split; [repeat constructor; assumption|].
        intros _. split; [reflexivity|]. split; [reflexivity|].
        eexists. split; [reflexivity|]. repeat constructor. exact Noe.
      + apply bind_inv in He as ([] & st2 & Hp & He). unfold ret in He.
        injection He as <- <- <-. split; [repeat constructor; assumption|].
        intros Hall. rewrite Hall in Cent. discriminate Cent.
    - unfold ret in He. injection He as <- <- <-.
      split; [repeat constructor; assumption|].
      intros _. split; [reflexivity|]. split; [reflexivity|].
      eexists. split; [reflexivity|]. constructor. }
  destruct He' as [Hn1 Hall1].
  destruct go1; cbn [negb] in H.
  2:{ unfold ret in H. injection H as <- <- <-. split; [exact Hn1|].
      intros Hall. destruct (Hall1 Hall) as (_ & Hgo & _). discriminate Hgo. }
  apply bind_inv in H as (extern & st2 & Hg & H). minv Hg.
  destruct (is_extern_exists st1).
  - destruct (can_create (generate_new_filename arg FILE_EXTERNALS)) eqn:Cext;
      cbn [negb] in H.
    + apply bind_inv in H as (ext & st2 & Hw & H). apply written_run in Hw as (_ & ->).
      unfold ret in H. injection H as <- <- <-.
      split; [apply Forall_app; split; [exact Hn1 | repeat constructor; assumption]|].
      intros Hall. destruct (Hall1 Hall) as (-> & _ & rest & -> & Hrest).
      split; [reflexivity|]. split; [reflexivity|].
      exists ob, (rest ++ [(generate_new_filename arg FILE_EXTERNALS, ext)])%list.
      split; [exact Hob|]. split; [reflexivity|].
      apply Forall_app. split; [exact Hrest | repeat constructor; exact Nox].
    + apply bind_inv in H as ([] & st2 & Hp & H). unfold ret in H.
      injection H as <- <- <-. split; [exact Hn1|].
      intros Hall. rewrite Hall in Cext. discriminate Cext.
  - unfold ret in H. injection H as <- <- <-. split; [exact Hn1|].
    intros Hall. destruct (Hall1 Hall) as (-> & _ & rest & -> & Hrest).
    split; [reflexivity|]. split; [reflexivity|].
    exists ob, rest. auto.
Qed.

Lemma first_process_file_run fs arg am :
  fs (generate_new_filename arg FILE_MACRO) = Some am ->
  first_process_file fs arg = first_process am.
Proof. unfold first_process_file. now intros ->. Qed.

Lemma second_process_file_run fs arg am :
  fs (generate_new_filename arg FILE_MACRO) = Some am ->
  second_process_file fs arg = second_process am.
Proof. unfold second_process_file. now intros ->. Qed.

Lemma output_not_macro arg t :
  output_type t -> generate_new_filename arg t <> generate_new_filename arg FILE_MACRO.
Proof.
  intros Ht E. apply generate_new_filename_inj in E. subst t.
  destruct Ht as [H|[H|H]]; discriminate H.
Qed.

(** The stages of a turn that the preprocessor let through. *)
Lemma main_turn_stages can_create can_remove arg fs st go fs' st' :
  main_turn can_create can_remove arg fs st = Some ((go, fs'), st') ->
  exists ok fs1 st1,
    pre_process_file can_create can_remove fs arg st = Some ((ok, fs1), st1) /\
    (ok = false ->
     go = true /\ fs' = fs1 /\ st' = log [(line_num st1, MCR_EXP_FAILED)] st1) /\
    (ok = true ->
     exists am e1 st2 st3 e2 st4,
       fs1 (generate_new_filename arg FILE_MACRO) = Some am /\
       first_process am st1 = Some (e1, st2) /\
       st3 = (if e1 then log [(line_num st2, FIRST_PASS_FAILED)] st2 else st2) /\
       second_process am st3 = Some (e2, st4) /\
       (e2 = true ->
        go = true /\ fs' = fs1 /\ st' = log [(line_num st4, SECOND_PASS_FAILED)] st4) /\
       (e2 = false -> e1 = true ->
        go = true /\ fs' = fs1 /\ st' = set_ext_table [] (set_symbol_table [] st4)) /\
       (e2 = false -> e1 = false ->
        exists go1 written_files st5,
          create_output_files can_create arg st4 = Some ((go1, written_files), st5) /\
          go = go1 /\ fs' = write_files written_files fs1 /\
          st' = if go1 then set_ext_table [] (set_symbol_table [] st5) else st5)).
Proof.
  unfold main_turn. cbv zeta. intros H.
  apply bind_inv in H as ([ok fs1] & st1 & Hpre & H). cbn [fst snd] in H.
  exists ok, fs1, st1. split; [exact Hpre|].
  destruct ok; cbn [negb] in H.
  - split; [discriminate|]. intros _.
    destruct (pre_process_file_effect _ _ _ _ _ _ _ _ Hpre) as (_ & _ & Ham).
    destruct (Ham eq_refl) as (am & Eam).
    rewrite (first_process_file_run _ _ _ Eam), (second_process_file_run _ _ _ Eam) in H.
    apply bind_inv in H as (e1 & st2 & H1 & H).
    apply bind_inv in H as (first_success & st3 & Hf & H).
    apply bind_inv in H as (e2 & st4 & H2 & H).
    exists am, e1, st2, st3, e2, st4.
    assert (Hst3 : st3 = (if e1 then log [(line_num st2, FIRST_PASS_FAILED)] st2 else st2)
                   /\ first_success = negb e1).
    { destruct e1.
      - apply bind_inv in Hf as ([] & st9 & Hp & Hf). rewrite print_error_run in Hp.
        injection Hp as <-. unfold ret in Hf. now injection Hf as <- <-.
      - unfold ret in Hf. now injection Hf as <- <-. }
    destruct Hst3 as [Hst3 ->].
    split; [exact Eam|]. split; [exact H1|]. split; [exact Hst3|]. split; [exact H2|].
    destruct e2.
    + apply bind_inv in H as ([] & st9 & Hp & H). rewrite print_error_run in Hp.
      injection Hp as <-. unfold ret in H. injection H as <- <- <-.
      split; [auto|]. split; discriminate.
    + split; [discriminate|].
      apply bind_inv in H as ([go1 written_files] & st5 & Hc & H). cbn [fst snd] in H.
      destruct e1; cbn [negb andb] in Hc.
      * unfold ret in Hc. injection Hc as <- <- <-. cbn [negb] in H.
        apply bind_inv in H as ([] & st6 & Hm & H). minv Hm.
        apply bind_inv in H as ([] & st7 & Hm & H). minv Hm.
        unfold ret in H. injection H as <- <- <-.
        split; [auto|]. discriminate.
      * split; [discriminate|]. intros _ _.
        exists go1, written_files, st5. split; [exact Hc|].
        destruct go1; cbn [negb] in H.
        -- apply bind_inv in H as ([] & st6 & Hm & H). minv Hm.
           apply bind_inv in H as ([] & st7 & Hm & H). minv Hm.
           unfold ret in H. injection H as <- <- <-. auto.
        -- unfold ret in H. injection H as <- <- <-. auto.
  - split; [|discriminate]. intros _.
    apply bind_inv in H as ([] & st9 & Hp & H). rewrite print_error_run in Hp.
    injection Hp as <-. unfold ret in H. injection H as <- <- <-. auto.
Qed.

Lemma match_nonempty {A} (l : list A) (P Q : Prop) :
  l <> [] -> Q -> match l with [] => P | _ :: _ => Q end.
Proof. destruct l; [contradiction | auto]. Qed.

(** X28. A turn of the loop of [main], where each file can be created,
    ends without [exit] and only adds messages to the output.  If it
    printed nothing, the object file of the argument holds the text of
    [create_ob_file] for the final counters and arrays; if it printed
    anything, the object, entries and externals files of the argument are
    as they were before the turn. *)
Theorem main_turn_object_file
    (can_create can_remove : string -> bool) (arg : string) (fs fs' : files)
    (st st' : state) (go : bool) :
  (forall f, can_create f = true) ->
  main_turn can_create can_remove arg fs st = Some ((go, fs'), st') ->
  go = true /\
  exists msgs,
    out st' = (out st ++ msgs)%list /\
    match msgs with
    | [] =>
        create_ob_file st' <> None /\
        fs' (generate_new_filename arg FILE_OBJECT) = create_ob_file st'
    | _ :: _ =>
        forall t, output_type t ->
                  fs' (generate_new_filename arg t) = fs (generate_new_filename arg t)
    end.
Proof.
  intros Hall H.
  apply main_turn_stages in H as (ok & fs1 & st1 & Hpre & Hfail & Hok).
  apply pre_process_file_effect in Hpre as ((m0 & O0 & S0) & Hfs & _).
  assert (Hkeep : forall t, output_type t ->
                    fs1 (generate_new_filename arg t) = fs (generate_new_filename arg t)).
  { intros t Ht. apply Hfs. now apply output_not_macro. }
  destruct ok.
  - destruct (Hok eq_refl)
      as (am & e1 & st2 & st3 & e2 & st4 & Eam & H1 & E3 & H2 & Hs2 & Hs1 & Hs0).
    clear Hfail Hok. rewrite (proj1 S0 eq_refl), app_nil_r in O0.
    pose proof (first_process_emits _ _ _ _ H1) as (_ & m1 & O1 & _ & S1).
    pose proof (second_process_emits _ _ _ _ H2) as (_ & m2 & O2 & _).
    destruct e2.
    + destruct (Hs2 eq_refl) as (-> & -> & ->). split; [reflexivity|].
      exists ((if e1 then m1 ++ [(line_num st2, FIRST_PASS_FAILED)] else m1) ++ m2 ++
              [(line_num st4, SECOND_PASS_FAILED)])%list.
      split.
      * cbn [out log set_out]. rewrite O2, E3, <- O0.
        destruct e1; cbn [out log set_out]; rewrite O1, <- ?app_assoc; reflexivity.
      * apply match_nonempty; [|exact Hkeep].
        intros E. apply app_eq_nil in E as [_ E]. now apply app_eq_nil in E as [_ E].
    + destruct e1.
      * destruct (Hs1 eq_refl eq_refl) as (-> & -> & ->). split; [reflexivity|].
        exists (m1 ++ [(line_num st2, FIRST_PASS_FAILED)] ++ m2)%list.
        split.
        -- cbn [out set_ext_table set_symbol_table]. rewrite O2, E3, <- O0.
           cbn [out log set_out]. rewrite O1, <- ?app_assoc. reflexivity.
        -- apply match_nonempty; [|exact Hkeep].
           intros E. apply app_eq_nil in E as [_ E]. discriminate E.
      * destruct (Hs0 eq_refl eq_refl) as (go1 & written_files & st5 & Hc & -> & -> & ->).
        subst st3.
        apply create_output_files_effect in Hc as (_ & Hc).
        destruct (Hc Hall) as (-> & -> & ob & rest & Hob & -> & Hrest).
        split; [reflexivity|]. exists [].
        split.
        -- cbn [out set_ext_table set_symbol_table]. rewrite app_nil_r, <- O0.
           eapply two_passes_silent; eassumption.
        -- rewrite (create_ob_file_fields st4) by reflexivity. rewrite Hob.
           split; [discriminate|].
           unfold write_files. cbn [fold_left fst snd].
           fold (write_files rest
                   (write_file (generate_new_filename arg FILE_OBJECT) ob fs1)).
           rewrite write_files_other by exact Hrest. apply write_file_same.
  - destruct (Hfail eq_refl) as (-> & -> & ->). split; [reflexivity|].
    exists (m0 ++ [(line_num st1, MCR_EXP_FAILED)])%list.
    split; [cbn [out log set_out]; now rewrite O0, app_assoc|].
    apply match_nonempty; [|exact Hkeep].
    intros E. apply app_eq_nil in E as [_ E]. discriminate E.
Qed.

Lemma main_turn_frame can_create can_remove arg fs st go fs' st' :
  main_turn can_create can_remove arg fs st = Some ((go, fs'), st') ->
  forall n, (forall t, t <> FILE_SOURCE -> n <> generate_new_filename arg t) ->
            fs' n = fs n.
Proof.
  intros H n Hn.
  apply main_turn_stages in H as (ok & fs1 & st1 & Hpre & Hfail & Hok).
  apply pre_process_file_effect in Hpre as (_ & Hfs & _).
  assert (H1 : fs1 n = fs n) by (apply Hfs, Hn; discriminate).
  destruct ok.
  - destruct (Hok eq_refl)
      as (am & e1 & st2 & st3 & e2 & st4 & _ & _ & _ & _ & Hs2 & Hs1 & Hs0).
    destruct e2; [destruct (Hs2 eq_refl) as (_ & -> & _); exact H1|].
    destruct e1; [destruct (Hs1 eq_refl eq_refl) as (_ & -> & _); exact H1|].
    destruct (Hs0 eq_refl eq_refl) as (go1 & written_files & st5 & Hc & _ & -> & _).
    apply create_output_files_effect in Hc as (Hnames & _).
    rewrite write_files_other; [exact H1|].
    eapply Forall_impl; [exact Hnames|].
    intros f (t & Ht & ->). apply Hn. destruct Ht as [->|[->| ->]]; discriminate.
  - destruct (Hfail eq_refl) as (_ & -> & _). exact H1.
Qed.

Lemma main_loop_frame can_create can_remove args : forall fs st code fs' st',
  main_loop can_create can_remove args fs st = Some ((code, fs'), st') ->
  forall n,
    (forall arg t, In arg args -> t <> FILE_SOURCE -> n <> generate_new_filename arg t) ->
    fs' n = fs n.
Proof.
  induction args as [|arg rest IH]; intros fs st code fs' st' H n Hn.
  - simpl in H. unfold ret in H. now injection H as _ <- _.
  - simpl in H. apply bind_inv in H as ([go fs1] & st1 & Ht & H). cbn [fst snd] in H.
    apply main_turn_frame with (n := n) in Ht;
      [|intros t Ht'; apply Hn; [now left | exact Ht']].
    destruct go.
    + rewrite <- Ht. eapply IH; [exact H|].
      intros a t Ha. apply Hn. now right.
    + unfold ret in H. injection H as _ <- _. exact Ht.
Qed.

(** X29. [main] changes no file but the expanded file, the object file,
    the entries file and the externals file of its arguments: every other
    file, and so every source file that does not bear such a name, is
    after the run what it was before. *)
Theorem main_touches_own_files
    (can_create can_remove : string -> bool) (args : list string) (fs fs' : files)
    (st st' : state) (status : Z) :
  main can_create can_remove args fs st = Some ((status, fs'), st') ->
  forall n,
    (forall arg t, In arg args -> t <> FILE_SOURCE -> n <> generate_new_filename arg t) ->
    fs' n = fs n.
Proof.
  unfold main. intros H n Hn. destruct args as [|arg rest].
  - apply bind_inv in H as ([] & st1 & _ & H). unfold ret in H. now injection H as _ <- _.
  - eapply main_loop_frame; [exact H | exact Hn].
Qed.

Lemma main_loop_status can_create can_remove args : forall fs st status fs' st',
  (forall f, can_create f = true) ->
  main_loop can_create can_remove args fs st = Some ((status, fs'), st') ->
  status = 0.
Proof.
  induction args as [|arg rest IH]; intros fs st status fs' st' Hall H.
  - simpl in H. unfold ret in H. now injection H as <- _ _.
  - simpl in H. apply bind_inv in H as ([go fs1] & st1 & Ht & H). cbn [fst snd] in H.
    assert (go = true) as ->.
    { apply main_turn_stages in Ht as (ok & fs2 & st2 & _ & Hfail & Hok).
      destruct ok.
      - destruct (Hok eq_refl)
          as (am & e1 & s2 & s3 & e2 & s4 & _ & _ & _ & _ & Hs2 & Hs1 & Hs0).
        destruct e2; [now destruct (Hs2 eq_refl)|].
        destruct e1; [now destruct (Hs1 eq_refl eq_refl)|].
        destruct (Hs0 eq_refl eq_refl) as (go1 & wf & s5 & Hc & -> & _).
        apply create_output_files_effect in Hc as (_ & Hc).
        now destruct (Hc Hall) as (_ & -> & _).
      - now destruct (Hfail eq_refl). }
    eapply IH; eassumption.
Qed.

(** X30. Where each file can be created, a run of [main] that returns,
    returns 1 when no argument is given and 0 otherwise: a message printed
    on the way, for a source file that does not open or for a stage that
    failed, does not change the status.  The statement is about the runs
    that return; a run in which a stage has no defined behaviour is not
    one. *)
Theorem main_exit_status
    (can_create can_remove : string -> bool) (args : list string) (fs fs' : files)
    (st st' : state) (status : Z) :
  (forall f, can_create f = true) ->
  main can_create can_remove args fs st = Some ((status, fs'), st') ->
  status = match args with [] => 1 | _ :: _ => 0 end.
Proof.
  unfold main. intros Hall H. destruct args as [|arg rest].
  - apply bind_inv in H as ([] & st1 & _ & H). unfold ret in H. now injection H as <- _ _.
  - eapply main_loop_status; eassumption.
Qed.

(** [pre_process_file] on a source file that opens, where the expanded file
    can be created and removed: the value and the expanded file of
    [pre_process] on the content of the source file. *)
Lemma pre_process_file_content can_create can_remove fs arg as_file st ok am st' :
  fs (generate_new_filename arg FILE_SOURCE) = Some as_file ->
  can_create (generate_new_filename arg FILE_MACRO) = true ->
  can_remove (generate_new_filename arg FILE_MACRO) = true ->
  pre_process as_file st = Some ((ok, am), st') ->
  exists fs',
    pre_process_file can_create can_remove fs arg st = Some ((ok, fs'), st') /\
    fs' (generate_new_filename arg FILE_MACRO) = am.
Proof.
  intros Hsrc Hc Hr H. unfold pre_process in H. unfold pre_process_file. cbv zeta.
  apply bind_inv in H as ([] & st1 & Hm & H). rewrite (bind_run _ _ _ _ _ Hm).
  rewrite Hsrc, Hc, Hr. cbn [negb].
  apply bind_inv in H as ([success ps] & st2 & Hl & H). rewrite (bind_run _ _ _ _ _ Hl).
  cbn [fst snd]. destruct success; unfold ret in H |- *; injection H as <- <- <-.
  - eexists. split; [reflexivity | apply write_file_same].
  - eexists. split; [reflexivity|]. unfold remove_file, streq.
    now rewrite String.eqb_refl.
Qed.

(** ** The further properties on sample inputs *)

Lemma parse_line_messages_witness :
  parse_line sample_unknown initial_state
    = Some (false, run_state (parse_line sample_unknown initial_state)) /\
  line_num (run_state (parse_line sample_unknown initial_state)) = line_num initial_state /\
  exists msgs,
    out (run_state (parse_line sample_unknown initial_state))
      = (out initial_state ++ msgs)%list /\
    Forall (fun m => fst m = line_num initial_state) msgs /\
    (false = true <-> msgs = []).
Proof.
  assert (H1 : parse_line sample_unknown initial_state
               = Some (false, run_state (parse_line sample_unknown initial_state)))
    by (vm_compute; reflexivity).
  split; [exact H1|].
  exact (parse_line_messages _ _ _ _ H1).
Defined.

Lemma first_process_messages_witness :
  first_process sample_program initial_state = Some (false, after_first sample_program) /\
  line_num (after_first sample_program)
    = 1 + Z.of_nat (length (file_lines sample_program)) /\
  exists msgs,
    out (after_first sample_program) = (out initial_state ++ msgs)%list /\
    Forall (fun m => 1 <= fst m <= Z.of_nat (length (file_lines sample_program))) msgs /\
    (false = false <-> msgs = []).
Proof.
  assert (H1 : first_process sample_program initial_state
               = Some (false, after_first sample_program))
    by (vm_compute; reflexivity).
  split; [exact H1|].
  exact (first_process_messages _ _ _ _ H1).
Defined.

Lemma first_pass_table_witness :
  first_process sample_extern_program initial_state
    = Some (false, after_first sample_extern_program) /\
  NoDup (map name (symbol_table (after_first sample_extern_program))) /\
  Forall (fun s => is_ent s = false) (symbol_table (after_first sample_extern_program)) /\
  is_entry_exists (after_first sample_extern_program) = false /\
  (is_extern_exists (after_first sample_extern_program) = true <->
   Exists (fun s => is_ext s = true) (symbol_table (after_first sample_extern_program))).
Proof.
  assert (H1 : first_process sample_extern_program initial_state
               = Some (false, after_first sample_extern_program))
    by (vm_compute; reflexivity).
  split; [exact H1|].
  exact (first_pass_table _ _ _ _ H1).
Defined.

Lemma label_definition_witness :
  parse_line sample_mov initial_state
    = Some (true, run_state (parse_line sample_mov initial_state)) /\
  has_label sample_mov = true /\
  lookup_symbol (symbol_table initial_state) "MAIN" = None /\
  lookup_symbol (symbol_table (run_state (parse_line sample_mov initial_state))) "MAIN"
    = Some (mk_symbol "MAIN" (to_uint (ic initial_state)) (Some INSTRUCTION) false false).
Proof.
  assert (H1 : parse_line sample_mov initial_state
               = Some (true, run_state (parse_line sample_mov initial_state)))
    by (vm_compute; reflexivity).
  assert (H2 : has_label sample_mov = true) by (vm_compute; reflexivity).
  split; [exact H1|]. split; [exact H2|].
  exact (label_definition _ _ _ H1 H2).
Defined.

Lemma second_process_keeps_witness :
  Z.of_nat (length (code (after_first sample_entry_program))) = MEM_SIZE /\
  second_process sample_entry_program (after_first sample_entry_program)
    = Some (false, after_second sample_entry_program) /\
  data (after_second sample_entry_program) = data (after_first sample_entry_program) /\
  dc (after_second sample_entry_program) = dc (after_first sample_entry_program) /\
  is_extern_exists (after_second sample_entry_program)
    = is_extern_exists (after_first sample_entry_program) /\
  length (code (after_second sample_entry_program))
    = length (code (after_first sample_entry_program)) /\
  0 <= ic (after_second sample_entry_program) /\
  Forall2 (fun s s' => name s' = name s /\ address s' = address s /\
                       type s' = type s /\ is_ext s' = is_ext s /\
                       (is_ent s = true -> is_ent s' = true))
    (symbol_table (after_first sample_entry_program))
    (symbol_table (after_second sample_entry_program)).
Proof.
  assert (H1 : Z.of_nat (length (code (after_first sample_entry_program))) = MEM_SIZE)
    by (vm_compute; reflexivity).
  assert (H2 : second_process sample_entry_program (after_first sample_entry_program)
               = Some (false, after_second sample_entry_program))
    by (vm_compute; reflexivity).
  split; [exact H1|]. split; [exact H2|].
  exact (second_process_keeps _ _ _ _ H1 H2).
Defined.

Lemma externals_table_records_witness :
  Z.of_nat (length (code (after_first sample_entry_program))) = MEM_SIZE /\
  second_process sample_entry_program (after_first sample_entry_program)
    = Some (false, after_second sample_entry_program) /\
  Forall (fun e =>
            is_extern_symbol (symbol_table (after_second sample_entry_program))
              (ext_name e) = true /\
            MEM_START <= ext_address e
            < MEM_START + ic (after_second sample_entry_program) /\
            exists w,
              code (after_second sample_entry_program)
                !! Z.to_nat (ext_address e - MEM_START) = Some w /\
              extract_bits w 0 (ARE_BITS - 1) = are_val EXTERNAL)
    (ext_table (after_second sample_entry_program)).
Proof.
  assert (H1 : Z.of_nat (length (code (after_first sample_entry_program))) = MEM_SIZE)
    by (vm_compute; reflexivity).
  assert (H2 : second_process sample_entry_program (after_first sample_entry_program)
               = Some (false, after_second sample_entry_program))
    by (vm_compute; reflexivity).
  split; [exact H1|]. split; [exact H2|].
  exact (externals_table_records _ _ _ _ H1 H2).
Defined.

Lemma flags_after_passes_witness :
  arrays_ok initial_state /\
  first_process sample_entry_program initial_state
    = Some (false, after_first sample_entry_program) /\
  second_process sample_entry_program (after_first sample_entry_program)
    = Some (false, after_second sample_entry_program) /\
  (is_entry_exists (after_second sample_entry_program) = true <->
   Exists (fun s => is_ent s = true) (symbol_table (after_second sample_entry_program))) /\
  (is_extern_exists (after_second sample_entry_program) = true <->
   Exists (fun s => is_ext s = true) (symbol_table (after_second sample_entry_program))).
Proof.
  assert (H0 : arrays_ok initial_state) by (split; reflexivity).
  assert (H1 : first_process sample_entry_program initial_state
               = Some (false, after_first sample_entry_program))
    by (vm_compute; reflexivity).
  assert (H2 : second_process sample_entry_program (after_first sample_entry_program)
               = Some (false, after_second sample_entry_program))
    by (vm_compute; reflexivity).
  split; [exact H0|]. split; [exact H1|]. split; [exact H2|].
  exact (flags_after_passes _ _ _ _ _ _ H0 H1 H2).
Defined.

Lemma passes_agree_on_ic_witness :
  arrays_ok initial_state /\
  first_process sample_program initial_state = Some (false, after_first sample_program) /\
  second_process sample_program (after_first sample_program)
    = Some (false, after_second sample_program) /\
  ic (after_second sample_program) = ic (after_first sample_program).
Proof.
  assert (H0 : arrays_ok initial_state) by (split; reflexivity).
  assert (H1 : first_process sample_program initial_state
               = Some (false, after_first sample_program))
    by (vm_compute; reflexivity).
  assert (H2 : second_process sample_program (after_first sample_program)
               = Some (false, after_second sample_program))
    by (vm_compute; reflexivity).
  split; [exact H0|]. split; [exact H1|]. split; [exact H2|].
  exact (passes_agree_on_ic _ _ _ _ _ H0 H1 H2).
Defined.

Lemma macro_definition_absorbed_witness :
  macro_name_rules "INIT" /\
  pre_process_lines (sample_macro_line :: sample_macro_body ++ sample_macro_end :: [])
    pre_start initial_state
  = pre_process_lines []
      (mk_pre_state (macro_table pre_start ++ [mk_mcr "INIT" sample_macro_body])
         None false (extended_src pre_start))
      (set_line_num (line_num initial_state + 2 + Z.of_nat (length sample_macro_body))
         initial_state).
Proof.
  assert (H : macro_name_rules "INIT")
    by (unfold macro_name_rules; vm_compute; intuition congruence).
  split; [exact H|].
  apply (macro_definition_absorbed sample_macro_line sample_macro_end "INIT" "").
  - reflexivity.
  - vm_compute; reflexivity.
  - vm_compute; reflexivity.
  - vm_compute; reflexivity.
  - exact H.
  - repeat constructor.
  - vm_compute; reflexivity.
  - vm_compute; reflexivity.
Defined.


Lemma create_ob_file_layout_witness :
  0 <= ic (after_second sample_program)
    <= Z.of_nat (length (code (after_second sample_program))) /\
  0 <= dc (after_second sample_program)
    <= Z.of_nat (length (data (after_second sample_program))) /\
  exists encoded,
    Forall2 (fun w e => convert_to_base64 w = Some e)
      (code_segment (after_second sample_program) ++
       data_segment (after_second sample_program))%list encoded /\
    create_ob_file (after_second sample_program) =
    Some (print_int (ic (after_second sample_program)) ++ TABS ++
          print_int (dc (after_second sample_program)) ++ EOL ++
          concat_lines (map (fun e => e ++ EOL) encoded)) /\
    Z.of_nat (length encoded)
      = ic (after_second sample_program) + dc (after_second sample_program).
Proof.
  assert (H1 : 0 <= ic (after_second sample_program)
               <= Z.of_nat (length (code (after_second sample_program))))
    by (split; vm_compute; discriminate).
  assert (H2 : 0 <= dc (after_second sample_program)
               <= Z.of_nat (length (data (after_second sample_program))))
    by (split; vm_compute; discriminate).
  split; [exact H1|]. split; [exact H2|].
  exact (create_ob_file_layout _ H1 H2).
Defined.

Lemma create_ent_ext_files_witness :
  Forall (fun s => is_ent s = true -> address s <= INT_MAX) sample_entries /\
  Forall (fun e => ext_address e <= INT_MAX) sample_externals /\
  create_ent_file sample_entries =
  Some (concat_lines
          (map (fun s => name s ++ TABS ++ print_int (address s) ++ EOL)
             (List.filter is_ent sample_entries))) /\
  create_ext_file sample_externals =
  Some (concat_lines
          (map (fun e => ext_name e ++ TABS ++ print_int (ext_address e) ++ EOL)
             sample_externals)).
Proof.
  assert (H1 : Forall (fun s => is_ent s = true -> address s <= INT_MAX) sample_entries)
    by (repeat constructor; intros _; vm_compute; discriminate).
  assert (H2 : Forall (fun e => ext_address e <= INT_MAX) sample_externals)
    by (repeat constructor; vm_compute; discriminate).
  split; [exact H1|]. split; [exact H2|].
  exact (create_ent_ext_files _ _ H1 H2).
Defined.

Lemma success_is_silent_witness :
  first_process sample_program initial_state = Some (false, after_first sample_program) /\
  second_process sample_program (after_first sample_program)
    = Some (false, after_second sample_program) /\
  out (after_second sample_program) = out initial_state.
Proof.
  assert (H1 : first_process sample_program initial_state
               = Some (false, after_first sample_program))
    by (vm_compute; reflexivity).
  assert (H2 : second_process sample_program (after_first sample_program)
               = Some (false, after_second sample_program))
    by (vm_compute; reflexivity).
  split; [exact H1|]. split; [exact H2|].
  exact (success_is_silent _ _ _ _ H1 H2).
Defined.

Lemma parse_line_defined_witness :
  ascii_only sample_mov = true /\
  (String.length sample_mov < MAX_LINE_LEN)%nat /\
  should_ignore sample_mov = false /\
  strlen (first_token sample_mov) <= MAX_SYMBOL_LEN /\
  strlen (operand_text sample_mov) < MAX_OPERAND_LEN /\
  find_directive (keyword sample_mov) <> DATA /\
  0 <= ic initial_state < Z.of_nat (length (code initial_state)) /\
  0 <= dc initial_state /\
  dc initial_state + Z.of_nat (String.length sample_mov)
    <= Z.of_nat (length (data initial_state)) /\
  exists b st', parse_line sample_mov initial_state = Some (b, st').
Proof.
  assert (H0 : ascii_only sample_mov = true) by (vm_compute; reflexivity).
  assert (Hl : (String.length sample_mov < MAX_LINE_LEN)%nat) by (vm_compute; lia).
  assert (H1 : should_ignore sample_mov = false) by (vm_compute; reflexivity).
  assert (H2 : strlen (first_token sample_mov) <= MAX_SYMBOL_LEN)
    by (vm_compute; discriminate).
  assert (H3 : strlen (operand_text sample_mov) < MAX_OPERAND_LEN)
    by (vm_compute; reflexivity).
  assert (H4 : find_directive (keyword sample_mov) <> DATA)
    by (vm_compute; discriminate).
  assert (H5 : 0 <= ic initial_state < Z.of_nat (length (code initial_state)))
    by (split; vm_compute; [discriminate | reflexivity]).
  assert (H6 : 0 <= dc initial_state) by (vm_compute; discriminate).
  assert (H7 : dc initial_state + Z.of_nat (String.length sample_mov)
               <= Z.of_nat (length (data initial_state)))
    by (vm_compute; discriminate).
  split; [exact H0|]. split; [exact Hl|]. split; [exact H1|]. split; [exact H2|].
  split; [exact H3|]. split; [exact H4|]. split; [exact H5|]. split; [exact H6|].
  split; [exact H7|].
  exact (parse_line_defined _ _ H0 Hl H1 H2 H3 H4 H5 H6 H7).
Defined.

Lemma output_files_after_passes_witness :
  arrays_ok initial_state /\
  first_process sample_entry_program initial_state
    = Some (false, after_first sample_entry_program) /\
  second_process sample_entry_program (after_first sample_entry_program)
    = Some (false, after_second sample_entry_program) /\
  ic (after_second sample_entry_program) <= MEM_SIZE /\
  exists ob ent ext,
    create_ob_file (after_second sample_entry_program) = Some ob /\
    create_ent_file (symbol_table (after_second sample_entry_program)) = Some ent /\
    create_ext_file (ext_table (after_second sample_entry_program)) = Some ext /\
    create_output_files every_file "prog" (after_second sample_entry_program) =
    Some ((true,
           ([(generate_new_filename "prog" FILE_OBJECT, ob)] ++
            (if existsb is_ent (symbol_table (after_second sample_entry_program))
             then [(generate_new_filename "prog" FILE_ENTRIES, ent)]
             else []) ++
            (if existsb is_ext (symbol_table (after_second sample_entry_program))
             then [(generate_new_filename "prog" FILE_EXTERNALS, ext)]
             else []))%list),
          after_second sample_entry_program).
Proof.
  assert (H0 : arrays_ok initial_state) by (split; reflexivity).
  assert (H1 : first_process sample_entry_program initial_state
               = Some (false, after_first sample_entry_program))
    by (vm_compute; reflexivity).
  assert (H2 : second_process sample_entry_program (after_first sample_entry_program)
               = Some (false, after_second sample_entry_program))
    by (vm_compute; reflexivity).
  assert (H3 : ic (after_second sample_entry_program) <= MEM_SIZE)
    by (vm_compute; discriminate).
  split; [exact H0|]. split; [exact H1|]. split; [exact H2|]. split; [exact H3|].
  exact (output_files_after_passes every_file "prog" _ _ _ _ _ _ H0 H1 H2 H3
           (fun _ => eq_refl)).
Defined.

Lemma main_turn_object_file_witness :
  main_turn every_file every_file "prog" sample_files initial_state
    = Some ((true,
             snd (run_value (true, sample_files)
                    (main_turn every_file every_file "prog" sample_files initial_state))),
            run_state (main_turn every_file every_file "prog" sample_files initial_state)) /\
  true = true /\
  exists msgs,
    out (run_state (main_turn every_file every_file "prog" sample_files initial_state))
      = (out initial_state ++ msgs)%list /\
    match msgs with
    | [] =>
        create_ob_file
          (run_state (main_turn every_file every_file "prog" sample_files initial_state))
          <> None /\
        snd (run_value (true, sample_files)
               (main_turn every_file every_file "prog" sample_files initial_state))
          (generate_new_filename "prog" FILE_OBJECT)
        = create_ob_file
            (run_state (main_turn every_file every_file "prog" sample_files initial_state))
    | _ :: _ =>
        forall t, output_type t ->
          snd (run_value (true, sample_files)
                 (main_turn every_file every_file "prog" sample_files initial_state))
            (generate_new_filename "prog" t)
          = sample_files (generate_new_filename "prog" t)
    end.
Proof.
  assert (H1 : main_turn every_file every_file "prog" sample_files initial_state
               = Some ((true,
                        snd (run_value (true, sample_files)
                               (main_turn every_file every_file "prog" sample_files
                                  initial_state))),
                       run_state (main_turn every_file every_file "prog" sample_files
                                    initial_state)))
    by (vm_compute; reflexivity).
  split; [exact H1|].
  exact (main_turn_object_file every_file every_file _ _ _ _ _ _ (fun _ => eq_refl) H1).
Defined.

Lemma main_touches_own_files_witness :
  main every_file every_file ["prog"] sample_files initial_state
    = Some ((0,
             snd (run_value (0, sample_files)
                    (main every_file every_file ["prog"] sample_files initial_state))),
            run_state (main every_file every_file ["prog"] sample_files initial_state)) /\
  forall n,
    (forall arg t, In arg ["prog"] -> t <> FILE_SOURCE ->
                   n <> generate_new_filename arg t) ->
    snd (run_value (0, sample_files)
           (main every_file every_file ["prog"] sample_files initial_state)) n
    = sample_files n.
Proof.
  assert (H1 : main every_file every_file ["prog"] sample_files initial_state
               = Some ((0,
                        snd (run_value (0, sample_files)
                               (main every_file every_file ["prog"] sample_files
                                  initial_state))),
                       run_state (main every_file every_file ["prog"] sample_files
                                    initial_state)))
    by (vm_compute; reflexivity).
  split; [exact H1|].
  exact (main_touches_own_files every_file every_file _ _ _ _ _ _ H1).
Defined.

Lemma main_exit_status_witness :
  main every_file every_file ["bad"; "absent"] sample_error_files initial_state
    = Some ((0,
             snd (run_value (0, sample_error_files)
                    (main every_file every_file ["bad"; "absent"] sample_error_files
                       initial_state))),
            run_state (main every_file every_file ["bad"; "absent"] sample_error_files
                         initial_state)) /\
  map snd (out (run_state (main every_file every_file ["bad"; "absent"]
                             sample_error_files initial_state)))
    = [UNDEFINED_OP_DIR; FIRST_PASS_FAILED; CANNOT_OPEN_FILE; MCR_EXP_FAILED] /\
  0 = match ["bad"; "absent"] with [] => 1 | _ :: _ => 0 end.
Proof.
  assert (H1 : main every_file every_file ["bad"; "absent"] sample_error_files
                 initial_state
               = Some ((0,
                        snd (run_value (0, sample_error_files)
                               (main every_file every_file ["bad"; "absent"]
                                  sample_error_files initial_state))),
                       run_state (main every_file every_file ["bad"; "absent"]
                                    sample_error_files initial_state)))
    by (vm_compute; reflexivity).
  split; [exact H1|]. split; [vm_compute; reflexivity|].
  exact (main_exit_status every_file every_file _ _ _ _ _ _ (fun _ => eq_refl) H1).
Defined.
